(* ===== verification/_CoqProject ===== *)
-Q . S2P
Prelude.v
Effects.v
Laws.v
Related.v
Monitor.v
Coro.v
Environment.v
Lock.v
Bounded.v
Cancel.v
Suspended.v
Schemas.v
Constants.v
Utils.v
Sms.v
Telegram.v
Email.v
Ghost.v
Lifecycle.v
Concurrent.v
Connections.v
Serialized.v
Server.v
Lossy.v
Interrupted.v
Timeouts.v
Interface.v
Batch.v
