(* ===== verification/Prelude.v ===== *)
(** * Verification of the notification service: shared prelude and overview

    ** The program

    The repository delivers outbound notifications over three channels.
    Its sources are under [src/src/notifications/]:

    - [core/schemas.py]: the records [SessionPool], [GmailEnvironments] and
      [BaseResponse], the uniform outcome of every send;
    - [core/utils.py]: [send_with_retries_mechanism], the retry dispatcher
      of the pooled HTTP channels (one POST per attempt, exponential
      backoff, client errors stop the loop);
    - [processors/email.py]: [GmailNotificationProcessor], the manager of a
      single reusable SMTP session ([_get_connection], [_reset_connection],
      [send], [close_session]);
    - [processors/sms.py], [processors/telegram.py]: thin adapters which
      build a payload and call the dispatcher;
    - [core/interface.py]: the abstract class [NotificationInterface] with
      the two operations [send] and [close_session];
    - [core/constants.py]: defaults read from the process environment,
      after [core/schemas.py] has loaded the file of variables
      [.env.test] into it.

    ** The development

    The library is a shallow embedding.  Python's effects are made explicit
    by a small monad; everything is executable, so concrete scenarios are
    checked by evaluation.  The files, in the order of their dependencies:

    - [Prelude] (this file): the scope [py_scope] with Python's [**], the
      chained comparison [between], the tactics and the hint databases of
      the development, the backoff schedule [backoff] with its arithmetic,
      and list lemmas shared by the components.
    - [Effects]: Python exceptions ([exn]), the environment as an oracle of
      replies, the monad [eff] (object state, the index of the next reply,
      the emitted trace of events), [try_except], the I/O primitive [call],
      [sleep], and the loop [for_range] with [break] and [return].  It also
      holds the well-formedness class [Lawful] (a program consumes exactly
      the replies it records in its trace) with one instance per
      combinator, so that type class resolution proves it of each method.
    - [Laws]: the equivalence [m ≡ m'] of programs that run alike, which
      sequencing, [try ... except] and the loops respect ([Proper]
      instances, for rewriting inside a method), and the laws of
      sequencing.
    - [Related]: the relation [eff_rel] between two programs whose runs
      differ in what the relations [Rop] on calls and [Rst] on objects
      identify, with one lemma per combinator.
    - [Monitor]: a protocol as a monitor of a trace ([monitor], over any
      type of events), and the weakest precondition [wp] of a program
      under a monitor of its awaited calls, with one rule per combinator
      and the rule of the loop by invariant.
    - [Coro]: the signature [PyMonad] of the operations a coroutine uses,
      with two instances: [eff], and the trees [coro] whose nodes are the
      suspension points of a coroutine; the scheduler of the event loop
      ([settle], [resume], [interleave], [concurrently]); the classes
      [NeverFails], [Reads] and [ReadOnly] with one instance per
      combinator.
    - [Environment]: a coroutine run against a service with a state of
      its own ([serve]), the traces a service can answer ([served]), and
      the passage between the two views of the environment: every run
      against a service is the run over some oracle, and a run depends
      only on the replies it consumes ([run_local]).
    - [Lock]: calls serialized by a lock held for the whole call, which is
      the external synchronization the connection manager asks for: the
      tasks contending for the lock ([pool]), [acquire], [hand_over] to the
      next waiter when the holder ends, the scheduler [serialized], the
      sequential composition of the calls [in_turn], and the programs
      that follow a protocol and keep an invariant ([abides]).
    - [Bounded]: the bound [ends_within n] on the suspension points of a
      coroutine, with one lemma per combinator and the tactic [ends_auto].
    - [Cancel]: the scheduler of [Coro] with a second action, the
      cancellation of a task at its suspension point ([interrupted]), and
      the predicate [keeps P] of the coroutines that write only states
      which satisfy [P], with one lemma per combinator.
    - [Suspended]: the weakest precondition [cwp] of a coroutine tree,
      which follows a monitor as [wp] does and requires at every
      suspension point that the call may be abandoned there ([leave]) with
      the invariant kept; what an observer sees of calls that can be
      abandoned ([moment], [oversee]); a call under a timeout ([within],
      the [asyncio.wait_for] of a caller) and calls awaited one after the
      other, each under its timeout ([one_by_one]).
    - [Schemas]: the records of [core/schemas.py] and Python values.
    - [Constants]: the defaults of [core/constants.py] as functions of the
      process environment; the import of the module ([import_constants])
      as a function of the directories above the package and of the
      environment, with [find_dotenv] and [load_dotenv] of python-dotenv
      on files of variables that are finite maps ([import_schemas] is
      line 6 of [core/schemas.py]).
    - [Utils]: [send_with_retries_mechanism], translated statement by
      statement ([attempt_body] is the body of its loop), its reference
      [dispatch] as a recursion over the replies, and the theorems of the
      retry dispatcher.
    - [Sms] (Module [SMS]) and [Telegram] (Module [Telegram]): the two
      pooled adapters, [__init__], [send] and [close_session] of each.
    - [Email] (Module [Gmail]): [GmailNotificationProcessor], every method
      ([__init__], [send], [_get_connection], [_reset_connection],
      [close_session]), the relational specifications [attempt_spec],
      [loop_spec] and [send_spec] of an attempt, of the loop and of a call,
      and the theorems of the connection manager.
    - [Ghost]: the erasure of the ghost field [session] ([erase],
      [erase_op]) and the relation [same_processor] of the processors the
      code cannot tell apart; each method is [blind], an instance of
      [Proper] for [eff_rel].
    - [Lifecycle]: the state machine of the connection manager as step
      relations over [conn_state] ([lifecycle_send], [lifecycle_close]),
      the abstraction [state_of] from the fields of the processor, and the
      states a processor can reach ([reachable], [serving]).
    - [Concurrent]: the methods of [GmailNotificationProcessor] written
      once more against [PyMonad] (Module [Co]), the dispatcher and the
      [send] of the pooled adapters likewise (Module [CoPooled], the
      definitions of [Utils] under the names [co_attempt_body] and
      [co_send_with_retries_mechanism]), and concurrent sends on one
      processor.
    - [Connections]: the protocol of the SMTP connection as the monitor
      [watch] (a connection is established only when none may be open,
      [quit] releases it) with [leave] for a call that is abandoned, and
      the specification of each method of [Co] as a weakest precondition
      of its coroutine ([cwp_send], [cwp_close_session], ...), from which
      that of the programs of [Email] follows ([wp_send],
      [wp_close_session]).
    - [Serialized]: [send] under the lock of [Lock].
    - [Server]: two reference services, written from the documented
      behaviour of the calls the sources make.  Module [SmtpServer]: a
      server with an outage (the number of connections it still refuses),
      accounts, acknowledgements that get lost and a mailbox;
      [smtp_respond] answers [connect], [login], [noop], [send_message]
      and [quit] on a client according to how far its session has come.
      Module [HttpEndpoint]: an endpoint with queued faults, a session
      that can be closed and the requests it received.
    - [Lossy]: an HTTP endpoint that processes a request and answers a
      fault ([lossy_respond]), and the simulation [same_answers] between
      it and the endpoint of [Server].
    - [Interrupted]: the calls of [send] and [close_session] on one
      processor, interleaved and cancelled ([program], [attainable]).
    - [Timeouts]: the calls of [send] and [close_session] awaited one
      after the other, each under a timeout ([awaited]), and
      [close_session] awaited against the SMTP server ([closing]).
    - [Interface]: [NotificationInterface] as a type class with the three
      processors as instances, the contract [Dependable] that each of them
      discharges, and the theorems of callers, proved from the contract.
    - [Batch]: a caller that awaits [send] for each message of a batch
      ([send_each] of [Interface], as the task [co_send_each]) composed
      with the processor and with the SMTP server of [Server]
      ([deliver_each]).

    ** How state and operations correspond to the code

    A Python coroutine [async def f(self, ...)] becomes a value of
    [eff A]: a function from the environment's oracle and the current
    world (the object's fields and the number of replies consumed so far)
    to an outcome ([Ok a] or [Raise e]), the new world and the list of
    events emitted.  Every [await] of a library call is one [call op], which
    consumes the next reply of the oracle and records [Called op reply];
    every [await sleep(d)] records [Slept d].  Mutations of [self] made
    before an exception is raised survive it, as in Python.  A [for attempt
    in range(n)] loop is [for_range n body], whose body returns [Next],
    [Break] or [Return], the local variable [result] being the loop's
    accumulator.

    The state of a processor is the record of its fields.  The SMTP client
    held by [GmailNotificationProcessor] carries one ghost field, [session],
    which records how far the session has come (connected, authenticated,
    closed): the code never reads it; it is advanced after each successful
    [connect], [login] and [quit], and the safety theorems are stated with
    it.

    The oracle is a total function from call indices to replies: theorems
    quantify over every oracle, so they hold whatever the remote services
    answer.  No fuel is needed: a loop runs [Z.to_nat max_retries]
    iterations by structural recursion, exactly as [range] does (an empty
    range for a budget that is zero or negative), so every program of the
    development is a total function and every run terminates.

    ** What the theorems show

    - [Effects]: the run equations of each combinator, the rule of the loop
      [for_from_rule], and that every program built from the combinators is
      [Lawful].
    - [Laws]: the three laws of sequencing and those of [try ... except],
      of reads and writes of [self] and of the empty loop; with them, by
      rewriting, a batch may be sent in two parts ([send_each_app]), a
      [send] without budget is [return BaseResponse()], and
      [_reset_connection] is idempotent (in [Interface]).
    - [Monitor], [Connections]: every trace of [send] follows the protocol
      of the connection, over every oracle: [connect] is awaited only
      when every connection established before has been asked to quit
      ([send_one_connection]), and [close_session] leaves none open
      ([close_session_releases]).  The hypothesis [tracked] is that a
      connection that may be open is that of the client held; it holds
      of a processor built by [__init__] and is kept by every call.
    - [Suspended], [Timeouts]: [cwp] has the rules of [wp], implies [wp]
      of the program that reads the same text ([cwp_wp]) and holds along
      the resumptions of a task ([cwp_steps]); a timeout is a
      cancellation of [Cancel] ([within_interrupted]).  The methods of
      the connection manager satisfy it with [tracked] as invariant: at
      every [await] the processor holds the client of whatever connection
      there may be.  So the protocol holds through every sequence of
      calls and timeouts ([timeouts_keep_one_connection]): a connection
      that an abandoned [connect] may have opened is asked to quit before
      the next [connect].  And a caller has a remedy for the client that
      an abandoned [login] leaves: after [close_session] the next [send]
      delivers ([close_session_cures], against the server of [Server]).
    - [Related], [Ghost]: [send] and [close_session] cannot tell apart two
      processors that differ in the phases of their clients: same result,
      same calls with the same arguments, same sleeps, same processor up
      to the phases ([send_ignores_session]).  So the phase is ghost: the
      theorems stated with it hold of a processor whose client carries no
      such field.
    - [Constants]: the default pool settings exist exactly when the four
      variables hold valid values, and never from an empty environment;
      settings written to the environment in decimal are read back.  The
      import builds its defaults from the environment of the process
      completed by the nearest [.env.test]: a variable of the process
      wins over the file ([import_constants_environment_wins]), and the
      settings written to the file are the defaults built when the
      process sets none of them ([import_constants_roundtrip]).
    - [Environment]: [serve_reads] and [serve_of_reads], by which a
      theorem about every oracle is used against a service and back.
    - [Lock]: [serialized_in_turn]: when the schedule lets every task end,
      tasks under the lock end as their sequential programs do, one after
      the other, each on the state the previous one left; [alone_ends]: a
      task whose runs await at most [N] times ends once it has been given
      [N] replies; [serialized_monitored]: tasks whose programs follow a
      protocol and keep an invariant follow the protocol under the lock,
      at every point of every schedule (what the holder of the lock has
      emitted begins a run of its program, [steps_prefix], and a protocol
      accepts what begins an accepted trace, [monitor_prefix]).
    - [Utils]: the dispatcher refines [dispatch]; it never raises, makes at
      most [max_retries] attempts, stops at the first success or
      client-error response, its result is that of the last attempt, the
      exact sleeps of each scenario, and where the code departs from the
      specification (the sleep after the last failed response, exceptions
      carrying a 4xx status).
    - [Sms], [Telegram]: each adapter is the dispatcher at the request it
      builds (URL, form or JSON payload, pool), [close_session] closes the
      pool, and a send after close is retried with backoff instead of
      failing fast.
    - [Email]: [send] never raises and transmits only over authenticated
      sessions, the bound on attempts and connections, the backoff between
      attempts, the retry policy by class of error, the liveness probe and
      the reconnection, [_reset_connection] always clears the handle, the
      assertion of [send] cannot fail, and the behaviour of
      [close_session] (the reference is kept, a second close may raise, a
      later send reconnects).  A rejected login leaves a client that was
      never authenticated, which the next send uses.  A call is
      acknowledged at most one transmission, and exactly one when its
      result claims success.
    - [Lifecycle]: [send] and [close_session] simulate the machine (a
      session is dropped only when connectivity errors exhaust the budget,
      and terminated only by [close_session]), and two invariants of the
      reachable states by rule induction: the client held was built from
      the configuration given to [__init__], and a processor that only
      sends never holds a terminated session.  The machine has two states
      the specification excludes between calls: [CONNECTING] persists
      after a rejected login, and [TERMINATED] after [close_session].
    - [Coro], [Concurrent]: the text of [Co], read in [eff], is the
      methods of [Email] (by computation); read in [coro] and scheduled
      alone, a send ends as the sequential run does ([Reads], by instance
      resolution along the text); no interleaving of any number of sends
      makes one of them raise ([NeverFails]); and two races that the
      missing serialization allows, by evaluation of a schedule: a send
      that transmits on the client another send is still connecting, and
      the assertion of [send] failing after another send dropped the
      client.  The pooled adapters only read the processor ([ReadOnly]):
      their concurrent sends are independent, each ending as it does
      alone with its share [own] of the schedule.  A send terminates
      under every interleaving: an attempt is suspended at most seven
      times (probe, quit, connect, login, transmission, quit, sleep), so a
      send has returned once it has been resumed [7 * max_retries] times,
      and [2 * max_retries] times for the dispatcher
      ([concurrent_sends_terminate]).
    - [Bounded]: a task that is suspended at most [n] times has ended once
      the schedule has resumed it [n] times, whatever the other tasks do
      ([concurrently_ends]).
    - [Cancel]: [interrupted] extends [concurrently]; a cancellation is
      final ([cancel_final]); tasks that keep [P] leave a state that
      satisfies [P] under every schedule ([keeps_interrupted]); tasks
      that do not write are independent ([interrupted_read_only]); what
      holds [along] a run against a service holds wherever it is cut.
    - [Interrupted]: whatever the interleaving and the cancellations, the
      configuration of the processor is the one it started with and the
      client held was built from it, and no send has raised; the states of
      [Lifecycle] are among those reached so.  A send cancelled while it
      awaits [login] leaves a connected client that never authenticated, on
      which every later send fails with 400 and which no send replaces
      ([cancelled_login_poisons]); calls that run to their end never leave
      such a client when the server knows the account
      ([deliver_not_half_open] of [Server]), and of the suspension points
      of a send the login is the only one where a cancellation leaves it
      ([cancelled_send_half_open], by [cut], the run against a server
      that is cancelled at the suspension point number [n]).
    - [Serialized]: sends under the lock are the sequential sends in turn,
      so the processor stays in the reachable states of [Lifecycle] and
      the race of [Concurrent] cannot happen; they hold one connection at
      a time, wherever the schedule stops
      ([serialized_sends_one_connection]), which two sends without the
      lock do not ([race_opens_second_connection]).
    - [Server]: the result of a send tells what the service holds (the
      mailbox gains the message exactly when the result claims success,
      provided acknowledgements are not lost; likewise the endpoint and
      the request); a service that recovers within the budget receives the
      message; and every lost acknowledgement makes [send] deliver once
      more ([deliver_duplicates]).
    - [Lossy]: the dispatcher runs against the lossy endpoint as against
      the endpoint of [Server] (they answer alike), and the endpoint has
      processed one copy of the request per attempt: every response that
      is lost is a duplicate ([request_duplicates]).
    - [Interface]: the three processors keep the contract [Dependable], and
      a batch sent over any dependable channel returns one sound result per
      notification and never raises.
    - [Batch]: against a server that acknowledges what it stores and knows
      the account, a batch whose budgets cover the outage is delivered,
      each message once and in order, over at most one connection
      ([batch_delivered_once]); and over every oracle, a batch followed by
      [close_session] leaves no connection open
      ([batch_then_close_releases]).

    ** Assumptions and what is not modelled

    - Integers are Python's unbounded integers: [Z], no wrap-around.
    - The [status] attribute of an exception is an integer when present
      (true of aiohttp's [ClientResponseError]).
    - An SMTP client object is truthy (aiosmtplib's [SMTP] defines neither
      [__bool__] nor [__len__]), so [if self._smtp_client] tests for [None].
    - [CancelledError] does not derive from [Exception] (Python 3.8 and
      later), and the sources have no [finally] and no clause that catches
      more than [Exception]: a cancelled task stops at its suspension
      point, which is how [Cancel] models it.  In [Effects] and in the
      files that run one call to its end there is no cancellation.  What
      the libraries do when a call of theirs is cancelled is not modelled:
      the ghost field [session] stays as it was.
    - The wall-clock duration of a sleep and the internals of aiohttp,
      aiosmtplib and pydantic are outside the model: the libraries are
      the environment, seen through their replies.  The theorems of
      [Server] hold for its two reference services, which are models of
      the documented behaviour and not translations of library code; all
      other theorems hold for every environment.
    - The lock of [Lock] is held from the first statement of a call to its
      return, and waiters are served in the order of their requests (as
      asyncio.Lock does).  Cancellation is modelled for tasks that run
      without the lock ([Cancel]) and for calls awaited one after the
      other ([Suspended]), not for the tasks of [Lock]: the lock is the
      caller's, and what a cancelled holder or waiter does to it is
      behaviour of asyncio, not of the sources.
    - A timeout of [Suspended] fires when the replies given to the call
      run out: the replies are any list, so the timeout comes at any
      suspension point; the time at which it comes is not modelled.
    - The theorems of [Email] and [Lifecycle] are about calls that run one
      after the other, as the specification requires of the connection
      manager; [Concurrent] is about interleaved sends.  Coroutines
      interleave at awaited library calls and sleeps only, which is the
      scheduling of asyncio.  The ghost field [session] follows the client
      held, so under interleaving it says how far the session of the
      handle has come, not which coroutine brought it there.
    - The connection pool of aiohttp is one operation [Post] per request:
      the limits of [SessionPool] on simultaneous connections are not
      modelled.
    - pydantic validates when a model is constructed, and only then: the
      coercions of strings to integers and booleans are parameters of
      [Constants] (instantiated with decimal numerals for the round
      trip), and assignments to the fields of a [BaseResponse] are not
      validated.
    - python-dotenv is outside the repository: a file of variables is the
      finite map it parses, the directories searched are a list from the
      directory of the package upward, and [load_dotenv] is called with
      its defaults (a variable that is set keeps its value).  The syntax
      of the file and the expansion of [${VAR}] in its values are not
      modelled.
    - In [Connections] a connection counts as released once [quit] has
      been awaited on its client, whatever [quit] answers: the processor
      drops the client and can do no more for it.  A [connect] that is
      abandoned counts as a connection that may be open, an abandoned
      [quit] as one that may not have been released; what aiosmtplib does
      to the socket when its call is cancelled is not modelled.  Clients
      are records without identity, so the monitor follows the calls of
      one processor in their order; it does not tell the connections of
      interleaved tasks apart, and the theorems about the protocol are
      about calls that run one after the other, under a lock or under
      timeouts.

    ** Not modelled

    Every statement of the seven source files is translated: the lines
    the definitions do not cover are the imports and the blank lines.  Two
    components are modelled in part, and cannot be modelled further from
    the repository:

    - the libraries (aiohttp, aiosmtplib, pydantic, python-dotenv): the
      sources call them and hold none of their code.  They are the
      environment: every oracle of replies in most theorems, the
      reference services of [Server] and [Lossy] in the others.  Sockets,
      TLS, the limits and the keep-alive of the connection pool, and the
      timeouts of the libraries have no counterpart in the sources;
    - the concurrency of callers: the sources start no task, take no lock
      and set no timeout.  The schedulers ([concurrently], [serialized],
      [interrupted], [one_by_one]) are the callers the specification
      describes, written from the semantics of asyncio; a lock whose
      holder or waiters are cancelled, threads, and several event loops
      are not modelled. *)

From stdpp Require Export base option list numbers strings.

(** ** Python notation *)

Declare Scope py_scope.
Delimit Scope py_scope with py.

(** Python's integer power, used by the code as [2 ** attempt]. *)
Notation "a ** b" := (Z.pow a b) (at level 30, right associativity) : py_scope.

(** Python's chained comparison [lo <= x < hi]. *)
Definition between (lo x hi : Z) : bool := bool_decide (lo ≤ x < hi)%Z.

Global Open Scope py_scope.

(** ** Tactics and hint databases *)

(** [py] collects the resolution hints about Python primitives and [py_rw]
    the rewrite rules; [eff] and [eff_rw] (declared in [Effects]) those
    about the monad. *)
Create HintDb py discriminated.
Create Rewrite HintDb py_rw.

(** Invert a hypothesis and substitute. *)
Ltac inverts H := inversion H; subst; clear H.

(** Turn the boolean tests of the code into propositions, everywhere. *)
Ltac reflect_bool :=
  repeat match goal with
  | H : between _ _ _ = true |- _ => apply bool_decide_eq_true in H
  | H : between _ _ _ = false |- _ => apply bool_decide_eq_false in H
  | H : bool_decide _ = true |- _ => apply bool_decide_eq_true in H
  | H : bool_decide _ = false |- _ => apply bool_decide_eq_false in H
  | H : negb _ = true |- _ => apply negb_true_iff in H
  | H : negb _ = false |- _ => apply negb_false_iff in H
  | H : andb _ _ = true |- _ => apply andb_true_iff in H; destruct H
  | H : (_ <? _)%Z = true |- _ => apply Z.ltb_lt in H
  | H : (_ <? _)%Z = false |- _ => apply Z.ltb_ge in H
  | H : (_ <=? _)%Z = true |- _ => apply Z.leb_le in H
  | H : (_ <=? _)%Z = false |- _ => apply Z.leb_gt in H
  end.

(** Case analysis on the first boolean test of the goal, reflected. *)
Ltac case_test :=
  match goal with
  | |- context [between ?a ?x ?b] =>
      let E := fresh "Hrange" in destruct (between a x b) eqn:E
  | |- context [(?a <? ?b)%Z] =>
      let E := fresh "Hlt" in destruct (a <? b)%Z eqn:E
  | |- context [bool_decide ?P] =>
      let E := fresh "Hdec" in destruct (bool_decide P) eqn:E
  end; reflect_bool.

(** ** Chained comparison *)

Section Between.
Implicit Types lo x hi : Z.

Lemma between_true lo x hi : between lo x hi = true ↔ (lo ≤ x < hi)%Z.
Proof. apply bool_decide_eq_true. Qed.

Lemma between_false lo x hi : between lo x hi = false ↔ ¬ (lo ≤ x < hi)%Z.
Proof. apply bool_decide_eq_false. Qed.

Lemma between_intro lo x hi : (lo ≤ x < hi)%Z → between lo x hi = true.
Proof. apply between_true. Qed.

Lemma between_below lo x hi : (x < lo)%Z → between lo x hi = false.
Proof. intros. apply between_false. lia. Qed.

Lemma between_above lo x hi : (hi ≤ x)%Z → between lo x hi = false.
Proof. intros. apply between_false. lia. Qed.
End Between.

#[export] Hint Resolve between_intro between_below between_above : py.

(** ** The backoff schedule

    Both retry loops sleep [2 ** attempt] time units after attempt number
    [attempt] (0-based).  [schedule n] is the list of the first [n] such
    durations. *)

Definition backoff (attempt : Z) : Z := 2 ** attempt.

Definition schedule (n : nat) : list Z := (λ i : nat, backoff (Z.of_nat i)) <$> seq 0 n.

(** The durations slept from attempt [i] on, for [n] attempts. *)
Definition schedule_from (i : Z) (n : nat) : list Z :=
  (λ k : nat, backoff (i + Z.of_nat k)) <$> seq 0 n.

(** The sum of a list of durations. *)
Definition total (ds : list Z) : Z := foldr Z.add 0%Z ds.

Section Backoff.
Implicit Types (i : Z) (n : nat).

Lemma backoff_pos i : (0 ≤ i)%Z → (0 < backoff i)%Z.
Proof. intros. unfold backoff. by apply Z.pow_pos_nonneg. Qed.

Lemma backoff_succ i : (0 ≤ i)%Z → backoff (i + 1) = (2 * backoff i)%Z.
Proof. intros. unfold backoff. rewrite Z.pow_add_r by lia. lia. Qed.

Lemma backoff_mono i j : (0 ≤ i ≤ j)%Z → (backoff i ≤ backoff j)%Z.
Proof. intros. unfold backoff. apply Z.pow_le_mono_r; lia. Qed.

Lemma schedule_from_0 n : schedule_from 0 n = schedule n.
Proof. reflexivity. Qed.

Lemma schedule_from_nil i : schedule_from i 0 = [].
Proof. reflexivity. Qed.

Lemma schedule_from_cons i n :
  schedule_from i (S n) = backoff i :: schedule_from (i + 1) n.
Proof.
  unfold schedule_from. cbn [seq fmap list_fmap]. f_equal; [f_equal; lia|].
  rewrite <- seq_shift, <- list_fmap_compose. apply list_fmap_ext.
  intros ? k _. cbn. f_equal. lia.
Qed.

Lemma schedule_from_snoc i n :
  schedule_from i (S n) = schedule_from i n ++ [backoff (i + Z.of_nat n)].
Proof.
  unfold schedule_from. by rewrite seq_S, fmap_app.
Qed.

Lemma length_schedule_from i n : length (schedule_from i n) = n.
Proof. unfold schedule_from. by rewrite length_fmap, length_seq. Qed.

Lemma schedule_from_lookup i n k :
  (k < n)%nat → schedule_from i n !! k = Some (backoff (i + Z.of_nat k)).
Proof.
  intros. unfold schedule_from. rewrite list_lookup_fmap, lookup_seq_lt by done.
  done.
Qed.

(** The whole budget sleeps less than [2 ** n] time units in total. *)
Lemma total_schedule_from i n :
  (0 ≤ i)%Z → total (schedule_from i n) = (backoff i * (2 ^ Z.of_nat n - 1))%Z.
Proof.
  revert i. induction n as [|n IH]; intros i Hi.
  - cbn. lia.
  - rewrite schedule_from_cons. cbn [total foldr]. fold (total (schedule_from (i + 1) n)).
    rewrite IH, backoff_succ by lia.
    rewrite Nat2Z.inj_succ, Z.pow_succ_r by lia. lia.
Qed.

Lemma total_schedule n : total (schedule n) = (2 ^ Z.of_nat n - 1)%Z.
Proof.
  rewrite <- schedule_from_0, total_schedule_from by done.
  unfold backoff. lia.
Qed.

Lemma schedule_nonneg n : Forall (λ d, (0 ≤ d)%Z) (schedule n).
Proof.
  apply Forall_fmap, Forall_forall. intros k _. cbn.
  apply Z.lt_le_incl, backoff_pos. lia.
Qed.

(** Sleeping part of a schedule takes no longer than sleeping all of it. *)
Lemma total_sublist (ds ds' : list Z) :
  Forall (λ d, (0 ≤ d)%Z) ds' → ds `sublist_of` ds' → (total ds ≤ total ds')%Z.
Proof.
  intros Hpos Hsub. induction Hsub as [|d ds ds' _ IH|d ds ds' _ IH]; [done|..];
    apply Forall_cons in Hpos as [Hd Hpos]; specialize (IH Hpos);
    unfold total in *; cbn [foldr]; lia.
Qed.

Lemma total_schedule_mono k n : (k ≤ n)%nat → (total (schedule k) ≤ total (schedule n))%Z.
Proof.
  intros. rewrite !total_schedule.
  assert (2 ^ Z.of_nat k ≤ 2 ^ Z.of_nat n)%Z by (apply Z.pow_le_mono_r; lia). lia.
Qed.
End Backoff.

#[export] Hint Rewrite schedule_from_nil schedule_from_cons length_schedule_from : py_rw.
#[export] Hint Resolve backoff_pos : py.

(** ** Lists *)

Section Lists.
Context {A : Type}.
Implicit Types (l k : list A) (P : A → bool).

(** [count P l]: how many elements of [l] satisfy the test [P]. *)
Definition count P l : nat := length (filter (λ x, P x = true) l).

Lemma count_nil P : count P [] = 0%nat.
Proof. reflexivity. Qed.

Lemma count_cons P x l :
  count P (x :: l) = ((if P x then 1 else 0) + count P l)%nat.
Proof.
  unfold count. rewrite filter_cons. destruct (P x) eqn:E.
  - rewrite decide_True by done. done.
  - rewrite decide_False by congruence. done.
Qed.

Lemma count_app P l k : count P (l ++ k) = (count P l + count P k)%nat.
Proof. unfold count. by rewrite filter_app, length_app. Qed.

Lemma count_le_length P l : (count P l ≤ length l)%nat.
Proof. unfold count. apply length_filter. Qed.
End Lists.

#[export] Hint Rewrite @count_nil @count_cons @count_app : py_rw.
