(* ===== verification/Effects.v ===== *)
(** * Effects: Python coroutines as an executable monad

    This file holds the semantic core shared by every component: Python
    exceptions, the environment seen as an oracle of replies, the monad
    [eff] in which the coroutines of the sources are written, and the
    [for attempt in range(n)] loop with [break] and [return].

    A program of type [eff A] is run against an oracle [E : nat → reply]
    and a world (the fields of [self] and the index [tick] of the next
    reply).  It yields an outcome, the final world and the trace it emitted:
    one [Called op r] per awaited library call, one [Slept d] per awaited
    sleep, in program order. *)

From S2P Require Import Prelude.

(** ** Exceptions

    The classes are those [processors/email.py] imports from aiosmtplib and
    names in its [except] clauses; every other subclass of [Exception] is
    [OtherError].  A subclass of a named class is represented by that class
    (the clauses match with [isinstance]).  [exn_status] is the optional
    attribute [status] that [core/utils.py] reads with [getattr], and
    [exn_str] is [str(error)]. *)

Inductive exn_class : Set :=
| SMTPServerDisconnected
| SMTPTimeoutError
| SMTPConnectError
| SMTPRecipientsRefused
| SMTPSenderRefused
| SMTPAuthenticationError
| AssertionError
| OtherError.

Record exn : Set := Exn {
  exn_class_of : exn_class;
  exn_status : option Z;
  exn_str : string
}.

#[export] Instance exn_class_eq_dec : EqDecision exn_class.
Proof. solve_decision. Defined.

#[export] Instance exn_eq_dec : EqDecision exn.
Proof. solve_decision. Defined.

(** The result of a computation: a value, or a raised exception. *)
Inductive outcome (A : Type) : Type :=
| Ok (a : A)
| Raise (e : exn).

Arguments Ok {A} a.
Arguments Raise {A} e.

#[export] Instance outcome_eq_dec `{EqDecision A} : EqDecision (outcome A).
Proof. solve_decision. Defined.

Definition is_ok {A} (o : outcome A) : bool :=
  match o with Ok _ => true | Raise _ => false end.

(** What a loop body asks for: the next iteration with the updated local
    state, [break], or [return a]. *)
Inductive ctl (L A : Type) : Type :=
| Next (l : L)
| Break (l : L)
| Return (a : A).

Arguments Next {L A} l.
Arguments Break {L A} l.
Arguments Return {L A} a.

Section Eff.
Context {Op V St : Type}.

(** ** The environment and the trace *)

(** The answer of the environment to one awaited call. *)
Inductive reply : Type :=
| Returns (v : V)
| Raises (e : exn).

Inductive event : Type :=
| Called (op : Op) (r : reply)
| Slept (d : Z).

Record world : Type := World { self : St; tick : nat }.

Record ran (A : Type) : Type := Ran {
  out : outcome A;
  final : world;
  trace : list event
}.

Arguments Ran {A} out final trace.
Arguments out {A} r.
Arguments final {A} r.
Arguments trace {A} r.

Definition oracle : Type := nat → reply.

(** ** The monad *)

Definition eff (A : Type) : Type := oracle → world → ran A.

Definition run {A} (m : eff A) (E : oracle) (w : world) : ran A := m E w.

(** [prepend t r]: the run [r], after the events [t]. *)
Definition prepend {A} (t : list event) (r : ran A) : ran A :=
  let '(Ran o w t') := r in Ran o w (t ++ t').

Definition ret {A} (a : A) : eff A := λ _ w, Ran (Ok a) w [].

Definition raise {A} (e : exn) : eff A := λ _ w, Ran (Raise e) w [].

Definition bind {A B} (m : eff A) (k : A → eff B) : eff B := λ E w,
  match m E w with
  | Ran (Ok a) w' t => prepend t (k a E w')
  | Ran (Raise e) w' t => Ran (Raise e) w' t
  end.

#[export] Instance eff_ret : MRet eff := @ret.
#[export] Instance eff_bind : MBind eff := λ A B k m, bind m k.

(** [try: m except Exception as e: h e].  A handler that does not match
    re-raises. *)
Definition try_except {A} (m : eff A) (h : exn → eff A) : eff A := λ E w,
  match m E w with
  | Ran (Ok a) w' t => Ran (Ok a) w' t
  | Ran (Raise e) w' t => prepend t (h e E w')
  end.

(** [await op]: the next reply of the oracle, recorded in the trace. *)
Definition call (op : Op) : eff V := λ E w,
  let r := E (tick w) in
  Ran (match r with Returns v => Ok v | Raises e => Raise e end)
      (World (self w) (S (tick w))) [Called op r].

(** [await sleep(d)]. *)
Definition sleep (d : Z) : eff unit := λ _ w, Ran (Ok tt) w [Slept d].

Definition get_self : eff St := λ _ w, Ran (Ok (self w)) w [].

Definition put_self (s : St) : eff unit := λ _ w, Ran (Ok tt) (World s (tick w)) [].

(** ** [for i in range(stop)] *)

Fixpoint for_from {L A} (n : nat) (i : Z) (body : Z → L → eff (ctl L A)) (l : L)
    : eff (L + A) :=
  match n with
  | O => mret (inl l)
  | S n' =>
      c ← body i l;
      match c with
      | Next l' => for_from n' (i + 1) body l'
      | Break l' => mret (inl l')
      | Return a => mret (inr a)
      end
  end.

(** The loop over [range(stop)]: [inl] when the range is exhausted or left
    by [break], [inr] when the body returned. *)
Definition for_range {L A} (stop : Z) (body : Z → L → eff (ctl L A)) (l : L)
    : eff (L + A) :=
  for_from (Z.to_nat stop) 0 body l.

(** What [return result] yields, after the loop or from inside it. *)
Definition joined {L} (r : L + L) : L :=
  match r with inl l => l | inr l => l end.

(** ** Observations on traces *)

Definition is_call (ev : event) : bool :=
  match ev with Called _ _ => true | Slept _ => false end.

(** The replies consumed, in order. *)
Definition replies (t : list event) : list reply :=
  omap (λ ev, match ev with Called _ r => Some r | Slept _ => None end) t.

(** The operations awaited, in order. *)
Definition ops (t : list event) : list Op :=
  omap (λ ev, match ev with Called op _ => Some op | Slept _ => None end) t.

(** The durations slept, in order. *)
Definition sleeps (t : list event) : list Z :=
  omap (λ ev, match ev with Slept d => Some d | Called _ _ => None end) t.

(** The next [n] replies the environment holds for a program started in
    world [w]. *)
Definition upcoming (E : oracle) (w : world) (n : nat) : list reply :=
  E <$> seq (tick w) n.

(** A program is lawful when it consumes exactly the replies it records:
    its trace holds the oracle's replies from [tick w] to the final tick. *)
Class Lawful {A} (m : eff A) : Prop :=
  lawful : ∀ E w, ∃ n : nat,
    tick (final (run m E w)) = (tick w + n)%nat ∧
    replies (trace (run m E w)) = upcoming E w n.

End Eff.

Arguments reply V : clear implicits.
Arguments event Op V : clear implicits.
Arguments world St : clear implicits.
Arguments ran Op V St A : clear implicits.
Arguments oracle V : clear implicits.
Arguments eff Op V St A : clear implicits.
Arguments Ran {Op V St A} out final trace.
Arguments out {Op V St A} r.
Arguments final {Op V St A} r.
Arguments trace {Op V St A} r.
Arguments Returns {V} v.
Arguments Raises {V} e.
Arguments Called {Op V} op r.
Arguments Slept {Op V} d.
Arguments World {St} self tick.
Arguments self {St} w.
Arguments tick {St} w.

Create HintDb eff discriminated.
Create Rewrite HintDb eff_rw.

(** Run a program symbolically: unfold the combinators and project the
    records they build.  The tests of the code stay folded. *)
Ltac eff_red :=
  cbv beta iota zeta delta
    [run mbind mret eff_bind eff_ret bind ret raise try_except call sleep
     get_self put_self prepend];
  cbn.

Tactic Notation "eff_red" "in" hyp(H) :=
  cbv beta iota zeta delta
    [run mbind mret eff_bind eff_ret bind ret raise try_except call sleep
     get_self put_self prepend] in H;
  cbn in H.

(** An oracle given by a finite script, then a default reply. *)
Definition script {V} (rs : list (reply V)) (d : reply V) : oracle V :=
  λ n, default d (rs !! n).

(** ** Run equations *)

Section Run.
Context {Op V St : Type}.
#[local] Abbreviation eff := (eff Op V St).
#[local] Abbreviation ran := (ran Op V St).
Implicit Types (E : oracle V) (w : world St) (t : list (event Op V)).

Lemma prepend_Ran {A} t (o : outcome A) w t' :
  prepend t (Ran o w t') = Ran o w (t ++ t').
Proof. reflexivity. Qed.

Lemma prepend_nil {A} (r : ran A) : prepend [] r = r.
Proof. by destruct r. Qed.

Lemma prepend_prepend {A} t t' (r : ran A) :
  prepend t (prepend t' r) = prepend (t ++ t') r.
Proof. destruct r. cbn. by rewrite app_assoc. Qed.

Lemma out_prepend {A} t (r : ran A) : out (prepend t r) = out r.
Proof. by destruct r. Qed.

Lemma final_prepend {A} t (r : ran A) : final (prepend t r) = final r.
Proof. by destruct r. Qed.

Lemma trace_prepend {A} t (r : ran A) : trace (prepend t r) = t ++ trace r.
Proof. by destruct r. Qed.

Lemma run_ret {A} (a : A) E w : run (mret a : eff A) E w = Ran (Ok a) w [].
Proof. reflexivity. Qed.

Lemma run_raise {A} e E w : run (raise e : eff A) E w = Ran (Raise e) w [].
Proof. reflexivity. Qed.

Lemma run_bind {A B} (m : eff A) (k : A → eff B) E w :
  run (m ≫= k) E w =
  match out (run m E w) with
  | Ok a => prepend (trace (run m E w)) (run (k a) E (final (run m E w)))
  | Raise e => Ran (Raise e) (final (run m E w)) (trace (run m E w))
  end.
Proof.
  unfold run, mbind, eff_bind, bind. by destruct (m E w) as [[a|e] w' t].
Qed.

Lemma run_try_except {A} (m : eff A) h E w :
  run (try_except m h) E w =
  match out (run m E w) with
  | Ok a => run m E w
  | Raise e => prepend (trace (run m E w)) (run (h e) E (final (run m E w)))
  end.
Proof. unfold run, try_except. by destruct (m E w) as [[a|e] w' t]. Qed.

Lemma run_call (op : Op) E w :
  run (call op : eff V) E w =
  Ran (match E (tick w) with Returns v => Ok v | Raises e => Raise e end)
      (World (self w) (S (tick w))) [Called op (E (tick w))].
Proof. reflexivity. Qed.

Lemma run_sleep d E w : run (sleep d : eff unit) E w = Ran (Ok tt) w [Slept d].
Proof. reflexivity. Qed.

Lemma run_get_self E w : run (get_self : eff St) E w = Ran (Ok (self w)) w [].
Proof. reflexivity. Qed.

Lemma run_put_self s E w :
  run (put_self s : eff unit) E w = Ran (Ok tt) (World s (tick w)) [].
Proof. reflexivity. Qed.

(** ** Observations distribute over the trace *)

Lemma replies_app t t' : replies (t ++ t') = replies t ++ replies t'.
Proof. apply omap_app. Qed.

Lemma ops_app t t' : ops (t ++ t') = ops t ++ ops t'.
Proof. apply omap_app. Qed.

Lemma sleeps_app t t' : sleeps (t ++ t') = sleeps t ++ sleeps t'.
Proof. apply omap_app. Qed.

Lemma replies_called (op : Op) (r : reply V) t :
  replies (Called op r :: t) = r :: replies t.
Proof. reflexivity. Qed.

Lemma replies_slept d t : replies (Slept (Op:=Op) (V:=V) d :: t) = replies t.
Proof. reflexivity. Qed.

Lemma sleeps_called (op : Op) (r : reply V) t :
  sleeps (Called op r :: t) = sleeps t.
Proof. reflexivity. Qed.

Lemma sleeps_slept d t : sleeps (Slept (Op:=Op) (V:=V) d :: t) = d :: sleeps t.
Proof. reflexivity. Qed.

Lemma ops_called (op : Op) (r : reply V) t : ops (Called op r :: t) = op :: ops t.
Proof. reflexivity. Qed.

Lemma ops_slept d t : ops (Slept (Op:=Op) (V:=V) d :: t) = ops t.
Proof. reflexivity. Qed.

Lemma length_ops_replies t : length (ops t) = length (replies t).
Proof.
  induction t as [|[op r|d] t IH]; [done|..].
  - rewrite ops_called, replies_called. cbn. by rewrite IH.
  - by rewrite ops_slept, replies_slept.
Qed.

(** ** The upcoming replies *)

Lemma upcoming_0 E w : upcoming E w 0 = [].
Proof. reflexivity. Qed.

Lemma upcoming_S E w n :
  upcoming E w (S n) = E (tick w) :: upcoming E (World (self w) (S (tick w))) n.
Proof. reflexivity. Qed.

Lemma length_upcoming E w n : length (upcoming E w n) = n.
Proof. unfold upcoming. by rewrite length_fmap, length_seq. Qed.

Lemma upcoming_lookup E w n i :
  (i < n)%nat → upcoming E w n !! i = Some (E (tick w + i)%nat).
Proof. intros. unfold upcoming. by rewrite list_lookup_fmap, lookup_seq_lt. Qed.

Lemma upcoming_script (rs : list (reply V)) d (s : St) n :
  (n ≤ length rs)%nat → upcoming (script rs d) (World s 0) n = take n rs.
Proof.
  intros Hn. apply list_eq. intros i. destruct (decide (i < n)%nat).
  - rewrite upcoming_lookup, lookup_take_lt by done. unfold script. cbn.
    destruct (lookup_lt_is_Some_2 rs i) as [r ->]; [lia|done].
  - rewrite !lookup_ge_None_2; [done|rewrite length_take; lia|rewrite length_upcoming; lia].
Qed.

(** A bind whose first part is known. *)
Lemma run_bind_ok {A B} (m : eff A) (k : A → eff B) E w a w' t :
  run m E w = Ran (Ok a) w' t →
  run (m ≫= k) E w = prepend t (run (k a) E w').
Proof. intros H. by rewrite run_bind, H. Qed.

Lemma run_bind_raise {A B} (m : eff A) (k : A → eff B) E w e w' t :
  run m E w = Ran (Raise e) w' t →
  run (m ≫= k) E w = Ran (Raise e) w' t.
Proof. intros H. by rewrite run_bind, H. Qed.

(** A method that starts by reading [self]. *)
Lemma run_get_self_bind {B} (k : St → eff B) E w :
  run (get_self ≫= k) E w = run (k (self w)) E w.
Proof. rewrite run_bind, run_get_self. cbn [out final trace]. apply prepend_nil. Qed.

(** A call whose value is dropped. *)
Lemma run_call_unit (op : Op) E w :
  run (call op ≫= λ _, mret tt) E w =
  Ran (match E (tick w) with Returns _ => Ok tt | Raises e => Raise e end)
      (World (self w) (S (tick w))) [Called op (E (tick w))].
Proof. rewrite run_bind, run_call. cbn [out final trace]. by destruct (E (tick w)). Qed.

(** ** The loop, one iteration at a time *)

Lemma for_from_0 {L A} i (body : Z → L → eff (ctl L A)) l E w :
  run (for_from 0 i body l) E w = Ran (Ok (inl l)) w [].
Proof. reflexivity. Qed.

Lemma for_from_S {L A} n i (body : Z → L → eff (ctl L A)) l E w :
  run (for_from (S n) i body l) E w =
  match out (run (body i l) E w) with
  | Ok (Next l') =>
      prepend (trace (run (body i l) E w))
        (run (for_from n (i + 1) body l') E (final (run (body i l) E w)))
  | Ok (Break l') =>
      Ran (Ok (inl l')) (final (run (body i l) E w)) (trace (run (body i l) E w))
  | Ok (Return a) =>
      Ran (Ok (inr a)) (final (run (body i l) E w)) (trace (run (body i l) E w))
  | Raise e => Ran (Raise e) (final (run (body i l) E w)) (trace (run (body i l) E w))
  end.
Proof.
  cbn [for_from]. rewrite run_bind.
  destruct (run (body i l) E w) as [[[l'|l'|a]|e] w' t]; cbn [out final trace];
    try done; by rewrite run_ret, prepend_Ran, app_nil_r.
Qed.

(** The rule of the loop: an invariant [Inv] of the iterations still to
    run, and a postcondition [Post] of the run of the rest of the loop. *)
Lemma for_from_rule {L A} (body : Z → L → eff (ctl L A)) E
    (Inv : nat → Z → L → world St → Prop)
    (Post : nat → Z → L → world St → ran (L + A) → Prop) :
  (∀ i l w, Inv 0%nat i l w → Post 0%nat i l w (Ran (Ok (inl l)) w [])) →
  (∀ n i l w, Inv (S n) i l w →
     match run (body i l) E w with
     | Ran (Ok (Next l')) w' t =>
         Inv n (i + 1)%Z l' w' ∧
         ∀ r, Post n (i + 1)%Z l' w' r → Post (S n) i l w (prepend t r)
     | Ran (Ok (Break l')) w' t => Post (S n) i l w (Ran (Ok (inl l')) w' t)
     | Ran (Ok (Return a)) w' t => Post (S n) i l w (Ran (Ok (inr a)) w' t)
     | Ran (Raise e) w' t => Post (S n) i l w (Ran (Raise e) w' t)
     end) →
  ∀ n i l w, Inv n i l w → Post n i l w (run (for_from n i body l) E w).
Proof.
  intros H0 HS. induction n as [|n IH]; intros i l w HI.
  - rewrite for_from_0. by apply H0.
  - rewrite for_from_S. specialize (HS n i l w HI).
    destruct (run (body i l) E w) as [[[l'|l'|a]|e] w' t]; cbn [out final trace];
      [|done..].
    destruct HS as [HI' HP]. by apply HP, IH.
Qed.

Lemma for_range_nonpos {L A} stop (body : Z → L → eff (ctl L A)) l E w :
  (stop ≤ 0)%Z → run (for_range stop body l) E w = Ran (Ok (inl l)) w [].
Proof. intros. unfold for_range. by replace (Z.to_nat stop) with 0%nat by lia. Qed.

End Run.

#[export] Hint Rewrite @prepend_Ran @prepend_nil @prepend_prepend @run_ret
  @run_raise @run_call @run_sleep @run_get_self @run_put_self @for_from_0 : eff_rw.

(** The observations of a trace, pushed through its constructors. *)
Create Rewrite HintDb trace_rw.
#[export] Hint Rewrite @out_prepend @final_prepend @trace_prepend @replies_app
  @ops_app @sleeps_app @replies_called @replies_slept @sleeps_called
  @sleeps_slept @ops_called @ops_slept @upcoming_0 @length_upcoming : trace_rw.

(** Run a program step by step: split the binds and the handlers, run the
    primitives, and project the records built.  Unlike [eff_red] it leaves
    the programs it does not know folded, so that their run equations
    apply. *)
Ltac eff_simp :=
  repeat first
    [ rewrite run_bind
    | rewrite run_try_except
    | progress autorewrite with eff_rw
    | progress cbn [out final trace self tick app] ].

(** ** Lawful programs

    Every combinator preserves [Lawful]: a program built from them awaits
    the oracle at consecutive indices and records each reply it is given.
    The instances let type class resolution prove [Lawful] of a method by
    following its text. *)

Section LawfulPrograms.
Context {Op V St : Type}.
#[local] Abbreviation eff := (eff Op V St).
Implicit Types (E : oracle V) (w : world St).

Lemma upcoming_add E w w' n m :
  tick w' = (tick w + n)%nat →
  upcoming E w n ++ upcoming E w' m = upcoming E w (n + m).
Proof. intros H. unfold upcoming. by rewrite seq_app, fmap_app, H. Qed.

(** A program that awaits nothing is lawful. *)
Lemma lawful_silent {A} (m : eff A) :
  (∀ E w, tick (final (run m E w)) = tick w ∧ replies (trace (run m E w)) = []) →
  Lawful m.
Proof. intros H E w. exists 0%nat. destruct (H E w) as [-> ->]. by rewrite Nat.add_0_r. Qed.

(** A program followed by another one, whatever decides that the second one
    runs. *)
Lemma lawful_then {A B} (m : eff A) (k : eff B) E w :
  Lawful m → Lawful k →
  ∃ n, tick (final (prepend (trace (run m E w)) (run k E (final (run m E w))))) =
         (tick w + n)%nat ∧
       replies (trace (prepend (trace (run m E w)) (run k E (final (run m E w))))) =
         upcoming E w n.
Proof.
  intros Hm Hk. destruct (Hm E w) as (n & Ht & Hr).
  destruct (Hk E (final (run m E w))) as (n' & Ht' & Hr').
  exists (n + n')%nat. rewrite final_prepend, trace_prepend, replies_app, Hr, Hr', Ht'.
  split; [lia|by apply upcoming_add].
Qed.

#[export] Instance ret_lawful {A} (a : A) : Lawful (mret a : eff A).
Proof. by apply lawful_silent. Qed.

#[export] Instance raise_lawful {A} e : Lawful (raise e : eff A).
Proof. by apply lawful_silent. Qed.

#[export] Instance sleep_lawful d : Lawful (sleep d : eff unit).
Proof. by apply lawful_silent. Qed.

#[export] Instance get_self_lawful : Lawful (get_self : eff St).
Proof. by apply lawful_silent. Qed.

#[export] Instance put_self_lawful s : Lawful (put_self s : eff unit).
Proof. by apply lawful_silent. Qed.

#[export] Instance call_lawful (op : Op) : Lawful (call op : eff V).
Proof. intros E w. exists 1%nat. rewrite run_call. cbn. split; [lia|done]. Qed.

#[export] Instance bind_lawful {A B} (m : eff A) (k : A → eff B) :
  Lawful m → (∀ a, Lawful (k a)) → Lawful (m ≫= k).
Proof.
  intros Hm Hk E w. rewrite run_bind.
  destruct (out (run m E w)) as [a|e]; [by apply lawful_then|apply Hm].
Qed.

#[export] Instance try_except_lawful {A} (m : eff A) (h : exn → eff A) :
  Lawful m → (∀ e, Lawful (h e)) → Lawful (try_except m h).
Proof.
  intros Hm Hh E w. rewrite run_try_except.
  destruct (out (run m E w)) as [a|e]; [apply Hm|by apply lawful_then].
Qed.

#[export] Instance for_from_lawful {L A} n i (body : Z → L → eff (ctl L A)) l :
  (∀ i l, Lawful (body i l)) → Lawful (for_from n i body l).
Proof.
  intros Hb. revert i l. induction n as [|n IH]; intros i l; [by apply lawful_silent|].
  cbn [for_from]. apply bind_lawful; [done|]. intros [l'|l'|a]; apply _.
Qed.

#[export] Instance for_range_lawful {L A} stop (body : Z → L → eff (ctl L A)) l :
  (∀ i l, Lawful (body i l)) → Lawful (for_range stop body l).
Proof. intros. unfold for_range. apply _. Qed.

(** What a lawful program records is what the environment answered, one
    reply per awaited call. *)
Lemma lawful_replies {A} (m : eff A) `{!Lawful m} E w :
  replies (trace (run m E w)) = upcoming E w (length (ops (trace (run m E w)))) ∧
  tick (final (run m E w)) = (tick w + length (ops (trace (run m E w))))%nat.
Proof.
  destruct (lawful (m:=m) E w) as (n & Ht & Hr).
  by rewrite length_ops_replies, Hr, length_upcoming.
Qed.

End LawfulPrograms.

(** The tests of a program are followed by case analysis. *)
#[export] Hint Extern 2 (Lawful (match ?x with _ => _ end)) =>
  destruct x : typeclass_instances.
