(* ===== verification/Laws.v ===== *)
(** * Laws: programs that run alike, and the laws of sequencing

    A program of [eff] is a function of the oracle and of the world, so two
    programs that are written differently are different terms even when
    every run of one is the run of the other.  [m ≡ m'] is that
    equivalence; sequencing, [try ... except] and the loops respect it, so
    that a statement can be replaced by an equivalent one anywhere in a
    method, also under the binder of a sequence ([rewrite],
    [setoid_rewrite], [f_equiv]).  The laws of sequencing are stated with
    it. *)

From S2P Require Import Prelude Effects.

Section Laws.
Context {Op V St : Type}.
#[local] Abbreviation eff := (eff Op V St).

#[export] Instance eff_equiv {A} : Equiv (eff A) :=
  λ m m', ∀ E w, run m E w = run m' E w.

#[export] Instance eff_equivalence {A} : Equivalence (≡@{eff A}).
Proof.
  split; [by intros ???|by intros ?????|].
  intros m1 m2 m3 H12 H23 E w. by rewrite H12.
Qed.

(** ** The combinators respect it *)

#[export] Instance run_proper {A} : Proper ((≡) ==> (=) ==> (=) ==> (=)) (run (A:=A)).
Proof. intros m m' Hm ? E -> ? w ->. apply Hm. Qed.

#[export] Instance mbind_proper {A B} :
  Proper (pointwise_relation A (≡) ==> (≡) ==> (≡)) (mbind (M:=eff) (A:=A) (B:=B)).
Proof.
  intros k k' Hk m m' Hm E w. rewrite !run_bind, (Hm E w).
  destruct (out (run m' E w)); [by rewrite (Hk _ E)|done].
Qed.

#[export] Instance try_except_proper {A} :
  Proper ((≡) ==> pointwise_relation exn (≡) ==> (≡)) (try_except (A:=A) (St:=St)).
Proof.
  intros m m' Hm h h' Hh E w. rewrite !run_try_except, (Hm E w).
  destruct (out (run m' E w)); [done|by rewrite (Hh _ E)].
Qed.

#[export] Instance for_from_proper {L A} n i :
  Proper (pointwise_relation Z (pointwise_relation L (≡)) ==> (=) ==> (≡))
    (for_from (L:=L) (A:=A) (St:=St) n i).
Proof.
  intros body body' Hb l ? <-. revert i l.
  induction n as [|n IH]; intros i l; cbn [for_from]; [done|].
  rewrite (Hb i l). f_equiv. intros [l'|l'|a]; [apply IH|done..].
Qed.

#[export] Instance for_range_proper {L A} stop :
  Proper (pointwise_relation Z (pointwise_relation L (≡)) ==> (=) ==> (≡))
    (for_range (L:=L) (A:=A) (St:=St) stop).
Proof. apply for_from_proper. Qed.

#[export] Instance Lawful_proper {A} : Proper ((≡) ==> iff) (Lawful (A:=A) (St:=St)).
Proof.
  assert (∀ m m' : eff A, m ≡ m' → Lawful m → Lawful m') as H.
  { intros m m' Hm Hl E w. rewrite <- (Hm E w). apply Hl. }
  intros m m' Hm. split; apply H; [done|by symmetry].
Qed.

(** ** The laws *)

Lemma bind_ret_l {A B} (a : A) (k : A → eff B) : mret a ≫= k ≡ k a.
Proof. intros E w. rewrite run_bind, run_ret. cbn [out final trace]. apply prepend_nil. Qed.

Lemma bind_ret_r {A} (m : eff A) : m ≫= mret ≡ m.
Proof.
  intros E w. rewrite run_bind. destruct (run m E w) as [[a|e] w' t]; cbn [out final trace]; [|done].
  by rewrite run_ret, prepend_Ran, app_nil_r.
Qed.

Lemma bind_assoc {A B C} (m : eff A) (k : A → eff B) (h : B → eff C) :
  (m ≫= k) ≫= h ≡ m ≫= λ a, k a ≫= h.
Proof.
  intros E w. rewrite !run_bind. destruct (run m E w) as [[a|e] w' t]; cbn [out final trace]; [|done].
  rewrite out_prepend, final_prepend, trace_prepend, run_bind.
  destruct (run (k a) E w') as [[b|e] w'' t']; cbn [out final trace]; [|done].
  by rewrite prepend_prepend.
Qed.

Lemma bind_raise {A B} e (k : A → eff B) : raise e ≫= k ≡ raise e.
Proof. intros E w. by rewrite run_bind, !run_raise. Qed.

Lemma try_except_ret {A} (a : A) (h : exn → eff A) : try_except (mret a) h ≡ mret a.
Proof. intros E w. by rewrite run_try_except, run_ret. Qed.

Lemma try_except_raise {A} e (h : exn → eff A) : try_except (raise e) h ≡ h e.
Proof. intros E w. rewrite run_try_except, run_raise. cbn [out final trace]. apply prepend_nil. Qed.

(** A handler that raises what it caught handles nothing. *)
Lemma try_except_reraise {A} (m : eff A) : try_except m raise ≡ m.
Proof.
  intros E w. rewrite run_try_except. destruct (run m E w) as [[a|e] w' t]; cbn [out final trace]; [done|].
  by rewrite run_raise, prepend_Ran, app_nil_r.
Qed.

(** Reading [self] twice is reading it once; what is written is what is
    read next. *)
Lemma get_self_get_self {A} (k : St → St → eff A) :
  (s ← get_self; s' ← get_self; k s s') ≡ (s ← get_self; k s s).
Proof. intros E w. by rewrite !run_get_self_bind. Qed.

Lemma put_self_get_self {A} s (k : St → eff A) :
  (put_self s;; s' ← get_self; k s') ≡ (put_self s;; k s).
Proof.
  intros E w. rewrite (run_bind (put_self s)), (run_bind (put_self s) (λ _, k s)).
  rewrite !run_put_self. cbn [out final trace]. by rewrite run_get_self_bind.
Qed.

(** A read of [self] that is not used is no statement. *)
Lemma get_self_unused {A} (m : eff A) : (get_self;; m) ≡ m.
Proof. intros E w. by rewrite run_get_self_bind. Qed.

Lemma put_self_put_self s s' : (put_self s;; put_self s') ≡@{eff unit} put_self s'.
Proof. intros E w. by rewrite !run_bind, !run_put_self. Qed.

(** A loop over an empty range does nothing. *)
Lemma for_range_nonpos_equiv {L A} stop (body : Z → L → eff (ctl L A)) l :
  (stop ≤ 0)%Z → for_range stop body l ≡ mret (inl l).
Proof. intros Hs E w. by rewrite for_range_nonpos, run_ret. Qed.

End Laws.
