(* ===== verification/Related.v ===== *)
(** * Related: two runs that differ in what the methods cannot see

    The models of the processors carry more than the Python objects hold:
    the phase of the session of the SMTP client is a field of the model of
    the library object, kept so that the theorems can say "a message is only
    transmitted over an authenticated session".  No method of the sources
    reads it.  This file is the tool that proves such a statement: a
    relation between programs, lifted from a relation [Rst] on the objects
    and a relation [Rop] on the awaited calls, with one lemma per
    combinator, so that the text of a method is related to itself by
    following its syntax.

    [eff_rel Rop Rst RA m m']: over the same replies and from related
    objects, [m] and [m'] return related values (or raise the same
    exception), leave related objects, take the same number of replies and
    await related calls in the same order.  [Proper (eff_rel Rop Rst RA) m]
    then says that [m] cannot tell related objects apart. *)

From S2P Require Import Prelude Effects.

Section Related.
Context {Op V St : Type} (Rop : relation Op) (Rst : relation St).

Inductive event_rel : relation (event Op V) :=
| called_rel op op' r : Rop op op' → event_rel (Called op r) (Called op' r)
| slept_rel d : event_rel (Slept d) (Slept d).

Inductive outcome_rel {A} (RA : relation A) : relation (outcome A) :=
| ok_rel a a' : RA a a' → outcome_rel RA (Ok a) (Ok a')
| raise_rel e : outcome_rel RA (Raise e) (Raise e).

Inductive ctl_rel {L A} (RL : relation L) (RA : relation A) : relation (ctl L A) :=
| next_rel l l' : RL l l' → ctl_rel RL RA (Next l) (Next l')
| break_rel l l' : RL l l' → ctl_rel RL RA (Break l) (Break l')
| return_rel a a' : RA a a' → ctl_rel RL RA (Return a) (Return a').

Definition world_rel : relation (world St) :=
  λ w w', Rst (self w) (self w') ∧ tick w = tick w'.

Record ran_rel {A} (RA : relation A) (r r' : ran Op V St A) : Prop := RanRel {
  rel_out : outcome_rel RA (out r) (out r');
  rel_final : world_rel (final r) (final r');
  rel_trace : Forall2 event_rel (trace r) (trace r')
}.

Definition eff_rel {A} (RA : relation A) : relation (eff Op V St A) :=
  λ m m', ∀ E, (world_rel ==> ran_rel RA)%signature (run m E) (run m' E).

(** ** The relations are equivalences when their parameters are *)

#[export] Instance event_rel_equivalence `{!Equivalence Rop} : Equivalence event_rel.
Proof.
  split.
  - intros []; by constructor.
  - intros ?? []; by constructor.
  - intros ??? [] Hyz; inversion Hyz; subst; constructor. by etrans.
Qed.

#[export] Instance outcome_rel_equivalence {A} (RA : relation A) `{!Equivalence RA} :
  Equivalence (outcome_rel RA).
Proof.
  split.
  - intros []; by constructor.
  - intros ?? []; by constructor.
  - intros ??? [] Hyz; inversion Hyz; subst; constructor. by etrans.
Qed.

#[export] Instance world_rel_equivalence `{!Equivalence Rst} : Equivalence world_rel.
Proof.
  split.
  - by intros [].
  - by intros ?? [].
  - intros ??? [] []. split; [by etrans|congruence].
Qed.

(** Equal outcomes, when the values are compared by equality. *)
Lemma outcome_rel_eq {A} (o o' : outcome A) : outcome_rel eq o o' ↔ o = o'.
Proof. split; [by intros [? ? ->|]|intros ->; destruct o'; by constructor]. Qed.

(** Related traces have the same replies and the same sleeps. *)
Lemma event_rel_replies t t' : Forall2 event_rel t t' → replies t = replies t'.
Proof.
  induction 1 as [|? ? ? ? [] ? IH]; [done|..];
    rewrite ?replies_called, ?replies_slept; by rewrite IH.
Qed.

Lemma event_rel_sleeps t t' : Forall2 event_rel t t' → sleeps t = sleeps t'.
Proof.
  induction 1 as [|? ? ? ? [] ? IH]; [done|..];
    rewrite ?sleeps_called, ?sleeps_slept; by rewrite IH.
Qed.

Lemma event_rel_ops t t' : Forall2 event_rel t t' → Forall2 Rop (ops t) (ops t').
Proof.
  induction 1 as [|? ? ? ? [] ? IH]; [done|..];
    rewrite ?ops_called, ?ops_slept; by try constructor.
Qed.

(** ** One lemma per combinator *)

#[local] Ltac related_runs :=
  split; cbn [out final trace]; [by constructor|done|by repeat constructor || done].

(** The two shapes of related runs. *)
Lemma ran_rel_inv {A} (RA : relation A) r r' :
  ran_rel RA r r' →
  (∃ a a' w w' t t', r = Ran (Ok a) w t ∧ r' = Ran (Ok a') w' t' ∧
     RA a a' ∧ world_rel w w' ∧ Forall2 event_rel t t') ∨
  (∃ e w w' t t', r = Ran (Raise e) w t ∧ r' = Ran (Raise e) w' t' ∧
     world_rel w w' ∧ Forall2 event_rel t t').
Proof.
  destruct r as [o w t], r' as [o' w' t']. intros [Ho Hw Ht]. cbn in *.
  destruct Ho; [left|right]; naive_solver.
Qed.

Lemma ran_rel_prepend {A} (RA : relation A) t t' r r' :
  Forall2 event_rel t t' → ran_rel RA r r' → ran_rel RA (prepend t r) (prepend t' r').
Proof.
  intros Ht [Ho Hw Hr]. destruct r, r'. cbn in *.
  split; [done..|by apply Forall2_app].
Qed.

Lemma eff_rel_ret {A} (RA : relation A) a a' :
  RA a a' → eff_rel RA (mret a) (mret a').
Proof. intros Ha E w w' Hw. rewrite !run_ret. related_runs. Qed.

Lemma eff_rel_raise {A} (RA : relation A) e : eff_rel RA (raise e) (raise e).
Proof. intros E w w' Hw. rewrite !run_raise. related_runs. Qed.

Lemma eff_rel_bind {A B} (RA : relation A) (RB : relation B) m m' f f' :
  eff_rel RA m m' → (RA ==> eff_rel RB)%signature f f' →
  eff_rel RB (m ≫= f) (m' ≫= f').
Proof.
  intros Hm Hf E w w' Hw. rewrite !run_bind.
  destruct (ran_rel_inv _ _ _ (Hm E w w' Hw)) as [(a & a' & w1 & w1' & t & t' & -> & -> & ? & ? & ?)|(e & w1 & w1' & t & t' & -> & -> & ? & ?)].
  - apply ran_rel_prepend; [done|]. by apply Hf.
  - related_runs.
Qed.

Lemma eff_rel_try_except {A} (RA : relation A) m m' h h' :
  eff_rel RA m m' → (∀ e, eff_rel RA (h e) (h' e)) →
  eff_rel RA (try_except m h) (try_except m' h').
Proof.
  intros Hm Hh E w w' Hw. rewrite !run_try_except.
  destruct (ran_rel_inv _ _ _ (Hm E w w' Hw)) as [(a & a' & w1 & w1' & t & t' & -> & -> & ? & ? & ?)|(e & w1 & w1' & t & t' & -> & -> & ? & ?)].
  - related_runs.
  - apply ran_rel_prepend; [done|]. by apply Hh.
Qed.

Lemma eff_rel_call op op' : Rop op op' → eff_rel eq (call op) (call op').
Proof.
  intros Hop E w w' [Hs Ht]. rewrite !run_call, Ht.
  split; cbn; [by apply outcome_rel_eq|done|by repeat constructor].
Qed.

Lemma eff_rel_sleep d : eff_rel eq (sleep d) (sleep d).
Proof. intros E w w' Hw. rewrite !run_sleep. related_runs. Qed.

Lemma eff_rel_get_self : eff_rel Rst get_self get_self.
Proof. intros E w w' Hw. rewrite !run_get_self. destruct Hw. related_runs. Qed.

Lemma eff_rel_put_self s s' : Rst s s' → eff_rel eq (put_self s) (put_self s').
Proof. intros Hs E w w' [_ Ht]. rewrite !run_put_self. related_runs. Qed.

Lemma eff_rel_for_from {L A} (RL : relation L) (RA : relation A) n i
    (body body' : Z → L → eff Op V St (ctl L A)) :
  (∀ i, (RL ==> eff_rel (ctl_rel RL RA))%signature (body i) (body' i)) →
  (RL ==> eff_rel (sum_relation RL RA))%signature
    (for_from n i body) (for_from n i body').
Proof.
  intros Hb. revert i. induction n as [|n IH]; intros i l l' Hl; cbn [for_from].
  { apply eff_rel_ret. by constructor. }
  eapply eff_rel_bind; [by apply Hb|].
  intros ? ? [l1 l1' H1|l1 l1' H1|a a' Ha];
    [by apply IH|apply eff_rel_ret; by constructor..].
Qed.

Lemma eff_rel_for_range {L A} (RL : relation L) (RA : relation A) stop
    (body body' : Z → L → eff Op V St (ctl L A)) :
  (∀ i, (RL ==> eff_rel (ctl_rel RL RA))%signature (body i) (body' i)) →
  (RL ==> eff_rel (sum_relation RL RA))%signature
    (for_range stop body) (for_range stop body').
Proof. apply eff_rel_for_from. Qed.

(** A coarser relation on the values relates more programs. *)
Lemma eff_rel_mono {A} (RA RA' : relation A) m m' :
  (∀ a a', RA a a' → RA' a a') → eff_rel RA m m' → eff_rel RA' m m'.
Proof.
  intros HR Hm E w w' Hw. destruct (Hm E w w' Hw) as [Ho Hfin Ht].
  split; [|done..]. destruct Ho; constructor; auto.
Qed.

(** The loop, when its values are compared by equality. *)
Lemma eff_rel_for_range_eq {L A} stop (body body' : Z → L → eff Op V St (ctl L A)) l :
  (∀ i l, eff_rel eq (body i l) (body' i l)) →
  eff_rel eq (for_range stop body l) (for_range stop body' l).
Proof.
  intros Hb. apply (eff_rel_mono (sum_relation eq eq)).
  { by intros ?? [?? ->|?? ->]. }
  apply (eff_rel_for_range eq eq); [|done]. intros i l1 l2 ->.
  apply (eff_rel_mono eq); [|done]. intros [] ? <-; by constructor.
Qed.

(** ** As morphisms *)

#[export] Instance mret_related {A} (RA : relation A) :
  Proper (RA ==> eff_rel RA) mret.
Proof. intros ???. by apply eff_rel_ret. Qed.

#[export] Instance mbind_related {A B} (RA : relation A) (RB : relation B) :
  Proper ((RA ==> eff_rel RB) ==> eff_rel RA ==> eff_rel RB) mbind.
Proof. intros ??????. by eapply eff_rel_bind. Qed.

#[export] Instance try_except_related {A} (RA : relation A) :
  Proper (eff_rel RA ==> pointwise_relation _ (eff_rel RA) ==> eff_rel RA) try_except.
Proof. intros ??????. by apply eff_rel_try_except. Qed.

#[export] Instance call_related : Proper (Rop ==> eff_rel eq) call.
Proof. intros ???. by apply eff_rel_call. Qed.

#[export] Instance put_self_related : Proper (Rst ==> eff_rel eq) put_self.
Proof. intros ???. by apply eff_rel_put_self. Qed.

#[export] Instance get_self_related : Proper (eff_rel Rst) get_self.
Proof. apply eff_rel_get_self. Qed.

(** The relation is symmetric and transitive; a program is related to
    itself exactly when it cannot tell related objects apart. *)
#[export] Instance eff_rel_per {A} (RA : relation A)
  `{!Equivalence Rop, !Equivalence Rst, !Equivalence RA} : RelationClasses.PER (eff_rel RA).
Proof.
  split.
  - intros m m' H E w w' Hw. destruct (H E w' w) as [Ho Hf Ht]; [done|].
    split; by symmetry.
  - intros m1 m2 m3 H12 H23 E w w' Hw.
    destruct (H12 E w w) as [Ho Hf Ht]; [done|].
    destruct (H23 E w w' Hw) as [Ho' Hf' Ht']. split; by etrans.
Qed.

End Related.
