(* ===== verification/Monitor.v ===== *)
(** * Monitor: protocols of the awaited calls, and a weakest precondition

    A processor uses a library object under a protocol: a connection is
    established before it is used, and released before another one is
    established.  A protocol is a monitor, a function [watch] that follows
    the events of a trace from a state of its own and gets stuck where the
    protocol is broken.

    [wp watch m Q g s] says that, from the monitor state [g] and the object
    [s], whatever the replies, the trace of [m] is accepted by the monitor,
    and [Q] holds of the outcome, the state the monitor ends in and the
    object [m] leaves.  It has one rule per combinator, so that a method is
    verified by following its text backwards from the postcondition, and a
    rule of consequence to use the specification of a method that is
    called. *)

From S2P Require Import Prelude Effects.

Section Monitor.
Context {Ev G : Type} (watch : G → Ev → option G).
Implicit Types (g : G) (t : list Ev).

(** The state of the monitor after the trace [t], [None] when an event of
    [t] is not accepted. *)
Fixpoint monitor (g : G) (t : list Ev) : option G :=
  match t with
  | [] => Some g
  | ev :: t => g' ← watch g ev; monitor g' t
  end.

(** ** The monitor along a trace *)

Lemma monitor_app g t t' : monitor g (t ++ t') = g' ← monitor g t; monitor g' t'.
Proof.
  revert g. induction t as [|ev t IH]; intros g; cbn [monitor app]; [done|].
  destruct (watch g ev) as [g1|]; cbn; [apply IH|done].
Qed.

Lemma monitor_app_Some g g' g'' t t' :
  monitor g t = Some g' → monitor g' t' = Some g'' → monitor g (t ++ t') = Some g''.
Proof. intros Ht Ht'. by rewrite monitor_app, Ht. Qed.

(** The protocol is a safety property: what begins an accepted trace is
    accepted. *)
Lemma monitor_prefix g t t' : is_Some (monitor g (t ++ t')) → is_Some (monitor g t).
Proof. rewrite monitor_app. by destruct (monitor g t). Qed.

End Monitor.

(** A monitor of a trace of another kind of events, through a map of the
    events. *)
Lemma monitor_fmap {Ev Ev' G} (watch : G → Ev' → option G) (f : Ev → Ev') g t :
  monitor watch g (f <$> t) = monitor (λ g ev, watch g (f ev)) g t.
Proof.
  revert g. induction t as [|ev t IH]; intros g; cbn [monitor fmap list_fmap]; [done|].
  destruct (watch g (f ev)); cbn; [apply IH|done].
Qed.

(** ** The weakest precondition *)

Section Wp.
Context {Op V St G : Type} (watch : G → event Op V → option G).
#[local] Abbreviation eff := (eff Op V St).
#[local] Abbreviation monitor := (monitor watch).
Implicit Types (g : G) (s : St) (t : list (event Op V)).

(** The run [r] is accepted from [g], and ends as [Q] says. *)
Definition accepts {A} (Q : outcome A → G → St → Prop) (g : G) (r : ran Op V St A)
    : Prop :=
  match monitor g (trace r) with
  | Some g' => Q (out r) g' (self (final r))
  | None => False
  end.

Definition wp {A} (m : eff A) (Q : outcome A → G → St → Prop) (g : G) (s : St) : Prop :=
  ∀ E n, accepts Q g (run m E (World s n)).

Lemma accepts_prepend {A} (Q : outcome A → G → St → Prop) g g' t r :
  monitor g t = Some g' → accepts Q g' r → accepts Q g (prepend t r).
Proof.
  unfold accepts. intros Ht. destruct r as [o w t']. cbn [prepend out final trace].
  by rewrite monitor_app, Ht.
Qed.

Lemma accepts_inv {A} (Q : outcome A → G → St → Prop) g r :
  accepts Q g r → ∃ g', monitor g (trace r) = Some g' ∧ Q (out r) g' (self (final r)).
Proof. unfold accepts. destruct (monitor g (trace r)) as [g'|]; [eauto|done]. Qed.

(** ** The rules *)

Lemma wp_mono {A} (m : eff A) (Q Q' : outcome A → G → St → Prop) g s :
  wp m Q g s → (∀ o g' s', Q o g' s' → Q' o g' s') → wp m Q' g s.
Proof.
  intros Hm HQ E n. specialize (Hm E n). unfold accepts in *.
  destruct (monitor g _); [by apply HQ|done].
Qed.

Lemma wp_ret {A} (a : A) (Q : outcome A → G → St → Prop) g s :
  Q (Ok a) g s → wp (mret a) Q g s.
Proof. intros HQ E n. by rewrite run_ret. Qed.

Lemma wp_raise {A} e (Q : outcome A → G → St → Prop) g s :
  Q (Raise e) g s → wp (raise e) Q g s.
Proof. intros HQ E n. by rewrite run_raise. Qed.

Lemma wp_bind {A B} (m : eff A) (k : A → eff B) (Q : outcome B → G → St → Prop) g s :
  wp m (λ o g' s', match o with
                   | Ok a => wp (k a) Q g' s'
                   | Raise e => Q (Raise e) g' s'
                   end) g s →
  wp (m ≫= k) Q g s.
Proof.
  intros Hm E n. rewrite run_bind.
  destruct (accepts_inv _ _ _ (Hm E n)) as (g' & Ht & HQ).
  destruct (run m E (World s n)) as [[a|e] [s' n'] t]; cbn [out final trace self] in *.
  - eapply accepts_prepend; [done|apply HQ].
  - unfold accepts. cbn [out final trace self]. by rewrite Ht.
Qed.

Lemma wp_try_except {A} (m : eff A) (h : exn → eff A)
    (Q : outcome A → G → St → Prop) g s :
  wp m (λ o g' s', match o with
                   | Ok a => Q (Ok a) g' s'
                   | Raise e => wp (h e) Q g' s'
                   end) g s →
  wp (try_except m h) Q g s.
Proof.
  intros Hm E n. rewrite run_try_except.
  destruct (accepts_inv _ _ _ (Hm E n)) as (g' & Ht & HQ).
  destruct (run m E (World s n)) as [[a|e] [s' n'] t]; cbn [out final trace self] in *.
  - unfold accepts. cbn [out final trace self]. by rewrite Ht.
  - eapply accepts_prepend; [done|apply HQ].
Qed.

(** A call is accepted whatever its reply, and the continuation runs from
    the state the monitor is then in. *)
Lemma wp_call (op : Op) (Q : outcome V → G → St → Prop) g s :
  (∀ r, ∃ g', watch g (Called op r) = Some g' ∧
     Q (match r with Returns v => Ok v | Raises e => Raise e end) g' s) →
  wp (call op) Q g s.
Proof.
  intros Hop E n. rewrite run_call. unfold accepts. cbn.
  destruct (Hop (E n)) as (g' & -> & HQ). cbn. by destruct (E n).
Qed.

Lemma wp_sleep d (Q : outcome unit → G → St → Prop) g g' s :
  watch g (Slept d) = Some g' → Q (Ok tt) g' s → wp (sleep d) Q g s.
Proof. intros Hd HQ E n. rewrite run_sleep. unfold accepts. cbn. by rewrite Hd. Qed.

Lemma wp_get_self (Q : outcome St → G → St → Prop) g s :
  Q (Ok s) g s → wp get_self Q g s.
Proof. intros HQ E n. by rewrite run_get_self. Qed.

Lemma wp_put_self s' (Q : outcome unit → G → St → Prop) g s :
  Q (Ok tt) g s' → wp (put_self s') Q g s.
Proof. intros HQ E n. by rewrite run_put_self. Qed.

(** The loop, by an invariant of the monitor state and the object between
    two iterations. *)
Lemma wp_for_from {L A} (Inv : L → G → St → Prop) (body : Z → L → eff (ctl L A))
    (Q : outcome (L + A) → G → St → Prop) n : ∀ i l g s,
  (∀ i l g s, Inv l g s →
     wp (body i l) (λ o g' s', match o with
                               | Ok (Next l') => Inv l' g' s'
                               | Ok (Break l') => Q (Ok (inl l')) g' s'
                               | Ok (Return a) => Q (Ok (inr a)) g' s'
                               | Raise e => Q (Raise e) g' s'
                               end) g s) →
  (∀ l g s, Inv l g s → Q (Ok (inl l)) g s) →
  Inv l g s → wp (for_from n i body l) Q g s.
Proof.
  induction n as [|n IH]; intros i l g s Hbody Hend HI; cbn [for_from].
  { apply wp_ret. by apply Hend. }
  apply wp_bind. eapply wp_mono; [by apply Hbody|]. cbn beta.
  intros [[l'|l'|a]|e] g' s' H; [by apply IH|by apply wp_ret..|done].
Qed.

Lemma wp_for_range {L A} (Inv : L → G → St → Prop) (body : Z → L → eff (ctl L A))
    (Q : outcome (L + A) → G → St → Prop) stop l g s :
  (∀ i l g s, Inv l g s →
     wp (body i l) (λ o g' s', match o with
                               | Ok (Next l') => Inv l' g' s'
                               | Ok (Break l') => Q (Ok (inl l')) g' s'
                               | Ok (Return a) => Q (Ok (inr a)) g' s'
                               | Raise e => Q (Raise e) g' s'
                               end) g s) →
  (∀ l g s, Inv l g s → Q (Ok (inl l)) g s) →
  Inv l g s → wp (for_range stop body l) Q g s.
Proof. apply wp_for_from. Qed.

(** What [wp] says of a run. *)
Lemma wp_run {A} (m : eff A) (Q : outcome A → G → St → Prop) g E w :
  wp m Q g (self w) →
  ∃ g', monitor g (trace (run m E w)) = Some g' ∧
        Q (out (run m E w)) g' (self (final (run m E w))).
Proof. intros Hm. destruct w as [s n]. apply accepts_inv, Hm. Qed.

End Wp.
