(* ===== verification/Coro.v ===== *)
(** * Coro: coroutines with suspension points

    The monad [eff] of [Effects] runs one coroutine from its call to its
    return.  Python's event loop may run several coroutines of one object
    at once: each runs until it awaits a library call or a sleep, and
    another one may run before it is resumed.  This file gives the
    coroutines a second reading, as trees whose nodes are the suspension
    points, and the scheduler that interleaves them over a shared [self].

    [PyMonad] is the signature of the operations the sources use; a method
    written once against it is read in [eff] (one coroutine, run to its
    end) and in [coro] (a tree, to be interleaved). *)

From S2P Require Import Prelude Effects.

(** ** The operations of a coroutine *)

Class PyMonad (Op V St : Type) (M : Type → Type) := {
  py_ret :: MRet M;
  py_bind :: MBind M;
  py_raise : ∀ {A}, exn → M A;
  py_try_except : ∀ {A}, M A → (exn → M A) → M A;
  py_call : Op → M V;
  py_sleep : Z → M unit;
  py_get_self : M St;
  py_put_self : St → M unit
}.

Arguments py_raise {Op V St M _ A} e.
Arguments py_try_except {Op V St M _ A} m h.
Arguments py_call {Op V St M _} op.
Arguments py_sleep {Op V St M _} d.
Arguments py_get_self {Op V St M _}.
Arguments py_put_self {Op V St M _} s.

Section Loop.
Context `{PyMonad Op V St M}.

(** [for i in range(stop)], as in [Effects]. *)
Fixpoint py_for_from {L A} (n : nat) (i : Z) (body : Z → L → M (ctl L A)) (l : L)
    : M (L + A) :=
  match n with
  | O => mret (inl l)
  | S n' =>
      c ← body i l;
      match c with
      | Next l' => py_for_from n' (i + 1) body l'
      | Break l' => mret (inl l')
      | Return a => mret (inr a)
      end
  end.

Definition py_for_range {L A} (stop : Z) (body : Z → L → M (ctl L A)) (l : L)
    : M (L + A) :=
  py_for_from (Z.to_nat stop) 0 body l.

End Loop.

(** The first reading: one coroutine, run to its end. *)
#[export] Instance eff_py {Op V St} : PyMonad Op V St (eff Op V St) := {|
  py_ret := eff_ret;
  py_bind := eff_bind;
  py_raise := @raise Op V St;
  py_try_except := @try_except Op V St;
  py_call := call;
  py_sleep := sleep;
  py_get_self := get_self;
  py_put_self := put_self
|}.

(** ** Coroutines as trees *)

Section Coro.
Context {Op V St : Type}.

(** A coroutine between two suspension points reads and writes [self]; it
    is suspended when it awaits a library call or a sleep, and ends with a
    value or an exception. *)
Inductive coro (A : Type) : Type :=
| Done (a : A)
| Failed (e : exn)
| Await (op : Op) (k : reply V → coro A)
| Sleeping (d : Z) (k : coro A)
| Reading (k : St → coro A)
| Writing (s : St) (k : coro A).

Arguments Done {A} a.
Arguments Failed {A} e.
Arguments Await {A} op k.
Arguments Sleeping {A} d k.
Arguments Reading {A} k.
Arguments Writing {A} s k.

Fixpoint coro_bind {A B} (m : coro A) (f : A → coro B) : coro B :=
  match m with
  | Done a => f a
  | Failed e => Failed e
  | Await op k => Await op (λ r, coro_bind (k r) f)
  | Sleeping d k => Sleeping d (coro_bind k f)
  | Reading k => Reading (λ s, coro_bind (k s) f)
  | Writing s k => Writing s (coro_bind k f)
  end.

Fixpoint coro_try {A} (m : coro A) (h : exn → coro A) : coro A :=
  match m with
  | Done a => Done a
  | Failed e => h e
  | Await op k => Await op (λ r, coro_try (k r) h)
  | Sleeping d k => Sleeping d (coro_try k h)
  | Reading k => Reading (λ s, coro_try (k s) h)
  | Writing s k => Writing s (coro_try k h)
  end.

#[export] Instance coro_py : PyMonad Op V St coro := {|
  py_ret := @Done;
  py_bind := λ A B f m, coro_bind m f;
  py_raise := @Failed;
  py_try_except := @coro_try;
  py_call := λ op, Await op (λ r, match r with Returns v => Done v | Raises e => Failed e end);
  py_sleep := λ d, Sleeping d (Done tt);
  py_get_self := Reading Done;
  py_put_self := λ s, Writing s (Done tt)
|}.

(** ** The scheduler *)

(** A coroutine runs without interruption up to its next suspension
    point. *)
Fixpoint settle {A} (c : coro A) (s : St) : coro A * St :=
  match c with
  | Reading k => settle (k s) s
  | Writing s' k => settle k s'
  | _ => (c, s)
  end.

(** A suspended coroutine is resumed with the reply to its call, and runs
    to its next suspension point.  A coroutine that has ended stays as it
    is. *)
Definition resume {A} (c : coro A) (r : reply V) (s : St)
    : coro A * St * list (event Op V) :=
  match c with
  | Await op k => (settle (k r) s, [Called op r])
  | Sleeping d k => (settle k s, [Slept d])
  | _ => (c, s, [])
  end.

(** The tasks are started in order, each one up to its first suspension
    point. *)
Fixpoint spawn {A} (tasks : list (coro A)) (s : St) : list (coro A) * St :=
  match tasks with
  | [] => ([], s)
  | c :: tasks =>
      let '(c', s') := settle c s in
      let '(tasks', s'') := spawn tasks s' in
      (c' :: tasks', s'')
  end.

(** A schedule names, step by step, the task the event loop resumes and the
    reply it is resumed with.  The run yields the tasks, the shared state
    and the events, each with the task that emitted it. *)
Fixpoint interleave {A} (schedule : list (nat * reply V)) (tasks : list (coro A))
    (s : St) : list (coro A) * St * list (nat * event Op V) :=
  match schedule with
  | [] => (tasks, s, [])
  | (i, r) :: schedule =>
      match tasks !! i with
      | Some c =>
          let '(c', s', t) := resume c r s in
          let '(tasks', s'', t') := interleave schedule (<[i := c']> tasks) s' in
          (tasks', s'', ((i,.) <$> t) ++ t')
      | None => interleave schedule tasks s
      end
  end.

(** The tasks run concurrently from the state [s] under a schedule. *)
Definition concurrently {A} (schedule : list (nat * reply V)) (tasks : list (coro A))
    (s : St) : list (coro A) * St * list (nat * event Op V) :=
  let '(tasks', s') := spawn tasks s in interleave schedule tasks' s'.

(** ** Coroutines that never raise *)

(** No exception leaves the coroutine, whatever the replies to its calls
    and whatever [self] holds each time it is read: other coroutines may
    have changed it at any suspension point. *)
Inductive never_fails {A} : coro A → Prop :=
| nf_done a : never_fails (Done a)
| nf_await op k : (∀ r, never_fails (k r)) → never_fails (Await op k)
| nf_sleeping d k : never_fails k → never_fails (Sleeping d k)
| nf_reading k : (∀ s, never_fails (k s)) → never_fails (Reading k)
| nf_writing s k : never_fails k → never_fails (Writing s k).

Class NeverFails {A} (c : coro A) : Prop := it_never_fails : never_fails c.

End Coro.

Arguments coro Op V St A : clear implicits.
Arguments Done {Op V St A} a.
Arguments Failed {Op V St A} e.
Arguments Await {Op V St A} op k.
Arguments Sleeping {Op V St A} d k.
Arguments Reading {Op V St A} k.
Arguments Writing {Op V St A} s k.

(** ** Coroutines that never raise: the combinators *)

Section NeverFails.
Context {Op V St : Type}.
#[local] Abbreviation coro := (coro Op V St).

Lemma never_fails_bind {A B} (m : coro A) (f : A → coro B) :
  never_fails m → (∀ a, never_fails (f a)) → never_fails (coro_bind m f).
Proof. intros Hm Hf. induction Hm; cbn [coro_bind]; [done|by constructor..]. Qed.

(** A handler that never raises makes the whole statement safe, whatever
    is tried. *)
Lemma never_fails_try {A} (m : coro A) (h : exn → coro A) :
  (∀ e, never_fails (h e)) → never_fails (coro_try m h).
Proof. intros Hh. induction m; cbn [coro_try]; [constructor|done|by constructor..]. Qed.

#[export] Instance ret_never_fails {A} (a : A) : NeverFails (mret a : coro A).
Proof. constructor. Qed.

#[export] Instance bind_never_fails {A B} (m : coro A) (f : A → coro B) :
  NeverFails m → (∀ a, NeverFails (f a)) → NeverFails (m ≫= f).
Proof. apply never_fails_bind. Qed.

#[export] Instance try_except_never_fails {A} (m : coro A) (h : exn → coro A) :
  (∀ e, NeverFails (h e)) → NeverFails (py_try_except m h).
Proof. apply never_fails_try. Qed.

#[export] Instance sleep_never_fails d : NeverFails (py_sleep d : coro unit).
Proof. by repeat constructor. Qed.

#[export] Instance get_self_never_fails : NeverFails (py_get_self : coro St).
Proof. by repeat constructor. Qed.

#[export] Instance put_self_never_fails s : NeverFails (py_put_self s : coro unit).
Proof. by repeat constructor. Qed.

#[export] Instance for_from_never_fails {L A} n i (body : Z → L → coro (ctl L A)) l :
  (∀ i l, NeverFails (body i l)) → NeverFails (py_for_from n i body l).
Proof.
  intros Hb. revert i l. induction n as [|n IH]; intros i l; cbn [py_for_from]; [apply _|].
  apply bind_never_fails; [done|]. intros [l'|l'|a]; apply _.
Qed.

#[export] Instance for_range_never_fails {L A} stop (body : Z → L → coro (ctl L A)) l :
  (∀ i l, NeverFails (body i l)) → NeverFails (py_for_range stop body l).
Proof. intros. unfold py_for_range. apply _. Qed.

(** *** The scheduler keeps the property *)

Lemma never_fails_settle {A} (c : coro A) s : never_fails c → never_fails (settle c s).1.
Proof. intros Hc. revert s. induction Hc; intros s'; cbn [settle fst]; by try constructor. Qed.

Lemma never_fails_resume {A} (c : coro A) r s :
  never_fails c → never_fails (resume c r s).1.1.
Proof.
  intros Hc. destruct Hc; cbn [resume fst]; try (by constructor);
    by apply never_fails_settle.
Qed.

Lemma never_fails_spawn {A} (tasks : list (coro A)) s :
  Forall never_fails tasks → Forall never_fails (spawn tasks s).1.
Proof.
  intros Htasks. revert s. induction Htasks as [|c tasks Hc _ IH]; intros s; [done|].
  cbn [spawn]. pose proof (never_fails_settle c s Hc) as Hc'.
  destruct (settle c s) as [c' s']. specialize (IH s').
  destruct (spawn tasks s') as [tasks' s'']. by constructor.
Qed.

Lemma never_fails_interleave {A} schedule (tasks : list (coro A)) s :
  Forall never_fails tasks → Forall never_fails (interleave schedule tasks s).1.1.
Proof.
  revert tasks s. induction schedule as [|[i r] schedule IH]; intros tasks s Htasks; [done|].
  cbn [interleave]. destruct (tasks !! i) as [c|] eqn:Hi; [|by apply IH].
  pose proof (never_fails_resume c r s (Forall_lookup_1 _ _ _ _ Htasks Hi)) as Hc'.
  destruct (resume c r s) as [[c' s'] t].
  specialize (IH (<[i := c']> tasks) s' (Forall_insert _ _ _ _ Htasks Hc')).
  by destruct (interleave schedule _ s') as [[tasks' s''] t'].
Qed.

(** Tasks that never raise, run concurrently under any schedule: none of
    them ends with an exception. *)
Lemma never_fails_concurrently {A} schedule (tasks : list (coro A)) s i e :
  Forall never_fails tasks →
  (concurrently schedule tasks s).1.1 !! i ≠ Some (Failed e).
Proof.
  intros Htasks. unfold concurrently.
  pose proof (never_fails_spawn tasks s Htasks) as Hs.
  destruct (spawn tasks s) as [tasks' s'].
  pose proof (never_fails_interleave schedule tasks' s' Hs) as Hi.
  intros Hf. apply (Forall_lookup_1 _ _ _ _ Hi) in Hf. inversion Hf.
Qed.

End NeverFails.

(** The tests of a coroutine are followed by case analysis. *)
#[export] Hint Extern 2 (NeverFails (match ?x with _ => _ end)) =>
  destruct x : typeclass_instances.

(** ** The two readings agree on a coroutine that runs alone *)

Section Readings.
Context {Op V St : Type}.
#[local] Abbreviation coro := (coro Op V St).
#[local] Abbreviation eff := (eff Op V St).
Implicit Types (E : oracle V) (w : world St).

(** A tree run from its root to a leaf, the replies taken from an oracle. *)
Fixpoint interp {A} (c : coro A) : eff A :=
  match c with
  | Done a => mret a
  | Failed e => raise e
  | Await op k => λ E w,
      prepend [Called op (E (tick w))]
        (interp (k (E (tick w))) E (World (self w) (S (tick w))))
  | Sleeping d k => λ E w, prepend [Slept d] (interp k E w)
  | Reading k => λ E w, interp (k (self w)) E w
  | Writing s k => λ E w, interp k E (World s (tick w))
  end.

(** The tree [c] and the program [m] are two readings of one text. *)
Class Reads {A} (c : coro A) (m : eff A) : Prop :=
  reads : ∀ E w, run (interp c) E w = run m E w.

Lemma run_interp_await {A} op (k : reply V → coro A) E w :
  run (interp (Await op k)) E w =
  prepend [Called op (E (tick w))]
    (run (interp (k (E (tick w)))) E (World (self w) (S (tick w)))).
Proof. reflexivity. Qed.

Lemma run_interp_sleeping {A} d (k : coro A) E w :
  run (interp (Sleeping d k)) E w = prepend [Slept d] (run (interp k) E w).
Proof. reflexivity. Qed.

Lemma run_interp_reading {A} (k : St → coro A) E w :
  run (interp (Reading k)) E w = run (interp (k (self w))) E w.
Proof. reflexivity. Qed.

Lemma run_interp_writing {A} s (k : coro A) E w :
  run (interp (Writing s k)) E w = run (interp k) E (World s (tick w)).
Proof. reflexivity. Qed.

(** What follows a prefix of events, by the outcome of the prefix. *)
Lemma prepend_continue {A B} t (r : ran Op V St A)
    (ok : A → world St → list (event Op V) → ran Op V St B) :
  (∀ a w' t' t'', ok a w' (t'' ++ t') = prepend t'' (ok a w' t')) →
  prepend t (match r with
             | Ran (Ok a) w' t' => ok a w' t'
             | Ran (Raise e) w' t' => Ran (Raise e) w' t'
             end) =
  match prepend t r with
  | Ran (Ok a) w' t' => ok a w' t'
  | Ran (Raise e) w' t' => Ran (Raise e) w' t'
  end.
Proof. intros Hok. destruct r as [[a|e] w' t']; cbn; [by rewrite Hok|done]. Qed.

Lemma interp_bind {A B} (c : coro A) (f : A → coro B) E w :
  run (interp (coro_bind c f)) E w =
  match run (interp c) E w with
  | Ran (Ok a) w' t => prepend t (run (interp (f a)) E w')
  | Ran (Raise e) w' t => Ran (Raise e) w' t
  end.
Proof.
  revert w. induction c as [a|e|op k IH|d k IH|k IH|s k IH]; intros w; cbn [coro_bind].
  - symmetry. apply prepend_nil.
  - done.
  - rewrite !run_interp_await, IH.
    apply (prepend_continue _ _ (λ a w' t', prepend t' (run (interp (f a)) E w'))).
    intros. by rewrite prepend_prepend.
  - rewrite !run_interp_sleeping, IH.
    apply (prepend_continue _ _ (λ a w' t', prepend t' (run (interp (f a)) E w'))).
    intros. by rewrite prepend_prepend.
  - by rewrite !run_interp_reading, IH.
  - by rewrite !run_interp_writing, IH.
Qed.

Lemma interp_try {A} (c : coro A) (h : exn → coro A) E w :
  run (interp (coro_try c h)) E w =
  match run (interp c) E w with
  | Ran (Ok a) w' t => Ran (Ok a) w' t
  | Ran (Raise e) w' t => prepend t (run (interp (h e)) E w')
  end.
Proof.
  revert w. induction c as [a|e|op k IH|d k IH|k IH|s k IH]; intros w; cbn [coro_try].
  - done.
  - symmetry. apply prepend_nil.
  - rewrite !run_interp_await, IH.
    destruct (run (interp (k _)) E _) as [[a|e] w' t']; cbn; [done|].
    by rewrite prepend_prepend.
  - rewrite !run_interp_sleeping, IH.
    destruct (run (interp k) E _) as [[a|e] w' t']; cbn; [done|].
    by rewrite prepend_prepend.
  - by rewrite !run_interp_reading, IH.
  - by rewrite !run_interp_writing, IH.
Qed.

#[export] Instance ret_reads {A} (a : A) : Reads (mret a) (mret a).
Proof. by intros E w. Qed.

#[export] Instance raise_reads {A} e : Reads (py_raise e : coro A) (raise e).
Proof. by intros E w. Qed.

#[export] Instance call_reads (op : Op) : Reads (py_call op) (call op).
Proof. intros E w. cbn [py_call coro_py]. rewrite run_interp_await, run_call.
  by destruct (E (tick w)). Qed.

#[export] Instance sleep_reads d : Reads (py_sleep d) (sleep d).
Proof. by intros E w. Qed.

#[export] Instance get_self_reads : Reads py_get_self get_self.
Proof. by intros E w. Qed.

#[export] Instance put_self_reads s : Reads (py_put_self s) (put_self s).
Proof. by intros E w. Qed.

#[export] Instance bind_reads {A B} (c : coro A) (f : A → coro B) (m : eff A)
    (k : A → eff B) :
  Reads c m → (∀ a, Reads (f a) (k a)) → Reads (c ≫= f) (m ≫= k).
Proof.
  intros Hc Hf E w. unfold mbind at 1. cbn [py_bind coro_py].
  rewrite interp_bind, run_bind, (reads (c:=c)).
  destruct (run m E w) as [[a|e] w' t]; cbn [out final trace]; [|done].
  by rewrite (reads (c:=f a)).
Qed.

#[export] Instance try_except_reads {A} (c : coro A) (h : exn → coro A) (m : eff A)
    (h' : exn → eff A) :
  Reads c m → (∀ e, Reads (h e) (h' e)) → Reads (py_try_except c h) (try_except m h').
Proof.
  intros Hc Hh E w. cbn [py_try_except coro_py].
  rewrite interp_try, run_try_except, (reads (c:=c)).
  destruct (run m E w) as [[a|e] w' t]; cbn [out final trace]; [done|].
  by rewrite (reads (c:=h e)).
Qed.

#[export] Instance for_from_reads {L A} n i (body : Z → L → coro (ctl L A))
    (body' : Z → L → eff (ctl L A)) l :
  (∀ i l, Reads (body i l) (body' i l)) →
  Reads (py_for_from n i body l) (for_from n i body' l).
Proof.
  intros Hb. revert i l.
  induction n as [|n IH]; intros i l; cbn [py_for_from for_from]; [apply _|].
  apply bind_reads; [done|]. intros [l'|l'|a]; apply _.
Qed.

#[export] Instance for_range_reads {L A} stop (body : Z → L → coro (ctl L A))
    (body' : Z → L → eff (ctl L A)) l :
  (∀ i l, Reads (body i l) (body' i l)) →
  Reads (py_for_range stop body l) (for_range stop body' l).
Proof. intros. unfold py_for_range, for_range. apply _. Qed.

(** *** A task scheduled alone *)

(** How a coroutine ends. *)
Definition ended {A} (o : outcome A) : coro A :=
  match o with Ok a => Done a | Raise e => Failed e end.

(** The schedule that resumes task [i] once per event of a trace, with the
    reply the trace records. *)
Definition solo (i : nat) (t : list (event Op V)) : list (nat * reply V) :=
  (λ ev, (i, match ev with
             | Called _ r => r
             | Slept _ => Raises (Exn OtherError None "")
             end)) <$> t.

Lemma interleave_alone {A} (c : coro A) E w :
  interleave (solo 0 (trace (run (interp c) E w))) [(settle c (self w)).1]
    (settle c (self w)).2 =
  ([ended (out (run (interp c) E w))], self (final (run (interp c) E w)),
   (0%nat,.) <$> trace (run (interp c) E w)).
Proof.
  revert w. induction c as [a|e|op k IH|d k IH|k IH|s k IH]; intros w; [done|done|..].
  - rewrite run_interp_await, out_prepend, final_prepend, trace_prepend.
    cbn [app solo fmap list_fmap settle fst snd interleave lookup list_lookup resume].
    specialize (IH (E (tick w)) (World (self w) (S (tick w)))). cbn [self] in IH.
    destruct (settle (k (E (tick w))) (self w)) as [c' s'].
    cbn [list_insert insert fst snd] in *. unfold solo in IH. by rewrite IH.
  - rewrite run_interp_sleeping, out_prepend, final_prepend, trace_prepend.
    cbn [app solo fmap list_fmap settle fst snd interleave lookup list_lookup resume].
    specialize (IH w). destruct (settle k (self w)) as [c' s'].
    cbn [list_insert insert fst snd] in *. unfold solo in IH. by rewrite IH.
  - rewrite run_interp_reading. apply IH.
  - rewrite run_interp_writing. apply (IH (World s (tick w))).
Qed.

(** A coroutine scheduled alone, resumed with the replies of the oracle,
    ends as the program that reads the same text, in the same state and
    with the same events. *)
Lemma concurrently_alone {A} (c : coro A) (m : eff A) `{!Reads c m} E w :
  concurrently (solo 0 (trace (run m E w))) [c] (self w) =
  ([ended (out (run m E w))], self (final (run m E w)),
   (0%nat,.) <$> trace (run m E w)).
Proof.
  rewrite <- (reads (c:=c)). unfold concurrently. cbn [spawn].
  pose proof (interleave_alone c E w) as H.
  by destruct (settle c (self w)) as [c' s'].
Qed.

End Readings.

#[export] Hint Extern 2 (Reads (match ?x with _ => _ end) (match ?x with _ => _ end)) =>
  destruct x : typeclass_instances.

(** ** Coroutines that do not write

    A coroutine that never assigns to [self] cannot disturb another one:
    run concurrently, each of them ends as if it had run alone with the
    replies it was given. *)

Section ReadOnly.
Context {Op V St : Type}.
#[local] Abbreviation coro := (coro Op V St).

Inductive read_only {A} : coro A → Prop :=
| ro_done a : read_only (Done a)
| ro_failed e : read_only (Failed e)
| ro_await op k : (∀ r, read_only (k r)) → read_only (Await op k)
| ro_sleeping d k : read_only k → read_only (Sleeping d k)
| ro_reading k : (∀ s, read_only (k s)) → read_only (Reading k).

Class ReadOnly {A} (c : coro A) : Prop := is_read_only : read_only c.

#[export] Instance ret_read_only {A} (a : A) : ReadOnly (mret a : coro A).
Proof. constructor. Qed.

#[export] Instance raise_read_only {A} e : ReadOnly (py_raise e : coro A).
Proof. constructor. Qed.

#[export] Instance call_read_only (op : Op) : ReadOnly (py_call op : coro V).
Proof. constructor. intros []; constructor. Qed.

#[export] Instance sleep_read_only d : ReadOnly (py_sleep d : coro unit).
Proof. by repeat constructor. Qed.

#[export] Instance get_self_read_only : ReadOnly (py_get_self : coro St).
Proof. by repeat constructor. Qed.

#[export] Instance bind_read_only {A B} (m : coro A) (f : A → coro B) :
  ReadOnly m → (∀ a, ReadOnly (f a)) → ReadOnly (m ≫= f).
Proof.
  intros Hm Hf. unfold mbind. cbn [py_bind coro_py].
  induction Hm; cbn [coro_bind]; [apply Hf|by constructor..].
Qed.

#[export] Instance try_except_read_only {A} (m : coro A) (h : exn → coro A) :
  ReadOnly m → (∀ e, ReadOnly (h e)) → ReadOnly (py_try_except m h).
Proof.
  intros Hm Hh. cbn [py_try_except coro_py].
  induction Hm; cbn [coro_try]; [constructor|apply Hh|by constructor..].
Qed.

#[export] Instance for_from_read_only {L A} n i (body : Z → L → coro (ctl L A)) l :
  (∀ i l, ReadOnly (body i l)) → ReadOnly (py_for_from n i body l).
Proof.
  intros Hb. revert i l. induction n as [|n IH]; intros i l; cbn [py_for_from]; [apply _|].
  apply bind_read_only; [done|]. intros [l'|l'|a]; apply _.
Qed.

#[export] Instance for_range_read_only {L A} stop (body : Z → L → coro (ctl L A)) l :
  (∀ i l, ReadOnly (body i l)) → ReadOnly (py_for_range stop body l).
Proof. intros. unfold py_for_range. apply _. Qed.

Lemma settle_read_only {A} (c : coro A) s :
  read_only c → (settle c s).2 = s ∧ read_only (settle c s).1.
Proof. intros Hc. induction Hc; cbn [settle]; try (split; [done|by constructor]). done. Qed.

Lemma resume_read_only {A} (c : coro A) r s :
  read_only c → (resume c r s).1.2 = s ∧ read_only (resume c r s).1.1.
Proof.
  intros Hc. destruct Hc; cbn [resume fst snd]; try (split; [done|by constructor]);
    by apply settle_read_only.
Qed.

(** The part of a schedule that resumes task [i], as a schedule for that
    task alone. *)
Definition own (i : nat) (schedule : list (nat * reply V)) : list (nat * reply V) :=
  (λ x, (0%nat, x.2)) <$> filter (λ x, x.1 = i) schedule.

Lemma interleave_read_only {A} schedule (tasks : list (coro A)) s :
  Forall read_only tasks →
  (interleave schedule tasks s).1.2 = s ∧
  ∀ i c, tasks !! i = Some c →
    (interleave schedule tasks s).1.1 !! i = (interleave (own i schedule) [c] s).1.1 !! 0%nat.
Proof.
  revert tasks. induction schedule as [|[j r] schedule IH]; intros tasks Htasks; [done|].
  cbn [interleave]. destruct (tasks !! j) as [cj|] eqn:Hj.
  - destruct (resume_read_only cj r s (Forall_lookup_1 _ _ _ _ Htasks Hj)) as [Hs Hcj'].
    destruct (resume cj r s) as [[cj' s'] t] eqn:Hres. cbn [fst snd] in Hs, Hcj'. subst s'.
    destruct (IH (<[j := cj']> tasks) (Forall_insert _ _ _ _ Htasks Hcj')) as [IHs IHt].
    destruct (interleave schedule _ s) as [[tasks' s''] t'] eqn:Hrest. cbn [fst snd] in *.
    split; [done|]. intros i c Hi. unfold own.
    destruct (decide (j = i)) as [->|Hne].
    + rewrite filter_cons_True by done.
      cbn [fmap list_fmap snd interleave lookup list_lookup].
      rewrite Hj in Hi. injection Hi as <-. rewrite Hres. cbn [list_insert insert].
      rewrite (IHt i cj') by (apply list_lookup_insert_eq; by eapply lookup_lt_Some).
      unfold own. by destruct (interleave _ [cj'] s) as [[? ?] ?].
    + rewrite filter_cons_False by done. apply IHt. by rewrite list_lookup_insert_ne.
  - destruct (IH tasks Htasks) as [IHs IHt]. split; [done|]. intros i c Hi.
    unfold own. rewrite filter_cons_False by (cbn; intros ->; congruence). by apply IHt.
Qed.

Lemma spawn_read_only {A} (tasks : list (coro A)) s :
  Forall read_only tasks →
  (spawn tasks s).2 = s ∧ Forall read_only (spawn tasks s).1 ∧
  ∀ i c, tasks !! i = Some c → (spawn tasks s).1 !! i = Some (settle c s).1.
Proof.
  intros Htasks. induction Htasks as [|c tasks Hc _ IH]; [done|].
  cbn [spawn]. destruct (settle_read_only c s Hc) as [Hs Hc'].
  destruct (settle c s) as [c' s'] eqn:Hset. cbn [fst snd] in *. subst s'.
  destruct IH as (IHs & IHf & IHl). destruct (spawn tasks s) as [tasks' s'']. cbn in *.
  split_and!; [done|by constructor|]. intros [|i] c0 Hi; cbn in *.
  - injection Hi as <-. by rewrite Hset.
  - by apply IHl.
Qed.

(** Independence: concurrent tasks that do not write leave [self] as it
    was, and each of them ends as it does alone with its own share of the
    schedule. *)
Lemma concurrently_read_only {A} schedule (tasks : list (coro A)) s i c :
  Forall read_only tasks → tasks !! i = Some c →
  (concurrently schedule tasks s).1.2 = s ∧
  (concurrently schedule tasks s).1.1 !! i =
    (concurrently (own i schedule) [c] s).1.1 !! 0%nat.
Proof.
  intros Htasks Hi. unfold concurrently. cbn [spawn].
  pose proof (Forall_lookup_1 _ _ _ _ Htasks Hi) as Hc.
  destruct (spawn_read_only tasks s Htasks) as (Hs & Hf & Hl).
  specialize (Hl i c Hi). destruct (spawn tasks s) as [tasks' s']. cbn [fst snd] in *.
  subst s'. destruct (interleave_read_only schedule tasks' s Hf) as [Hs' Ht].
  rewrite (Ht i _ Hl). destruct (settle_read_only c s Hc) as [Hcs _].
  destruct (settle c s) as [c' s']. cbn [fst snd] in *. by subst s'.
Qed.

End ReadOnly.

#[export] Hint Extern 2 (ReadOnly (match ?x with _ => _ end)) =>
  destruct x : typeclass_instances.
