(* ===== verification/Environment.v ===== *)
(** * Environment: coroutines run against a service with a state

    In [Effects] the environment is an oracle: the theorems hold whatever
    the services answer.  A service that is given, a server with its own
    state which answers each call from that state, is one such
    environment.  [serve] runs a coroutine against it; [served] says of a
    trace that its replies are the ones the service gives.  A run against
    the service is the run over the oracle of these replies
    ([serve_oracle]), and a run over any oracle whose trace the service
    would have produced is the run against the service ([serve_of_run]):
    what is proved for every oracle holds against every service, and what
    a service answers selects the paths a program takes. *)

From S2P Require Import Prelude Effects Coro.

Section Serve.
Context {Op V St Sv : Type}.
#[local] Abbreviation coro := (coro Op V St).
#[local] Abbreviation eff := (eff Op V St).
#[local] Abbreviation ran := (ran Op V St).

(** The service: its reply to a call and the state the call leaves. *)
Context (respond : Op → Sv → reply V * Sv).
Implicit Types (sv : Sv) (w : world St) (E : oracle V) (t : list (event Op V)).

(** The coroutine [c], run to its end from the world [w], each awaited
    call answered by the service. *)
Fixpoint serve {A} (c : coro A) (sv : Sv) (w : world St) : ran A * Sv :=
  match c with
  | Done a => (Ran (Ok a) w [], sv)
  | Failed e => (Ran (Raise e) w [], sv)
  | Await op k =>
      let x := serve (k (respond op sv).1) (respond op sv).2
                 (World (self w) (S (tick w))) in
      (prepend [Called op (respond op sv).1] x.1, x.2)
  | Sleeping d k => let x := serve k sv w in (prepend [Slept d] x.1, x.2)
  | Reading k => serve (k (self w)) sv w
  | Writing s k => serve k sv (World s (tick w))
  end.

(** The replies of the trace [t] are those the service gives from the state
    [sv], and the calls of [t] leave it in the state [sv']. *)
Inductive served : Sv → list (event Op V) → Sv → Prop :=
| served_nil sv : served sv [] sv
| served_called sv op t sv' :
    served (respond op sv).2 t sv' →
    served sv (Called op (respond op sv).1 :: t) sv'
| served_slept sv d t sv' : served sv t sv' → served sv (Slept d :: t) sv'.

(** The state of the service after the calls of a trace. *)
Fixpoint after (sv : Sv) (t : list (event Op V)) : Sv :=
  match t with
  | [] => sv
  | Called op _ :: t => after (respond op sv).2 t
  | Slept _ :: t => after sv t
  end.

Lemma served_after sv t sv' : served sv t sv' → sv' = after sv t.
Proof. induction 1; cbn [after]; done. Qed.

Lemma served_app sv t t' sv'' :
  served sv (t ++ t') sv'' ↔ ∃ sv', served sv t sv' ∧ served sv' t' sv''.
Proof.
  split.
  - revert sv. induction t as [|ev t IH]; intros sv H; cbn [app] in H.
    + exists sv. split; [constructor|done].
    + inversion H; subst; destruct (IH _ ltac:(eassumption)) as (sv1 & ? & ?);
        exists sv1; (split; [by constructor|done]).
  - intros (sv' & Ht & Ht'). induction Ht; cbn [app]; [done|constructor; auto..].
Qed.

(** What the first call of a served trace was answered. *)
Lemma served_cons_called sv op r t sv' :
  served sv (Called op r :: t) sv' ↔
  r = (respond op sv).1 ∧ served (respond op sv).2 t sv'.
Proof.
  split; [by inversion 1|]. intros [-> ?]. by constructor.
Qed.

Lemma served_cons_slept sv d t sv' :
  served sv (Slept d :: t) sv' ↔ served sv t sv'.
Proof. split; [by inversion 1|]. by constructor. Qed.

Lemma served_nil_inv sv sv' : served sv [] sv' ↔ sv' = sv.
Proof. split; [by inversion 1|]. intros ->. constructor. Qed.

(** The trace of a run against the service is served by it. *)
Lemma serve_served {A} (c : coro A) sv w :
  served sv (trace (serve c sv w).1) (serve c sv w).2.
Proof.
  revert sv w. induction c as [a|e|op k IH|d k IH|k IH|s k IH]; intros sv w;
    cbn [serve fst snd]; rewrite ?trace_prepend; cbn [trace app];
    first [by constructor | apply IH | constructor; apply IH].
Qed.

(** A run over an oracle, whose trace the service would have produced, is
    the run against the service. *)
Lemma serve_of_run {A} (c : coro A) sv E w sv' :
  served sv (trace (run (interp c) E w)) sv' →
  serve c sv w = (run (interp c) E w, sv').
Proof.
  revert sv w. induction c as [a|e|op k IH|d k IH|k IH|s k IH]; intros sv w.
  - intros ->%served_nil_inv. done.
  - intros ->%served_nil_inv. done.
  - rewrite run_interp_await, trace_prepend. cbn [app serve].
    intros [Hr Ht]%served_cons_called. rewrite <- Hr. by rewrite (IH _ _ _ Ht).
  - rewrite run_interp_sleeping, trace_prepend. cbn [app serve].
    intros Ht%served_cons_slept. by rewrite (IH _ _ Ht).
  - rewrite run_interp_reading. apply IH.
  - rewrite run_interp_writing. apply IH.
Qed.

(** A served sequence: its first statement is served, and so is the rest
    when the first statement returns. *)
Lemma served_bind {A B} (m : eff A) (k : A → eff B) E w sv sv' :
  served sv (trace (run (m ≫= k) E w)) sv' →
  ∃ sv1, served sv (trace (run m E w)) sv1 ∧
    match out (run m E w) with
    | Ok a => served sv1 (trace (run (k a) E (final (run m E w)))) sv'
    | Raise _ => sv1 = sv'
    end.
Proof.
  rewrite run_bind. destruct (run m E w) as [[a|e] w' t]; cbn [out final trace];
    rewrite ?trace_prepend; [apply served_app|by exists sv'].
Qed.

(** A served loop, one iteration at a time: the first iteration is
    served, and so is the rest of the loop when the body asks for it. *)
Lemma served_for_from_S {L A} n i (body : Z → L → eff (ctl L A)) l E w sv sv' :
  served sv (trace (run (for_from (S n) i body l) E w)) sv' →
  ∃ sv1, served sv (trace (run (body i l) E w)) sv1 ∧
    match out (run (body i l) E w) with
    | Ok (Next l') =>
        served sv1 (trace (run (for_from n (i + 1) body l') E
                             (final (run (body i l) E w)))) sv'
    | _ => sv1 = sv'
    end.
Proof.
  rewrite for_from_S.
  destruct (run (body i l) E w) as [[[l'|l'|a]|e] w' t]; cbn [out final trace];
    rewrite ?trace_prepend; [apply served_app|by exists sv'..].
Qed.

(** The oracle that answers from reply number [n] on as the trace [t]
    records, and as [E] before and after. *)
Definition answering (n : nat) (t : list (event Op V)) (E : oracle V) : oracle V :=
  λ i, if decide (n ≤ i)%nat then default (E i) (replies t !! (i - n)%nat) else E i.

Lemma answering_nil n E i : answering n [] E i = E i.
Proof. unfold answering. by case_decide. Qed.

Lemma answering_here n op r t E : answering n (Called op r :: t) E n = r.
Proof.
  unfold answering. rewrite decide_True by lia. by rewrite Nat.sub_diag.
Qed.

Lemma answering_called n op r t E i :
  answering n (Called op r :: t) E i =
  answering (S n) t (λ j, if decide (j = n) then r else E j) i.
Proof.
  unfold answering. rewrite replies_called.
  destruct (decide (i = n)) as [->|Hne].
  - rewrite decide_True, decide_False by lia. by rewrite Nat.sub_diag.
  - repeat case_decide; try lia; [|done].
    by replace (i - n)%nat with (S (i - S n)) by lia.
Qed.

Lemma answering_slept n d t E i :
  answering n (Slept d :: t) E i = answering n t E i.
Proof. unfold answering. by rewrite replies_slept. Qed.

(** A run depends on the oracle through the replies it consumes only. *)
Lemma interp_local {A} (c : coro A) E E' w :
  (∀ i, (tick w ≤ i)%nat → E i = E' i) →
  run (interp c) E w = run (interp c) E' w.
Proof.
  revert w. induction c as [a|e|op k IH|d k IH|k IH|s k IH]; intros w HE; [done|done|..].
  - rewrite !run_interp_await, <- (HE (tick w)) by lia.
    f_equal. apply IH. cbn [tick]. intros i Hi. apply HE. lia.
  - rewrite !run_interp_sleeping. f_equal. by apply IH.
  - rewrite !run_interp_reading. by apply IH.
  - rewrite !run_interp_writing. by apply IH.
Qed.

(** A run against the service is the run over the oracle of the replies
    the service gave. *)
Lemma serve_oracle {A} (c : coro A) sv w E :
  (serve c sv w).1 =
  run (interp c) (answering (tick w) (trace (serve c sv w).1) E) w.
Proof.
  revert sv w E. induction c as [a|e|op k IH|d k IH|k IH|s k IH]; intros sv w E;
    cbn [serve fst].
  - done.
  - done.
  - rewrite run_interp_await, trace_prepend. cbn [app].
    rewrite answering_here. f_equal.
    etrans;
      [apply (IH _ _ _ (λ j, if decide (j = tick w) then (respond op sv).1 else E j))|].
    apply interp_local. intros i _. cbn [tick]. symmetry. apply answering_called.
  - rewrite run_interp_sleeping, trace_prepend. cbn [app]. f_equal.
    etrans; [apply (IH _ _ E)|]. apply interp_local. intros i _. symmetry.
    apply answering_slept.
  - rewrite run_interp_reading. apply IH.
  - rewrite run_interp_writing. apply (IH sv (World s (tick w))).
Qed.

(** Both facts for a program [m] that reads the text of [c]: against the
    service, [c] runs as [m] does over some oracle, and the trace of that
    run is served. *)
Lemma serve_reads {A} (c : coro A) (m : eff A) `{!Reads c m} sv w :
  ∃ E, (serve c sv w).1 = run m E w ∧
       served sv (trace (run m E w)) (serve c sv w).2.
Proof.
  exists (answering (tick w) (trace (serve c sv w).1) (λ _, Raises (Exn OtherError None ""))).
  rewrite <- (reads (c:=c)), <- serve_oracle. split; [done|apply serve_served].
Qed.

Lemma serve_of_reads {A} (c : coro A) (m : eff A) `{!Reads c m} sv E w sv' :
  served sv (trace (run m E w)) sv' → serve c sv w = (run m E w, sv').
Proof. rewrite <- (reads (c:=c)). apply serve_of_run. Qed.

End Serve.

(** A run depends on the oracle through the replies it consumes, and on
    nothing else: an oracle that agrees with [E] on the replies the run
    over [E] consumes gives the same run. *)
Lemma interp_consumed {Op V St A} (c : coro Op V St A) (E E' : oracle V) (w : world St) :
  (∀ i, (i < length (replies (trace (run (interp c) E w))))%nat →
        E (tick w + i)%nat = E' (tick w + i)%nat) →
  run (interp c) E w = run (interp c) E' w.
Proof.
  revert w. induction c as [a|e|op k IH|d k IH|k IH|s k IH]; intros w HE; [done|done|..].
  - rewrite run_interp_await, trace_prepend in HE. cbn [app] in HE.
    rewrite replies_called in HE. cbn [length] in HE.
    rewrite !run_interp_await. pose proof (HE 0%nat ltac:(lia)) as H0.
    rewrite Nat.add_0_r in H0. rewrite <- H0. f_equal. apply IH. cbn [tick].
    intros i Hi. replace (S (tick w) + i)%nat with (tick w + S i)%nat by lia.
    apply HE. lia.
  - rewrite run_interp_sleeping, trace_prepend in HE. cbn [app] in HE.
    rewrite replies_slept in HE. rewrite !run_interp_sleeping. f_equal. by apply IH.
  - rewrite run_interp_reading in HE. rewrite !run_interp_reading. by apply IH.
  - rewrite run_interp_writing in HE. rewrite !run_interp_writing. by apply IH.
Qed.

Lemma run_consumed {Op V St A} (c : coro Op V St A) (m : eff Op V St A) `{!Reads c m}
    (E E' : oracle V) (w : world St) :
  (∀ i, (i < length (replies (trace (run m E w))))%nat →
        E (tick w + i)%nat = E' (tick w + i)%nat) →
  run m E w = run m E' w.
Proof. rewrite <- (reads (c:=c) E), <- (reads (c:=c) E'). apply interp_consumed. Qed.

(** A program depends on the oracle through the replies it consumes only:
    two oracles that agree from the current index on give the same run. *)
Lemma run_local {Op V St A} (c : coro Op V St A) (m : eff Op V St A) `{!Reads c m}
    (E E' : oracle V) (w : world St) :
  (∀ i, (tick w ≤ i)%nat → E i = E' i) → run m E w = run m E' w.
Proof. rewrite <- (reads (c:=c) E), <- (reads (c:=c) E'). apply interp_local. Qed.
