(* ===== verification/Lock.v ===== *)
(** * Lock: coroutines serialized by a lock

    The specification asks the callers of a connection manager to
    serialize its sends.  In asyncio that is [async with lock:] around the
    call, the sends being started together.  This file models the lock as
    asyncio implements it: a task that asks for a free lock takes it and
    runs on; a task that asks for a held lock waits in a queue; the holder
    that ends hands the lock to the first task of the queue.

    A task of this file is the body of one [async with lock:] block.  The
    scheduler [serialized] starts the tasks in order and resumes them along
    a schedule, as [concurrently] of [Coro] does; the only task it can
    resume is the holder of the lock.  The theorem of the file,
    [serialized_in_turn], says that once every task has ended, they have run
    one after the other: each from the state the one before it left, as
    the programs that read the same text do over some oracle.

    The last section carries a protocol along the lock: when each program,
    run alone, follows a protocol of [Monitor] and keeps an invariant of
    the state, the events of the serialized tasks follow the protocol at
    every point of every schedule ([serialized_monitored]). *)

From S2P Require Import Prelude Effects Monitor Coro Environment.

Section Lock.
Context {Op V St A : Type}.
#[local] Abbreviation coro := (coro Op V St A).
#[local] Abbreviation eff := (eff Op V St A).
Implicit Types (c : coro) (s : St) (cs : list coro) (r : reply V)
  (t : list (event Op V)) (os : list (outcome A)).

(** ** The scheduler *)

Definition is_ended (c : coro) : bool :=
  match c with Done _ | Failed _ => true | _ => false end.

(** The tasks, the task that holds the lock, and those that wait for it in
    the order they asked. *)
Record pool : Type := Pool {
  slots : list coro;
  holder : option nat;
  waiting : list nat
}.

(** The lock is free: it goes to the first task of the queue, which runs to
    its first suspension point; a task that ends there releases the lock,
    and the next one takes it. *)
Fixpoint hand_over (queue : list nat) (slots : list coro) (s : St) : pool * St :=
  match queue with
  | [] => (Pool slots None [], s)
  | i :: queue =>
      match slots !! i with
      | Some c =>
          if is_ended (settle c s).1
          then hand_over queue (<[i := (settle c s).1]> slots) (settle c s).2
          else (Pool (<[i := (settle c s).1]> slots) (Some i) queue, (settle c s).2)
      | None => hand_over queue slots s
      end
  end.

(** Task [i] enters [async with lock:]. *)
Definition acquire (i : nat) (p : pool) (s : St) : pool * St :=
  match holder p with
  | Some _ => (Pool (slots p) (holder p) (waiting p ++ [i]), s)
  | None => hand_over (waiting p ++ [i]) (slots p) s
  end.

(** The tasks are started in order. *)
Definition spawn_locked (cs : list coro) (s : St) : pool * St :=
  foldl (λ ps i, acquire i ps.1 ps.2) (Pool cs None [], s) (seq 0 (length cs)).

(** The event loop resumes task [i] with the reply [r]: only the holder of
    the lock is suspended on a call or a sleep; when it ends, the lock is
    handed over. *)
Definition resume_locked (i : nat) (r : reply V) (p : pool) (s : St)
    : pool * St * list (event Op V) :=
  match slots p !! i with
  | Some c =>
      if decide (holder p = Some i) then
        if is_ended (resume c r s).1.1
        then (hand_over (waiting p) (<[i := (resume c r s).1.1]> (slots p))
                (resume c r s).1.2, (resume c r s).2)
        else (Pool (<[i := (resume c r s).1.1]> (slots p)) (Some i) (waiting p),
              (resume c r s).1.2, (resume c r s).2)
      else (p, s, [])
  | None => (p, s, [])
  end.

Fixpoint interleave_locked (schedule : list (nat * reply V)) (p : pool) (s : St)
    : pool * St * list (event Op V) :=
  match schedule with
  | [] => (p, s, [])
  | (i, r) :: schedule =>
      let x := resume_locked i r p s in
      let y := interleave_locked schedule x.1.1 x.1.2 in
      (y.1, x.2 ++ y.2)
  end.

(** The tasks run under the lock from the state [s] along a schedule. *)
Definition serialized (schedule : list (nat * reply V)) (cs : list coro) (s : St)
    : pool * St * list (event Op V) :=
  interleave_locked schedule (spawn_locked cs s).1 (spawn_locked cs s).2.

(** ** One task after the other *)

(** The coroutine [c], suspended in the state [s], is resumed some number
    of times and is then the coroutine [c'] in the state [s'], having
    emitted [t]. *)
Inductive steps : coro → St → coro → St → list (event Op V) → Prop :=
| steps_refl c s : steps c s c s []
| steps_more c s c' s' t r :
    steps c s c' s' t →
    steps c s (resume c' r s').1.1 (resume c' r s').1.2 (t ++ (resume c' r s').2).

(** The task [c] started in the state [s] ends with the outcome [o] in the
    state [s']. *)
Definition finishes (c : coro) (s : St) (o : outcome A) (s' : St)
    (t : list (event Op V)) : Prop :=
  steps (settle c s).1 (settle c s).2 (ended o) s' t.

(** The tasks end one after the other, each started in the state the one
    before it left. *)
Inductive turns : St → list coro → list (outcome A) → St → list (event Op V) → Prop :=
| turns_nil s : turns s [] [] s []
| turns_cons s c cs o os s' s'' t t' :
    finishes c s o s' t → turns s' cs os s'' t' →
    turns s (c :: cs) (o :: os) s'' (t ++ t').

(** The same of programs: each runs over some oracle from the state the one
    before it left. *)
Inductive in_turn : St → list eff → list (outcome A) → St → list (event Op V) → Prop :=
| in_turn_nil s : in_turn s [] [] s []
| in_turn_cons s m ms E n os s' t' :
    in_turn (self (final (run m E (World s n)))) ms os s' t' →
    in_turn s (m :: ms) (out (run m E (World s n)) :: os) s'
      (trace (run m E (World s n)) ++ t').

(** What the scheduler has done when [i] tasks have asked for the lock:
    the tasks before the holder have ended in turn, the holder is
    suspended in the middle of its run, the tasks after it wait in order
    and have not started. *)
Inductive progress (cs : list coro) (s0 : St) (i : nat)
    : pool → St → list (event Op V) → Prop :=
| idle os s t :
    turns s0 (take i cs) os s t →
    progress cs s0 i (Pool ((ended <$> os) ++ drop i cs) None []) s t
| busy k os c c' s_k t_k s t' :
    (k < i)%nat → turns s0 (take k cs) os s_k t_k → cs !! k = Some c →
    steps (settle c s_k).1 (settle c s_k).2 c' s t' → is_ended c' = false →
    progress cs s0 i
      (Pool ((ended <$> os) ++ c' :: drop (S k) cs) (Some k) (seq (S k) (i - S k)))
      s (t_k ++ t').

(** ** A task that runs alone *)

Section Facts.
Implicit Types (E : oracle V) (n i k : nat).

Lemma is_ended_ended c : is_ended c = true → ∃ o, c = ended o.
Proof. destruct c; intros [=]; [by eexists (Ok _)|by eexists (Raise _)]. Qed.

(** A tree and the tree it settles to run alike. *)
Lemma interp_settle c E s n :
  run (interp c) E (World s n) =
  run (interp (settle c s).1) E (World (settle c s).2 n).
Proof.
  revert s. induction c as [a|e|op k IH|d k IH|k IH|s' k IH]; intros s; try done.
  - rewrite run_interp_reading. apply IH.
  - rewrite run_interp_writing. apply IH.
Qed.

(** A resumption is one step of the run over an oracle that gives the
    reply of the resumption. *)
Lemma interp_resume c r s E n :
  (∀ r', replies (resume c r s).2 !! 0%nat = Some r' → E n = r') →
  run (interp c) E (World s n) =
  prepend (resume c r s).2
    (run (interp (resume c r s).1.1) E
       (World (resume c r s).1.2 (n + length (replies (resume c r s).2)))).
Proof.
  destruct c as [a|e|op k|d k|k|s' k]; cbn [resume fst snd replies length]; intros HE;
    rewrite ?Nat.add_0_r, ?prepend_nil; try done.
  - rewrite run_interp_await. cbn [self tick]. rewrite (HE r) by done.
    by rewrite (interp_settle (k r)), Nat.add_1_r.
  - by rewrite run_interp_sleeping, (interp_settle k).
Qed.

Lemma steps_interp c s c' s' t :
  steps c s c' s' t → ∀ E n,
  (∀ i r', replies t !! i = Some r' → E (n + i)%nat = r') →
  run (interp c) E (World s n) =
  prepend t (run (interp c') E (World s' (n + length (replies t)))).
Proof.
  induction 1 as [c s|c s c' s' t r _ IH]; intros E n HE.
  - by rewrite prepend_nil, Nat.add_0_r.
  - rewrite IH by (intros i r' Hi; apply HE; rewrite replies_app; by apply lookup_app_l_Some).
    rewrite (interp_resume c' r s'), prepend_prepend, replies_app, length_app, Nat.add_assoc;
      [done|].
    intros r' Hr'. rewrite <- (Nat.add_0_r (n + _)), <- Nat.add_assoc. apply HE.
    by rewrite replies_app, lookup_app_r, Nat.add_0_r, Nat.sub_diag by lia.
Qed.

Lemma answering_replies n t E i r :
  replies t !! i = Some r → answering n t E (n + i)%nat = r.
Proof.
  intros Hi. unfold answering. rewrite decide_True by lia.
  replace (n + i - n)%nat with i by lia. by rewrite Hi.
Qed.

(** A task that ends ran as its tree does over the oracle of the replies
    it was resumed with. *)
Lemma finishes_run c s o s' t E :
  finishes c s o s' t →
  run (interp c) (answering 0 t E) (World s 0) =
  Ran o (World s' (length (replies t))) t.
Proof.
  intros H. rewrite interp_settle.
  rewrite (steps_interp _ _ _ _ _ H) by (intros; by apply answering_replies).
  destruct o; cbn; by rewrite app_nil_r.
Qed.

(** *** Termination of a task that runs alone *)

(** A coroutine between two runs of the event loop: it has ended, or it is
    suspended on a call or a sleep. *)
Definition settled (c : coro) : bool :=
  match c with Reading _ | Writing _ _ => false | _ => true end.

Lemma settled_settle c s : settled (settle c s).1 = true.
Proof. revert s. induction c; intros s'; cbn [settle]; done. Qed.

(** A resumption of a suspended coroutine emits one event. *)
Lemma resume_settled c r s :
  settled c = true →
  settled (resume c r s).1.1 = true ∧
  (is_ended c = false → length (resume c r s).2 = 1%nat) ∧
  (is_ended c = true → is_ended (resume c r s).1.1 = true).
Proof. destruct c; intros [=]; cbn [resume fst snd]; by rewrite ?settled_settle. Qed.

Lemma steps_first c r s c1 s1 t1 c' s' t :
  resume c r s = (c1, s1, t1) → steps c1 s1 c' s' t → steps c s c' s' (t1 ++ t).
Proof.
  intros Hres. induction 1 as [c0 s0|c0 s0 c2 s2 t2 r2 _ IH].
  - pose proof (steps_more c s c s [] r (steps_refl c s)) as H.
    rewrite Hres in H. cbn in H. by rewrite app_nil_r.
  - rewrite app_assoc. constructor. by apply IH.
Qed.

(** A suspended coroutine emits an event when it runs on. *)
Lemma interp_suspended c E w :
  settled c = true → is_ended c = false →
  (1 ≤ length (trace (run (interp c) E w)))%nat.
Proof.
  destruct c; intros [=] [=];
    rewrite ?run_interp_await, ?run_interp_sleeping, trace_prepend; cbn; lia.
Qed.

(** The task alone on the event loop, resumed once per entry of [rs]: it is
    suspended as long as it has not ended, and emits one event per
    resumption. *)
Lemma alone_steps rs : ∀ c s,
  settled c = true →
  ∃ c', (interleave ((0%nat,.) <$> rs) [c] s).1.1 = [c'] ∧
    steps c s c' (interleave ((0%nat,.) <$> rs) [c] s).1.2
      ((interleave ((0%nat,.) <$> rs) [c] s).2.*2) ∧
    settled c' = true ∧
    (is_ended c' = false →
     length (interleave ((0%nat,.) <$> rs) [c] s).2 = length rs).
Proof.
  induction rs as [|r rs IH]; intros c s Hc.
  { exists c. split_and!; [done|constructor|done|done]. }
  cbn [fmap list_fmap interleave lookup list_lookup].
  destruct (resume_settled c r s Hc) as (Hc' & Hlen & Hend).
  destruct (resume c r s) as [[c1 s1] t1] eqn:Hres. cbn [fst snd] in *.
  destruct (IH c1 s1 Hc') as (c' & Hslots & Hsteps & Hs' & Hcount).
  cbn [list_insert insert]. destruct (interleave _ [c1] s1) as [[cs' s'] t'].
  cbn [fst snd] in *. exists c'. split_and!; [done| |done|].
  - rewrite fmap_app, <- list_fmap_compose. cbn [compose snd]. rewrite list_fmap_id.
    by eapply steps_first.
  - intros He. rewrite length_app, length_fmap, Hcount by done.
    destruct (is_ended c) eqn:Hec; [|by rewrite Hlen].
    specialize (Hend eq_refl). clear -Hsteps He Hend. exfalso. revert He.
    induction Hsteps as [|? ? ? ? ? r' _ IH']; [congruence|].
    intros He. specialize (IH' Hend). destruct c'; try done; cbn in He; congruence.
Qed.

(** Termination: when the runs of the program that reads the text of [c]
    have at most [N] events, whatever the oracle, the task [c] alone on the
    event loop has ended after [N] resumptions, whatever the replies. *)
Lemma alone_ends c (m : eff) `{!Reads c m} (N : nat) :
  (∀ E w, (length (trace (run m E w)) ≤ N)%nat) →
  ∀ rs s, (N ≤ length rs)%nat →
  ∃ o, (concurrently ((0%nat,.) <$> rs) [c] s).1.1 = [ended o].
Proof.
  intros Hbound rs s Hrs. unfold concurrently. cbn [spawn].
  destruct (settle c s) as [c0 s0] eqn:Hset.
  destruct (alone_steps rs c0 s0) as (c' & Hslots & Hsteps & Hs' & Hcount).
  { by rewrite <- (settled_settle c s), Hset. }
  destruct (interleave _ [c0] s0) as [[cs' s'] t']. cbn [fst snd] in *. subst cs'.
  destruct (is_ended c') eqn:He; [destruct (is_ended_ended _ He) as [o ->]; by exists o|].
  exfalso. specialize (Hcount eq_refl).
  pose (E := answering 0 (t'.*2) (λ _, Raises (Exn OtherError None ""))).
  specialize (Hbound E (World s 0)). rewrite <- (reads (c:=c)), interp_settle, Hset in Hbound.
  cbn [fst snd] in Hbound.
  rewrite (steps_interp _ _ _ _ _ Hsteps) in Hbound by (intros; by apply answering_replies).
  rewrite trace_prepend, length_app, length_fmap in Hbound.
  pose proof (interp_suspended c' E (World s' (0 + length (replies (t'.*2)))) Hs' He). lia.
Qed.

(** What a task has emitted when it is suspended is the beginning of a
    run of the program that reads its text. *)
Lemma steps_prefix c (m : eff) `{!Reads c m} s c' s' t E :
  steps (settle c s).1 (settle c s).2 c' s' t →
  ∃ t', trace (run m (answering 0 t E) (World s 0)) = t ++ t'.
Proof.
  intros H. rewrite <- (reads (c:=c)), interp_settle.
  rewrite (steps_interp _ _ _ _ _ H) by (intros; by apply answering_replies).
  rewrite trace_prepend. by eexists.
Qed.

(** *** Turns *)

Lemma turns_length s cs os s' t : turns s cs os s' t → length os = length cs.
Proof. induction 1; cbn; congruence. Qed.

Lemma turns_snoc s cs os s' t c o s'' t' :
  turns s cs os s' t → finishes c s' o s'' t' →
  turns s (cs ++ [c]) (os ++ [o]) s'' (t ++ t').
Proof.
  induction 1 as [s|s c0 cs o0 os s1 s2 t0 t1 Hc _ IH]; intros Hf; cbn [app].
  - rewrite <- (app_nil_r t'). by repeat econstructor.
  - rewrite <- app_assoc. econstructor; [done|]. by apply IH.
Qed.

Lemma in_turn_step s (m : eff) ms E n o w' t os s' t' :
  run m E (World s n) = Ran o w' t → in_turn (self w') ms os s' t' →
  in_turn s (m :: ms) (o :: os) s' (t ++ t').
Proof.
  intros Hr H. pose proof (in_turn_cons s m ms E n os s' t') as Hc.
  rewrite Hr in Hc. by apply Hc.
Qed.

Lemma in_turn_cons_inv s (m : eff) ms os s' t :
  in_turn s (m :: ms) os s' t →
  ∃ E n os' t',
    os = out (run m E (World s n)) :: os' ∧ t = trace (run m E (World s n)) ++ t' ∧
    in_turn (self (final (run m E (World s n)))) ms os' s' t'.
Proof. inversion 1; subst. by eexists _, _, _, _. Qed.

(** Tasks that end in turn run as the programs that read their text. *)
Lemma turns_in_turn s cs os s' t (ms : list eff) :
  Forall2 (λ c m, Reads c m) cs ms → turns s cs os s' t → in_turn s ms os s' t.
Proof.
  intros Hms Ht. revert ms Hms.
  induction Ht as [s|s c cs o os s1 s2 t t' Hc _ IH]; intros ms Hms.
  - apply Forall2_nil_inv_l in Hms as ->. constructor.
  - apply Forall2_cons_inv_l in Hms as (m & ms' & Hm & Hms & ->).
    eapply (in_turn_step _ _ _ (answering 0 t (λ _, Raises (Exn OtherError None ""))) 0);
      [rewrite <- (reads (c:=c)); by apply finishes_run|by apply IH].
Qed.

End Facts.

(** ** The scheduler runs the tasks in turn *)

Section Scheduler.
Context (cs : list coro) (s0 : St).
Implicit Types (i j k : nat) (p : pool).

Lemma insert_middle {B} (l1 l2 : list B) x y k :
  length l1 = k → <[k := y]> (l1 ++ x :: l2) = l1 ++ y :: l2.
Proof. intros <-. by rewrite insert_app_r_alt, Nat.sub_diag. Qed.

(** The slot of the first task that has not ended. *)
Lemma lookup_slot os k :
  length os = k → ((ended <$> os) ++ drop k cs) !! k = cs !! k.
Proof.
  intros <-. rewrite lookup_app_r, length_fmap, Nat.sub_diag, lookup_drop, Nat.add_0_r;
    [done|by rewrite length_fmap].
Qed.

Lemma insert_slot os k c c' :
  length os = k → cs !! k = Some c →
  <[k := c']> ((ended <$> os) ++ drop k cs) = (ended <$> os) ++ c' :: drop (S k) cs.
Proof.
  intros <- Hc. rewrite insert_app_r_alt, length_fmap, Nat.sub_diag by (by rewrite length_fmap).
  by rewrite (drop_S _ _ _ Hc).
Qed.

Lemma ended_snoc os o k :
  (ended <$> os) ++ ended o :: drop k cs = (ended <$> (os ++ [o])) ++ drop k cs.
Proof. by rewrite fmap_app, <- app_assoc. Qed.

(** The lock is handed over when the tasks before [k] have ended in turn
    and the tasks from [k] on wait in order. *)
Lemma hand_over_progress j : ∀ k os s t,
  turns s0 (take k cs) os s t → (k + j ≤ length cs)%nat →
  progress cs s0 (k + j)
    (hand_over (seq k j) ((ended <$> os) ++ drop k cs) s).1
    (hand_over (seq k j) ((ended <$> os) ++ drop k cs) s).2 t.
Proof.
  induction j as [|j IH]; intros k os s t Ht Hk; cbn [seq hand_over fst snd].
  { rewrite Nat.add_0_r. by constructor. }
  pose proof (turns_length _ _ _ _ _ Ht) as Hlen. rewrite length_take_le in Hlen by lia.
  destruct (lookup_lt_is_Some_2 cs k ltac:(lia)) as [c Hc].
  rewrite (lookup_slot os k Hlen), Hc, (insert_slot os k c _ Hlen Hc).
  destruct (is_ended (settle c s).1) eqn:He.
  - destruct (is_ended_ended _ He) as [o Ho]. rewrite Ho, ended_snoc.
    replace (k + S j)%nat with (S k + j)%nat by lia. apply IH; [|lia].
    rewrite (take_S_r _ _ _ Hc), <- (app_nil_r t). eapply turns_snoc; [done|].
    unfold finishes. rewrite Ho. constructor.
  - rewrite <- (app_nil_r t).
    replace (seq (S k) j) with (seq (S k) (k + S j - S k)) by (f_equal; lia).
    eapply busy; [lia|done..|constructor|done].
Qed.

(** One more task asks for the lock. *)
Lemma acquire_progress i p s t :
  progress cs s0 i p s t → (i < length cs)%nat →
  progress cs s0 (S i) (acquire i p s).1 (acquire i p s).2 t.
Proof.
  intros [os s' t' Ht|k os c c' s_k t_k s' t' Hk Ht Hc Hs He] Hi;
    unfold acquire; cbn [holder waiting slots app fst snd].
  - replace (S i) with (i + 1)%nat by lia. apply (hand_over_progress 1); [done|lia].
  - replace (seq (S k) (i - S k) ++ [i]) with (seq (S k) (S i - S k)).
    + by eapply busy; [lia|..].
    + replace (S i - S k)%nat with (S (i - S k)) by lia. rewrite seq_S. do 2 f_equal. lia.
Qed.

Lemma spawn_progress i :
  (i ≤ length cs)%nat →
  progress cs s0 i
    (foldl (λ ps j, acquire j ps.1 ps.2) (Pool cs None [], s0) (seq 0 i)).1
    (foldl (λ ps j, acquire j ps.1 ps.2) (Pool cs None [], s0) (seq 0 i)).2 [].
Proof.
  induction i as [|i IH]; intros Hi.
  - cbn. apply (idle cs s0 0 [] s0 []). constructor.
  - rewrite seq_S, foldl_app. cbn [foldl Nat.add]. apply acquire_progress; [|lia].
    apply IH. lia.
Qed.

(** The event loop resumes a task. *)
Lemma resume_progress j r p s t :
  progress cs s0 (length cs) p s t →
  progress cs s0 (length cs) (resume_locked j r p s).1.1 (resume_locked j r p s).1.2
    (t ++ (resume_locked j r p s).2).
Proof.
  intros [os s' t' Ht|k os c c' s_k t_k s' t' Hk Ht Hc Hs He]; unfold resume_locked;
    cbn [holder waiting slots].
  { destruct (_ !! j); cbn; rewrite app_nil_r; by constructor. }
  destruct (_ !! j) as [cj|] eqn:Hj; [|cbn; rewrite app_nil_r; by eapply busy].
  destruct (decide (Some k = Some j)) as [[= <-]|]; [|cbn; rewrite app_nil_r; by eapply busy].
  pose proof (turns_length _ _ _ _ _ Ht) as Hlen. rewrite length_take_le in Hlen by lia.
  rewrite list_lookup_middle in Hj by (by rewrite length_fmap). injection Hj as <-.
  rewrite insert_middle by (by rewrite length_fmap).
  pose proof (steps_more _ _ _ _ _ r Hs) as Hs'.
  destruct (is_ended (resume c' r s').1.1) eqn:He'; cbn [fst snd]; rewrite <- app_assoc.
  - destruct (is_ended_ended _ He') as [o Ho]. rewrite Ho in *. rewrite ended_snoc.
    assert (turns s0 (take (S k) cs) (os ++ [o]) (resume c' r s').1.2
              (t_k ++ t' ++ (resume c' r s').2)) as Ht'.
    { rewrite (take_S_r _ _ _ Hc). by eapply turns_snoc. }
    pose proof (hand_over_progress (length cs - S k) _ _ _ _ Ht' ltac:(lia)) as H.
    by replace (S k + (length cs - S k))%nat with (length cs) in H by lia.
  - by eapply busy.
Qed.

Lemma interleave_progress schedule : ∀ p s t,
  progress cs s0 (length cs) p s t →
  progress cs s0 (length cs) (interleave_locked schedule p s).1.1
    (interleave_locked schedule p s).1.2 (t ++ (interleave_locked schedule p s).2).
Proof.
  induction schedule as [|[j r] schedule IH]; intros p s t Hp; cbn [interleave_locked fst snd].
  - by rewrite app_nil_r.
  - rewrite app_assoc. by apply IH, resume_progress.
Qed.

Lemma serialized_progress schedule :
  progress cs s0 (length cs) (serialized schedule cs s0).1.1
    (serialized schedule cs s0).1.2 (serialized schedule cs s0).2.
Proof. apply (interleave_progress schedule _ _ []), spawn_progress. lia. Qed.

End Scheduler.

(** When the lock is free again every task has ended, and the tasks have
    run in turn: each from the state the one before it left. *)
Lemma serialized_turns schedule cs s :
  holder (serialized schedule cs s).1.1 = None →
  ∃ os, slots (serialized schedule cs s).1.1 = ended <$> os ∧
        turns s cs os (serialized schedule cs s).1.2 (serialized schedule cs s).2.
Proof.
  destruct (serialized_progress cs s schedule) as [os s' t Ht|]; [|done]. intros _.
  exists os. rewrite firstn_all in Ht. by rewrite drop_all, app_nil_r.
Qed.

(** Serialized tasks run as the programs that read their text run in turn:
    when every task has ended, task [i] ended with the outcome of the
    [i]-th program, run over some oracle from the state the program before
    it left, and the events and the final state are those of the
    programs. *)
Lemma serialized_in_turn schedule cs (ms : list eff) s :
  Forall2 (λ c m, Reads c m) cs ms →
  holder (serialized schedule cs s).1.1 = None →
  ∃ os, slots (serialized schedule cs s).1.1 = ended <$> os ∧
        in_turn s ms os (serialized schedule cs s).1.2 (serialized schedule cs s).2.
Proof.
  intros Hms Hh. destruct (serialized_turns schedule cs s Hh) as (os & Hos & Ht).
  exists os. split; [done|]. by eapply turns_in_turn.
Qed.

End Lock.

(** ** A protocol under the lock *)

Section Monitored.
Context {Op V St A G : Type} (watch : G → event Op V → option G) (Inv : G → St → Prop).
Implicit Types (m : eff Op V St A) (c : coro Op V St A) (g : G) (s : St).

(** The program [m] follows the protocol and keeps the invariant, from
    every state of the monitor and of the processor that satisfy it. *)
Definition abides m : Prop := ∀ g s, Inv g s → wp watch m (λ _, Inv) g s.

(** Programs that abide, run in turn, follow the protocol. *)
Lemma in_turn_monitored ms s os s' t :
  Forall abides ms → in_turn s ms os s' t →
  ∀ g, Inv g s → ∃ g', monitor watch g t = Some g' ∧ Inv g' s'.
Proof.
  intros Hms. induction 1 as [s|s m ms E n os s' t' _ IH]; intros g Hg; [by exists g|].
  apply Forall_cons in Hms as [Hm Hms].
  destruct (wp_run watch m (λ _, Inv) g E (World s n)) as (g1 & Ht & H1); [by apply Hm|].
  destruct (IH Hms g1 H1) as (g' & Ht' & H'). exists g'. eauto using monitor_app_Some.
Qed.

(** The same at every point of a schedule: the tasks that have ended ran
    in turn, and what the holder of the lock has emitted begins a run of
    its program. *)
Lemma progress_monitored cs ms s0 i p s t g :
  Forall2 (λ c m, Reads c m) cs ms → Forall abides ms →
  progress cs s0 i p s t → Inv g s0 →
  ∃ g', monitor watch g t = Some g' ∧ (holder p = None → Inv g' s).
Proof.
  intros Hcs Hms [os s' t' Ht|k os c c' s_k t_k s' t' Hk Ht Hc Hs He] Hg.
  - apply (turns_in_turn _ _ _ _ _ (take i ms)) in Ht; [|by apply Forall2_take].
    destruct (in_turn_monitored _ _ _ _ _ (Forall_take _ _ _ Hms) Ht g Hg) as (g' & ? & ?).
    by exists g'.
  - apply (turns_in_turn _ _ _ _ _ (take k ms)) in Ht; [|by apply Forall2_take].
    destruct (in_turn_monitored _ _ _ _ _ (Forall_take _ _ _ Hms) Ht g Hg)
      as (g_k & Ht_k & Hg_k).
    destruct (Forall2_lookup_l _ _ _ _ _ Hcs Hc) as (m & Hm & Hr).
    destruct (steps_prefix c m s_k c' s' t' (λ _, Raises (Exn OtherError None "")) Hs)
      as [t'' Ht''].
    destruct (wp_run watch m (λ _, Inv) g_k
                (answering 0 t' (λ _, Raises (Exn OtherError None ""))) (World s_k 0))
      as (g2 & Hrun & _); [by apply (Forall_lookup_1 _ _ _ _ Hms Hm)|].
    rewrite Ht'' in Hrun.
    destruct (monitor_prefix watch g_k t' t'') as [g' Hg']; [by rewrite Hrun|].
    exists g'. split; [by eapply monitor_app_Some|done].
Qed.

(** Tasks serialized by a lock follow the protocol their programs follow
    alone: whatever the schedule, and wherever it stops, the monitor
    accepts the events so far; and when the lock is free, the invariant
    holds of the state the tasks left. *)
Lemma serialized_monitored schedule cs ms s g :
  Forall2 (λ c m, Reads c m) cs ms → Forall abides ms → Inv g s →
  ∃ g', monitor watch g (serialized schedule cs s).2 = Some g' ∧
        (holder (serialized schedule cs s).1.1 = None →
         Inv g' (serialized schedule cs s).1.2).
Proof.
  intros Hcs Hms Hg. eapply progress_monitored; [done..|apply serialized_progress|done].
Qed.

End Monitored.
