(* ===== verification/Bounded.v ===== *)
(** * Bounded: tasks that end, whatever the others do

    A coroutine of the sources has a bounded number of suspension points:
    its loops run over a [range], and it awaits a fixed number of calls in
    each round.  The bound does not depend on what the calls answer nor on
    what the coroutine reads in [self].  So a task ends once the event loop
    has resumed it that many times, whatever the other tasks did to the
    shared object in between: a send cannot be kept from returning by
    another send.

    [ends_within n c] is the bound, with one lemma per combinator;
    [concurrently_ends] is the theorem of the scheduler. *)

From S2P Require Import Prelude Effects Coro Environment Lock.

Section Bounded.
Context {Op V St : Type}.
#[local] Abbreviation coro := (coro Op V St).

(** [c] is suspended at most [n] times before it ends, whatever the
    replies to its calls and whatever it reads. *)
Inductive ends_within {A} : nat → coro A → Prop :=
| ew_done n a : ends_within n (Done a)
| ew_failed n e : ends_within n (Failed e)
| ew_await n op k : (∀ r, ends_within n (k r)) → ends_within (S n) (Await op k)
| ew_sleeping n d k : ends_within n k → ends_within (S n) (Sleeping d k)
| ew_reading n k : (∀ s, ends_within n (k s)) → ends_within n (Reading k)
| ew_writing n s k : ends_within n k → ends_within n (Writing s k).

(** ** The combinators *)

Lemma ends_within_mono {A} n m (c : coro A) :
  ends_within n c → (n ≤ m)%nat → ends_within m c.
Proof.
  intros Hc. revert m. induction Hc; intros m Hm; try (by constructor; auto);
    (destruct m as [|m]; [lia|]); constructor; auto with lia.
Qed.

Lemma ends_within_ret {A} (a : A) : ends_within 0 (mret a : coro A).
Proof. constructor. Qed.

Lemma ends_within_raise {A} e : ends_within 0 (py_raise e : coro A).
Proof. constructor. Qed.

Lemma ends_within_call (op : Op) : ends_within 1 (py_call op : coro V).
Proof. constructor. intros []; constructor. Qed.

Lemma ends_within_sleep d : ends_within 1 (py_sleep d : coro unit).
Proof. by repeat constructor. Qed.

Lemma ends_within_get_self : ends_within 0 (py_get_self : coro St).
Proof. by repeat constructor. Qed.

Lemma ends_within_put_self s : ends_within 0 (py_put_self s : coro unit).
Proof. by repeat constructor. Qed.

Lemma ends_within_bind {A B} a b (m : coro A) (f : A → coro B) :
  ends_within a m → (∀ x, ends_within b (f x)) → ends_within (a + b) (m ≫= f).
Proof.
  intros Hm Hf. unfold mbind. cbn [py_bind coro_py].
  induction Hm; cbn [coro_bind plus]; try (by constructor);
    apply (ends_within_mono b); [apply Hf|lia].
Qed.

Lemma ends_within_try_except {A} a b (m : coro A) (h : exn → coro A) :
  ends_within a m → (∀ e, ends_within b (h e)) →
  ends_within (a + b) (py_try_except m h).
Proof.
  intros Hm Hh. cbn [py_try_except coro_py].
  induction Hm; cbn [coro_try plus]; try (by constructor);
    apply (ends_within_mono b); [apply Hh|lia].
Qed.

Lemma ends_within_for_from {L A} b n i (body : Z → L → coro (ctl L A)) l :
  (∀ i l, ends_within b (body i l)) → ends_within (n * b) (py_for_from n i body l).
Proof.
  intros Hb. revert i l. induction n as [|n IH]; intros i l; cbn [py_for_from mult];
    [constructor|].
  apply ends_within_bind; [done|]. intros [l'|l'|a]; [apply IH|constructor..].
Qed.

Lemma ends_within_for_range {L A} b stop (body : Z → L → coro (ctl L A)) l :
  (∀ i l, ends_within b (body i l)) →
  ends_within (Z.to_nat stop * b) (py_for_range stop body l).
Proof. intros. by apply ends_within_for_from. Qed.

(** ** The scheduler *)

Lemma ends_within_settle {A} n (c : coro A) s :
  ends_within n c → ends_within n (settle c s).1.
Proof. intros Hc. revert s. induction Hc; intros s'; cbn [settle]; by try constructor. Qed.

(** A resumption uses up one suspension. *)
Lemma ends_within_resume {A} n (c : coro A) r s :
  ends_within n c → settled c = true → ends_within (pred n) (resume c r s).1.1.
Proof.
  intros Hc. destruct Hc; intros [=]; cbn [resume fst pred];
    [constructor..|by apply ends_within_settle|by apply ends_within_settle].
Qed.

Lemma ends_within_0 {A} (c : coro A) :
  ends_within 0 c → settled c = true → ∃ o, c = ended o.
Proof.
  intros Hc Hs. apply is_ended_ended. by inversion Hc; subst.
Qed.

(** The tasks are settled once they are started. *)
Lemma spawn_lookup {A} (tasks : list (coro A)) : ∀ s i c,
  tasks !! i = Some c → ∃ s', (spawn tasks s).1 !! i = Some (settle c s').1.
Proof.
  induction tasks as [|c0 tasks IH]; intros s i c Hi; [done|]. cbn [spawn].
  destruct (settle c0 s) as [c0' s0] eqn:Hset. specialize (IH s0).
  destruct (spawn tasks s0) as [tasks' s'']. destruct i as [|i]; cbn in *.
  - injection Hi as <-. exists s. by rewrite Hset.
  - by apply IH.
Qed.

(** A task that ends within [n] suspensions has ended once the schedule
    has resumed it [n] times, whatever the other tasks do. *)
Lemma interleave_ends {A} schedule : ∀ (tasks : list (coro A)) s i c n,
  tasks !! i = Some c → settled c = true → ends_within n c →
  (n ≤ length (own i schedule))%nat →
  ∃ o, (interleave schedule tasks s).1.1 !! i = Some (ended o).
Proof.
  induction schedule as [|[j r] schedule IH]; intros tasks s i c n Hi Hc Hn Hlen.
  { cbn in Hlen. assert (n = 0%nat) as -> by lia.
    destruct (ends_within_0 c Hn Hc) as [o ->]. by exists o. }
  cbn [interleave]. unfold own in Hlen. destruct (tasks !! j) as [cj|] eqn:Hj.
  - destruct (decide (j = i)) as [->|Hne].
    + rewrite filter_cons_True in Hlen by done. cbn [fmap list_fmap length] in Hlen.
      simplify_eq. pose proof (ends_within_resume n c r s Hn Hc) as Hn'.
      destruct (resume_settled c r s Hc) as (Hc' & _).
      destruct (resume c r s) as [[c' s'] t]. cbn [fst snd] in *.
      destruct (IH (<[i := c']> tasks) s' i c' (pred n)) as [o Ho];
        [apply list_lookup_insert_eq; by eapply lookup_lt_Some|done|done
        |unfold own; lia|].
      exists o. by destruct (interleave schedule _ s') as [[? ?] ?].
    + rewrite filter_cons_False in Hlen by done.
      destruct (resume cj r s) as [[cj' s'] t].
      destruct (IH (<[j := cj']> tasks) s' i c n) as [o Ho];
        [by rewrite list_lookup_insert_ne|done..|].
      exists o. by destruct (interleave schedule _ s') as [[? ?] ?].
  - rewrite filter_cons_False in Hlen by (cbn; intros ->; congruence). by eapply IH.
Qed.

(** The same of tasks that are started together. *)
Lemma concurrently_ends {A} schedule (tasks : list (coro A)) s i c n :
  tasks !! i = Some c → ends_within n c → (n ≤ length (own i schedule))%nat →
  ∃ o, (concurrently schedule tasks s).1.1 !! i = Some (ended o).
Proof.
  intros Hi Hn Hlen. unfold concurrently.
  destruct (spawn_lookup tasks s i c Hi) as [s' Hs'].
  destruct (spawn tasks s) as [tasks' s0]. cbn [fst] in Hs'.
  eapply interleave_ends; [done|apply settled_settle|by apply ends_within_settle|done].
Qed.

End Bounded.

(** ** Automation

    [ends_auto] follows the text of a method: a test by case analysis, a
    sequence by giving its first statement the least number of suspensions
    that suffices, a statement that is a known method or a primitive by
    the database [ends]. *)

Create HintDb ends discriminated.
#[export] Hint Resolve ends_within_ret ends_within_raise ends_within_call ends_within_sleep
  ends_within_get_self ends_within_put_self : ends.

Ltac ends_known :=
  solve [ eapply ends_within_mono; [eauto 1 with ends nocore|lia] ].

Ltac ends_auto :=
  intros;
  lazymatch goal with
  | |- ends_within _ (match ?x with _ => _ end) => destruct x; ends_auto
  | |- ends_within _ (mbind _ _) =>
      ends_sequence ltac:(fun a => apply (ends_within_bind a)) 0%nat
  | |- ends_within _ (py_try_except _ _) =>
      ends_sequence ltac:(fun a => apply (ends_within_try_except a)) 0%nat
  | |- _ => ends_known
  end
with ends_sequence split a :=
  lazymatch goal with
  | |- ends_within ?n _ =>
      first [ split a; [solve [ends_auto]|solve [ends_auto]]
            | let a' := constr:(S a) in
              assert_succeeds (assert (a' ≤ n)%nat by lia); ends_sequence split a' ]
  end.
