(* ===== verification/Cancel.v ===== *)
(** * Cancel: tasks that are cancelled, and what every interleaving keeps

    The event loop can do two things to a suspended task: resume it with
    the reply to the call it awaits, or cancel it ([task.cancel()], the
    timeout of [asyncio.wait_for]).  Cancellation raises [CancelledError]
    at the suspension point.  [CancelledError] does not derive from
    [Exception], and the sources have no [finally] and no clause that
    catches more than [Exception]: nothing of the task runs after the
    point where it is cancelled.  The task stops there, and [self] stays
    as the task had left it.

    [interrupted] is the scheduler of [Coro] with this second action.  The
    file shows that it extends [concurrently], that a cancellation is
    final, and how a property of the shared state is proved of every
    interleaving: [keeps P c] says that [c] writes only states that
    satisfy [P], provided the states it reads do. *)

From S2P Require Import Prelude Effects Coro Environment Lock.

(** ** The scheduler with cancellation *)

Section Cancel.
Context {Op V St A : Type}.
#[local] Abbreviation coro := (coro Op V St A).
Implicit Types (c : coro) (s : St) (r : reply V).

Inductive action : Type :=
| Resume (r : reply V)
| Cancel.

(** A task of the event loop: its coroutine, suspended or ended, or the
    mark that it was cancelled. *)
Inductive task : Type :=
| Live (c : coro)
| Cancelled.

(** One action on a task.  Cancelling a task that has ended changes
    nothing. *)
Definition act (a : action) (k : task) (s : St) : task * St * list (event Op V) :=
  match k, a with
  | Live c, Resume r => (Live (resume c r s).1.1, (resume c r s).1.2, (resume c r s).2)
  | Live c, Cancel => (if is_ended c then Live c else Cancelled, s, [])
  | Cancelled, _ => (Cancelled, s, [])
  end.

Fixpoint interleave_interrupted (schedule : list (nat * action)) (tasks : list task)
    (s : St) : list task * St * list (nat * event Op V) :=
  match schedule with
  | [] => (tasks, s, [])
  | (i, a) :: schedule =>
      match tasks !! i with
      | Some k =>
          let x := act a k s in
          let y := interleave_interrupted schedule (<[i := x.1.1]> tasks) x.1.2 in
          (y.1, ((i,.) <$> x.2) ++ y.2)
      | None => interleave_interrupted schedule tasks s
      end
  end.

(** The tasks are started in order, as in [concurrently], and then resumed
    or cancelled along the schedule. *)
Definition interrupted (schedule : list (nat * action)) (cs : list coro) (s : St)
    : list task * St * list (nat * event Op V) :=
  interleave_interrupted schedule (Live <$> (spawn cs s).1) (spawn cs s).2.

(** A schedule of [concurrently], read as one that never cancels. *)
Definition resuming (schedule : list (nat * reply V)) : list (nat * action) :=
  (λ x, (x.1, Resume x.2)) <$> schedule.

(** The schedule without the steps of task [i]. *)
Definition without (i : nat) (schedule : list (nat * action)) : list (nat * action) :=
  filter (λ x, x.1 ≠ i) schedule.

(** The steps of task [i], as a schedule for that task alone. *)
Definition share (i : nat) (schedule : list (nat * action)) : list (nat * action) :=
  (λ x, (0%nat, x.2)) <$> filter (λ x, x.1 = i) schedule.

(** ** Properties that every interleaving keeps *)

(** [c] writes only states that satisfy [P], provided the states it reads
    satisfy it. *)
Inductive keeps (P : St → Prop) : coro → Prop :=
| keeps_done a : keeps P (Done a)
| keeps_failed e : keeps P (Failed e)
| keeps_await op k : (∀ r, keeps P (k r)) → keeps P (Await op k)
| keeps_sleeping d k : keeps P k → keeps P (Sleeping d k)
| keeps_reading k : (∀ s, P s → keeps P (k s)) → keeps P (Reading k)
| keeps_writing s k : P s → keeps P k → keeps P (Writing s k).

(** The same of a task. *)
Definition alive (Q : coro → Prop) (k : task) : Prop :=
  match k with Live c => Q c | Cancelled => True end.

End Cancel.

Arguments action V : clear implicits.
Arguments task Op V St A : clear implicits.

(** ** The scheduler *)

Section Scheduler.
Context {Op V St A : Type}.
#[local] Abbreviation coro := (coro Op V St A).
#[local] Abbreviation task := (task Op V St A).
Implicit Types (c : coro) (s : St) (r : reply V) (k : task) (tasks : list task).

(** [interrupted] extends [concurrently]. *)
Lemma interleave_resuming schedule (cs : list coro) s :
  interleave_interrupted (resuming schedule) (Live <$> cs) s =
  (Live <$> (interleave schedule cs s).1.1, (interleave schedule cs s).1.2,
   (interleave schedule cs s).2).
Proof.
  revert cs s. induction schedule as [|[i r] schedule IH]; intros cs s; [done|].
  cbn [resuming fmap list_fmap interleave_interrupted interleave fst snd].
  rewrite list_lookup_fmap. destruct (cs !! i) as [c|]; cbn [fmap option_fmap option_map act];
    [|apply IH].
  destruct (resume c r s) as [[c' s'] t]. cbn [fst snd].
  rewrite <- list_fmap_insert. fold (resuming schedule). rewrite IH.
  by destruct (interleave schedule _ s') as [[cs' s''] t'].
Qed.

Lemma interrupted_resuming schedule (cs : list coro) s :
  interrupted (resuming schedule) cs s =
  (Live <$> (concurrently schedule cs s).1.1, (concurrently schedule cs s).1.2,
   (concurrently schedule cs s).2).
Proof.
  unfold interrupted, concurrently. rewrite interleave_resuming.
  by destruct (spawn cs s) as [cs' s'].
Qed.

(** A cancelled task takes no further step: the schedule runs as the one
    without its steps. *)
Lemma interleave_cancelled schedule tasks s i :
  tasks !! i = Some Cancelled →
  interleave_interrupted schedule tasks s =
    interleave_interrupted (without i schedule) tasks s ∧
  (interleave_interrupted schedule tasks s).1.1 !! i = Some Cancelled.
Proof.
  revert tasks s. induction schedule as [|[j a] schedule IH]; intros tasks s Hi; [done|].
  unfold without. cbn [interleave_interrupted]. destruct (decide (j = i)) as [->|Hne].
  - rewrite filter_cons_False by (cbn; tauto). rewrite Hi. cbn [act fst snd fmap list_fmap app].
    rewrite list_insert_id by done. destruct (IH tasks s Hi) as [-> IH2].
    split; [by destruct (interleave_interrupted _ _ _) as [[? ?] ?]|done].
  - rewrite filter_cons_True by done. cbn [interleave_interrupted].
    destruct (tasks !! j) as [k|] eqn:Hj; [|by apply IH].
    destruct (IH (<[j := (act a k s).1.1]> tasks) (act a k s).1.2) as [-> IH2];
      [by rewrite list_lookup_insert_ne|done].
Qed.

(** A property of the tasks and of the state that starting and resuming a
    task keep is kept by every schedule. *)
Section Preserved.
Context (P : St → Prop) (Q : coro → Prop).
Context (Hsettle : ∀ c s, Q c → P s → Q (settle c s).1 ∧ P (settle c s).2).
Context (Hresume : ∀ c r s, Q c → P s → Q (resume c r s).1.1 ∧ P (resume c r s).1.2).

Lemma act_preserved a k s :
  alive Q k → P s → alive Q (act a k s).1.1 ∧ P (act a k s).1.2.
Proof.
  destruct k as [c|], a as [r|]; cbn; [by apply Hresume| |done..].
  by destruct (is_ended c).
Qed.

Lemma spawn_preserved (cs : list coro) s :
  Forall Q cs → P s → Forall Q (spawn cs s).1 ∧ P (spawn cs s).2.
Proof.
  intros Hcs. revert s. induction Hcs as [|c cs Hc _ IH]; intros s Hs; [done|].
  cbn [spawn]. destruct (Hsettle c s Hc Hs) as [Hc' Hs'].
  destruct (settle c s) as [c' s']. destruct (IH s' Hs') as [IHc IHs].
  destruct (spawn cs s') as [cs' s'']. by split; [constructor|].
Qed.

Lemma interleave_preserved schedule tasks s :
  Forall (alive Q) tasks → P s →
  Forall (alive Q) (interleave_interrupted schedule tasks s).1.1 ∧
  P (interleave_interrupted schedule tasks s).1.2.
Proof.
  revert tasks s. induction schedule as [|[i a] schedule IH]; intros tasks s Ht Hs; [done|].
  cbn [interleave_interrupted]. destruct (tasks !! i) as [k|] eqn:Hi; [|by apply IH].
  destruct (act_preserved a k s (Forall_lookup_1 _ _ _ _ Ht Hi) Hs) as [Hk' Hs'].
  by apply IH; [apply Forall_insert|].
Qed.

Lemma interrupted_preserved schedule (cs : list coro) s :
  Forall Q cs → P s →
  Forall (alive Q) (interrupted schedule cs s).1.1 ∧ P (interrupted schedule cs s).1.2.
Proof.
  intros Hcs Hs. destruct (spawn_preserved cs s Hcs Hs) as [Hcs' Hs'].
  apply interleave_preserved; [|done]. by apply Forall_fmap, (Forall_impl _ _ _ Hcs').
Qed.

End Preserved.

(** *** What the tasks keep, the state keeps *)

Lemma keeps_settle P c s : keeps P c → P s → keeps P (settle c s).1 ∧ P (settle c s).2.
Proof.
  intros Hc. revert s.
  induction Hc as [| | | |k _ IH|s' k Hs' _ IH]; intros s Hs; cbn [settle];
    [by split; [constructor|]..|by apply IH|by apply IH].
Qed.

Lemma keeps_resume P c r s :
  keeps P c → P s → keeps P (resume c r s).1.1 ∧ P (resume c r s).1.2.
Proof.
  intros Hc Hs.
  destruct Hc; cbn [resume fst snd]; try (by split; [constructor|]); by apply keeps_settle.
Qed.

(** Tasks that keep [P], started in a state that satisfies [P] and resumed
    or cancelled in any order, leave a state that satisfies [P]. *)
Lemma keeps_interrupted P schedule (cs : list coro) s :
  Forall (keeps P) cs → P s → P (interrupted schedule cs s).1.2.
Proof.
  intros Hcs Hs.
  by apply (interrupted_preserved P (keeps P) (keeps_settle P) (keeps_resume P)).
Qed.

(** Tasks that never raise have not raised, wherever the schedule stops
    and whichever of them it cancels. *)
Lemma never_fails_interrupted schedule (cs : list coro) s i e :
  Forall never_fails cs → (interrupted schedule cs s).1.1 !! i ≠ Some (Live (Failed e)).
Proof.
  intros Hcs Hi.
  destruct (interrupted_preserved (λ _, True) never_fails
              (λ c s Hc _, conj (never_fails_settle c s Hc) I)
              (λ c r s Hc _, conj (never_fails_resume c r s Hc) I)
              schedule cs s Hcs I) as [Hall _].
  apply (Forall_lookup_1 _ _ _ _ Hall) in Hi. inversion Hi.
Qed.

(** A cancellation is final: once a suspended task is cancelled, the rest
    of the schedule runs without it. *)
Lemma cancel_final schedule tasks s i c :
  tasks !! i = Some (Live c) → is_ended c = false →
  interleave_interrupted ((i, Cancel) :: schedule) tasks s =
    interleave_interrupted (without i schedule) (<[i := Cancelled]> tasks) s ∧
  (interleave_interrupted ((i, Cancel) :: schedule) tasks s).1.1 !! i = Some Cancelled.
Proof.
  intros Hi Hc. cbn [interleave_interrupted]. rewrite Hi. cbn [act fst snd]. rewrite Hc.
  cbn [fmap list_fmap app].
  destruct (interleave_cancelled schedule (<[i := Cancelled]> tasks) s i) as [-> H2];
    [apply list_lookup_insert_eq; by eapply lookup_lt_Some|].
  split; [by destruct (interleave_interrupted _ _ _) as [[? ?] ?]|done].
Qed.

(** *** Tasks that do not write

    A task that never assigns to [self] cannot disturb another one, and a
    cancellation of one task is no event of another: each task ends, or is
    cancelled, as it is alone with its own share of the schedule. *)

Lemma act_read_only a k s :
  alive read_only k → (act a k s).1.2 = s ∧ alive read_only (act a k s).1.1.
Proof.
  destruct k as [c|], a as [r|]; cbn; [by apply resume_read_only| |done..].
  by destruct (is_ended c).
Qed.

Lemma interleave_interrupted_read_only schedule tasks s :
  Forall (alive read_only) tasks →
  (interleave_interrupted schedule tasks s).1.2 = s ∧
  ∀ i k, tasks !! i = Some k →
    (interleave_interrupted schedule tasks s).1.1 !! i =
    (interleave_interrupted (share i schedule) [k] s).1.1 !! 0%nat.
Proof.
  revert tasks. induction schedule as [|[j a] schedule IH]; intros tasks Htasks; [done|].
  cbn [interleave_interrupted]. destruct (tasks !! j) as [kj|] eqn:Hj.
  - destruct (act_read_only a kj s (Forall_lookup_1 _ _ _ _ Htasks Hj)) as [Hs Hkj'].
    rewrite Hs.
    destruct (IH (<[j := (act a kj s).1.1]> tasks) (Forall_insert _ _ _ _ Htasks Hkj'))
      as [IHs IHt].
    split; [done|]. intros i k Hi. cbn [fst]. unfold share.
    destruct (decide (j = i)) as [->|Hne].
    + rewrite filter_cons_True by done.
      cbn [fmap list_fmap snd interleave_interrupted lookup list_lookup].
      rewrite Hj in Hi. injection Hi as <-. cbn [list_insert insert]. rewrite Hs.
      by rewrite (IHt i (act a kj s).1.1)
        by (apply list_lookup_insert_eq; by eapply lookup_lt_Some).
    + rewrite filter_cons_False by done. apply IHt. by rewrite list_lookup_insert_ne.
  - destruct (IH tasks Htasks) as [IHs IHt]. split; [done|]. intros i k Hi.
    unfold share. rewrite filter_cons_False by (cbn; intros ->; congruence). by apply IHt.
Qed.

(** Independence: tasks that do not write, resumed and cancelled in any
    order, leave [self] as it was, and each of them is where it is when it
    is alone with its own share of the schedule. *)
Lemma interrupted_read_only schedule (cs : list coro) s i c :
  Forall read_only cs → cs !! i = Some c →
  (interrupted schedule cs s).1.2 = s ∧
  (interrupted schedule cs s).1.1 !! i =
    (interrupted (share i schedule) [c] s).1.1 !! 0%nat.
Proof.
  intros Hcs Hi. unfold interrupted. cbn [spawn].
  pose proof (Forall_lookup_1 _ _ _ _ Hcs Hi) as Hc.
  destruct (spawn_read_only cs s Hcs) as (Hs & Hf & Hl).
  specialize (Hl i c Hi). destruct (spawn cs s) as [cs' s']. cbn [fst snd] in *.
  subst s'.
  destruct (interleave_interrupted_read_only schedule (Live <$> cs') s) as [Hs' Ht];
    [by apply Forall_fmap, (Forall_impl _ _ _ Hf)|].
  rewrite (Ht i (Live (settle c s).1)) by (by rewrite list_lookup_fmap, Hl).
  destruct (settle_read_only c s Hc) as [Hcs' _].
  destruct (settle c s) as [c' s']. cbn [fst snd] in *. by subst s'.
Qed.

End Scheduler.

(** ** The combinators keep what their parts keep *)

Section Combinators.
Context {Op V St : Type} (P : St → Prop).
#[local] Abbreviation coro := (coro Op V St).

Lemma keeps_ret {A} (a : A) : keeps P (mret a : coro A).
Proof. constructor. Qed.

Lemma keeps_raise {A} e : keeps P (py_raise e : coro A).
Proof. constructor. Qed.

Lemma keeps_call (op : Op) : keeps P (py_call op : coro V).
Proof. constructor. intros []; constructor. Qed.

Lemma keeps_sleep d : keeps P (py_sleep d : coro unit).
Proof. by repeat constructor. Qed.

Lemma keeps_put_self s : P s → keeps P (py_put_self s : coro unit).
Proof. by repeat constructor. Qed.

Lemma keeps_bind {A B} (m : coro A) (f : A → coro B) :
  keeps P m → (∀ a, keeps P (f a)) → keeps P (m ≫= f).
Proof.
  intros Hm Hf. unfold mbind. cbn [py_bind coro_py].
  induction Hm; cbn [coro_bind]; [apply Hf|by constructor..].
Qed.

(** What follows a read of [self] may assume [P] of what was read. *)
Lemma keeps_get_self_bind {B} (f : St → coro B) :
  (∀ s, P s → keeps P (f s)) → keeps P (py_get_self ≫= f).
Proof. intros Hf. by constructor. Qed.

Lemma keeps_try_except {A} (m : coro A) (h : exn → coro A) :
  keeps P m → (∀ e, keeps P (h e)) → keeps P (py_try_except m h).
Proof.
  intros Hm Hh. cbn [py_try_except coro_py].
  induction Hm; cbn [coro_try]; [constructor|apply Hh|by constructor..].
Qed.

Lemma keeps_for_from {L A} n i (body : Z → L → coro (ctl L A)) l :
  (∀ i l, keeps P (body i l)) → keeps P (py_for_from n i body l).
Proof.
  intros Hb. revert i l. induction n as [|n IH]; intros i l; cbn [py_for_from];
    [apply keeps_ret|].
  apply keeps_bind; [done|]. intros [l'|l'|a]; [apply IH|apply keeps_ret..].
Qed.

Lemma keeps_for_range {L A} stop (body : Z → L → coro (ctl L A)) l :
  (∀ i l, keeps P (body i l)) → keeps P (py_for_range stop body l).
Proof. intros. by apply keeps_for_from. Qed.

End Combinators.

(** The structure of a method is followed by [eauto with keeps]; the tests
    of a method are followed by case analysis. *)
Create HintDb keeps discriminated.
#[export] Hint Resolve keeps_ret keeps_raise keeps_call keeps_sleep keeps_put_self
  keeps_try_except keeps_for_range : keeps.
#[export] Hint Resolve keeps_get_self_bind | 1 : keeps.
#[export] Hint Resolve keeps_bind | 2 : keeps.
#[export] Hint Extern 3 (keeps _ (match ?x with _ => _ end)) => destruct x eqn:? : keeps.

(** ** Cancelled against a service *)

Section Service.
Context {Op V St Sv : Type} (respond : Op → Sv → reply V * Sv).
#[local] Abbreviation coro := (coro Op V St).

(** The coroutine [c] runs against the service, as in [serve], and is
    cancelled when it is suspended for the time number [n], or runs to its
    end when it has fewer suspension points: the coroutine at that point,
    the state and the service there, and the suspensions left. *)
Fixpoint cut {A} (n : nat) (c : coro A) (sv : Sv) (s : St) : coro A * St * Sv * nat :=
  match c with
  | Done _ | Failed _ => (c, s, sv, n)
  | Await op k =>
      match n with
      | O => (c, s, sv, O)
      | S n' => cut n' (k (respond op sv).1) (respond op sv).2 s
      end
  | Sleeping d k =>
      match n with
      | O => (c, s, sv, O)
      | S n' => cut n' k sv s
      end
  | Reading k => cut n (k s) sv s
  | Writing s' k => cut n k sv s'
  end.

(** The replies the service gives up to that point, as a schedule for the
    task alone. *)
Fixpoint cut_schedule {A} (n : nat) (c : coro A) (sv : Sv) (s : St)
    : list (nat * action V) :=
  match c with
  | Done _ | Failed _ => []
  | Await op k =>
      match n with
      | O => []
      | S n' =>
          (0%nat, Resume (respond op sv).1)
            :: cut_schedule n' (k (respond op sv).1) (respond op sv).2 s
      end
  | Sleeping d k =>
      match n with
      | O => []
      | S n' => (0%nat, Resume (Raises (Exn OtherError None ""))) :: cut_schedule n' k sv s
      end
  | Reading k => cut_schedule n (k s) sv s
  | Writing s' k => cut_schedule n k sv s'
  end.

(** [Q] holds at every point where the run of [c] against the service
    can be cut. *)
Fixpoint along {A} (Q : coro A → St → Sv → Prop) (c : coro A) (sv : Sv) (s : St)
    : Prop :=
  match c with
  | Done _ | Failed _ => Q c s sv
  | Await op k => Q c s sv ∧ along Q (k (respond op sv).1) (respond op sv).2 s
  | Sleeping d k => Q c s sv ∧ along Q k sv s
  | Reading k => along Q (k s) sv s
  | Writing s' k => along Q k sv s'
  end.

Lemma along_cut {A} (Q : coro A → St → Sv → Prop) c sv s n :
  along Q c sv s → Q (cut n c sv s).1.1.1 (cut n c sv s).1.1.2 (cut n c sv s).1.2.
Proof.
  revert n sv s. induction c as [a|e|op k IH|d k IH|k IH|s' k IH]; intros n sv s;
    cbn [along cut]; [done|done|intros [H0 H]; destruct n; [done|by apply IH]..
                     |apply IH|apply IH].
Qed.

Lemma cut_bind {A B} n (m : coro A) (f : A → coro B) sv s :
  cut n (coro_bind m f) sv s =
  match cut n m sv s with
  | (Done a, s', sv', n') => cut n' (f a) sv' s'
  | (c', s', sv', n') => (coro_bind c' f, s', sv', n')
  end.
Proof.
  revert n sv s. induction m as [a|e|op k IH|d k IH|k IH|s' k IH]; intros n sv s;
    cbn [coro_bind cut]; [done|done|destruct n; [done|apply IH]..|apply IH|apply IH].
Qed.

(** [cut] is a schedule of [interrupted] that ends with the cancellation
    of the task. *)
Lemma cut_interrupted {A} n (c : coro A) sv s :
  (interrupted (cut_schedule n c sv s ++ [(0%nat, Cancel)]) [c] s).1.2 =
  (cut n c sv s).1.1.2.
Proof.
  unfold interrupted. revert n sv s.
  induction c as [a|e|op k IH|d k IH|k IH|s' k IH]; intros n sv s;
    cbn [cut cut_schedule spawn settle fst snd fmap list_fmap];
    [done|done|destruct n as [|n]; [done|]..|apply IH|apply IH].
  - specialize (IH (respond op sv).1 n (respond op sv).2 s).
    cbn [spawn fmap list_fmap app interleave_interrupted lookup list_lookup act resume
         fst snd insert list_insert] in IH |- *.
    by destruct (settle (k _) s).
  - specialize (IH n sv s).
    cbn [spawn fmap list_fmap app interleave_interrupted lookup list_lookup act resume
         fst snd insert list_insert] in IH |- *.
    by destruct (settle k s).
Qed.

End Service.
