(* ===== verification/Suspended.v ===== *)
(** * Suspended: what holds where a coroutine is suspended

    [wp] of [Monitor] speaks of the runs of a method from its first
    statement to its last.  A coroutine can be left before that: it is
    suspended at every [await], and a caller that gives up
    ([asyncio.wait_for], [task.cancel()]) leaves it where it is.  What the
    caller finds then is the state at a suspension point, which no run to
    the end passes through as a final state.

    [cwp] is the weakest precondition of a coroutine tree.  It follows the
    monitor of a protocol along the awaited calls as [wp] does, and it
    requires at every suspension point what a caller that abandons the
    call there relies on: the protocol accepts that the awaited call is
    abandoned ([leave]), and the invariant [Inv] holds of the state the
    monitor is then in and of [self].  It has the rules of [wp], one per
    combinator; it implies [wp] of the program that reads the same text
    ([cwp_wp]); and it holds along the resumptions of a task
    ([cwp_steps]).

    [one_by_one] awaits calls one after the other, each under a timeout:
    the task is resumed with the replies it gets in time and cancelled
    where it is suspended when they run out.  Calls that satisfy [cwp]
    follow the protocol through every such sequence
    ([one_by_one_monitored]). *)

From S2P Require Import Prelude Effects Monitor Coro Environment Lock Cancel.

Section Suspended.
Context {Op V St G : Type}.
Context (watch : G → event Op V → option G) (leave : G → Op → option G).
Context (Inv : G → St → Prop).
#[local] Abbreviation coro := (coro Op V St).
#[local] Abbreviation eff := (eff Op V St).
Implicit Types (g : G) (s : St) (r : reply V) (t : list (event Op V)).

(** What an observer of the connection sees: a call that was awaited to
    its reply, or a call that was started and abandoned. *)
Inductive moment : Type :=
| Occurred (ev : event Op V)
| Abandoned (op : Op).

Definition oversee (g : G) (x : moment) : option G :=
  match x with
  | Occurred ev => watch g ev
  | Abandoned op => leave g op
  end.

(** What a task that is cancelled abandons. *)
Definition abandoned {A} (c : coro A) : list moment :=
  match c with
  | Await op _ => [Abandoned op]
  | _ => []
  end.

(** The coroutine may be left where it is suspended. *)
Definition leavable {A} (c : coro A) (g : G) (s : St) : Prop :=
  ∃ g', monitor oversee g (abandoned c) = Some g' ∧ Inv g' s.

Fixpoint cwp {A} (c : coro A) (Q : outcome A → G → St → Prop) (g : G) (s : St) : Prop :=
  match c with
  | Done a => Q (Ok a) g s
  | Failed e => Q (Raise e) g s
  | Await op k =>
      leavable c g s ∧ ∀ r, ∃ g', watch g (Called op r) = Some g' ∧ cwp (k r) Q g' s
  | Sleeping d k =>
      leavable c g s ∧ ∃ g', watch g (Slept d) = Some g' ∧ cwp k Q g' s
  | Reading k => cwp (k s) Q g s
  | Writing s' k => cwp k Q g s'
  end.

(** One call under a timeout: the task runs alone on the event loop, is
    resumed with the replies of [rs], and is cancelled where it is
    suspended when it has not ended by then. *)
Definition within {A} (rs : list (reply V)) (c : coro A) (s : St) : St * list moment :=
  let x := concurrently ((0%nat,.) <$> rs) [c] s in
  (x.1.2, (Occurred <$> x.2.*2) ++ (x.1.1 ≫= abandoned)).

(** Calls awaited one after the other, each under its timeout. *)
Fixpoint one_by_one {A} (calls : list (coro A * list (reply V))) (s : St)
    : St * list moment :=
  match calls with
  | [] => (s, [])
  | (c, rs) :: calls =>
      let x := within rs c s in
      let y := one_by_one calls x.1 in
      (y.1, x.2 ++ y.2)
  end.

(** ** The rules *)

(** The two suspension points, in a proof by induction on the tree: what
    holds there is kept, and the induction hypothesis gives the rest. *)
Ltac suspended H IH :=
  first
    [ destruct H as [? H]; split; [done|]; intros r;
      destruct (H r) as (g' & ? & ?); exists g'; split; [done|by eapply IH]
    | destruct H as [? (g' & ? & ?)]; split; [done|];
      exists g'; split; [done|by eapply IH] ].

Lemma cwp_mono {A} (c : coro A) (Q Q' : outcome A → G → St → Prop) : ∀ g s,
  cwp c Q g s → (∀ o g' s', Q o g' s' → Q' o g' s') → cwp c Q' g s.
Proof.
  induction c as [a|e|op k IH|d k IH|k IH|s' k IH]; intros g s Hc HQ; cbn [cwp] in *;
    [by apply HQ|by apply HQ|suspended Hc IH..|by eapply IH|by eapply IH].
Qed.

Lemma cwp_ret {A} (a : A) (Q : outcome A → G → St → Prop) g s :
  Q (Ok a) g s → cwp (mret a) Q g s.
Proof. done. Qed.

Lemma cwp_raise {A} e (Q : outcome A → G → St → Prop) g s :
  Q (Raise e) g s → cwp (py_raise e : coro A) Q g s.
Proof. done. Qed.

Lemma cwp_bind {A B} (m : coro A) (f : A → coro B) (Q : outcome B → G → St → Prop) :
  ∀ g s,
  cwp m (λ o g' s', match o with
                    | Ok a => cwp (f a) Q g' s'
                    | Raise e => Q (Raise e) g' s'
                    end) g s →
  cwp (m ≫= f) Q g s.
Proof.
  unfold mbind. cbn [py_bind coro_py].
  induction m as [a|e|op k IH|d k IH|k IH|s' k IH]; intros g s Hm;
    cbn [cwp coro_bind] in *; [done|done|suspended Hm IH|suspended Hm IH|by apply IH..].
Qed.

Lemma cwp_try_except {A} (m : coro A) (h : exn → coro A)
    (Q : outcome A → G → St → Prop) : ∀ g s,
  cwp m (λ o g' s', match o with
                    | Ok a => Q (Ok a) g' s'
                    | Raise e => cwp (h e) Q g' s'
                    end) g s →
  cwp (py_try_except m h) Q g s.
Proof.
  cbn [py_try_except coro_py].
  induction m as [a|e|op k IH|d k IH|k IH|s' k IH]; intros g s Hm;
    cbn [cwp coro_try] in *; [done|done|suspended Hm IH|suspended Hm IH|by apply IH..].
Qed.

(** A call is a suspension point: the caller may leave it there, and the
    continuation runs after every reply. *)
Lemma cwp_call (op : Op) (Q : outcome V → G → St → Prop) g s :
  (∃ g', leave g op = Some g' ∧ Inv g' s) →
  (∀ r, ∃ g', watch g (Called op r) = Some g' ∧
     Q (match r with Returns v => Ok v | Raises e => Raise e end) g' s) →
  cwp (py_call op) Q g s.
Proof.
  intros (g0 & Hl & H0) Hop. split.
  - exists g0. cbn. by rewrite Hl.
  - intros r. destruct (Hop r) as (g' & ? & ?). exists g'. by destruct r.
Qed.

Lemma cwp_sleep d (Q : outcome unit → G → St → Prop) g g' s :
  Inv g s → watch g (Slept d) = Some g' → Q (Ok tt) g' s → cwp (py_sleep d) Q g s.
Proof. intros HI Hd HQ. split; [by exists g|by exists g']. Qed.

Lemma cwp_get_self (Q : outcome St → G → St → Prop) g s :
  Q (Ok s) g s → cwp py_get_self Q g s.
Proof. done. Qed.

Lemma cwp_put_self s' (Q : outcome unit → G → St → Prop) g s :
  Q (Ok tt) g s' → cwp (py_put_self s') Q g s.
Proof. done. Qed.

Lemma cwp_for_from {L A} (I : L → G → St → Prop) (body : Z → L → coro (ctl L A))
    (Q : outcome (L + A) → G → St → Prop) n : ∀ i l g s,
  (∀ i l g s, I l g s →
     cwp (body i l) (λ o g' s', match o with
                                | Ok (Next l') => I l' g' s'
                                | Ok (Break l') => Q (Ok (inl l')) g' s'
                                | Ok (Return a) => Q (Ok (inr a)) g' s'
                                | Raise e => Q (Raise e) g' s'
                                end) g s) →
  (∀ l g s, I l g s → Q (Ok (inl l)) g s) →
  I l g s → cwp (py_for_from n i body l) Q g s.
Proof.
  induction n as [|n IH]; intros i l g s Hbody Hend HI; cbn [py_for_from].
  { apply cwp_ret. by apply Hend. }
  apply cwp_bind. eapply cwp_mono; [by apply Hbody|]. cbn beta.
  intros [[l'|l'|a]|e] g' s' H; [by apply IH|by apply cwp_ret..|done].
Qed.

Lemma cwp_for_range {L A} (I : L → G → St → Prop) (body : Z → L → coro (ctl L A))
    (Q : outcome (L + A) → G → St → Prop) stop l g s :
  (∀ i l g s, I l g s →
     cwp (body i l) (λ o g' s', match o with
                                | Ok (Next l') => I l' g' s'
                                | Ok (Break l') => Q (Ok (inl l')) g' s'
                                | Ok (Return a) => Q (Ok (inr a)) g' s'
                                | Raise e => Q (Raise e) g' s'
                                end) g s) →
  (∀ l g s, I l g s → Q (Ok (inl l)) g s) →
  I l g s → cwp (py_for_range stop body l) Q g s.
Proof. apply cwp_for_from. Qed.

(** ** Along the resumptions of a task *)

Lemma cwp_settle {A} (c : coro A) (Q : outcome A → G → St → Prop) g : ∀ s,
  cwp c Q g s → cwp (settle c s).1 Q g (settle c s).2.
Proof. induction c as [a|e|op k IH|d k IH|k IH|s' k IH]; intros s Hc; try done; by apply IH. Qed.

Lemma cwp_resume {A} (c : coro A) (Q : outcome A → G → St → Prop) g s r :
  cwp c Q g s →
  ∃ g', monitor watch g (resume c r s).2 = Some g' ∧
        cwp (resume c r s).1.1 Q g' (resume c r s).1.2.
Proof.
  destruct c as [a|e|op k|d k|k|s' k]; cbn [resume fst snd]; intros Hc;
    [by exists g..| | |by exists g|by exists g].
  - destruct Hc as [_ Hk]. destruct (Hk r) as (g' & Hw & Hc). exists g'.
    split; [cbn; by rewrite Hw|by apply cwp_settle].
  - destruct Hc as [_ (g' & Hw & Hc)]. exists g'.
    split; [cbn; by rewrite Hw|by apply cwp_settle].
Qed.

Lemma cwp_steps {A} (c c' : coro A) (Q : outcome A → G → St → Prop) g s s' t :
  steps c s c' s' t → cwp c Q g s →
  ∃ g', monitor watch g t = Some g' ∧ cwp c' Q g' s'.
Proof.
  induction 1 as [c s|c s c' s' t r _ IH]; intros Hc; [by exists g|].
  destruct (IH Hc) as (g1 & Ht & H1).
  destruct (cwp_resume c' Q g1 s' r H1) as (g' & Hr & H'). exists g'.
  eauto using monitor_app_Some.
Qed.

(** ** Runs to the end *)

(** A coroutine that may be left at every suspension point, read as a
    program that runs to its end. *)
Lemma cwp_interp {A} (c : coro A) (Q : outcome A → G → St → Prop) : ∀ g s,
  cwp c Q g s → wp watch (interp c) Q g s.
Proof.
  induction c as [a|e|op k IH|d k IH|k IH|s' k IH]; intros g s Hc E n; cbn [cwp] in Hc.
  - cbn [interp]. by rewrite run_ret.
  - cbn [interp]. by rewrite run_raise.
  - destruct Hc as [_ Hk]. destruct (Hk (E n)) as (g' & Hw & Hc).
    rewrite run_interp_await. eapply accepts_prepend; [cbn; by rewrite Hw|].
    by apply IH.
  - destruct Hc as [_ (g' & Hw & Hc)].
    rewrite run_interp_sleeping. eapply accepts_prepend; [cbn; by rewrite Hw|].
    by apply IH.
  - rewrite run_interp_reading. by apply IH.
  - rewrite run_interp_writing. by apply IH.
Qed.

Lemma cwp_wp {A} (c : coro A) (m : eff A) `{!Reads c m}
    (Q : outcome A → G → St → Prop) g s :
  cwp c Q g s → wp watch m Q g s.
Proof. intros Hc E n. rewrite <- (reads (c:=c)). by apply cwp_interp. Qed.

(** ** Calls under a timeout *)

(** The calls follow the protocol and keep the invariant, and may be left
    wherever they are suspended. *)
Definition leavable_call {A} (c : coro A) : Prop :=
  ∀ g s, Inv g s → cwp c (λ _, Inv) g s.

Lemma monitor_occurred g t : monitor oversee g (Occurred <$> t) = monitor watch g t.
Proof. by rewrite monitor_fmap. Qed.

(** A task that keeps the invariant may be left where it is, suspended or
    ended. *)
Lemma cwp_leavable {A} (c : coro A) g s :
  cwp c (λ _, Inv) g s → settled c = true → leavable c g s.
Proof. destruct c; intros Hc [=]; [by exists g..|apply Hc|apply Hc]. Qed.

Lemma within_monitored {A} (c : coro A) rs g s :
  leavable_call c → Inv g s →
  ∃ g', monitor oversee g (within rs c s).2 = Some g' ∧ Inv g' (within rs c s).1.
Proof.
  intros Hc Hg. unfold within, concurrently. cbn [spawn].
  pose proof (cwp_settle c _ g s (Hc g s Hg)) as Hc'.
  pose proof (settled_settle c s) as Hs. destruct (settle c s) as [c0 s0]. cbn [fst snd] in *.
  destruct (alone_steps rs c0 s0 Hs) as (c' & -> & Hsteps & Hs' & _).
  destruct (cwp_steps _ _ _ _ _ _ _ Hsteps Hc') as (g1 & Ht & H1). cbn [fst snd mbind].
  cbn [list_bind]. rewrite app_nil_r.
  destruct (cwp_leavable _ _ _ H1 Hs') as (g' & Hl & H'). exists g'.
  split; [|done]. eapply monitor_app_Some; [by rewrite monitor_occurred|done].
Qed.

(** The protocol holds through every sequence of calls and timeouts. *)
Lemma one_by_one_monitored {A} (calls : list (coro A * list (reply V))) : ∀ g s,
  Forall (λ call, leavable_call call.1) calls → Inv g s →
  ∃ g', monitor oversee g (one_by_one calls s).2 = Some g' ∧
        Inv g' (one_by_one calls s).1.
Proof.
  induction calls as [|[c rs] calls IH]; intros g s Hcalls Hg; [by exists g|].
  apply Forall_cons in Hcalls as [Hc Hcalls]. cbn [one_by_one fst snd].
  destruct (within_monitored c rs g s Hc Hg) as (g1 & Ht & H1).
  destruct (IH g1 _ Hcalls H1) as (g' & Ht' & H'). exists g'.
  eauto using monitor_app_Some.
Qed.

(** A timeout is a cancellation: the state a call leaves under a timeout
    is the state the scheduler of [Cancel] leaves when it resumes the
    task with the same replies and then cancels it. *)
Lemma within_interrupted {A} (c : coro A) rs s :
  (within rs c s).1 =
  (interrupted (resuming ((0%nat,.) <$> rs) ++ [(0%nat, Cancel)]) [c] s).1.2.
Proof.
  unfold within, interrupted, concurrently. cbn [fst].
  destruct (spawn [c] s) as [cs s']. cbn [fst snd]. clear c s. revert cs s'.
  induction rs as [|r rs IH]; intros cs s.
  - cbn. by destruct (_ !! 0%nat) as [[|]|].
  - cbn [fmap list_fmap resuming app interleave interleave_interrupted fst snd].
    rewrite list_lookup_fmap.
    destruct (cs !! 0%nat) as [c|]; cbn [fmap option_fmap option_map act fst snd];
      [|apply IH].
    destruct (resume c r s) as [[c' s'] t]. cbn [fst snd]. rewrite <- list_fmap_insert.
    specialize (IH (<[0%nat:=c']> cs) s'). by destruct (interleave _ _ s') as [[? ?] ?].
Qed.

End Suspended.

Arguments moment Op V : clear implicits.
Arguments cwp : simpl never.
