(* ===== verification/Schemas.v ===== *)
(** * Schemas: the records of [core/schemas.py]

    [BaseResponse] is the uniform outcome of every send.  The pydantic
    models are plain records here: pydantic validates at construction only,
    and the code assigns to the fields of a [BaseResponse] afterwards
    without validation, which the setters [set_status_code], [set_details]
    and [set_execute_status] model. *)

From S2P Require Import Prelude.

(** ** Python values

    What the annotation [Any] ranges over in this program: JSON documents
    returned by the services, payload fields, and the strings produced by
    [str(error)].  [PyNone] is both Python's [None] and JSON's [null]. *)

#[warnings="-register-all"]
Inductive pyval : Set :=
| PyNone
| PyBool (b : bool)
| PyInt (z : Z)
| PyStr (s : string)
| PyList (l : list pyval)
| PyDict (d : list (string * pyval)).

(** ** The models *)

Record SessionPool : Set := {
  limit : Z;
  limit_per_host : Z;
  keepalive_timeout : Z;
  ssl : bool
}.

Record GmailEnvironments : Set := {
  gmail_address : string;
  gmail_app_password : string
}.

Record BaseResponse : Set := {
  status_code : option Z;
  details : pyval;
  execute_status : bool
}.

(** [BaseResponse()]: every field at its default. *)
Definition BaseResponse_new : BaseResponse :=
  {| status_code := None; details := PyNone; execute_status := false |}.

(** [result.status_code = v] *)
Definition set_status_code (v : option Z) (r : BaseResponse) : BaseResponse :=
  {| status_code := v; details := details r; execute_status := execute_status r |}.

(** [result.details = v] *)
Definition set_details (v : pyval) (r : BaseResponse) : BaseResponse :=
  {| status_code := status_code r; details := v; execute_status := execute_status r |}.

(** [result.execute_status = v] *)
Definition set_execute_status (v : bool) (r : BaseResponse) : BaseResponse :=
  {| status_code := status_code r; details := details r; execute_status := v |}.

#[export] Instance SessionPool_eq_dec : EqDecision SessionPool.
Proof. solve_decision. Defined.

#[export] Instance GmailEnvironments_eq_dec : EqDecision GmailEnvironments.
Proof. solve_decision. Defined.

(** ** The invariant of a result

    [execute_status] is true only on a confirmed delivery: a result that
    claims success carries a status code, and that code is in the range
    [success] of the transport in use. *)

Definition result_ok (success : Z → Prop) (r : BaseResponse) : Prop :=
  execute_status r = true → ∃ s, status_code r = Some s ∧ success s.

(** A result that failed: it does not claim success. *)
Definition failed (r : BaseResponse) : Prop := execute_status r = false.

Section Setters.
Implicit Types (r : BaseResponse) (s : option Z) (d : pyval) (b : bool).

Lemma status_code_set_status_code s r : status_code (set_status_code s r) = s.
Proof. reflexivity. Qed.

Lemma details_set_details d r : details (set_details d r) = d.
Proof. reflexivity. Qed.

Lemma execute_status_set_execute_status b r :
  execute_status (set_execute_status b r) = b.
Proof. reflexivity. Qed.

Lemma BaseResponse_eta r :
  {| status_code := status_code r; details := details r;
     execute_status := execute_status r |} = r.
Proof. by destruct r. Qed.

Lemma result_ok_new success : result_ok success BaseResponse_new.
Proof. intros H. discriminate H. Qed.

Lemma result_ok_failed success r : failed r → result_ok success r.
Proof. unfold failed, result_ok. congruence. Qed.

Lemma failed_set_status_code s r : failed r → failed (set_status_code s r).
Proof. done. Qed.

Lemma failed_set_details d r : failed r → failed (set_details d r).
Proof. done. Qed.

End Setters.

#[export] Hint Resolve result_ok_new result_ok_failed failed_set_status_code
  failed_set_details : py.
