(* ===== verification/Constants.v ===== *)
(** * Constants: the defaults of [core/constants.py]

    The module reads the process environment when it is imported and
    builds the default pool settings and the default Gmail credentials.
    The environment is a finite map from names to strings.  The pool
    settings go through the validation of their pydantic model, which turns
    the strings into integers and a boolean or raises: the two coercions are
    parameters of this file, the construction is an [option].

    Before that, the import of [core/schemas.py] has loaded the nearest
    file of variables [.env.test] into the environment: [import_schemas]
    and [import_constants] are the two imports, functions of the
    directories searched and of the environment of the process. *)

From Stdlib Require Import DecimalString DecimalZ DecimalPos.
From stdpp Require Import gmap.
From S2P Require Import Prelude Schemas.

(** [os.environ] *)
Definition environ : Type := gmap string string.

(** [os.getenv(key, default)] *)
Definition getenv (env : environ) (key default : string) : string :=
  from_option id default (env !! key).

(** ** The file of variables

    [core/schemas.py] runs [load_dotenv(find_dotenv(".env.test"))] when it
    is imported, and [core/constants.py] imports it before it reads the
    environment.  python-dotenv is not in the repository: a file of
    variables is the finite map python-dotenv parses from it, and the
    directories searched are the list of the directories from the one of
    the calling module up to the root, each with the files of variables it
    holds. *)

Definition directory : Type := gmap string environ.

(** [find_dotenv(filename)]: the file of that name in the nearest
    directory; [None] stands for the empty path returned when no directory
    has it. *)
Fixpoint find_dotenv (filename : string) (dirs : list directory) : option environ :=
  match dirs with
  | [] => None
  | dir :: dirs =>
      match dir !! filename with
      | Some file => Some file
      | None => find_dotenv filename dirs
      end
  end.

(** [load_dotenv(path)], with [override=False]: the variables of the file
    are added to the environment; a variable that is set keeps its value.
    Nothing is loaded from the empty path. *)
Definition load_dotenv (file : option environ) (env : environ) : environ :=
  env ∪ default ∅ file.

(** Line 6 of [core/schemas.py]: the effect of the import of the module on
    the environment of the process. *)
Definition import_schemas (dirs : list directory) (env : environ) : environ :=
  load_dotenv (find_dotenv ".env.test" dirs) env.

Section Validation.
(** pydantic's coercion of a string to [int] and to [bool]. *)
Context (to_int : string → option Z) (to_bool : string → option bool).

(** [SessionPool(limit=..., limit_per_host=..., keepalive_timeout=...,
    ssl=...)] on strings: every field is validated, and the construction
    fails when one of them is not valid. *)
Definition SessionPool_validate (limit limit_per_host keepalive_timeout ssl : string)
    : option SessionPool :=
  limit ← to_int limit;
  limit_per_host ← to_int limit_per_host;
  keepalive_timeout ← to_int keepalive_timeout;
  ssl ← to_bool ssl;
  Some {| Schemas.limit := limit; Schemas.limit_per_host := limit_per_host;
          Schemas.keepalive_timeout := keepalive_timeout; Schemas.ssl := ssl |}.

(** Lines 5 to 10: [None] stands for the [ValidationError] raised at
    import. *)
Definition DEFAULT_POOL_SETTNGS (env : environ) : option SessionPool :=
  SessionPool_validate (getenv env "POOL_LIMIT" "") (getenv env "POOL_LIMIT_PER_HOST" "")
    (getenv env "POOL_KEEPALIVE_TIMEOUT" "") (getenv env "POOL_SSL" "").

(** Lines 12 to 15: both fields are strings, nothing can fail. *)
Definition DEFAULT_GMAIL_NOTIF_ENVIRONMENTS (env : environ) : GmailEnvironments :=
  {| gmail_address := getenv env "GMAIL_ADDRESS" "";
     gmail_app_password := getenv env "GMAIL_APP_PASSWORD" "" |}.

(** The import of [core/constants.py]: line 3 imports the schemas, then
    the two defaults are built from the environment as the import left it.
    The import fails, [None], when the pool settings are not valid. *)
Definition import_constants (dirs : list directory) (env : environ)
    : environ * option (SessionPool * GmailEnvironments) :=
  let env := import_schemas dirs env in
  (env, pool ← DEFAULT_POOL_SETTNGS env;
        Some (pool, DEFAULT_GMAIL_NOTIF_ENVIRONMENTS env)).

(** The environment of a deployment: the six variables, written from the
    settings by a printer of integers and a printer of booleans. *)
Definition environ_of (show_int : Z → string) (show_bool : bool → string)
    (p : SessionPool) (g : GmailEnvironments) : environ :=
  {[ "POOL_LIMIT" := show_int (limit p);
     "POOL_LIMIT_PER_HOST" := show_int (limit_per_host p);
     "POOL_KEEPALIVE_TIMEOUT" := show_int (keepalive_timeout p);
     "POOL_SSL" := show_bool (ssl p);
     "GMAIL_ADDRESS" := gmail_address g;
     "GMAIL_APP_PASSWORD" := gmail_app_password g ]}.

Lemma getenv_lookup env key default v : env !! key = Some v → getenv env key default = v.
Proof. unfold getenv. by intros ->. Qed.

Lemma getenv_default env key default : env !! key = None → getenv env key default = default.
Proof. unfold getenv. by intros ->. Qed.

Lemma SessionPool_validate_Some limit limit_per_host keepalive_timeout ssl p :
  SessionPool_validate limit limit_per_host keepalive_timeout ssl = Some p ↔
  to_int limit = Some (Schemas.limit p) ∧
  to_int limit_per_host = Some (Schemas.limit_per_host p) ∧
  to_int keepalive_timeout = Some (Schemas.keepalive_timeout p) ∧
  to_bool ssl = Some (Schemas.ssl p).
Proof.
  unfold SessionPool_validate. split.
  - intros H. by simplify_option_eq.
  - intros (-> & -> & -> & ->). by destruct p.
Qed.

(** The default pool settings exist exactly when the four variables
    hold valid values: [DEFAULT_POOL_SETTNGS] is the record of the values
    read from [POOL_LIMIT], [POOL_LIMIT_PER_HOST], [POOL_KEEPALIVE_TIMEOUT]
    and [POOL_SSL] (the empty string for a variable that is not set), each
    of them coerced by the model. *)
Theorem DEFAULT_POOL_SETTNGS_defined env p :
  DEFAULT_POOL_SETTNGS env = Some p ↔
  to_int (getenv env "POOL_LIMIT" "") = Some (limit p) ∧
  to_int (getenv env "POOL_LIMIT_PER_HOST" "") = Some (limit_per_host p) ∧
  to_int (getenv env "POOL_KEEPALIVE_TIMEOUT" "") = Some (keepalive_timeout p) ∧
  to_bool (getenv env "POOL_SSL" "") = Some (ssl p).
Proof. apply SessionPool_validate_Some. Qed.

(** C38: the defaults of the pool settings are not usable: the empty string
    is neither a valid integer nor a valid boolean, so when one of the four
    variables is not set the construction fails, and the module cannot be
    imported. *)
Theorem DEFAULT_POOL_SETTNGS_needs_environment env key :
  to_int "" = None → to_bool "" = None →
  key ∈ ["POOL_LIMIT"; "POOL_LIMIT_PER_HOST"; "POOL_KEEPALIVE_TIMEOUT"; "POOL_SSL"] →
  env !! key = None →
  DEFAULT_POOL_SETTNGS env = None.
Proof.
  intros Hint Hbool Hkey Hnone. unfold DEFAULT_POOL_SETTNGS, SessionPool_validate.
  set_unfold. destruct Hkey as [->|[->|[->|[->|[]]]]];
    rewrite (getenv_default _ _ _ Hnone), ?Hint, ?Hbool; cbn; [done|..];
    repeat (destruct (to_int _); cbn; try done).
Qed.

(** The settings written to the environment are the settings read
    from it: when the coercions of the model read back what the printers
    write, the defaults built from the environment of a deployment are the
    pool settings and the credentials it was written from. *)
Theorem DEFAULT_settings_roundtrip (show_int : Z → string) (show_bool : bool → string)
    (p : SessionPool) (g : GmailEnvironments) :
  (∀ z, to_int (show_int z) = Some z) → (∀ b, to_bool (show_bool b) = Some b) →
  DEFAULT_POOL_SETTNGS (environ_of show_int show_bool p g) = Some p ∧
  DEFAULT_GMAIL_NOTIF_ENVIRONMENTS (environ_of show_int show_bool p g) = g.
Proof.
  intros Hint Hbool. split.
  - apply SessionPool_validate_Some. unfold getenv, environ_of.
    by simplify_map_eq.
  - unfold DEFAULT_GMAIL_NOTIF_ENVIRONMENTS, getenv, environ_of. simplify_map_eq.
    by destruct g.
Qed.

(** ** The import *)

(** A variable after the import: its value in the environment of the
    process when it is set there, its value in the file otherwise. *)
Lemma load_dotenv_lookup file env key :
  load_dotenv file env !! key =
  match env !! key with
  | Some v => Some v
  | None => file ≫= (.!! key)
  end.
Proof.
  unfold load_dotenv, environ in *. destruct (env !! key) as [v|] eqn:Hkey.
  - by apply lookup_union_Some_l.
  - rewrite lookup_union_r by done. by destruct file.
Qed.

Lemma getenv_load_dotenv file env key d :
  getenv (load_dotenv file env) key d =
  getenv env key (from_option (λ f, getenv f key d) d file).
Proof.
  unfold getenv. rewrite load_dotenv_lookup.
  destruct (env !! key); [done|]. by destruct file.
Qed.

(** Loading the file again changes nothing: the module may be imported
    from several places. *)
Lemma load_dotenv_idemp file env :
  load_dotenv file (load_dotenv file env) = load_dotenv file env.
Proof.
  apply map_eq. intros key. rewrite !load_dotenv_lookup.
  by destruct (env !! key), file as [f|]; cbn; try destruct (f !! key).
Qed.

(** The file is taken from the nearest directory that has it. *)
Lemma find_dotenv_Some filename dirs file :
  find_dotenv filename dirs = Some file ↔
  ∃ i dir, dirs !! i = Some dir ∧ dir !! filename = Some file ∧
    ∀ j dir', (j < i)%nat → dirs !! j = Some dir' → dir' !! filename = None.
Proof.
  induction dirs as [|d dirs IH]; cbn [find_dotenv].
  { split; [done|]. by intros (i & dir & ? & _). }
  destruct (d !! filename) as [f|] eqn:Hd.
  - split.
    + intros [= ->]. exists 0%nat, d. split_and!; [done..|]. intros; lia.
    + intros ([|i] & dir & Hi & Hf & Hlt); [by simplify_eq/=|].
      specialize (Hlt 0%nat d ltac:(lia) eq_refl). congruence.
  - rewrite IH. split.
    + intros (i & dir & Hi & Hf & Hlt). exists (S i), dir. split_and!; [done..|].
      intros [|j] dir' Hj Hdir'; [by simplify_eq/=|]. apply (Hlt j); [lia|done].
    + intros ([|i] & dir & Hi & Hf & Hlt); [simplify_eq/=; congruence|].
      exists i, dir. split_and!; [done..|]. intros j dir' Hj. apply (Hlt (S j)). lia.
Qed.

(** The defaults are those of any environment that the environment of the
    process, completed by the file, extends. *)
Lemma import_constants_extends show_int show_bool dirs env p g :
  (∀ z, to_int (show_int z) = Some z) → (∀ b, to_bool (show_bool b) = Some b) →
  environ_of show_int show_bool p g ⊆ import_schemas dirs env →
  (import_constants dirs env).2 = Some (p, g).
Proof.
  intros Hint Hbool Hsub. unfold import_constants. cbn [snd].
  assert (∀ key v, environ_of show_int show_bool p g !! key = Some v →
            getenv (import_schemas dirs env) key "" = v) as Hget.
  { intros key v Hkey. apply getenv_lookup. by eapply (lookup_weaken (M:=gmap string)). }
  unfold DEFAULT_POOL_SETTNGS, DEFAULT_GMAIL_NOTIF_ENVIRONMENTS.
  rewrite (Hget "POOL_LIMIT" (show_int (limit p))),
    (Hget "POOL_LIMIT_PER_HOST" (show_int (limit_per_host p))),
    (Hget "POOL_KEEPALIVE_TIMEOUT" (show_int (keepalive_timeout p))),
    (Hget "POOL_SSL" (show_bool (ssl p))), (Hget "GMAIL_ADDRESS" (gmail_address g)),
    (Hget "GMAIL_APP_PASSWORD" (gmail_app_password g))
    by (unfold environ_of; by simplify_map_eq).
  unfold SessionPool_validate. rewrite !Hint, Hbool. cbn. by destruct p, g.
Qed.

(** C37: the settings written to the file of variables are the settings the
    import builds.  When the nearest [.env.test] above the package holds
    the six variables as the printers write them, the coercions of the
    model read back what the printers write, and the environment of the
    process sets none of the six, the import of [core/constants.py]
    succeeds and its defaults are the pool settings and the credentials
    the file was written from. *)
Theorem import_constants_roundtrip show_int show_bool dirs env p g :
  (∀ z, to_int (show_int z) = Some z) → (∀ b, to_bool (show_bool b) = Some b) →
  find_dotenv ".env.test" dirs = Some (environ_of show_int show_bool p g) →
  dom env ## dom (environ_of show_int show_bool p g) →
  (import_constants dirs env).2 = Some (p, g).
Proof.
  intros Hint Hbool Hfile Hdom. apply (import_constants_extends show_int show_bool); [done..|].
  unfold import_schemas, load_dotenv. rewrite Hfile. cbn [default].
  apply map_union_subseteq_r. by apply map_disjoint_dom.
Qed.

(** The environment of the process wins: when it sets the six variables,
    the defaults are built from them, whatever file of variables is found
    and whatever it holds. *)
Theorem import_constants_environment_wins show_int show_bool dirs env p g :
  (∀ z, to_int (show_int z) = Some z) → (∀ b, to_bool (show_bool b) = Some b) →
  environ_of show_int show_bool p g ⊆ env →
  (import_constants dirs env).2 = Some (p, g).
Proof.
  intros Hint Hbool Hsub. apply (import_constants_extends show_int show_bool); [done..|].
  etrans; [done|]. apply map_union_subseteq_l.
Qed.

(** Without a file of variables the import leaves the environment as it
    is. *)
Lemma import_schemas_no_file dirs env :
  find_dotenv ".env.test" dirs = None → import_schemas dirs env = env.
Proof. unfold import_schemas, load_dotenv. intros ->. apply map_union_empty. Qed.

End Validation.

(** ** Concrete coercions and environments *)

(** A coercion that knows a few numerals, for the examples. *)
Definition to_int0 (s : string) : option Z :=
  if decide (s = "100") then Some 100%Z
  else if decide (s = "10") then Some 10%Z
  else if decide (s = "30") then Some 30%Z
  else None.

(** Decimal numerals: the integers as [str] prints them, and the strings
    [int] reads. *)
Definition decimal (z : Z) : string := NilZero.string_of_int (Z.to_int z).

Definition of_decimal (s : string) : option Z := Z.of_int <$> NilZero.int_of_string s.

Definition show_bool0 (b : bool) : string := if b then "true" else "false".

Definition to_bool0 (s : string) : option bool :=
  if decide (s = "true") then Some true
  else if decide (s = "false") then Some false
  else None.

Definition env0 : environ :=
  {[ "POOL_LIMIT" := "100"; "POOL_LIMIT_PER_HOST" := "10";
     "POOL_KEEPALIVE_TIMEOUT" := "30"; "POOL_SSL" := "false";
     "GMAIL_ADDRESS" := "bot@gmail.com" ]}.

Lemma of_decimal_decimal z : of_decimal (decimal z) = Some z.
Proof.
  unfold of_decimal, decimal. rewrite NilZero.isi.
  - cbn. by rewrite of_to.
  - destruct z as [|q|q]; cbn; try done. intros [= H]. by apply DecimalPos.Unsigned.to_uint_nonnil in H.
  - destruct z as [|q|q]; cbn; try done. intros [= H]. by apply DecimalPos.Unsigned.to_uint_nonnil in H.
Qed.

Lemma DEFAULT_settings_roundtrip_witness :
  DEFAULT_POOL_SETTNGS of_decimal to_bool0
    (environ_of decimal show_bool0
       {| limit := 100; limit_per_host := 10; keepalive_timeout := 30; ssl := true |}
       {| gmail_address := "bot@gmail.com"; gmail_app_password := "app-password" |}) =
    Some {| limit := 100; limit_per_host := 10; keepalive_timeout := 30; ssl := true |} ∧
  DEFAULT_GMAIL_NOTIF_ENVIRONMENTS
    (environ_of decimal show_bool0
       {| limit := 100; limit_per_host := 10; keepalive_timeout := 30; ssl := true |}
       {| gmail_address := "bot@gmail.com"; gmail_app_password := "app-password" |}) =
    {| gmail_address := "bot@gmail.com"; gmail_app_password := "app-password" |}.
Proof.
  apply (DEFAULT_settings_roundtrip of_decimal to_bool0 decimal show_bool0);
    [apply of_decimal_decimal|by intros []].
Defined.

Lemma DEFAULT_POOL_SETTNGS_defined_witness :
  DEFAULT_POOL_SETTNGS to_int0 to_bool0 env0 =
    Some {| limit := 100; limit_per_host := 10; keepalive_timeout := 30; ssl := false |}.
Proof.
  apply (DEFAULT_POOL_SETTNGS_defined to_int0 to_bool0 env0). by vm_compute.
Defined.

Lemma DEFAULT_POOL_SETTNGS_needs_environment_witness :
  DEFAULT_POOL_SETTNGS to_int0 to_bool0 (delete "POOL_LIMIT" env0) = None.
Proof.
  apply (DEFAULT_POOL_SETTNGS_needs_environment to_int0 to_bool0 _ "POOL_LIMIT");
    [reflexivity|reflexivity|set_solver|by vm_compute].
Defined.

(** A variable that is not set gives an empty credential. *)
Example default_gmail_environments :
  DEFAULT_GMAIL_NOTIF_ENVIRONMENTS env0 =
    {| gmail_address := "bot@gmail.com"; gmail_app_password := "" |}.
Proof. by vm_compute. Qed.

(** ** The import, on a concrete tree of directories *)

Definition settings0 : SessionPool :=
  {| limit := 100; limit_per_host := 10; keepalive_timeout := 30; ssl := true |}.

Definition credentials0 : GmailEnvironments :=
  {| gmail_address := "bot@gmail.com"; gmail_app_password := "app-password" |}.

(** The directory of the package holds no file of variables; its parent
    holds [.env.test] and [.env]. *)
Definition dirs0 : list directory :=
  [∅;
   {[ ".env.test" := environ_of decimal show_bool0 settings0 credentials0;
      ".env" := {[ "GMAIL_ADDRESS" := "production@gmail.com" ]} ]}].

Lemma import_constants_roundtrip_witness :
  (import_constants of_decimal to_bool0 dirs0 {[ "PATH" := "/usr/bin" ]}).2 =
    Some (settings0, credentials0).
Proof.
  apply (import_constants_roundtrip of_decimal to_bool0 decimal show_bool0);
    [apply of_decimal_decimal|by intros []|reflexivity|].
  unfold environ. rewrite dom_singleton_L. apply disjoint_singleton_l, not_elem_of_dom.
  by vm_compute.
Defined.

Lemma import_constants_environment_wins_witness :
  (import_constants of_decimal to_bool0 []
     (<["PATH" := "/usr/bin"]> (environ_of decimal show_bool0 settings0 credentials0))).2 =
    Some (settings0, credentials0).
Proof.
  apply (import_constants_environment_wins of_decimal to_bool0 decimal show_bool0);
    [apply of_decimal_decimal|by intros []|by apply insert_subseteq].
Defined.

(** A variable of the process takes precedence over the file, variable by
    variable: the address is that of the process, the password that of the
    file. *)
Example environment_overrides_file :
  (import_constants of_decimal to_bool0 dirs0 {[ "GMAIL_ADDRESS" := "ops@gmail.com" ]}).2 =
    Some (settings0, {| gmail_address := "ops@gmail.com";
                    gmail_app_password := "app-password" |}).
Proof. by vm_compute. Qed.

(** The file that is loaded is [.env.test], also outside the tests: the
    [.env] beside it is never read. *)
Example production_file_not_read :
  (import_constants of_decimal to_bool0 dirs0 ∅).2 = Some (settings0, credentials0).
Proof. by vm_compute. Qed.

(** Without a file and without the variables, the module cannot be
    imported. *)
Example import_fails_without_variables :
  (import_constants of_decimal to_bool0 [∅; ∅] {[ "PATH" := "/usr/bin" ]}).2 = None.
Proof. by vm_compute. Qed.
