(* ===== verification/Utils.v ===== *)
(** * Utils: the retry dispatcher of [core/utils.py]

    [send_with_retries_mechanism] posts a payload through a pooled HTTP
    session, at most [max_retries] times, sleeping [2 ** attempt] between
    attempts.  The definition below follows the source statement by
    statement.  [attempt_step] is the same iteration as a pure function of
    the reply, and [dispatch] the whole loop as a recursion over the replies:
    the theorems of the dispatcher are proved through them. *)

From stdpp Require Import gmap.
From S2P Require Import Prelude Effects Schemas.

(** ** The transport *)

(** aiohttp's [ClientSession] as the adapters build it: a connector
    configured from the pool settings. *)
Record ClientSession : Set := { connector : SessionPool }.

(** What the code reads of aiohttp's [ClientResponse]: its [status], and the
    outcome of awaiting [response.json()] (a document, or an exception such
    as [ContentTypeError]). *)
Record ClientResponse : Set := {
  status : Z;
  json : outcome pyval
}.

(** aiohttp's [ClientResponse.ok]: the status is below 400. *)
Definition ok (response : ClientResponse) : bool :=
  bool_decide (status response < 400)%Z.

(** The library calls awaited by the HTTP channels. *)
Inductive http_op : Type :=
| Post (session_pool : ClientSession) (request_params : gmap string pyval)
| Close (session_pool : ClientSession).

Abbreviation http_reply := (reply ClientResponse).
Abbreviation http_event := (event http_op ClientResponse).

Section Dispatcher.
Context {St : Type}.
#[local] Abbreviation eff := (eff http_op ClientResponse St).

(** [await response.json()] *)
Definition await_json (response : ClientResponse) : eff pyval :=
  match json response with
  | Ok data => mret data
  | Raise e => raise e
  end.

(** [getattr(error, "status", 500)] *)
Definition getattr_status (error : exn) : Z := default 500%Z (exn_status error).

(** The dictionary [{"url": url, payload_marker: payload}]: the second key
    overwrites the first when [payload_marker] is ["url"]. *)
Definition request_params (url payload_marker : string) (payload : pyval)
    : gmap string pyval :=
  <[payload_marker := payload]> {["url" := PyStr url]}.

(** One iteration of the loop: lines 35 to 59 of [core/utils.py]. *)
Definition attempt_body (session_pool : ClientSession)
    (params : gmap string pyval) (max_retries : Z)
    (attempt : Z) (result : BaseResponse) : eff (ctl BaseResponse BaseResponse) :=
  try_except
    (response ← call (Post session_pool params);
     response_data ← await_json response;
     if ok response then
       let result := set_status_code (Some (status response)) result in
       let result := set_details response_data result in
       let result := set_execute_status true result in
       mret (Return result)
     else
       let result := set_status_code (Some (status response)) result in
       let result := set_details response_data result in
       if between 400 (status response) 500 then mret (Break result)
       else sleep (2 ** attempt);; mret (Next result))
    (λ error,
       let result := set_status_code (Some (getattr_status error)) result in
       let result := set_details (PyStr (exn_str error)) result in
       (if bool_decide (attempt < max_retries - 1)%Z
           && negb (between 400 (getattr_status error) 500)
        then sleep (2 ** attempt) else mret tt);;
       mret (Next result)).

Definition send_with_retries_mechanism (url payload_marker : string)
    (payload : pyval) (max_retries : Z) (session_pool : ClientSession)
    : eff BaseResponse :=
  let result := BaseResponse_new in
  let params := request_params url payload_marker payload in
  r ← for_range max_retries (attempt_body session_pool params max_retries) result;
  mret (joined r).

End Dispatcher.

(** The dispatcher awaits the transport at consecutive indices and records
    every reply: it is lawful, and so is every program that calls it. *)
Section DispatcherLawful.
Context {St : Type}.

#[export] Instance await_json_lawful response :
  Lawful (await_json (St:=St) response).
Proof. unfold await_json. apply _. Qed.

#[export] Instance attempt_body_lawful session_pool params max_retries attempt result :
  Lawful (attempt_body (St:=St) session_pool params max_retries attempt result).
Proof. unfold attempt_body. cbv zeta. apply _. Qed.

#[export] Instance send_with_retries_mechanism_lawful url payload_marker payload
    max_retries session_pool :
  Lawful (send_with_retries_mechanism (St:=St) url payload_marker payload max_retries
            session_pool).
Proof. unfold send_with_retries_mechanism. cbv zeta. apply _. Qed.

End DispatcherLawful.

(** ** The iteration as a pure function of the reply *)

(** The three classes of the error taxonomy, as the code decides them. *)
Inductive verdict : Set :=
| Success
| ClientError
| Transient.

#[export] Instance verdict_eq_dec : EqDecision verdict.
Proof. solve_decision. Defined.

(** The exception an attempt ends with, if any: raised by the request, or
    by the decoding of the body. *)
Definition attempt_error (rp : http_reply) : option exn :=
  match rp with
  | Returns response =>
      match json response with
      | Ok _ => None
      | Raise e => Some e
      end
  | Raises e => Some e
  end.

Definition classify (rp : http_reply) : verdict :=
  match rp with
  | Returns response =>
      match json response with
      | Ok _ =>
          if ok response then Success
          else if between 400 (status response) 500 then ClientError
          else Transient
      | Raise _ => Transient
      end
  | Raises _ => Transient
  end.

(** The result an attempt leaves, from the result before it. *)
Definition result_after (rp : http_reply) (result : BaseResponse) : BaseResponse :=
  match rp with
  | Returns response =>
      match json response with
      | Ok data =>
          {| status_code := Some (status response); details := data;
             execute_status := ok response || execute_status result |}
      | Raise e =>
          {| status_code := Some (getattr_status e); details := PyStr (exn_str e);
             execute_status := execute_status result |}
      end
  | Raises e =>
      {| status_code := Some (getattr_status e); details := PyStr (exn_str e);
         execute_status := execute_status result |}
  end.

(** Whether attempt number [attempt] sleeps once its reply is known. *)
Definition sleeps_after (max_retries attempt : Z) (rp : http_reply) : bool :=
  match attempt_error rp with
  | Some e =>
      bool_decide (attempt < max_retries - 1)%Z
      && negb (between 400 (getattr_status e) 500)
  | None => bool_decide (classify rp = Transient)
  end.

Definition attempt_events (session_pool : ClientSession)
    (params : gmap string pyval) (max_retries attempt : Z) (rp : http_reply)
    : list http_event :=
  Called (Post session_pool params) rp ::
  (if sleeps_after max_retries attempt rp then [Slept (2 ** attempt)] else []).

Definition attempt_step (rp : http_reply) (result : BaseResponse)
    : ctl BaseResponse BaseResponse :=
  match classify rp with
  | Success => Return (result_after rp result)
  | ClientError => Break (result_after rp result)
  | Transient => Next (result_after rp result)
  end.

(** ** The loop as a recursion over the replies

    [dispatch n attempt rs result]: the result and the events of [n] more
    iterations starting at [attempt], the environment answering [rs]. *)
Fixpoint dispatch (session_pool : ClientSession) (params : gmap string pyval)
    (max_retries : Z) (attempt : Z) (rs : list http_reply)
    (result : BaseResponse) : BaseResponse * list http_event :=
  match rs with
  | [] => (result, [])
  | rp :: rs' =>
      let evs := attempt_events session_pool params max_retries attempt rp in
      match classify rp with
      | Transient =>
          let '(r, t) := dispatch session_pool params max_retries (attempt + 1)
                           rs' (result_after rp result) in
          (r, evs ++ t)
      | _ => (result_after rp result, evs)
      end
  end.

(** The replies the loop consumes: up to and including the first one that
    is not transient. *)
Fixpoint consumed (rs : list http_reply) : list http_reply :=
  match rs with
  | [] => []
  | rp :: rs' =>
      match classify rp with
      | Transient => rp :: consumed rs'
      | _ => [rp]
      end
  end.

(** ** Facts about the pure dispatcher *)

(** The result of an attempt that started from a fresh result. *)
Definition result_of (rp : http_reply) : BaseResponse :=
  result_after rp BaseResponse_new.

Definition transient (rp : http_reply) : Prop := classify rp = Transient.

(** A response whose body was decoded and whose status is neither a
    success nor a client error: a server error. *)
Definition server_error (rp : http_reply) : Prop :=
  attempt_error rp = None ∧ classify rp = Transient.

(** An attempt that raised (in the request or in the decoding) an exception
    whose status, 500 when it has none, is not a client error. *)
Definition raised_retryable (rp : http_reply) : Prop :=
  ∃ e, attempt_error rp = Some e ∧ between 400 (getattr_status e) 500 = false.

Section DispatchFacts.
Context (session_pool : ClientSession) (params : gmap string pyval)
  (max_retries : Z).
Implicit Types (rp : http_reply) (rs pre post : list http_reply)
  (result : BaseResponse) (attempt : Z).
#[local] Abbreviation dispatch' := (dispatch session_pool params max_retries).
#[local] Abbreviation events' := (attempt_events session_pool params max_retries).

Lemma attempt_error_transient rp e : attempt_error rp = Some e → transient rp.
Proof. destruct rp as [[s [data|e']]|e']; by intros [=]. Qed.

Lemma server_error_transient rp : server_error rp → transient rp.
Proof. by intros [_ ?]. Qed.

Lemma raised_retryable_transient rp : raised_retryable rp → transient rp.
Proof. intros (e & He & _). eauto using attempt_error_transient. Qed.

Lemma classify_success rp :
  classify rp = Success ↔
  ∃ s data, rp = Returns {| status := s; json := Ok data |} ∧ (s < 400)%Z.
Proof.
  split.
  - destruct rp as [[s [data|e]]|e]; cbn; try done.
    unfold ok, between; cbn. repeat case_bool_decide; try done;
      intros _; eexists _, _; split; [done|lia].
  - intros (s & data & -> & Hs). cbn. unfold ok; cbn.
    by rewrite bool_decide_eq_true_2.
Qed.

Lemma classify_client_error rp :
  classify rp = ClientError ↔
  ∃ s data, rp = Returns {| status := s; json := Ok data |} ∧ (400 ≤ s < 500)%Z.
Proof.
  split.
  - destruct rp as [[s [data|e]]|e]; cbn; try done.
    unfold ok, between; cbn. repeat case_bool_decide; try done;
      intros _; eexists _, _; split; [done|lia].
  - intros (s & data & -> & Hs). cbn. unfold ok; cbn.
    rewrite bool_decide_eq_false_2 by lia. by rewrite between_intro.
Qed.

Lemma server_error_iff rp :
  server_error rp ↔
  ∃ s data, rp = Returns {| status := s; json := Ok data |} ∧ (500 ≤ s)%Z.
Proof.
  unfold server_error. split.
  - destruct rp as [[s [data|e]]|e]; cbn; try by intros [[=] _].
    unfold ok, between; cbn. intros [_ H]. exists s, data. split; [done|].
    revert H. repeat case_bool_decide; try done. lia.
  - intros (s & data & -> & Hs). cbn. unfold ok; cbn.
    rewrite bool_decide_eq_false_2 by lia. by rewrite between_above.
Qed.

(** *** The replies consumed *)

Lemma consumed_prefix rs : consumed rs `prefix_of` rs.
Proof.
  induction rs as [|rp rs IH]; [done|]. cbn.
  destruct (classify rp); [by apply prefix_cons, prefix_nil..|by apply prefix_cons].
Qed.

Lemma consumed_length rs : (length (consumed rs) ≤ length rs)%nat.
Proof. apply prefix_length, consumed_prefix. Qed.

Lemma consumed_transient rs : Forall transient rs → consumed rs = rs.
Proof. induction 1 as [|rp rs Hrp _ IH]; [done|]. cbn. by rewrite Hrp, IH. Qed.

Lemma consumed_terminal pre rp post :
  Forall transient pre → ¬ transient rp →
  consumed (pre ++ rp :: post) = pre ++ [rp].
Proof.
  intros Hpre Hrp. induction Hpre as [|rp' pre Hrp' _ IH]; cbn.
  - unfold transient in Hrp. by destruct (classify rp).
  - by rewrite Hrp', IH.
Qed.

Lemma consumed_nil_inv rs : consumed rs = [] → rs = [].
Proof. destruct rs as [|rp rs]; [done|]. cbn. by destruct (classify rp). Qed.

(** *** The trace *)

Lemma replies_attempt_events attempt rp : replies (events' attempt rp) = [rp].
Proof. unfold attempt_events. by destruct (sleeps_after _ _ _). Qed.

Lemma ops_attempt_events attempt rp :
  ops (events' attempt rp) = [Post session_pool params].
Proof. unfold attempt_events. by destruct (sleeps_after _ _ _). Qed.

Lemma sleeps_attempt_events attempt rp :
  sleeps (events' attempt rp) =
  if sleeps_after max_retries attempt rp then [backoff attempt] else [].
Proof. unfold attempt_events. by destruct (sleeps_after _ _ _). Qed.

Lemma dispatch_cons attempt rp rs result :
  dispatch' attempt (rp :: rs) result =
  match classify rp with
  | Transient =>
      ((dispatch' (attempt + 1) rs (result_after rp result)).1,
       events' attempt rp ++ (dispatch' (attempt + 1) rs (result_after rp result)).2)
  | _ => (result_after rp result, events' attempt rp)
  end.
Proof. cbn. destruct (classify rp); [done..|]. by destruct (dispatch _ _ _ _ _ _). Qed.

Lemma replies_dispatch attempt rs result :
  replies (dispatch' attempt rs result).2 = consumed rs.
Proof.
  revert attempt result. induction rs as [|rp rs IH]; intros; [done|].
  rewrite dispatch_cons. cbn [consumed].
  destruct (classify rp); cbn [snd]; rewrite ?replies_attempt_events; [done..|].
  by rewrite replies_app, IH, replies_attempt_events.
Qed.

Lemma ops_dispatch attempt rs result :
  ops (dispatch' attempt rs result).2 =
  replicate (length (consumed rs)) (Post session_pool params).
Proof.
  revert attempt result. induction rs as [|rp rs IH]; intros; [done|].
  rewrite dispatch_cons. cbn [consumed].
  destruct (classify rp); cbn [snd]; rewrite ?ops_attempt_events; [done..|].
  by rewrite ops_app, IH, ops_attempt_events.
Qed.

(** An attempt is one call and at most one sleep. *)
Lemma length_dispatch attempt rs result :
  (length (dispatch' attempt rs result).2 ≤ 2 * length rs)%nat.
Proof.
  revert attempt result. induction rs as [|rp rs IH]; intros; [done|].
  rewrite dispatch_cons. cbn [length].
  assert (length (events' attempt rp) ≤ 2)%nat
    by (unfold attempt_events; destruct (sleeps_after _ _ _); cbn; lia).
  destruct (classify rp); cbn [snd]; rewrite ?length_app; [lia..|].
  specialize (IH (attempt + 1)%Z (result_after rp result)). lia.
Qed.

(** *** The result *)

Lemma result_after_failed rp result : failed result → result_after rp result = result_of rp.
Proof.
  unfold failed, result_of. intros H.
  destruct rp as [[s [data|e]]|e]; cbn; by rewrite H.
Qed.

Lemma failed_result_of rp : classify rp ≠ Success → failed (result_of rp).
Proof.
  destruct rp as [[s [data|e]]|e]; cbn; try done.
  unfold failed; cbn. by destruct (ok _).
Qed.

Lemma execute_status_result_of rp :
  execute_status (result_of rp) = bool_decide (classify rp = Success).
Proof.
  destruct rp as [[s [data|e]]|e]; cbn; try done.
  destruct (ok _); cbn; [done|]. by destruct (between _ _ _).
Qed.

(** The result is that of the last attempt made. *)
Lemma dispatch_result attempt rs result :
  failed result →
  (dispatch' attempt rs result).1 = from_option result_of result (last (consumed rs)).
Proof.
  revert attempt result. induction rs as [|rp rs IH]; intros attempt result Hf; [done|].
  rewrite dispatch_cons. cbn [consumed].
  destruct (classify rp) eqn:Hc; cbn [fst last from_option];
    rewrite (result_after_failed rp) by done; [done..|].
  rewrite IH by (apply failed_result_of; congruence).
  rewrite last_cons. by destruct (last (consumed rs)).
Qed.

(** A result that claims success carries a status below 400. *)
Lemma result_ok_result_of rp : result_ok (λ s, (s < 400)%Z) (result_of rp).
Proof.
  unfold result_ok. rewrite execute_status_result_of.
  intros (s & data & -> & Hs)%bool_decide_eq_true%classify_success. by exists s.
Qed.

(** *** The sleeps *)

(** Every sleep is the backoff of its attempt: the sleeps are a subsequence
    of the schedule. *)
Lemma sleeps_dispatch_sublist attempt rs result :
  sleeps (dispatch' attempt rs result).2 `sublist_of` schedule_from attempt (length rs).
Proof.
  revert attempt result. induction rs as [|rp rs IH]; intros; [done|].
  rewrite dispatch_cons. cbn [length]. rewrite schedule_from_cons.
  destruct (classify rp); cbn [snd]; rewrite ?sleeps_app, sleeps_attempt_events;
    destruct (sleeps_after _ _ _); cbn [app];
    eauto using sublist_skip, sublist_cons, sublist_nil_l.
Qed.

(** Server-error responses sleep after every attempt, the last included. *)
Lemma sleeps_dispatch_server_error attempt rs result :
  Forall server_error rs →
  sleeps (dispatch' attempt rs result).2 = schedule_from attempt (length rs).
Proof.
  intros Hrs. revert attempt result.
  induction Hrs as [|rp rs [He Hc] _ IH]; intros; [done|].
  rewrite dispatch_cons, Hc. cbn [snd length].
  rewrite sleeps_app, sleeps_attempt_events, schedule_from_cons, IH.
  unfold sleeps_after. by rewrite He, Hc.
Qed.

(** Exceptions sleep between attempts only: not after the last one. *)
Lemma sleeps_dispatch_raised attempt rs result :
  Forall raised_retryable rs →
  (attempt + Z.of_nat (length rs))%Z = max_retries →
  sleeps (dispatch' attempt rs result).2 = schedule_from attempt (length rs - 1).
Proof.
  intros Hrs. revert attempt result.
  induction Hrs as [|rp rs Hrp _ IH]; intros attempt result Hlen; [done|].
  pose proof (raised_retryable_transient _ Hrp) as Hc. destruct Hrp as (e & He & H4).
  rewrite dispatch_cons, Hc. cbn [snd length] in *.
  rewrite sleeps_app, sleeps_attempt_events, IH by lia.
  unfold sleeps_after. rewrite He, H4. destruct rs as [|rp' rs]; cbn [length] in *.
  - by rewrite bool_decide_eq_false_2 by lia.
  - rewrite bool_decide_eq_true_2 by lia. cbn [negb andb app Nat.sub].
    by rewrite Nat.sub_0_r, schedule_from_cons.
Qed.

(** No sleep follows a success or a client-error response. *)
Lemma last_dispatch_terminal attempt pre rp post result :
  Forall transient pre → ¬ transient rp →
  last (dispatch' attempt (pre ++ rp :: post) result).2 =
  Some (Called (Post session_pool params) rp).
Proof.
  intros Hpre Hrp. revert attempt result.
  induction Hpre as [|rp' pre Hrp' _ IH]; intros; cbn [app]; rewrite dispatch_cons.
  - unfold transient in Hrp. unfold attempt_events, sleeps_after.
    destruct rp as [[s [data|e]]|e]; try done. cbn in *.
    destruct (ok _); [done|]. by destruct (between _ _ _).
  - rewrite Hrp'. cbn [snd]. rewrite last_app, IH. done.
Qed.

End DispatchFacts.

(** ** The code refines the pure iteration *)

Section DispatcherFacts.
Context {St : Type}.
#[local] Abbreviation eff := (eff http_op ClientResponse St).
Implicit Types (E : oracle ClientResponse) (w : world St) (result : BaseResponse)
  (session_pool : ClientSession) (params : gmap string pyval)
  (max_retries attempt : Z) (rp : http_reply).

Lemma run_attempt_body session_pool params max_retries attempt result E w :
  run (attempt_body (St:=St) session_pool params max_retries attempt result) E w =
  Ran (Ok (attempt_step (E (tick w)) result))
      (World (self w) (S (tick w)))
      (attempt_events session_pool params max_retries attempt (E (tick w))).
Proof.
  unfold attempt_body, attempt_step, attempt_events, sleeps_after, classify,
    result_after, attempt_error, await_json.
  eff_red. destruct (E (tick w)) as [[s [data|e]]|e]; cbn.
  - destruct (ok _) eqn:Hok; [done|].
    destruct (between 400 s 500) eqn:Hs; done.
  - destruct (_ && _); done.
  - destruct (_ && _); done.
Qed.

(** The loop of the code computes [dispatch] over the replies it is given,
    and consumes [consumed] of them. *)
Lemma run_attempts session_pool params max_retries n attempt result E w :
  ∃ r,
    run (for_from n attempt
           (attempt_body (St:=St) session_pool params max_retries) result) E w =
    Ran (Ok r)
        (World (self w) (tick w + length (consumed (upcoming E w n))))
        (dispatch session_pool params max_retries attempt (upcoming E w n) result).2 ∧
    joined r =
      (dispatch session_pool params max_retries attempt (upcoming E w n) result).1.
Proof.
  revert attempt result w. induction n as [|n IH]; intros attempt result w.
  - exists (inl result). cbn. by rewrite Nat.add_0_r; destruct w.
  - rewrite for_from_S, run_attempt_body, upcoming_S. cbn [out final trace].
    unfold attempt_step. cbn [dispatch consumed].
    destruct (IH (attempt + 1)%Z (result_after (E (tick w)) result)
                (World (self w) (S (tick w)))) as (r & Hrun & Hr).
    cbn [tick self] in Hrun, Hr.
    destruct (classify (E (tick w))) eqn:Hc; cbn [length].
    + eexists (inr _). by rewrite Nat.add_1_r.
    + eexists (inl _). by rewrite Nat.add_1_r.
    + exists r. rewrite Hrun. unfold prepend. cbn [out final trace].
      destruct (dispatch _ _ _ _ _ _) as [r' t]. split; [|done].
      f_equal. f_equal. lia.
Qed.

Section Send.
Context (url payload_marker : string) (payload : pyval) (max_retries : Z)
  (session_pool : ClientSession) (E : oracle ClientResponse) (w : world St).

(** The call under study, the replies the environment holds for it, and
    the request every attempt posts. *)
#[local] Abbreviation send :=
  (send_with_retries_mechanism (St:=St) url payload_marker payload max_retries
     session_pool).
#[local] Abbreviation budget := (Z.to_nat max_retries).
#[local] Abbreviation rs := (upcoming E w (Z.to_nat max_retries)).
#[local] Abbreviation post :=
  (Post session_pool (request_params url payload_marker payload)).
#[local] Abbreviation spec :=
  (dispatch session_pool (request_params url payload_marker payload)
     max_retries 0 (upcoming E w (Z.to_nat max_retries)) BaseResponse_new).

Lemma run_send :
  run send E w =
  Ran (Ok spec.1) (World (self w) (tick w + length (consumed rs))) spec.2.
Proof.
  unfold send_with_retries_mechanism, for_range. rewrite run_bind.
  destruct (run_attempts session_pool (request_params url payload_marker payload)
              max_retries budget 0 BaseResponse_new E w) as (r & -> & <-).
  cbn [out final trace]. rewrite run_ret. unfold prepend. cbn [out final trace].
  by rewrite app_nil_r.
Qed.

(** A call makes at most [max_retries] attempts of at most two events. *)
Lemma length_send : (length (trace (run send E w)) ≤ 2 * budget)%nat.
Proof.
  rewrite run_send. cbn [trace].
  pose proof (length_dispatch session_pool (request_params url payload_marker payload)
                max_retries 0 rs BaseResponse_new) as H.
  by rewrite length_upcoming in H.
Qed.

Lemma out_send :
  out (run send E w) = Ok (from_option result_of BaseResponse_new (last (consumed rs))).
Proof. rewrite run_send. cbn [out]. by rewrite dispatch_result. Qed.

Lemma replies_send : replies (trace (run send E w)) = consumed rs.
Proof. rewrite run_send. apply replies_dispatch. Qed.

Lemma send_result_ok result :
  out (run send E w) = Ok result → result_ok (λ s, (s < 400)%Z) result.
Proof.
  rewrite out_send. intros [= <-].
  destruct (last (consumed rs)); [apply result_ok_result_of|apply result_ok_new].
Qed.

(** At most [max_retries] requests, all of them the same POST. *)
Lemma ops_send :
  ∃ k, (k ≤ Z.to_nat max_retries)%nat ∧ ops (trace (run send E w)) = replicate k post.
Proof.
  exists (length (consumed rs)). split.
  - etrans; [apply consumed_length|]. by rewrite length_upcoming.
  - rewrite run_send. apply ops_dispatch.
Qed.

(** The run when every attempt raises an exception that is not a client
    error. *)
Lemma send_raised :
  Forall raised_retryable rs →
  replies (trace (run send E w)) = rs ∧
  sleeps (trace (run send E w)) = schedule (Z.to_nat max_retries - 1) ∧
  out (run send E w) = Ok (from_option result_of BaseResponse_new (last rs)).
Proof.
  intros Hrs. rewrite out_send, replies_send, run_send. cbn [trace].
  rewrite consumed_transient by (eapply Forall_impl; eauto using raised_retryable_transient).
  split_and!; [done| |done].
  destruct (decide (0 < max_retries)%Z) as [Hpos|Hneg].
  - rewrite sleeps_dispatch_raised; rewrite ?length_upcoming; [done|done|lia].
  - by replace (Z.to_nat max_retries) with 0%nat by lia.
Qed.

(** C1: the dispatcher refines its specification: whatever the services
    answer, a call of [send_with_retries_mechanism] returns the result that
    the pure reference [dispatch] computes from the replies of the
    environment, consumes exactly the replies [consumed] selects, and emits
    the events of [dispatch]; the fields of the caller are untouched. *)
Theorem send_with_retries_mechanism_dispatch :
  run (send_with_retries_mechanism url payload_marker payload max_retries session_pool) E w =
  Ran (Ok (dispatch session_pool (request_params url payload_marker payload)
             max_retries 0 (upcoming E w (Z.to_nat max_retries))
             BaseResponse_new).1)
      (World (self w)
         (tick w + length (consumed (upcoming E w (Z.to_nat max_retries)))))
      (dispatch session_pool (request_params url payload_marker payload)
         max_retries 0 (upcoming E w (Z.to_nat max_retries)) BaseResponse_new).2.
Proof. apply run_send. Qed.

(** Callers always receive a value: [send_with_retries_mechanism] never
    raises, whatever the transport answers or raises. *)
Theorem send_with_retries_mechanism_never_raises :
  ∃ result, out (run (send_with_retries_mechanism url payload_marker payload max_retries session_pool) E w) = Ok result.
Proof. rewrite out_send. eauto. Qed.

(** C3: at most [max_retries] attempts are made: the trace holds at most
    [max_retries] requests (none for a budget of zero or less), the
    environment is asked exactly once per request, and every request is the
    same POST on the same pool. *)
Theorem send_with_retries_mechanism_attempts_bounded :
  (length (replies (trace (run (send_with_retries_mechanism url payload_marker payload max_retries session_pool) E w))) ≤ Z.to_nat max_retries)%nat ∧
  tick (final (run (send_with_retries_mechanism url payload_marker payload max_retries session_pool) E w)) = (tick w + length (replies (trace (run (send_with_retries_mechanism url payload_marker payload max_retries session_pool) E w))))%nat ∧
  ops (trace (run (send_with_retries_mechanism url payload_marker payload max_retries session_pool) E w)) =
    replicate (length (replies (trace (run (send_with_retries_mechanism url payload_marker payload max_retries session_pool) E w))))
      (Post session_pool (request_params url payload_marker payload)).
Proof.
  rewrite replies_send, run_send. cbn [final trace tick]. split_and!.
  - etrans; [apply consumed_length|]. by rewrite length_upcoming.
  - done.
  - apply ops_dispatch.
Qed.

(** C5: a success short-circuits the budget: when the first reply that is
    not transient is a response with a status below 400 whose body decodes,
    the result carries that status and body with [execute_status] true, the
    attempts stop there, and nothing (no sleep, no request) follows it. *)
Theorem send_with_retries_mechanism_success_stops pre s data post' :
  upcoming E w (Z.to_nat max_retries) =
    pre ++ Returns {| status := s; json := Ok data |} :: post' →
  Forall transient pre →
  (s < 400)%Z →
  out (run (send_with_retries_mechanism url payload_marker payload max_retries session_pool) E w) =
    Ok {| status_code := Some s; details := data; execute_status := true |} ∧
  replies (trace (run (send_with_retries_mechanism url payload_marker payload max_retries session_pool) E w)) = pre ++ [Returns {| status := s; json := Ok data |}] ∧
  last (trace (run (send_with_retries_mechanism url payload_marker payload max_retries session_pool) E w)) =
    Some (Called (Post session_pool (request_params url payload_marker payload))
            (Returns {| status := s; json := Ok data |})).
Proof.
  intros Hrs Hpre Hs.
  assert (¬ transient (Returns {| status := s; json := Ok data |})) as Hrp.
  { unfold transient. rewrite (proj2 (classify_success _)); [done|eauto]. }
  rewrite out_send, replies_send, run_send, Hrs, consumed_terminal by done.
  cbn [trace]. rewrite last_snoc, last_dispatch_terminal by done. split_and!; [|done..].
  cbn. unfold ok; cbn. by rewrite bool_decide_eq_true_2.
Qed.

(** C7: a client-error response is never retried: when the first reply
    that is not transient is a response whose status is in 400..499, the
    result carries that status and body with [execute_status] false, and
    nothing (no sleep, no request) follows it. *)
Theorem send_with_retries_mechanism_client_error_stops pre s data post' :
  upcoming E w (Z.to_nat max_retries) =
    pre ++ Returns {| status := s; json := Ok data |} :: post' →
  Forall transient pre →
  (400 ≤ s < 500)%Z →
  out (run (send_with_retries_mechanism url payload_marker payload max_retries session_pool) E w) =
    Ok {| status_code := Some s; details := data; execute_status := false |} ∧
  replies (trace (run (send_with_retries_mechanism url payload_marker payload max_retries session_pool) E w)) = pre ++ [Returns {| status := s; json := Ok data |}] ∧
  last (trace (run (send_with_retries_mechanism url payload_marker payload max_retries session_pool) E w)) =
    Some (Called (Post session_pool (request_params url payload_marker payload))
            (Returns {| status := s; json := Ok data |})).
Proof.
  intros Hrs Hpre Hs.
  assert (¬ transient (Returns {| status := s; json := Ok data |})) as Hrp.
  { unfold transient. rewrite (proj2 (classify_client_error _)); [done|eauto]. }
  rewrite out_send, replies_send, run_send, Hrs, consumed_terminal by done.
  cbn [trace]. rewrite last_snoc, last_dispatch_terminal by done. split_and!; [|done..].
  cbn. unfold ok; cbn. by rewrite bool_decide_eq_false_2 by lia.
Qed.

(** C9: when every attempt is answered by a server-error response (status
    500 or more, body decoded), all [max_retries] attempts are made, the
    result is that of the last response, and the code sleeps after every
    attempt, the last one included: [max_retries] sleeps of 1, 2, 4, ...
    (the specification promises no backoff after the final attempt). *)
Theorem send_with_retries_mechanism_server_errors :
  Forall server_error (upcoming E w (Z.to_nat max_retries)) →
  replies (trace (run (send_with_retries_mechanism url payload_marker payload max_retries session_pool) E w)) =
    upcoming E w (Z.to_nat max_retries) ∧
  sleeps (trace (run (send_with_retries_mechanism url payload_marker payload max_retries session_pool) E w)) =
    schedule (Z.to_nat max_retries) ∧
  out (run (send_with_retries_mechanism url payload_marker payload max_retries session_pool) E w) =
    Ok (from_option result_of BaseResponse_new
          (last (upcoming E w (Z.to_nat max_retries)))).
Proof.
  intros Hrs. rewrite out_send, replies_send, run_send. cbn [trace].
  rewrite consumed_transient by (eapply Forall_impl; eauto using server_error_transient).
  rewrite sleeps_dispatch_server_error, length_upcoming by done. done.
Qed.

(** When every attempt raises (in the request or while decoding the
    body) an exception whose status is not a client error, all
    [max_retries] attempts are made and the code sleeps between attempts
    only: [max_retries - 1] sleeps of 1, 2, 4, ..., none after the last. *)
Theorem send_with_retries_mechanism_exceptions :
  Forall raised_retryable (upcoming E w (Z.to_nat max_retries)) →
  replies (trace (run (send_with_retries_mechanism url payload_marker payload max_retries session_pool) E w)) =
    upcoming E w (Z.to_nat max_retries) ∧
  sleeps (trace (run (send_with_retries_mechanism url payload_marker payload max_retries session_pool) E w)) =
    schedule (Z.to_nat max_retries - 1) ∧
  out (run (send_with_retries_mechanism url payload_marker payload max_retries session_pool) E w) =
    Ok (from_option result_of BaseResponse_new
          (last (upcoming E w (Z.to_nat max_retries)))).
Proof. apply send_raised. Qed.

(** C30: the invariant of the result: a result whose [execute_status] is
    true carries a status below 400, and it is true exactly when the last
    attempt made was answered by a successful response. *)
Theorem send_with_retries_mechanism_result_ok result :
  out (run (send_with_retries_mechanism url payload_marker payload max_retries session_pool) E w) = Ok result →
  result_ok (λ s, (s < 400)%Z) result ∧
  (execute_status result = true ↔
   ∃ rp, last (replies (trace (run (send_with_retries_mechanism url payload_marker payload max_retries session_pool) E w))) = Some rp ∧
         classify rp = Success).
Proof.
  rewrite out_send, replies_send. intros [= <-].
  destruct (last (consumed rs)) as [rp|]; cbn [from_option].
  - split; [apply result_ok_result_of|].
    rewrite execute_status_result_of, bool_decide_eq_true.
    split; [eauto|by intros (? & [= <-] & ?)].
  - split; [apply result_ok_new|]. split; [done|]. by intros (? & ? & _).
Qed.

(** A budget of zero or less makes no attempt: the default
    [BaseResponse()] is returned (no status, no details, not executed), with
    no request and no sleep. *)
Theorem send_with_retries_mechanism_no_budget :
  (max_retries ≤ 0)%Z →
  run (send_with_retries_mechanism url payload_marker payload max_retries session_pool) E w =
  Ran (Ok BaseResponse_new) w [].
Proof.
  intros H. rewrite run_send. replace (Z.to_nat max_retries) with 0%nat by lia.
  cbn. by rewrite Nat.add_0_r; destruct w.
Qed.

(** C32: an exception that carries a client-error status does not stop the
    loop (only responses do): when the first attempt raises with a status in
    400..499 and the budget allows a second attempt, that attempt is made at
    once, without any sleep in between. *)
Theorem send_with_retries_mechanism_client_exception_retried e :
  E (tick w) = Raises e →
  between 400 (getattr_status e) 500 = true →
  (1 < max_retries)%Z →
  ∃ t, trace (run (send_with_retries_mechanism url payload_marker payload max_retries session_pool) E w) =
       Called (Post session_pool (request_params url payload_marker payload)) (Raises e) ::
       Called (Post session_pool (request_params url payload_marker payload)) (E (S (tick w))) :: t.
Proof.
  intros HE He Hmax. rewrite run_send. cbn [trace].
  destruct (Z.to_nat max_retries) as [|[|n]] eqn:Hn; [lia..|].
  rewrite !upcoming_S, dispatch_cons, HE. cbn [classify snd tick].
  unfold attempt_events at 1, sleeps_after. cbn [attempt_error]. rewrite He, andb_false_r.
  cbn [app]. rewrite dispatch_cons. unfold attempt_events.
  destruct (classify _); cbn [snd app]; eauto.
Qed.

(** Every sleep is the backoff of the attempt it follows: the
    durations slept are a subsequence of 1, 2, 4, ..., 2 ** (max_retries -
    1), so a call sleeps less than 2 ** max_retries time units in all. *)
Theorem send_with_retries_mechanism_sleeps_schedule :
  sleeps (trace (run (send_with_retries_mechanism url payload_marker payload max_retries session_pool) E w))
    `sublist_of` schedule (Z.to_nat max_retries) ∧
  (total (sleeps (trace (run (send_with_retries_mechanism url payload_marker payload max_retries session_pool) E w)))
     ≤ 2 ^ Z.of_nat (Z.to_nat max_retries) - 1)%Z.
Proof.
  assert (sleeps (trace (run send E w)) `sublist_of` schedule (Z.to_nat max_retries))
    as Hsub.
  { rewrite run_send. cbn [trace].
    rewrite <- (length_upcoming E w (Z.to_nat max_retries)) at 2.
    apply sleeps_dispatch_sublist. }
  split; [done|]. rewrite <- total_schedule.
  by apply total_sublist; [apply schedule_nonneg|].
Qed.

End Send.

(** The request posted: when [payload_marker] is not ["url"], the
    keyword arguments hold the URL under ["url"] and the payload under
    [payload_marker], and nothing else. *)
Theorem request_params_lookup url payload_marker payload k :
  payload_marker ≠ "url" →
  request_params url payload_marker payload !! k =
    if decide (k = payload_marker) then Some payload
    else if decide (k = "url") then Some (PyStr url) else None.
Proof.
  intros Hm. unfold request_params. rewrite lookup_insert.
  destruct (decide (payload_marker = k)) as [->|Hk].
  - by rewrite decide_True.
  - rewrite decide_False by done. rewrite lookup_singleton.
    destruct (decide ("url" = k)) as [<-|]; [by rewrite decide_True|].
    by rewrite decide_False.
Qed.

(** A marker equal to ["url"] overwrites the URL: the request then holds the
    payload alone. *)
Lemma request_params_url_marker url payload :
  request_params url "url" payload = {["url" := payload]}.
Proof. unfold request_params. apply insert_singleton_eq. Qed.

(** ** A pooled adapter after its pool was closed

    The adapters close their pool with one awaited [close] and keep posting
    on it afterwards.  [close] and [send] stand for the two methods of an
    adapter: the first awaits [Close] on the pool, the second is the
    dispatcher at the request of the adapter. *)
Lemma pooled_send_after_close (close : eff unit) (send : eff BaseResponse)
    url payload_marker payload max_retries session_pool E w r :
  run close E w =
    Ran (Ok tt) (World (self w) (S (tick w))) [Called (Close session_pool) (Returns r)] →
  run send E (World (self w) (S (tick w))) =
    run (send_with_retries_mechanism url payload_marker payload max_retries session_pool)
      E (World (self w) (S (tick w))) →
  Forall raised_retryable
    (upcoming E (World (self w) (S (tick w))) (Z.to_nat max_retries)) →
  out (run (close;; send) E w) =
    Ok (from_option result_of BaseResponse_new
          (last (upcoming E (World (self w) (S (tick w))) (Z.to_nat max_retries)))) ∧
  sleeps (trace (run (close;; send) E w)) = schedule (Z.to_nat max_retries - 1) ∧
  length (ops (trace (run (close;; send) E w))) = S (Z.to_nat max_retries).
Proof.
  intros Hclose Hsend Hrs. rewrite run_bind, Hclose. cbn [out final trace].
  rewrite Hsend.
  destruct (send_raised url payload_marker payload max_retries session_pool E _ Hrs)
    as (Hr & Hs & Ho).
  by rewrite out_prepend, trace_prepend, sleeps_app, ops_app, length_app,
    !length_ops_replies, Hr, Hs, Ho, length_upcoming.
Qed.

End DispatcherFacts.

(** ** Scenarios

    Concrete runs: a pool, a Telegram-like request, and scripted replies.
    The witnesses apply the theorems above to them; the examples evaluate
    the code itself. *)

Definition pool0 : ClientSession :=
  {| connector := {| limit := 100; limit_per_host := 10;
                     keepalive_timeout := 30; ssl := true |} |}.

(** A response with status [s] and a small JSON body. *)
Definition responded (s : Z) : http_reply :=
  Returns {| status := s;
             json := Ok (PyDict [("ok", PyBool (bool_decide (s < 400)%Z))]) |}.

(** A transport exception without a status, and one that carries a status
    (aiohttp's [ClientResponseError]). *)
Definition timed_out : http_reply :=
  Raises (Exn OtherError None "Connection timeout").

Definition raised_status (s : Z) : http_reply :=
  Raises (Exn OtherError (Some s) "ClientResponseError").

Definition w0 : world unit := World tt 0.

(** The call of the scenarios, with budget [n] against the replies [rs]. *)
Definition scenario (n : Z) (rs : list http_reply) : ran http_op ClientResponse unit BaseResponse :=
  run (send_with_retries_mechanism "https://api.example/send" "json"
         (PyDict [("text", PyStr "hi")]) n pool0)
      (script rs timed_out) w0.

Lemma send_with_retries_mechanism_success_stops_witness :
  out (scenario 3 [responded 500; responded 500; responded 200]) =
    Ok {| status_code := Some 200%Z; details := PyDict [("ok", PyBool true)];
          execute_status := true |} ∧
  replies (trace (scenario 3 [responded 500; responded 500; responded 200])) =
    [responded 500; responded 500; responded 200].
Proof.
  destruct (send_with_retries_mechanism_success_stops
              "https://api.example/send" "json" (PyDict [("text", PyStr "hi")]) 3
              pool0 (script [responded 500; responded 500; responded 200] timed_out)
              w0 [responded 500; responded 500] 200
              (PyDict [("ok", PyBool true)]) [])
    as (Hout & Hrs & _); [reflexivity|by repeat constructor|lia|].
  exact (conj Hout Hrs).
Defined.

Lemma send_with_retries_mechanism_client_error_stops_witness :
  out (scenario 3 [responded 429; responded 200]) =
    Ok {| status_code := Some 429%Z; details := PyDict [("ok", PyBool false)];
          execute_status := false |} ∧
  replies (trace (scenario 3 [responded 429; responded 200])) = [responded 429].
Proof.
  destruct (send_with_retries_mechanism_client_error_stops
              "https://api.example/send" "json" (PyDict [("text", PyStr "hi")]) 3
              pool0 (script [responded 429; responded 200] timed_out)
              w0 [] 429 (PyDict [("ok", PyBool false)]) [responded 200; timed_out])
    as (Hout & Hrs & _); [reflexivity|by repeat constructor|lia|].
  exact (conj Hout Hrs).
Defined.

Lemma send_with_retries_mechanism_server_errors_witness :
  sleeps (trace (scenario 3 [responded 500; responded 502; responded 503])) =
    [1; 2; 4]%Z.
Proof.
  refine (proj1 (proj2 (send_with_retries_mechanism_server_errors
            "https://api.example/send" "json" (PyDict [("text", PyStr "hi")]) 3
            pool0 (script [responded 500; responded 502; responded 503] timed_out)
            w0 _))).
  repeat constructor.
Defined.

Lemma send_with_retries_mechanism_exceptions_witness :
  sleeps (trace (scenario 3 [timed_out; raised_status 503; timed_out])) = [1; 2]%Z.
Proof.
  refine (proj1 (proj2 (send_with_retries_mechanism_exceptions
            "https://api.example/send" "json" (PyDict [("text", PyStr "hi")]) 3
            pool0 (script [timed_out; raised_status 503; timed_out] timed_out)
            w0 _))).
  repeat constructor; by eexists.
Defined.

Lemma send_with_retries_mechanism_result_ok_witness :
  result_ok (λ s, (s < 400)%Z)
    {| status_code := Some 200%Z; details := PyDict [("ok", PyBool true)];
       execute_status := true |}.
Proof.
  refine (proj1 (send_with_retries_mechanism_result_ok
            "https://api.example/send" "json" (PyDict [("text", PyStr "hi")]) 3
            pool0 (script [responded 500; responded 200] timed_out) w0 _ _)).
  reflexivity.
Defined.

Lemma send_with_retries_mechanism_no_budget_witness :
  scenario 0 [responded 200] = Ran (Ok BaseResponse_new) w0 [].
Proof.
  apply (send_with_retries_mechanism_no_budget
           "https://api.example/send" "json" (PyDict [("text", PyStr "hi")]) 0
           pool0 (script [responded 200] timed_out) w0).
  lia.
Defined.

Lemma send_with_retries_mechanism_client_exception_retried_witness :
  ∃ t, trace (scenario 3 [raised_status 404; responded 200]) =
       Called (Post pool0 (request_params "https://api.example/send" "json"
                             (PyDict [("text", PyStr "hi")]))) (raised_status 404) ::
       Called (Post pool0 (request_params "https://api.example/send" "json"
                             (PyDict [("text", PyStr "hi")]))) (responded 200) :: t.
Proof.
  apply (send_with_retries_mechanism_client_exception_retried
           "https://api.example/send" "json" (PyDict [("text", PyStr "hi")]) 3
           pool0 (script [raised_status 404; responded 200] timed_out) w0
           (Exn OtherError (Some 404%Z) "ClientResponseError"));
    [reflexivity|reflexivity|lia].
Defined.

Lemma request_params_lookup_witness :
  request_params "https://api.example/send" "json" (PyInt 1) !! "url" =
    Some (PyStr "https://api.example/send").
Proof.
  apply (request_params_lookup "https://api.example/send" "json" (PyInt 1) "url").
  discriminate.
Defined.

(** The scenario of the specification: 500, 500, 200 with a budget of 3. *)
Example scenario_500_500_200 :
  out (scenario 3 [responded 500; responded 500; responded 200]) =
    Ok {| status_code := Some 200%Z; details := PyDict [("ok", PyBool true)];
          execute_status := true |} ∧
  sleeps (trace (scenario 3 [responded 500; responded 500; responded 200])) =
    [1; 2]%Z ∧
  tick (final (scenario 3 [responded 500; responded 500; responded 200])) = 3%nat.
Proof. vm_compute. done. Qed.

(** The scenario of the specification: 429 first, with a budget of 3. *)
Example scenario_429 :
  out (scenario 3 [responded 429]) =
    Ok {| status_code := Some 429%Z; details := PyDict [("ok", PyBool false)];
          execute_status := false |} ∧
  sleeps (trace (scenario 3 [responded 429])) = [] ∧
  tick (final (scenario 3 [responded 429])) = 1%nat.
Proof. vm_compute. done. Qed.

(** Three server errors with a budget of 3: the code sleeps three times,
    the last time after the final attempt. *)
Example scenario_500_500_500 :
  sleeps (trace (scenario 3 [responded 500; responded 500; responded 500])) =
    [1; 2; 4]%Z ∧
  last (trace (scenario 3 [responded 500; responded 500; responded 500])) =
    Some (Slept 4).
Proof. vm_compute. done. Qed.

(** A body that does not decode on a 200 response: the status of the
    exception (that of the response) is reported, the send has failed, and
    the attempt is retried. *)
Example scenario_undecodable_200 :
  out (scenario 2
         [Returns {| status := 200; json := Raise (Exn OtherError (Some 200%Z) "ContentTypeError") |};
          Returns {| status := 200; json := Raise (Exn OtherError (Some 200%Z) "ContentTypeError") |}]) =
    Ok {| status_code := Some 200%Z; details := PyStr "ContentTypeError";
          execute_status := false |}.
Proof. vm_compute. done. Qed.
