(* ===== verification/Sms.v ===== *)
(** * Sms: the sms.ru adapter of [processors/sms.py]

    [SMSNotificationProcessor] owns a pooled HTTP session.  [send] builds the
    form payload of sms.ru and hands it to the retry dispatcher of [Utils];
    [close_session] closes the pool.  The theorems of the adapter are those
    of the dispatcher, instantiated at the request the adapter builds. *)

From stdpp Require Import gmap.
From S2P Require Import Prelude Effects Schemas Utils.

Module SMS.

Record SMSNotificationProcessor : Set := {
  _token : string;
  _notif_url : string;
  _session_pool : ClientSession
}.

(** [__init__]: the URL of the service is fixed, the pool is configured from
    the settings. *)
Definition __init__ (token : string) (pool_settings : SessionPool)
    : SMSNotificationProcessor :=
  {| _token := token;
     _notif_url := "https://sms.ru/sms/send";
     _session_pool := {| connector := pool_settings |} |}.

Abbreviation sms := (eff http_op ClientResponse SMSNotificationProcessor).

(** Lines 45 to 50: the form fields, in the order of the literal. *)
Definition payload (self : SMSNotificationProcessor) (text phone_number : string)
    : pyval :=
  PyDict [("api_id", PyStr (_token self)); ("to", PyStr phone_number);
          ("msg", PyStr text); ("json", PyInt 1)].

(** [send]: lines 25 to 58. *)
Definition send (text phone_number : string) (max_retries : Z) : sms BaseResponse :=
  self ← get_self;
  let payload := payload self text phone_number in
  send_with_retries_mechanism (_notif_url self) "data" payload max_retries
    (_session_pool self).

(** [close_session]: lines 60 and 61. *)
Definition close_session : sms unit :=
  self ← get_self;
  call (Close (_session_pool self));; mret tt.

(** ** Concrete data *)

(** A processor as [__init__] builds it. *)
Definition sms0 : SMSNotificationProcessor :=
  __init__ "API-ID" {| limit := 100; limit_per_host := 10; keepalive_timeout := 30;
                       ssl := false |}.

(** What aiohttp raises when a closed session is used. *)
Definition session_closed : http_reply :=
  Raises (Exn OtherError None "Session is closed").

Definition closed_ok : http_reply :=
  Returns {| status := 0; json := Ok PyNone |}.

(** ** Theorems of the adapter *)

#[export] Instance sms_send_lawful text phone_number max_retries :
  Lawful (send text phone_number max_retries).
Proof. unfold send. cbv zeta. apply _. Qed.

#[export] Instance sms_close_session_lawful : Lawful close_session.
Proof. unfold close_session. apply _. Qed.

(** [send] is the dispatcher at the request of the adapter. *)
Lemma sms_run_send text phone_number max_retries E w :
  run (send text phone_number max_retries) E w =
  run (send_with_retries_mechanism (_notif_url (self w)) "data"
         (payload (self w) text phone_number) max_retries (_session_pool (self w))) E w.
Proof. unfold send. by rewrite run_get_self_bind. Qed.

Lemma sms_run_close_session E w :
  run close_session E w =
  Ran (match E (tick w) with Returns _ => Ok tt | Raises e => Raise e end)
      (World (self w) (S (tick w)))
      [Called (Close (_session_pool (self w))) (E (tick w))].
Proof. unfold close_session. by rewrite run_get_self_bind, run_call_unit. Qed.

Section Facts.
Context (text phone_number : string) (max_retries : Z)
  (E : oracle ClientResponse) (w : world SMSNotificationProcessor).

(** C36: the SMS adapter is the dispatcher at its request: [send] never
    raises, leaves the processor untouched, and returns the result and emits
    the events that [dispatch] computes from the replies of sms.ru for the
    POST of the form payload to the URL of the processor. *)
Theorem sms_send_dispatch :
  run (send text phone_number max_retries) E w =
  Ran (Ok (dispatch (_session_pool (self w))
             (request_params (_notif_url (self w)) "data"
                (payload (self w) text phone_number))
             max_retries 0 (upcoming E w (Z.to_nat max_retries)) BaseResponse_new).1)
      (World (self w)
         (tick w + length (consumed (upcoming E w (Z.to_nat max_retries)))))
      (dispatch (_session_pool (self w))
         (request_params (_notif_url (self w)) "data"
            (payload (self w) text phone_number))
         max_retries 0 (upcoming E w (Z.to_nat max_retries)) BaseResponse_new).2.
Proof. rewrite sms_run_send. apply run_send. Qed.

(** [close_session] closes the pool of the processor: it awaits exactly
    one [close] on [_session_pool], an error of which propagates, and leaves
    the processor as it was. *)
Theorem sms_close_session_closes_pool :
  run close_session E w =
  Ran (match E (tick w) with Returns _ => Ok tt | Raises e => Raise e end)
      (World (self w) (S (tick w)))
      [Called (Close (_session_pool (self w))) (E (tick w))].
Proof. apply sms_run_close_session. Qed.

(** A send after [close_session] does not fail fast: the adapter posts
    on the closed pool, and when every post raises (as aiohttp does on a
    closed session) [send] makes all [max_retries] attempts, sleeping 1, 2,
    4, ... between them, before it returns the failure. *)
Theorem sms_send_after_close r :
  E (tick w) = Returns r →
  Forall raised_retryable
    (upcoming E (World (self w) (S (tick w))) (Z.to_nat max_retries)) →
  out (run (close_session;; send text phone_number max_retries) E w) =
    Ok (from_option result_of BaseResponse_new
          (last (upcoming E (World (self w) (S (tick w))) (Z.to_nat max_retries)))) ∧
  sleeps (trace (run (close_session;; send text phone_number max_retries) E w)) =
    schedule (Z.to_nat max_retries - 1) ∧
  length (ops (trace (run (close_session;; send text phone_number max_retries) E w))) =
    S (Z.to_nat max_retries).
Proof.
  intros Hclose Hrs.
  apply (pooled_send_after_close _ _ (_notif_url (self w)) "data"
           (payload (self w) text phone_number) _ (_session_pool (self w)) _ _ r);
    [by rewrite sms_run_close_session, Hclose|by rewrite sms_run_send|done].
Qed.

End Facts.

(** The request of a processor built by [__init__]: every attempt of
    [send] posts, on the pool configured from the settings, the URL of
    sms.ru under [url] and under [data] the form with the token, the number,
    the text and [json] set to 1; at most [max_retries] requests are made. *)
Theorem sms_send_posts_form token pool_settings text phone_number max_retries E n :
  ∃ k, (k ≤ Z.to_nat max_retries)%nat ∧
    ops (trace (run (send text phone_number max_retries) E
                  (World (__init__ token pool_settings) n))) =
    replicate k
      (Post {| connector := pool_settings |}
         (<["data" := PyDict [("api_id", PyStr token); ("to", PyStr phone_number);
                              ("msg", PyStr text); ("json", PyInt 1)]]>
            {["url" := PyStr "https://sms.ru/sms/send"]})).
Proof. rewrite sms_run_send. apply ops_send. Qed.

Lemma sms_send_after_close_witness :
  sleeps (trace (run (close_session;; send "hello" "79990001122" 3)
                   (script [closed_ok] session_closed) (World sms0 0))) = [1; 2]%Z.
Proof.
  refine (proj1 (proj2 (sms_send_after_close "hello" "79990001122" 3
            (script [closed_ok] session_closed) (World sms0 0) _ _ _)));
    [reflexivity|repeat constructor; by eexists].
Defined.

(** A delivery at the second attempt. *)
Example sms_scenario_503_200 :
  let r := run (send "hello" "79990001122" 3)
             (script [Returns {| status := 503; json := Ok PyNone |};
                      Returns {| status := 200; json := Ok (PyDict [("status", PyStr "OK")]) |}]
                session_closed) (World sms0 0) in
  out r = Ok {| status_code := Some 200%Z; details := PyDict [("status", PyStr "OK")];
                execute_status := true |} ∧
  sleeps (trace r) = [1]%Z ∧ length (ops (trace r)) = 2%nat ∧ self (final r) = sms0.
Proof. vm_compute. done. Qed.

End SMS.
