(* ===== verification/Telegram.v ===== *)
(** * Telegram: the Bot API adapter of [processors/telegram.py]

    [TelegramNotificationProcessor] owns a pooled HTTP session and the URL
    of the bot, which holds the token.  [send] builds the JSON payload of
    [sendMessage] and hands it to the retry dispatcher of [Utils];
    [close_session] closes the pool. *)

From stdpp Require Import gmap.
From S2P Require Import Prelude Effects Schemas Utils.

Module Telegram.

Record TelegramNotificationProcessor : Set := {
  _notif_url : string;
  _session_pool : ClientSession
}.

(** [__init__]: the token is kept in the URL only. *)
Definition __init__ (token : string) (pool_settings : SessionPool)
    : TelegramNotificationProcessor :=
  {| _notif_url := "https://api.telegram.org/bot" +:+ token +:+ "/sendMessage";
     _session_pool := {| connector := pool_settings |} |}.

Abbreviation telegram := (eff http_op ClientResponse TelegramNotificationProcessor).

(** Line 44: the JSON document, in the order of the literal. *)
Definition payload (text : string) (chat_id : Z) : pyval :=
  PyDict [("chat_id", PyInt chat_id); ("text", PyStr text)].

(** [send]: lines 24 to 52. *)
Definition send (text : string) (chat_id : Z) (max_retries : Z)
    : telegram BaseResponse :=
  self ← get_self;
  let payload := payload text chat_id in
  send_with_retries_mechanism (_notif_url self) "json" payload max_retries
    (_session_pool self).

(** [close_session]: lines 54 and 55. *)
Definition close_session : telegram unit :=
  self ← get_self;
  call (Close (_session_pool self));; mret tt.

(** ** Concrete data *)

Definition bot0 : TelegramNotificationProcessor :=
  __init__ "123:ABC" {| limit := 100; limit_per_host := 10; keepalive_timeout := 30;
                        ssl := false |}.

(** ** Theorems of the adapter *)

#[export] Instance telegram_send_lawful text chat_id max_retries :
  Lawful (send text chat_id max_retries).
Proof. unfold send. cbv zeta. apply _. Qed.

#[export] Instance telegram_close_session_lawful : Lawful close_session.
Proof. unfold close_session. apply _. Qed.

(** [send] is the dispatcher at the request of the adapter. *)
Lemma telegram_run_send text chat_id max_retries E w :
  run (send text chat_id max_retries) E w =
  run (send_with_retries_mechanism (_notif_url (self w)) "json"
         (payload text chat_id) max_retries (_session_pool (self w))) E w.
Proof. unfold send. by rewrite run_get_self_bind. Qed.

Lemma telegram_run_close_session E w :
  run close_session E w =
  Ran (match E (tick w) with Returns _ => Ok tt | Raises e => Raise e end)
      (World (self w) (S (tick w)))
      [Called (Close (_session_pool (self w))) (E (tick w))].
Proof. unfold close_session. by rewrite run_get_self_bind, run_call_unit. Qed.

Section Facts.
Context (text : string) (chat_id max_retries : Z)
  (E : oracle ClientResponse) (w : world TelegramNotificationProcessor).

(** The Telegram adapter is the dispatcher at its request: [send] never
    raises, leaves the processor untouched, and returns the result and emits
    the events that [dispatch] computes from the replies of the Bot API for
    the POST of the JSON payload to the URL of the processor. *)
Theorem telegram_send_dispatch :
  run (send text chat_id max_retries) E w =
  Ran (Ok (dispatch (_session_pool (self w))
             (request_params (_notif_url (self w)) "json" (payload text chat_id))
             max_retries 0 (upcoming E w (Z.to_nat max_retries)) BaseResponse_new).1)
      (World (self w)
         (tick w + length (consumed (upcoming E w (Z.to_nat max_retries)))))
      (dispatch (_session_pool (self w))
         (request_params (_notif_url (self w)) "json" (payload text chat_id))
         max_retries 0 (upcoming E w (Z.to_nat max_retries)) BaseResponse_new).2.
Proof. rewrite telegram_run_send. apply run_send. Qed.

(** [close_session] closes the pool of the processor: it awaits exactly
    one [close] on [_session_pool], an error of which propagates, and leaves
    the processor as it was. *)
Theorem telegram_close_session_closes_pool :
  run close_session E w =
  Ran (match E (tick w) with Returns _ => Ok tt | Raises e => Raise e end)
      (World (self w) (S (tick w)))
      [Called (Close (_session_pool (self w))) (E (tick w))].
Proof. apply telegram_run_close_session. Qed.

(** A send after [close_session] does not fail fast: the adapter posts
    on the closed pool, and when every post raises (as aiohttp does on a
    closed session) [send] makes all [max_retries] attempts, sleeping 1, 2,
    4, ... between them, before it returns the failure. *)
Theorem telegram_send_after_close r :
  E (tick w) = Returns r →
  Forall raised_retryable
    (upcoming E (World (self w) (S (tick w))) (Z.to_nat max_retries)) →
  out (run (close_session;; send text chat_id max_retries) E w) =
    Ok (from_option result_of BaseResponse_new
          (last (upcoming E (World (self w) (S (tick w))) (Z.to_nat max_retries)))) ∧
  sleeps (trace (run (close_session;; send text chat_id max_retries) E w)) =
    schedule (Z.to_nat max_retries - 1) ∧
  length (ops (trace (run (close_session;; send text chat_id max_retries) E w))) =
    S (Z.to_nat max_retries).
Proof.
  intros Hclose Hrs.
  apply (pooled_send_after_close _ _ (_notif_url (self w)) "json"
           (payload text chat_id) _ (_session_pool (self w)) _ _ r);
    [by rewrite telegram_run_close_session, Hclose|by rewrite telegram_run_send|done].
Qed.

End Facts.

(** The request of a processor built by [__init__]: every attempt of
    [send] posts, on the pool configured from the settings, the URL of the
    bot (which holds the token) under [url] and under [json] the document
    with the chat and the text; at most [max_retries] requests are made. *)
Theorem telegram_send_posts_json token pool_settings text chat_id max_retries E n :
  ∃ k, (k ≤ Z.to_nat max_retries)%nat ∧
    ops (trace (run (send text chat_id max_retries) E
                  (World (__init__ token pool_settings) n))) =
    replicate k
      (Post {| connector := pool_settings |}
         (<["json" := PyDict [("chat_id", PyInt chat_id); ("text", PyStr text)]]>
            {["url" := PyStr ("https://api.telegram.org/bot" +:+ token +:+
                              "/sendMessage")]})).
Proof. rewrite telegram_run_send. apply ops_send. Qed.

Lemma telegram_send_after_close_witness :
  sleeps (trace (run (close_session;; send "hello" 42 3)
                   (script [Returns {| status := 0; json := Ok PyNone |}]
                      (Raises (Exn OtherError None "Session is closed")))
                   (World bot0 0))) = [1; 2]%Z.
Proof.
  refine (proj1 (proj2 (telegram_send_after_close "hello" 42 3
            (script [Returns {| status := 0; json := Ok PyNone |}]
               (Raises (Exn OtherError None "Session is closed")))
            (World bot0 0) _ _ _)));
    [reflexivity|repeat constructor; by eexists].
Defined.

(** A chat that does not exist: the Bot API answers 400 and nothing is
    retried. *)
Example telegram_scenario_400 :
  let r := run (send "hello" 42 3)
             (script [Returns {| status := 400;
                                 json := Ok (PyDict [("ok", PyBool false)]) |}]
                (Raises (Exn OtherError None "Session is closed")))
             (World bot0 0) in
  out r = Ok {| status_code := Some 400%Z; details := PyDict [("ok", PyBool false)];
                execute_status := false |} ∧
  sleeps (trace r) = [] ∧
  ops (trace r) =
    [Post (_session_pool bot0)
       (request_params "https://api.telegram.org/bot123:ABC/sendMessage" "json"
          (PyDict [("chat_id", PyInt 42); ("text", PyStr "hello")]))].
Proof. vm_compute. done. Qed.

End Telegram.
