(* ===== verification/Email.v ===== *)
(** * Email: the connection manager of [processors/email.py]

    [GmailNotificationProcessor] owns at most one SMTP client.  The methods
    [_get_connection], [_reset_connection], [send] and [close_session] are
    translated statement by statement; the fields of the object are the
    state of the monad.

    The aiosmtplib client is the environment: each of its coroutines is one
    awaited call, answered by the oracle.  What the manager has achieved
    with a client (connected, authenticated, quit) is recorded in the field
    [session] of the client, which stands for the state the library object
    and the server keep; the code never reads it, the theorems do. *)

From S2P Require Import Prelude Effects Schemas.

Module Gmail.

(** ** The message *)

(** [MIMEText(text, "plain", "utf-8")] *)
Record MIMEText : Set := {
  mime_text : string;
  mime_subtype : string;
  mime_charset : string
}.

(** [MIMEMultipart()]: the headers in the order they were set, and the
    attached parts. *)
Record MIMEMultipart : Set := {
  msg_headers : list (string * string);
  msg_parts : list MIMEText
}.

(** Lines 87 to 91: the message of one [send]. *)
Definition build_message (from to_email subject text : string) : MIMEMultipart :=
  {| msg_headers := [("From", from); ("To", to_email); ("Subject", subject)];
     msg_parts := [{| mime_text := text; mime_subtype := "plain";
                      mime_charset := "utf-8" |}] |}.

(** ** The client and the processor *)

(** How far the session of a client has come. *)
Inductive phase : Set :=
| Fresh
| Connected
| Authenticated
| Closed.

#[export] Instance phase_eq_dec : EqDecision phase.
Proof. solve_decision. Defined.

(** [AIO_SMTP(hostname=..., port=..., start_tls=...)], with the state of its
    session. *)
Record AIO_SMTP : Set := {
  hostname : string;
  port : Z;
  start_tls : bool;
  session : phase
}.

#[export] Instance AIO_SMTP_eq_dec : EqDecision AIO_SMTP.
Proof. solve_decision. Defined.

Record GmailNotificationProcessor : Set := {
  _gmail_address : string;
  __gmail_app_password : string;
  _smtp_gmail_hostname : string;
  _smtp_gmail_port : Z;
  _smtp_gmail_start_tls : bool;
  _smtp_client : option AIO_SMTP
}.

(** [self._smtp_client = v] *)
Definition set_smtp_client (v : option AIO_SMTP) (p : GmailNotificationProcessor)
    : GmailNotificationProcessor :=
  {| _gmail_address := _gmail_address p;
     __gmail_app_password := __gmail_app_password p;
     _smtp_gmail_hostname := _smtp_gmail_hostname p;
     _smtp_gmail_port := _smtp_gmail_port p;
     _smtp_gmail_start_tls := _smtp_gmail_start_tls p;
     _smtp_client := v |}.

(** [__init__]: no client yet. *)
Definition __init__ (gmail_address gmail_app_password smtp_gmail_hostname : string)
    (smtp_gmail_port : Z) (smtp_gmail_start_tls : bool) : GmailNotificationProcessor :=
  {| _gmail_address := gmail_address;
     __gmail_app_password := gmail_app_password;
     _smtp_gmail_hostname := smtp_gmail_hostname;
     _smtp_gmail_port := smtp_gmail_port;
     _smtp_gmail_start_tls := smtp_gmail_start_tls;
     _smtp_client := None |}.

(** [GmailNotificationProcessor()] with the defaults of the signature. *)
Definition init_default (env : GmailEnvironments) : GmailNotificationProcessor :=
  __init__ (gmail_address env) (gmail_app_password env) "smtp.gmail.com" 587 true.

(** ** The calls awaited on a client *)

Inductive smtp_op : Set :=
| Noop (client : AIO_SMTP)
| Quit (client : AIO_SMTP)
| Connect (client : AIO_SMTP)
| Login (client : AIO_SMTP) (username password : string)
| SendMessage (client : AIO_SMTP) (msg : MIMEMultipart).

Abbreviation smtp_reply := (reply unit).
Abbreviation smtp_event := (event smtp_op unit).
Abbreviation smtp := (eff smtp_op unit GmailNotificationProcessor).

(** The three groups of the [except] clauses of [send], in their order. *)
Inductive error_class : Set :=
| Connectivity
| Rejection
| Unclassified.

#[export] Instance error_class_eq_dec : EqDecision error_class.
Proof. solve_decision. Defined.

Definition error_class_of (error : exn) : error_class :=
  match exn_class_of error with
  | SMTPServerDisconnected | SMTPTimeoutError | SMTPConnectError => Connectivity
  | SMTPRecipientsRefused | SMTPSenderRefused | SMTPAuthenticationError => Rejection
  | AssertionError | OtherError => Unclassified
  end.

(** The client [client] with its session in phase [p]. *)
Definition with_session (p : phase) (client : AIO_SMTP) : AIO_SMTP :=
  {| hostname := hostname client; port := port client;
     start_tls := start_tls client; session := p |}.

(** The session of the client held, advanced to [p]: the effect of a
    successful [connect], [login] or [quit] on the library object. *)
Definition advance (p : phase) : smtp unit :=
  self ← get_self;
  match _smtp_client self with
  | Some client => put_self (set_smtp_client (Some (with_session p client)) self)
  | None => mret tt
  end.

(** Lines 144 to 148: the client [_get_connection] constructs. *)
Definition fresh_client (self : GmailNotificationProcessor) : AIO_SMTP :=
  {| hostname := _smtp_gmail_hostname self;
     port := _smtp_gmail_port self;
     start_tls := _smtp_gmail_start_tls self;
     session := Fresh |}.

(** [self._smtp_client.<method>]: the attribute is read at each use; on
    [None] Python raises [AttributeError]. *)
Definition the_client : smtp AIO_SMTP :=
  self ← get_self;
  match _smtp_client self with
  | Some client => mret client
  | None => raise (Exn OtherError None "'NoneType' object has no attribute")
  end.

(** ** The methods *)

(** [_reset_connection]: lines 155 to 168. *)
Definition _reset_connection : smtp unit :=
  self ← get_self;
  match _smtp_client self with
  | Some _ =>
      try_except
        (client ← the_client; call (Quit client);; advance Closed)
        (λ _, mret tt);;
      self ← get_self;
      put_self (set_smtp_client None self)
  | None => mret tt
  end.

(** Lines 144 to 153 of [_get_connection]: a new client, connected and
    logged in. *)
Definition establish : smtp unit :=
  self ← get_self;
  put_self (set_smtp_client (Some (fresh_client self)) self);;
  client ← the_client;
  call (Connect client);;
  advance Connected;;
  client ← the_client;
  self ← get_self;
  call (Login client (_gmail_address self) (__gmail_app_password self));;
  advance Authenticated.

(** [_get_connection]: lines 126 to 153.  [alive] is true when the probe
    succeeded and the method returned at line 139. *)
Definition _get_connection : smtp unit :=
  self ← get_self;
  alive ←
    match _smtp_client self with
    | Some _ =>
        try_except
          (client ← the_client; call (Noop client);; mret true)
          (λ _, _reset_connection;; mret false)
    | None => mret false
    end;
  if alive : bool then mret tt else establish.

Definition sent_ok (result : BaseResponse) : BaseResponse :=
  set_execute_status true
    (set_details (PyStr "The message was sent successfully")
       (set_status_code (Some 200%Z) result)).

Definition failed_with (code : Z) (error : exn) (result : BaseResponse) : BaseResponse :=
  set_details (PyStr (exn_str error)) (set_status_code (Some code) result).

(** The [except] clauses of [send]: lines 105 to 122. *)
Definition handle_error (max_retries attempt : Z) (result : BaseResponse)
    (error : exn) : smtp (ctl BaseResponse BaseResponse) :=
  match error_class_of error with
  | Connectivity =>
      _reset_connection;;
      if bool_decide (attempt < max_retries - 1)%Z
      then sleep (2 ** attempt);; mret (Next result)
      else mret (Next (failed_with 500 error result))
  | Rejection => mret (Break (failed_with 400 error result))
  | Unclassified => mret (Break (failed_with 500 error result))
  end.

(** One iteration of the loop of [send]: lines 94 to 122. *)
Definition send_attempt (msg : MIMEMultipart) (max_retries : Z)
    (attempt : Z) (result : BaseResponse) : smtp (ctl BaseResponse BaseResponse) :=
  try_except
    (_get_connection;;
     self ← get_self;
     match _smtp_client self with
     | None => raise (Exn AssertionError None "")
     | Some _ =>
         client ← the_client;
         call (SendMessage client msg);;
         mret (Break (sent_ok result))
     end)
    (handle_error max_retries attempt result).

(** [send]: lines 62 to 124. *)
Definition send (to_email subject text : string) (max_retries : Z)
    : smtp BaseResponse :=
  let result := BaseResponse_new in
  self ← get_self;
  let msg := build_message (_gmail_address self) to_email subject text in
  r ← for_range max_retries (send_attempt msg max_retries) result;
  mret (joined r).

(** [close_session]: lines 170 to 178.  An error of [quit] propagates, and
    the reference to the client is kept. *)
Definition close_session : smtp unit :=
  self ← get_self;
  match _smtp_client self with
  | Some _ => client ← the_client; call (Quit client);; advance Closed
  | None => mret tt
  end.

(** ** The methods are lawful

    Each method awaits the client at consecutive indices of the oracle and
    records every reply it is given. *)

#[export] Instance the_client_lawful : Lawful the_client.
Proof. unfold the_client. apply _. Qed.

#[export] Instance advance_lawful p : Lawful (advance p).
Proof. unfold advance. apply _. Qed.

#[export] Instance reset_connection_lawful : Lawful _reset_connection.
Proof. unfold _reset_connection. apply _. Qed.

#[export] Instance establish_lawful : Lawful establish.
Proof. unfold establish. apply _. Qed.

#[export] Instance get_connection_lawful : Lawful _get_connection.
Proof. unfold _get_connection. apply _. Qed.

#[export] Instance handle_error_lawful max_retries attempt result error :
  Lawful (handle_error max_retries attempt result error).
Proof. unfold handle_error. apply _. Qed.

#[export] Instance send_attempt_lawful msg max_retries attempt result :
  Lawful (send_attempt msg max_retries attempt result).
Proof. unfold send_attempt. apply _. Qed.

#[export] Instance send_lawful to_email subject text max_retries :
  Lawful (send to_email subject text max_retries).
Proof. unfold send. cbv zeta. apply _. Qed.

#[export] Instance close_session_lawful : Lawful close_session.
Proof. unfold close_session. apply _. Qed.

(** ** The methods as functions of the replies *)

(** What establishing a session yields from reply number [t] on: the run
    of lines 144 to 153 of [_get_connection]. *)
Definition established (self : GmailNotificationProcessor) (E : oracle unit)
    (t : nat) : ran smtp_op unit GmailNotificationProcessor unit :=
  let c0 := fresh_client self in
  let c1 := with_session Connected c0 in
  let login := Login c1 (_gmail_address self) (__gmail_app_password self) in
  match E t with
  | Raises e =>
      Ran (Raise e) (World (set_smtp_client (Some c0) self) (S t))
          [Called (Connect c0) (E t)]
  | Returns _ =>
      match E (S t) with
      | Raises e =>
          Ran (Raise e) (World (set_smtp_client (Some c1) self) (S (S t)))
              [Called (Connect c0) (E t); Called login (E (S t))]
      | Returns _ =>
          Ran (Ok tt)
              (World (set_smtp_client (Some (with_session Authenticated c0)) self)
                 (S (S t)))
              [Called (Connect c0) (E t); Called login (E (S t))]
      end
  end.

Section Methods.
Implicit Types (E : oracle unit) (w : world GmailNotificationProcessor)
  (st : GmailNotificationProcessor) (c client : AIO_SMTP) (p : phase).

Lemma set_smtp_client_set_smtp_client v v' st :
  set_smtp_client v (set_smtp_client v' st) = set_smtp_client v st.
Proof. reflexivity. Qed.

Lemma set_smtp_client_id st : set_smtp_client (_smtp_client st) st = st.
Proof. by destruct st. Qed.

Lemma with_session_with_session p p' c :
  with_session p (with_session p' c) = with_session p c.
Proof. reflexivity. Qed.

Lemma world_eta w : World (self w) (tick w) = w.
Proof. by destruct w. Qed.

Lemma established_set_smtp_client v st E t :
  established (set_smtp_client v st) E t = established st E t.
Proof. reflexivity. Qed.

Lemma run_the_client E w :
  run the_client E w =
  match _smtp_client (self w) with
  | Some c => Ran (Ok c) w []
  | None => Ran (Raise (Exn OtherError None "'NoneType' object has no attribute")) w []
  end.
Proof. unfold the_client. eff_simp. by destruct (_smtp_client (self w)). Qed.

Lemma run_advance p E w :
  run (advance p) E w =
  Ran (Ok tt)
      (World (set_smtp_client (with_session p <$> _smtp_client (self w)) (self w))
         (tick w)) [].
Proof.
  unfold advance. eff_simp. destruct (_smtp_client (self w)) eqn:Hc; eff_simp; [done|].
  destruct w as [[] ?]; cbn in *; by subst.
Qed.

(** [_reset_connection] never raises, drops the client, and awaits [quit]
    on the client it held, ignoring its outcome. *)
Lemma run_reset_connection E w :
  run _reset_connection E w =
  match _smtp_client (self w) with
  | Some c =>
      Ran (Ok tt) (World (set_smtp_client None (self w)) (S (tick w)))
          [Called (Quit c) (E (tick w))]
  | None => Ran (Ok tt) w []
  end.
Proof.
  unfold _reset_connection. eff_simp.
  destruct (_smtp_client (self w)) as [c|] eqn:Hc; eff_simp; [|done].
  rewrite run_the_client, Hc. eff_simp.
  destruct (E (tick w)); eff_simp; [|done].
  rewrite run_advance. by eff_simp.
Qed.

Lemma run_establish E w : run establish E w = established (self w) E (tick w).
Proof.
  unfold establish, established. eff_simp.
  rewrite run_the_client. cbn [self _smtp_client set_smtp_client]. eff_simp.
  destruct (E (tick w)); eff_simp; [|done].
  rewrite run_advance. eff_simp. rewrite run_the_client.
  cbn [self _smtp_client set_smtp_client fmap option_fmap option_map]. eff_simp.
  destruct (E (S (tick w))); eff_simp; [|done].
  rewrite run_advance. by eff_simp.
Qed.

Lemma run_get_connection E w :
  run _get_connection E w =
  match _smtp_client (self w) with
  | Some c =>
      match E (tick w) with
      | Returns _ =>
          Ran (Ok tt) (World (self w) (S (tick w))) [Called (Noop c) (E (tick w))]
      | Raises _ =>
          prepend [Called (Noop c) (E (tick w)); Called (Quit c) (E (S (tick w)))]
            (established (self w) E (S (S (tick w))))
      end
  | None => established (self w) E (tick w)
  end.
Proof.
  unfold _get_connection. eff_simp.
  destruct (_smtp_client (self w)) as [c|] eqn:Hc; eff_simp.
  - rewrite run_the_client, Hc. eff_simp. destruct (E (tick w)) eqn:HE; eff_simp; [done|].
    rewrite run_reset_connection. eff_simp. rewrite Hc. eff_simp.
    rewrite run_establish. by eff_simp.
  - apply run_establish.
Qed.

(** The handler of [send]: a connectivity error drops the client and asks
    for the next attempt (after a sleep, or with the error recorded on the
    last attempt); any other error ends the loop and leaves the client. *)
Lemma run_handle_error max_retries attempt result error E w :
  run (handle_error max_retries attempt result error) E w =
  match error_class_of error with
  | Connectivity =>
      if bool_decide (attempt < max_retries - 1)%Z
      then prepend (trace (run _reset_connection E w))
             (Ran (Ok (Next result)) (final (run _reset_connection E w))
                [Slept (2 ** attempt)])
      else prepend (trace (run _reset_connection E w))
             (Ran (Ok (Next (failed_with 500 error result)))
                (final (run _reset_connection E w)) [])
  | Rejection => Ran (Ok (Break (failed_with 400 error result))) w []
  | Unclassified => Ran (Ok (Break (failed_with 500 error result))) w []
  end.
Proof.
  unfold handle_error. destruct (error_class_of error); [|done..].
  rewrite run_bind. rewrite run_reset_connection.
  destruct (_smtp_client (self w)); cbn [out final trace];
    destruct (bool_decide _); by eff_simp.
Qed.

(** One attempt: the connection is ensured, the message transmitted on the
    client held, and an error of either step handled. *)
Lemma run_send_attempt msg max_retries attempt result E w :
  run (send_attempt msg max_retries attempt result) E w =
  match out (run _get_connection E w) with
  | Ok _ =>
      match _smtp_client (self (final (run _get_connection E w))) with
      | Some c =>
          prepend (trace (run _get_connection E w) ++
                   [Called (SendMessage c msg)
                      (E (tick (final (run _get_connection E w))))])
            match E (tick (final (run _get_connection E w))) with
            | Returns _ =>
                Ran (Ok (Break (sent_ok result)))
                    (World (self (final (run _get_connection E w)))
                       (S (tick (final (run _get_connection E w))))) []
            | Raises e =>
                run (handle_error max_retries attempt result e) E
                  (World (self (final (run _get_connection E w)))
                     (S (tick (final (run _get_connection E w)))))
            end
      | None =>
          prepend (trace (run _get_connection E w))
            (run (handle_error max_retries attempt result
                    (Exn AssertionError None "")) E
               (final (run _get_connection E w)))
      end
  | Raise e =>
      prepend (trace (run _get_connection E w))
        (run (handle_error max_retries attempt result e) E
           (final (run _get_connection E w)))
  end.
Proof.
  unfold send_attempt. rewrite run_try_except, run_bind.
  destruct (run _get_connection E w) as [[[]|e] wg tg]; cbn [out final trace]; [|done].
  rewrite run_bind, run_get_self. cbn [out final trace]. rewrite prepend_nil.
  destruct (_smtp_client (self wg)) as [c|] eqn:Hc; [|eff_simp; by rewrite app_nil_r].
  rewrite run_bind, run_the_client, Hc. cbn [out final trace].
  rewrite prepend_nil, run_bind, run_call. cbn [out final trace].
  destruct (E (tick wg)); eff_simp; by rewrite ?app_nil_r.
Qed.

End Methods.

#[export] Hint Rewrite run_the_client run_advance run_reset_connection
  run_establish : eff_rw.

(** ** The specification of one attempt *)

(** The invariant of the manager between two calls: a client that is held
    has been authenticated. *)
Definition handle_ok (st : GmailNotificationProcessor) : Prop :=
  ∀ c, _smtp_client st = Some c → session c = Authenticated.

(** The configuration of a processor: every field but the client. *)
Definition config (st : GmailNotificationProcessor) : GmailNotificationProcessor :=
  set_smtp_client None st.

Definition is_send (op : smtp_op) : bool :=
  match op with SendMessage _ _ => true | _ => false end.

Definition is_connect (op : smtp_op) : bool :=
  match op with Connect _ => true | _ => false end.

(** The messages whose transmission the server acknowledged, in order. *)
Definition acked (t : list smtp_event) : list MIMEMultipart :=
  omap (λ ev, match ev with
              | Called (SendMessage _ msg) (Returns _) => Some msg
              | _ => None
              end) t.

(** A message is only transmitted over an authenticated session. *)
Definition safe_op (op : smtp_op) : Prop :=
  match op with SendMessage c _ => session c = Authenticated | _ => True end.

(** What [k] attempts guarantee, whatever their outcome: the configuration
    is kept, one reply is consumed per call, a message is only transmitted
    over an authenticated session, and at most [k] transmissions and [k]
    connections are made. *)
Record frame (k : nat) (w w' : world GmailNotificationProcessor)
    (t : list smtp_event) : Prop := {
  frame_config : config (self w') = config (self w);
  frame_tick : tick w' = (tick w + length (ops t))%nat;
  frame_safe : handle_ok (self w) → Forall safe_op (ops t);
  frame_sends : (count is_send (ops t) ≤ k)%nat;
  frame_connects : (count is_connect (ops t) ≤ k)%nat
}.

(** The five ways an attempt can end.  An error that ends the loop leaves
    a client, the one found or a new one. *)
Inductive attempt_spec (max_retries attempt : Z) (result : BaseResponse)
    (w : world GmailNotificationProcessor)
    : ran smtp_op unit GmailNotificationProcessor (ctl BaseResponse BaseResponse)
      → Prop :=
| attempt_sent w' t c :
    frame 1 w w' t →
    _smtp_client (self w') = Some c →
    (handle_ok (self w) → session c = Authenticated) →
    sleeps t = [] →
    attempt_spec max_retries attempt result w
      (Ran (Ok (Break (sent_ok result))) w' t)
| attempt_retry w' t :
    frame 1 w w' t →
    (attempt < max_retries - 1)%Z →
    _smtp_client (self w') = None →
    sleeps t = [backoff attempt] →
    attempt_spec max_retries attempt result w (Ran (Ok (Next result)) w' t)
| attempt_exhausted w' t e :
    frame 1 w w' t →
    error_class_of e = Connectivity →
    ¬ (attempt < max_retries - 1)%Z →
    _smtp_client (self w') = None →
    sleeps t = [] →
    attempt_spec max_retries attempt result w
      (Ran (Ok (Next (failed_with 500 e result))) w' t)
| attempt_rejected w' t e :
    frame 1 w w' t →
    error_class_of e = Rejection →
    _smtp_client (self w') ≠ None →
    sleeps t = [] →
    attempt_spec max_retries attempt result w
      (Ran (Ok (Break (failed_with 400 e result))) w' t)
| attempt_unclassified w' t e :
    frame 1 w w' t →
    error_class_of e = Unclassified →
    _smtp_client (self w') ≠ None →
    sleeps t = [] →
    attempt_spec max_retries attempt result w
      (Ran (Ok (Break (failed_with 500 e result))) w' t).

Lemma handle_ok_session st c :
  handle_ok st → _smtp_client st = Some c → session c = Authenticated.
Proof. intros H. apply H. Qed.

Lemma handle_ok_None st : _smtp_client st = None → handle_ok st.
Proof. intros H c. by rewrite H. Qed.

#[export] Hint Resolve handle_ok_session handle_ok_None : eff.

(** Every path through an attempt: the client held or not, the probe, the
    connection, the login, the transmission, and the class of the error. *)
Ltac attempt_cases :=
  rewrite run_send_attempt, run_get_connection; unfold established;
  repeat case_match; rewrite ?run_handle_error, ?run_reset_connection;
  repeat case_match; simplify_eq/=.

Ltac solve_frame :=
  split;
  [ reflexivity
  | cbn; lia
  | intros ?; repeat constructor; cbn; eauto with eff
  | vm_compute; lia
  | vm_compute; lia ].

Ltac attempt_leaf :=
  reflect_bool;
  first [ eapply attempt_sent | eapply attempt_retry | eapply attempt_exhausted
        | eapply attempt_rejected | eapply attempt_unclassified ];
  first [ solve_frame | solve [eauto with eff] | cbn; congruence ].

Lemma send_attempt_spec msg max_retries attempt result E w :
  attempt_spec max_retries attempt result w
    (run (send_attempt msg max_retries attempt result) E w).
Proof. attempt_cases; attempt_leaf. Qed.

(** ** The specification of the loop *)

(** How the loop of [send] ends after at most [n] attempts from the result
    [result]: without any attempt, with the message sent, with the budget
    exhausted by connectivity errors, or on the first error of another
    class. *)
Inductive loop_result (result : BaseResponse)
    (w w' : world GmailNotificationProcessor) (n : nat) : BaseResponse → Prop :=
| loop_none : n = 0%nat → w' = w → loop_result result w w' n result
| loop_sent c :
    (0 < n)%nat →
    _smtp_client (self w') = Some c →
    (handle_ok (self w) → session c = Authenticated) →
    loop_result result w w' n (sent_ok result)
| loop_exhausted e :
    (0 < n)%nat →
    error_class_of e = Connectivity →
    _smtp_client (self w') = None →
    loop_result result w w' n (failed_with 500 e result)
| loop_rejected e :
    (0 < n)%nat →
    error_class_of e = Rejection →
    _smtp_client (self w') ≠ None →
    loop_result result w w' n (failed_with 400 e result)
| loop_unclassified e :
    (0 < n)%nat →
    error_class_of e = Unclassified →
    _smtp_client (self w') ≠ None →
    loop_result result w w' n (failed_with 500 e result).

(** The loop returns after [k] attempts, having slept between them only. *)
Inductive loop_spec (attempt : Z) (n : nat) (result : BaseResponse)
    (w : world GmailNotificationProcessor)
    : ran smtp_op unit GmailNotificationProcessor (BaseResponse + BaseResponse)
      → Prop :=
| loop_done k result' w' t :
    (k ≤ n)%nat → (0 < n → 0 < k)%nat →
    frame k w w' t →
    sleeps t = schedule_from attempt (k - 1) →
    loop_result result w w' n result' →
    loop_spec attempt n result w (Ran (Ok (inl result')) w' t).

Section Loop.
Implicit Types (w : world GmailNotificationProcessor) (t : list smtp_event)
  (result : BaseResponse) (k n : nat).

Lemma frame_nil w : frame 0 w w [].
Proof. split; cbn; [done|lia|constructor|lia..]. Qed.

Lemma frame_app k k' w w' w'' t t' :
  frame k w w' t → frame k' w' w'' t' →
  (handle_ok (self w) → handle_ok (self w')) →
  frame (k + k') w w'' (t ++ t').
Proof.
  intros [] [] Hok. split; rewrite ?ops_app, ?count_app, ?length_app.
  - congruence.
  - lia.
  - intros. apply Forall_app; auto.
  - lia.
  - lia.
Qed.

Lemma loop_result_later result w w' w'' n result' :
  _smtp_client (self w') = None → (0 < n)%nat →
  loop_result result w' w'' n result' → loop_result result w w'' (S n) result'.
Proof.
  intros Hnone Hn [-> _|c _ ? Hc|e _ ? ?|e _ ? ?|e _ ? ?]; [lia|..].
  - apply (loop_sent _ _ _ _ c); eauto with eff lia.
  - apply loop_exhausted; [lia|done..].
  - apply loop_rejected; [lia|done..].
  - apply loop_unclassified; [lia|done..].
Qed.

End Loop.

Lemma send_loop_spec msg max_retries E n attempt result w :
  ((0 < n)%nat → (attempt + Z.of_nat n = max_retries)%Z) →
  loop_spec attempt n result w
    (run (for_from n attempt (send_attempt msg max_retries) result) E w).
Proof.
  revert n attempt result w.
  apply (for_from_rule (send_attempt msg max_retries) E
           (λ n i _ _, (0 < n)%nat → (i + Z.of_nat n = max_retries)%Z)
           (λ n i l w r, loop_spec i n l w r)).
  - intros i l w _. apply (loop_done _ _ _ _ 0%nat); [lia|lia|apply frame_nil|done|].
    by apply loop_none.
  - intros n i l w HI. specialize (HI ltac:(lia)).
    destruct (send_attempt_spec msg max_retries i l E w)
      as [w' t c Hf Hc Hs Hsl|w' t Hf Hlt Hc Hsl|w' t e Hf He Hlt Hc Hsl
         |w' t e Hf He Hc Hsl|w' t e Hf He Hc Hsl].
    + apply (loop_done _ _ _ _ 1%nat); [lia|lia|done|done|].
      apply (loop_sent _ _ _ _ c); [lia|done..].
    + split; [lia|]. intros r [k result' w'' t' Hk Hk0 Hf' Hsl' Hr]. rewrite prepend_Ran.
      apply (loop_done _ _ _ _ (S k)); [lia|lia|..].
      * apply (frame_app 1 k _ w'); eauto with eff.
      * rewrite sleeps_app, Hsl, Hsl'. cbn [app].
        replace (S k - 1)%nat with (S (k - 1)) by lia. by rewrite schedule_from_cons.
      * apply (loop_result_later _ _ w'); [done|lia|done].
    + assert (n = 0%nat) as -> by lia. split; [lia|].
      intros r [k result' w'' t' Hk Hk0 Hf' Hsl' Hr]. rewrite prepend_Ran.
      assert (k = 0%nat) as -> by lia.
      destruct Hr as [_ ->| | | |]; [|lia..].
      apply (loop_done _ _ _ _ 1%nat); [lia|lia|..].
      * apply (frame_app 1 0 _ w'); eauto with eff.
      * by rewrite sleeps_app, Hsl, Hsl'.
      * apply loop_exhausted; [lia|done..].
    + apply (loop_done _ _ _ _ 1%nat); [lia|lia|done|done|].
      apply loop_rejected; [lia|done..].
    + apply (loop_done _ _ _ _ 1%nat); [lia|lia|done|done|].
      apply loop_unclassified; [lia|done..].
Qed.

(** ** The specification of [send] *)

(** A call of [send] returns after [k] attempts, at most [max_retries]. *)
Inductive send_spec (max_retries : Z) (w : world GmailNotificationProcessor)
    : ran smtp_op unit GmailNotificationProcessor BaseResponse → Prop :=
| send_done k result w' t :
    (k ≤ Z.to_nat max_retries)%nat → ((0 < max_retries)%Z → (0 < k)%nat) →
    frame k w w' t →
    sleeps t = schedule (k - 1) →
    loop_result BaseResponse_new w w' (Z.to_nat max_retries) result →
    send_spec max_retries w (Ran (Ok result) w' t).

Lemma run_send_spec to_email subject text max_retries E w :
  send_spec max_retries w (run (send to_email subject text max_retries) E w).
Proof.
  unfold send, for_range. rewrite run_bind, run_get_self. cbn [out final trace].
  rewrite prepend_nil, run_bind.
  destruct (send_loop_spec
              (build_message (_gmail_address (self w)) to_email subject text)
              max_retries E (Z.to_nat max_retries) 0 BaseResponse_new w)
    as [k result w' t Hk Hk0 Hf Hsl Hr]; [lia|].
  cbn [out final trace]. rewrite run_ret, prepend_Ran, app_nil_r. cbn [joined].
  apply (send_done _ _ k); [done|lia|done..].
Qed.

Lemma loop_result_status result w w' n result' :
  loop_result result w w' n result' → (0 < n)%nat → failed result →
  (status_code result' = Some 200%Z ∧ execute_status result' = true) ∨
  ((status_code result' = Some 400%Z ∨ status_code result' = Some 500%Z) ∧
   execute_status result' = false).
Proof.
  intros [-> _|c _ ? Hc|e _ ? ?|e _ ? ?|e _ ? ?] Hn Hf; [lia|by left|right..];
    (split; [cbn; auto|done]).
Qed.

(** [send] returns a result. *)
Lemma run_send_returns to_email subject text max_retries E w :
  ∃ result, out (run (send to_email subject text max_retries) E w) = Ok result.
Proof. destruct (run_send_spec to_email subject text max_retries E w). eauto. Qed.

(** A result of [send] that claims success carries status 200. *)
Lemma gmail_send_result_ok to_email subject text max_retries E w result :
  out (run (send to_email subject text max_retries) E w) = Ok result →
  result_ok (λ s, (s < 400)%Z) result.
Proof.
  destruct (run_send_spec to_email subject text max_retries E w)
    as [k result' w' t _ _ _ _ Hr].
  intros [= <-]. destruct Hr as [_ _|c _ ? Hc|e _ ? ?|e _ ? ?|e _ ? ?];
    [apply result_ok_new|by exists 200%Z|by apply result_ok_failed..].
Qed.

(** ** Acknowledged transmissions

    An attempt ends the loop with a success exactly when its transmission
    was acknowledged; an attempt that fails has no acknowledged
    transmission. *)

Lemma acked_app t t' : acked (t ++ t') = acked t ++ acked t'.
Proof. apply omap_app. Qed.

(** What the acknowledged transmissions of a run are, given the result the
    run carries out of the loop. *)
Definition acked_as (msg : MIMEMultipart) (t : list smtp_event)
    (result : BaseResponse) : Prop :=
  acked t = if execute_status result then [msg] else [].

Definition attempt_acked (msg : MIMEMultipart)
    (r : ran smtp_op unit GmailNotificationProcessor (ctl BaseResponse BaseResponse))
    : Prop :=
  match r with
  | Ran (Ok (Break result')) _ t => acked_as msg t result'
  | Ran (Ok (Next result')) _ t => failed result' ∧ acked t = []
  | _ => False
  end.

Lemma send_attempt_acked msg max_retries attempt result E w :
  failed result →
  attempt_acked msg (run (send_attempt msg max_retries attempt result) E w).
Proof.
  unfold failed. intros Hf. attempt_cases; unfold attempt_acked, acked_as; cbn;
    by rewrite ?Hf.
Qed.

Lemma send_loop_acked msg max_retries E n attempt result w :
  failed result →
  match run (for_from n attempt (send_attempt msg max_retries) result) E w with
  | Ran (Ok (inl result')) _ t => acked_as msg t result'
  | _ => False
  end.
Proof.
  revert n attempt result w.
  apply (for_from_rule (send_attempt msg max_retries) E (λ _ _ l _, failed l)
           (λ _ _ _ _ r, match r with
                         | Ran (Ok (inl result')) _ t => acked_as msg t result'
                         | _ => False
                         end)).
  - intros _ l _ Hl. unfold acked_as. by rewrite Hl.
  - intros n i l w Hl. pose proof (send_attempt_acked msg max_retries i l E w Hl) as H.
    destruct (run (send_attempt _ _ _ _) E w) as [[[l'|l'|a]|e] w' t]; [|done..].
    cbn [attempt_acked] in H.
    destruct H as [Hl' Ht]. split; [done|]. intros [[[r|r]|e] w'' t']; [|done..].
    unfold acked_as. cbn [prepend]. by rewrite acked_app, Ht.
Qed.

(** ** The length of a run

    An attempt awaits at most six calls and sleeps at most once: the probe,
    the quit of a dead client, the connection, the login, the transmission
    and the quit after a connectivity error. *)

Lemma send_attempt_length msg max_retries attempt result E w :
  (length (trace (run (send_attempt msg max_retries attempt result) E w)) ≤ 7)%nat.
Proof. attempt_cases; cbn; lia. Qed.

Lemma send_loop_length msg max_retries E n attempt result w :
  (length (trace (run (for_from n attempt (send_attempt msg max_retries) result) E w))
   ≤ 7 * n)%nat.
Proof.
  revert attempt result w. induction n as [|n IH]; intros attempt result w; [done|].
  rewrite for_from_S. pose proof (send_attempt_length msg max_retries attempt result E w).
  destruct (run (send_attempt _ _ _ _) E w) as [[[l|l|a]|e] w' t]; cbn [out final trace] in *;
    [|lia..].
  rewrite trace_prepend, length_app. specialize (IH (attempt + 1)%Z l w'). lia.
Qed.

(** ** Theorems of the connection manager *)

Section SendTheorems.
Context (to_email subject text : string) (max_retries : Z)
  (E : oracle unit) (w : world GmailNotificationProcessor).

(** C2: callers always receive a value: [send] never raises, whatever the
    SMTP client answers or raises at any step (probe, quit, connect, login,
    transmission). *)
Theorem send_never_raises :
  ∃ result, out (run (send to_email subject text max_retries) E w) = Ok result.
Proof. apply run_send_returns. Qed.

(** C4: a message is only ever transmitted over an authenticated
    session: if the client held when [send] is called (if any) has been
    authenticated, every [send_message] of the call is awaited on a client
    whose login succeeded. *)
Theorem send_transmits_authenticated :
  handle_ok (self w) →
  Forall safe_op (ops (trace (run (send to_email subject text max_retries) E w))).
Proof.
  intros Hok.
  destruct (run_send_spec to_email subject text max_retries E w) as [? ? ? ? ? ? []].
  cbn [trace]; auto.
Qed.

(** C8: the status of the result is synthesized: with a budget of at
    least one attempt, [send] returns status 200 with [execute_status] true,
    or status 400 or 500 with [execute_status] false. *)
Theorem send_status_codes result :
  (0 < max_retries)%Z →
  out (run (send to_email subject text max_retries) E w) = Ok result →
  (status_code result = Some 200%Z ∧ execute_status result = true) ∨
  ((status_code result = Some 400%Z ∨ status_code result = Some 500%Z) ∧
   execute_status result = false).
Proof.
  intros Hmax.
  destruct (run_send_spec to_email subject text max_retries E w)
    as [k result' w' t _ _ _ _ Hr].
  intros [= <-]. eapply loop_result_status; [done|lia|done].
Qed.

(** C6: at most [max_retries] attempts: a call transmits the message at
    most [max_retries] times and opens at most [max_retries] connections,
    and it consumes one reply per awaited call. *)
Theorem send_attempts_bounded :
  (count is_send (ops (trace (run (send to_email subject text max_retries) E w)))
     ≤ Z.to_nat max_retries)%nat ∧
  (count is_connect (ops (trace (run (send to_email subject text max_retries) E w)))
     ≤ Z.to_nat max_retries)%nat ∧
  tick (final (run (send to_email subject text max_retries) E w)) =
    (tick w + length (ops (trace (run (send to_email subject text max_retries) E w))))%nat.
Proof.
  destruct (run_send_spec to_email subject text max_retries E w) as [? ? ? ? ? ? []].
  cbn [trace final]. split_and!; [lia..|done].
Qed.

(** The backoff of [send]: the durations slept are 1, 2, 4, ... in
    that order, one after each attempt but the last one made; in
    particular at most [max_retries - 1] sleeps, none after the final
    attempt, and less than [2 ** (max_retries - 1)] time units slept in
    all. *)
Theorem send_sleeps_between_attempts :
  ∃ k, (k ≤ Z.to_nat max_retries)%nat ∧
       sleeps (trace (run (send to_email subject text max_retries) E w)) =
         schedule (k - 1) ∧
       (total (sleeps (trace (run (send to_email subject text max_retries) E w)))
          ≤ 2 ^ Z.of_nat (Z.to_nat max_retries - 1) - 1)%Z.
Proof.
  destruct (run_send_spec to_email subject text max_retries E w) as [k ? ? ? ? ? ? Hs].
  exists k. cbn [trace]. rewrite Hs, <- total_schedule.
  split_and!; [done..|]. apply total_schedule_mono. lia.
Qed.

(** A successful [send] leaves a usable session: when the result has
    [execute_status] true, a client is held afterwards, and it is
    authenticated provided the one held before the call was. *)
Theorem send_success_keeps_session result :
  out (run (send to_email subject text max_retries) E w) = Ok result →
  execute_status result = true →
  handle_ok (self w) →
  ∃ c, _smtp_client (self (final (run (send to_email subject text max_retries) E w)))
         = Some c ∧ session c = Authenticated.
Proof.
  destruct (run_send_spec to_email subject text max_retries E w)
    as [k result' w' t _ _ _ _ Hr].
  intros [= <-] Hex Hok. cbn [final].
  destruct Hr as [_ _|c _ ? Hc|e _ ? ?|e _ ? ?|e _ ? ?]; try done. eauto.
Qed.

(** [send] changes no field of the processor but the client: address,
    password, host, port and TLS flag are those of before the call. *)
Theorem send_keeps_config :
  config (self (final (run (send to_email subject text max_retries) E w))) =
  config (self w).
Proof.
  by destruct (run_send_spec to_email subject text max_retries E w) as [? ? ? ? ? ? []].
Qed.

End SendTheorems.

(** ** Scenarios of [send] *)

Section SendScenarios.
Context (to_email subject text : string) (max_retries : Z)
  (E : oracle unit) (w : world GmailNotificationProcessor).
#[local] Abbreviation msg :=
  (build_message (_gmail_address (self w)) to_email subject text).

Lemma run_send_as_loop :
  run (send to_email subject text max_retries) E w =
  match run (for_from (Z.to_nat max_retries) 0 (send_attempt msg max_retries)
               BaseResponse_new) E w with
  | Ran (Ok r) w' t => Ran (Ok (joined r)) w' t
  | Ran (Raise e) w' t => Ran (Raise e) w' t
  end.
Proof.
  unfold send, for_range. rewrite run_bind, run_get_self. cbn [out final trace].
  rewrite prepend_nil, run_bind.
  destruct (run (for_from _ _ _ _) E w) as [[r|e] w' t]; cbn [out final trace]; [|done].
  by rewrite run_ret, prepend_Ran, app_nil_r.
Qed.

(** A call whose first attempt ends the loop. *)
Lemma run_send_first_break result w' t :
  (0 < max_retries)%Z →
  run (send_attempt msg max_retries 0 BaseResponse_new) E w =
    Ran (Ok (Break result)) w' t →
  run (send to_email subject text max_retries) E w = Ran (Ok result) w' t.
Proof.
  intros Hmax Hrun. rewrite run_send_as_loop.
  replace (Z.to_nat max_retries) with (S (Z.to_nat max_retries - 1)) by lia.
  by rewrite for_from_S, Hrun.
Qed.

(** A call makes at most [max_retries] attempts of at most seven events. *)
Lemma run_send_length :
  (length (trace (run (send to_email subject text max_retries) E w))
   ≤ 7 * Z.to_nat max_retries)%nat.
Proof.
  rewrite run_send_as_loop.
  pose proof (send_loop_length msg max_retries E (Z.to_nat max_retries) 0
                BaseResponse_new w).
  by destruct (run (for_from _ _ _ _) E w) as [[r|e] w' t].
Qed.

(** The transmissions acknowledged during a call, by its result. *)
Lemma run_send_acked :
  ∃ result,
    out (run (send to_email subject text max_retries) E w) = Ok result ∧
    acked (trace (run (send to_email subject text max_retries) E w)) =
      if execute_status result then [msg] else [].
Proof.
  rewrite run_send_as_loop.
  pose proof (send_loop_acked msg max_retries E (Z.to_nat max_retries) 0
                BaseResponse_new w eq_refl) as H.
  destruct (run (for_from _ _ _ _) E w) as [[[r|r]|e] w' t]; [|done..]. by exists r.
Qed.

(** C11: delivery is reported truthfully: the transmissions the server
    acknowledged during a call are the message of the call, once, when the
    result claims success, and none when it does not.  A call never
    transmits again after an acknowledgement, and never reports a failure
    after one. *)
Theorem send_acknowledged_once :
  ∃ result,
    out (run (send to_email subject text max_retries) E w) = Ok result ∧
    acked (trace (run (send to_email subject text max_retries) E w)) =
      if execute_status result
      then [build_message (_gmail_address (self w)) to_email subject text]
      else [].
Proof. apply run_send_acked. Qed.

(** A live session is reused: when a client is held and answers the
    probe, the message is transmitted on it at once; the only calls are the
    probe and the transmission, the result is 200, and the client is kept. *)
Theorem send_reuses_live_session c :
  _smtp_client (self w) = Some c →
  E (tick w) = Returns tt →
  E (S (tick w)) = Returns tt →
  (0 < max_retries)%Z →
  run (send to_email subject text max_retries) E w =
  Ran (Ok (sent_ok BaseResponse_new)) (World (self w) (S (S (tick w))))
      [Called (Noop c) (Returns tt);
       Called (SendMessage c (build_message (_gmail_address (self w)) to_email
                                subject text)) (Returns tt)].
Proof.
  intros Hc H0 H1 Hmax. apply run_send_first_break; [done|].
  rewrite run_send_attempt, run_get_connection, Hc, H0. cbn [out final trace self tick].
  by rewrite Hc, H1.
Qed.

(** The liveness probe: when the client held fails the probe, it is
    quit (whatever [quit] answers) and dropped, a new client is connected
    and logged in, and the message is transmitted on the new client only:
    exactly one reconnection, then status 200. *)
Theorem send_reconnects_after_failed_probe c e quit_reply :
  _smtp_client (self w) = Some c →
  E (tick w) = Raises e →
  E (S (tick w)) = quit_reply →
  E (S (S (tick w))) = Returns tt →
  E (S (S (S (tick w)))) = Returns tt →
  E (S (S (S (S (tick w))))) = Returns tt →
  (0 < max_retries)%Z →
  run (send to_email subject text max_retries) E w =
  Ran (Ok (sent_ok BaseResponse_new))
      (World (set_smtp_client
                (Some (with_session Authenticated (fresh_client (self w)))) (self w))
         (S (S (S (S (S (tick w)))))))
      [Called (Noop c) (Raises e);
       Called (Quit c) quit_reply;
       Called (Connect (fresh_client (self w))) (Returns tt);
       Called (Login (with_session Connected (fresh_client (self w)))
                 (_gmail_address (self w)) (__gmail_app_password (self w)))
              (Returns tt);
       Called (SendMessage (with_session Authenticated (fresh_client (self w)))
                 (build_message (_gmail_address (self w)) to_email subject text))
              (Returns tt)].
Proof.
  intros Hc H0 H1 H2 H3 H4 Hmax. apply run_send_first_break; [done|].
  rewrite run_send_attempt, run_get_connection, Hc, H0. unfold established.
  rewrite H1, H2, H3. cbn [prepend out final trace self tick _smtp_client set_smtp_client].
  by rewrite H4.
Qed.

(** An error that is not of the connectivity class is never retried
    and does not touch the session: when the transmission on a live client
    raises a rejection (recipient, sender, authentication) the result is
    400, for any unclassified error it is 500, with the text of the error;
    one attempt is made, the client is neither quit nor dropped. *)
Theorem send_error_not_retried c e :
  _smtp_client (self w) = Some c →
  E (tick w) = Returns tt →
  E (S (tick w)) = Raises e →
  error_class_of e ≠ Connectivity →
  (0 < max_retries)%Z →
  run (send to_email subject text max_retries) E w =
  Ran (Ok (failed_with (if decide (error_class_of e = Rejection) then 400 else 500)
             e BaseResponse_new))
      (World (self w) (S (S (tick w))))
      [Called (Noop c) (Returns tt);
       Called (SendMessage c (build_message (_gmail_address (self w)) to_email
                                subject text)) (Raises e)].
Proof.
  intros Hc H0 H1 He Hmax. apply run_send_first_break; [done|].
  rewrite run_send_attempt, run_get_connection, Hc, H0. cbn [out final trace self tick].
  rewrite Hc, H1, run_handle_error. by destruct (error_class_of e).
Qed.

(** C31: a rejected login leaves a client that was never authenticated:
    from a processor without a client, when [connect] succeeds and [login]
    is rejected, [send] returns 400 at once and keeps the client, connected
    but not logged in; the invariant of the manager is lost. *)
Theorem send_rejected_login_keeps_client e :
  _smtp_client (self w) = None →
  E (tick w) = Returns tt →
  E (S (tick w)) = Raises e →
  error_class_of e = Rejection →
  (0 < max_retries)%Z →
  run (send to_email subject text max_retries) E w =
  Ran (Ok (failed_with 400 e BaseResponse_new))
      (World (set_smtp_client
                (Some (with_session Connected (fresh_client (self w)))) (self w))
         (S (S (tick w))))
      [Called (Connect (fresh_client (self w))) (Returns tt);
       Called (Login (with_session Connected (fresh_client (self w)))
                 (_gmail_address (self w)) (__gmail_app_password (self w)))
              (Raises e)] ∧
  ¬ handle_ok (self (final (run (send to_email subject text max_retries) E w))).
Proof.
  intros Hc H0 H1 He Hmax.
  match goal with |- ?l = ?r ∧ _ => assert (l = r) as Hrun end.
  { apply run_send_first_break; [done|].
    rewrite run_send_attempt, run_get_connection, Hc. unfold established.
    rewrite H0, H1. cbn [prepend out final trace self tick].
    rewrite run_handle_error, He. by cbn. }
  rewrite Hrun. split; [done|]. intros Hok. by specialize (Hok _ eq_refl).
Qed.

End SendScenarios.

(** ** Connectivity errors exhaust the budget *)

Section Exhaustion.
Context (msg : MIMEMultipart) (max_retries : Z) (E : oracle unit).

(** The loop when every connection attempt fails with a connectivity
    error: attempt [j] awaits [connect] at reply [2 * j] and [quit] on the
    unconnected client at reply [2 * j + 1]. *)
Lemma loop_connect_failures n : ∀ (e : nat → exn) attempt result w,
  _smtp_client (self w) = None →
  ((0 < n)%nat → (attempt + Z.of_nat n = max_retries)%Z) →
  (∀ j, (j < n)%nat →
        E (tick w + 2 * j)%nat = Raises (e j) ∧ error_class_of (e j) = Connectivity) →
  let r := run (for_from n attempt (send_attempt msg max_retries) result) E w in
  out r = Ok (inl (match n with O => result
                   | S n' => failed_with 500 (e n') result end)) ∧
  _smtp_client (self (final r)) = None ∧
  tick (final r) = (tick w + 2 * n)%nat ∧
  sleeps (trace r) = schedule_from attempt (n - 1) ∧
  count is_connect (ops (trace r)) = n ∧
  count is_send (ops (trace r)) = 0%nat.
Proof.
  induction n as [|n IH]; intros e attempt result w Hc Hn He r; subst r.
  { rewrite for_from_0. cbn. split_and!; [done..|lia|done|done|done]. }
  destruct (He 0%nat ltac:(lia)) as [HE0 Hcls]. rewrite Nat.add_0_r in HE0.
  rewrite for_from_S, run_send_attempt, run_get_connection, Hc. unfold established.
  rewrite HE0. cbn [out final trace]. rewrite run_handle_error, Hcls, run_reset_connection.
  cbn [self tick _smtp_client set_smtp_client].
  specialize (IH (λ j, e (S j)) (attempt + 1)%Z).
  destruct n as [|n].
  - rewrite bool_decide_eq_false_2 by lia. cbn. split_and!; [done..|lia|done|done|done].
  - rewrite bool_decide_eq_true_2 by lia. cbn [prepend out final trace app].
    edestruct (IH result) as (Ho & Hcl & Ht & Hs & Hcn & Hsn); [| |intros j Hj|].
    4:{ rewrite out_prepend, final_prepend, trace_prepend, Ho, Hcl, Ht, ops_app,
          sleeps_app, !count_app, Hs, Hcn, Hsn. cbn [tick].
        split_and!; [done|done|lia| |done|done].
        replace (S (S n) - 1)%nat with (S (S n - 1)) by lia.
        rewrite schedule_from_cons. reflexivity. }
    + done.
    + cbn [tick]. lia.
    + cbn [tick]. replace (S (S (tick w)) + 2 * j)%nat with (tick w + 2 * S j)%nat by lia.
      apply He. lia.
Qed.

End Exhaustion.

(** [close_session], as a function of the reply to [quit]. *)
Lemma run_close_session (E : oracle unit) (w : world GmailNotificationProcessor) :
  run close_session E w =
  match _smtp_client (self w) with
  | None => Ran (Ok tt) w []
  | Some c =>
      match E (tick w) with
      | Returns _ =>
          Ran (Ok tt)
              (World (set_smtp_client (Some (with_session Closed c)) (self w))
                 (S (tick w)))
              [Called (Quit c) (E (tick w))]
      | Raises e =>
          Ran (Raise e) (World (self w) (S (tick w))) [Called (Quit c) (E (tick w))]
      end
  end.
Proof.
  unfold close_session. rewrite run_bind, run_get_self. cbn [out final trace].
  destruct (_smtp_client (self w)) as [c|] eqn:Hc; [|done].
  rewrite prepend_nil, run_bind, run_the_client, Hc. cbn [out final trace].
  rewrite prepend_nil, run_bind, run_call. cbn [out final trace].
  destruct (E (tick w)); [|done]. rewrite run_advance. cbn. by rewrite Hc.
Qed.

Section MoreTheorems.
Context (E : oracle unit) (w : world GmailNotificationProcessor).

(** Connectivity errors are retried until the budget is exhausted:
    from a processor without a client, when every [connect] fails with a
    connectivity error, [send] makes exactly [max_retries] connection
    attempts and no transmission, sleeps 1, 2, 4, ... between them
    ([max_retries - 1] sleeps, none after the last), drops the client each
    time, and returns status 500 with the text of the last error. *)
Theorem send_connectivity_exhausts_budget to_email subject text max_retries
    (e : nat → exn) :
  _smtp_client (self w) = None →
  (0 < max_retries)%Z →
  (∀ j, (j < Z.to_nat max_retries)%nat →
        E (tick w + 2 * j)%nat = Raises (e j) ∧ error_class_of (e j) = Connectivity) →
  out (run (send to_email subject text max_retries) E w) =
    Ok (failed_with 500 (e (Z.to_nat max_retries - 1)%nat) BaseResponse_new) ∧
  _smtp_client (self (final (run (send to_email subject text max_retries) E w))) = None ∧
  sleeps (trace (run (send to_email subject text max_retries) E w)) =
    schedule (Z.to_nat max_retries - 1) ∧
  count is_connect (ops (trace (run (send to_email subject text max_retries) E w))) =
    Z.to_nat max_retries ∧
  count is_send (ops (trace (run (send to_email subject text max_retries) E w))) = 0%nat.
Proof.
  intros Hc Hmax He. rewrite run_send_as_loop.
  destruct (loop_connect_failures
              (build_message (_gmail_address (self w)) to_email subject text)
              max_retries E (Z.to_nat max_retries) e 0 BaseResponse_new w)
    as (Ho & Hcl & _ & Hs & Hcn & Hsn); [done|lia|done|].
  destruct (run (for_from _ _ _ _) E w) as [[r|?] w' t]; cbn [out final trace] in *;
    [|done].
  destruct (Z.to_nat max_retries) as [|n] eqn:Hn; [lia|].
  injection Ho as ->. cbn [joined]. by replace (S n - 1)%nat with n in * by lia.
Qed.

(** C10: [_reset_connection] always succeeds and always clears the
    reference: it awaits [quit] on the client held (if any), suppresses
    whatever [quit] raises, and leaves the processor without a client, its
    configuration untouched. *)
Theorem reset_connection_clears :
  out (run _reset_connection E w) = Ok tt ∧
  _smtp_client (self (final (run _reset_connection E w))) = None ∧
  config (self (final (run _reset_connection E w))) = config (self w) ∧
  ops (trace (run _reset_connection E w)) =
    match _smtp_client (self w) with Some c => [Quit c] | None => [] end.
Proof.
  rewrite run_reset_connection.
  destruct (_smtp_client (self w)) eqn:Hc; cbn [out final trace self]; by rewrite ?Hc.
Qed.

(** The assertion of [send] cannot fail: when [_get_connection]
    returns, a client is held, and it is authenticated provided the one held
    before was; the only calls made are the probe, the quit of a dead client,
    and one connect and login. *)
Theorem get_connection_ensures_client :
  out (run _get_connection E w) = Ok tt →
  ∃ c, _smtp_client (self (final (run _get_connection E w))) = Some c ∧
       (handle_ok (self w) → session c = Authenticated).
Proof.
  rewrite run_get_connection. unfold established.
  repeat case_match; simplify_eq/=; try done; intros _; eauto with eff.
Qed.

(** [close_session] quits the client held and keeps the reference:
    without a client it does nothing; otherwise it awaits one [quit], an
    error of which propagates to the caller, and in both cases
    [_smtp_client] still refers to the same client afterwards. *)
Theorem close_session_keeps_client :
  run close_session E w =
  match _smtp_client (self w) with
  | None => Ran (Ok tt) w []
  | Some c =>
      match E (tick w) with
      | Returns _ =>
          Ran (Ok tt)
              (World (set_smtp_client (Some (with_session Closed c)) (self w))
                 (S (tick w)))
              [Called (Quit c) (E (tick w))]
      | Raises e =>
          Ran (Raise e) (World (self w) (S (tick w))) [Called (Quit c) (E (tick w))]
      end
  end.
Proof. apply run_close_session. Qed.

(** C33: [close_session] is not idempotent: called twice on a connected
    processor, the second call awaits [quit] on the client the first call
    closed, and when that [quit] raises (as aiosmtplib does on a closed
    connection) the second [close_session] raises. *)
Theorem close_session_twice_raises c e :
  _smtp_client (self w) = Some c →
  E (tick w) = Returns tt →
  E (S (tick w)) = Raises e →
  run (close_session;; close_session) E w =
  Ran (Raise e)
      (World (set_smtp_client (Some (with_session Closed c)) (self w))
         (S (S (tick w))))
      [Called (Quit c) (Returns tt); Called (Quit (with_session Closed c)) (Raises e)].
Proof.
  intros Hc H0 H1. rewrite run_bind, run_close_session, Hc, H0.
  cbn [out final trace]. rewrite run_close_session.
  cbn [self tick _smtp_client set_smtp_client]. by rewrite H1.
Qed.

(** C34: a closed manager reconnects silently: after a successful
    [close_session] the next [send] probes the closed client, and when the
    probe fails it opens and authenticates a new session and delivers the
    message (the specification asks sends after close to fail fast). *)
Theorem send_after_close_reconnects c e quit_reply to_email subject text
    max_retries :
  _smtp_client (self w) = Some c →
  E (tick w) = Returns tt →
  E (S (tick w)) = Raises e →
  E (S (S (tick w))) = quit_reply →
  E (S (S (S (tick w)))) = Returns tt →
  E (S (S (S (S (tick w))))) = Returns tt →
  E (S (S (S (S (S (tick w)))))) = Returns tt →
  (0 < max_retries)%Z →
  out (run (close_session;; send to_email subject text max_retries) E w) =
    Ok (sent_ok BaseResponse_new) ∧
  ops (trace (run (close_session;; send to_email subject text max_retries) E w)) =
    [Quit c; Noop (with_session Closed c); Quit (with_session Closed c);
     Connect (fresh_client (self w));
     Login (with_session Connected (fresh_client (self w)))
       (_gmail_address (self w)) (__gmail_app_password (self w));
     SendMessage (with_session Authenticated (fresh_client (self w)))
       (build_message (_gmail_address (self w)) to_email subject text)].
Proof.
  intros Hc H0 H1 H2 H3 H4 H5 Hmax. rewrite run_bind, run_close_session, Hc, H0.
  cbn [out final trace].
  erewrite run_send_first_break; [|done|].
  2:{ rewrite run_send_attempt, run_get_connection.
      cbn [self tick _smtp_client set_smtp_client]. rewrite H1. unfold established.
      cbn [self tick _smtp_client set_smtp_client]. rewrite H2, H3, H4.
      cbn [prepend out final trace self tick _smtp_client set_smtp_client].
      rewrite H5. cbn [prepend]. reflexivity. }
  done.
Qed.

End MoreTheorems.

(** ** Concrete runs

    A processor built by [__init__] with the defaults of the signature,
    scripted replies of the SMTP client, and the witnesses of the theorems
    above. *)

Definition gmail0 : GmailNotificationProcessor :=
  init_default {| gmail_address := "bot@gmail.com";
                  gmail_app_password := "app-password" |}.

(** [gmail0] holding a session that has been authenticated. *)
Definition gmail_live : GmailNotificationProcessor :=
  set_smtp_client (Some (with_session Authenticated (fresh_client gmail0))) gmail0.

Definition replied : smtp_reply := Returns tt.

Definition raised (c : exn_class) (s : string) : smtp_reply := Raises (Exn c None s).

(** [send] with budget [n] from the state [st], the client answering [rs]
    and then refusing every call. *)
Definition mail (n : Z) (st : GmailNotificationProcessor) (rs : list smtp_reply)
    : ran smtp_op unit GmailNotificationProcessor BaseResponse :=
  run (send "user@example.com" "Hello" "Hi" n)
      (script rs (raised SMTPServerDisconnected "connection closed"))
      (World st 0).

Lemma send_transmits_authenticated_witness :
  Forall safe_op (ops (trace (mail 3 gmail_live
    [raised SMTPServerDisconnected "gone"; replied; replied; replied; replied]))).
Proof.
  apply (send_transmits_authenticated "user@example.com" "Hello" "Hi" 3).
  intros c [= <-]. reflexivity.
Defined.

Lemma send_status_codes_witness :
  (status_code (sent_ok BaseResponse_new) = Some 200%Z ∧
   execute_status (sent_ok BaseResponse_new) = true) ∨
  ((status_code (sent_ok BaseResponse_new) = Some 400%Z ∨
    status_code (sent_ok BaseResponse_new) = Some 500%Z) ∧
   execute_status (sent_ok BaseResponse_new) = false).
Proof.
  apply (send_status_codes "user@example.com" "Hello" "Hi" 3
           (script [replied; replied] (raised SMTPServerDisconnected "closed"))
           (World gmail_live 0)); [lia|reflexivity].
Defined.

Lemma send_success_keeps_session_witness :
  ∃ c, _smtp_client (self (final (mail 3 gmail0 [replied; replied; replied]))) = Some c ∧
       session c = Authenticated.
Proof.
  apply (send_success_keeps_session "user@example.com" "Hello" "Hi" 3
           (script [replied; replied; replied] (raised SMTPServerDisconnected "closed"))
           (World gmail0 0) (sent_ok BaseResponse_new));
    [reflexivity|reflexivity|by intros c [=]].
Defined.

Lemma send_reuses_live_session_witness :
  ops (trace (mail 3 gmail_live [replied; replied])) =
  [Noop (with_session Authenticated (fresh_client gmail0));
   SendMessage (with_session Authenticated (fresh_client gmail0))
     (build_message "bot@gmail.com" "user@example.com" "Hello" "Hi")].
Proof.
  unfold mail.
  rewrite (send_reuses_live_session "user@example.com" "Hello" "Hi" 3 _ _
             (with_session Authenticated (fresh_client gmail0)));
    [reflexivity|reflexivity|reflexivity|reflexivity|lia].
Defined.

Lemma send_reconnects_after_failed_probe_witness :
  out (mail 3 gmail_live
         [raised SMTPServerDisconnected "gone"; raised SMTPServerDisconnected "gone";
          replied; replied; replied]) = Ok (sent_ok BaseResponse_new).
Proof.
  unfold mail.
  rewrite (send_reconnects_after_failed_probe "user@example.com" "Hello" "Hi" 3 _ _
             (with_session Authenticated (fresh_client gmail0))
             (Exn SMTPServerDisconnected None "gone")
             (raised SMTPServerDisconnected "gone"));
    [reflexivity|reflexivity|reflexivity|reflexivity|reflexivity|reflexivity
    |reflexivity|lia].
Defined.

Lemma send_error_not_retried_witness :
  out (mail 3 gmail_live [replied; raised SMTPRecipientsRefused "no such user"]) =
  Ok (failed_with 400 (Exn SMTPRecipientsRefused None "no such user") BaseResponse_new).
Proof.
  unfold mail.
  rewrite (send_error_not_retried "user@example.com" "Hello" "Hi" 3 _ _
             (with_session Authenticated (fresh_client gmail0))
             (Exn SMTPRecipientsRefused None "no such user"));
    [reflexivity|reflexivity|reflexivity|reflexivity|discriminate|lia].
Defined.

Lemma send_rejected_login_keeps_client_witness :
  ¬ handle_ok (self (final (mail 3 gmail0
                              [replied; raised SMTPAuthenticationError "bad password"]))).
Proof.
  apply (send_rejected_login_keeps_client "user@example.com" "Hello" "Hi" 3
           (script [replied; raised SMTPAuthenticationError "bad password"]
              (raised SMTPServerDisconnected "connection closed"))
           (World gmail0 0) (Exn SMTPAuthenticationError None "bad password"));
    [reflexivity|reflexivity|reflexivity|reflexivity|lia].
Defined.

Lemma send_connectivity_exhausts_budget_witness :
  sleeps (trace (mail 3 gmail0 [])) = [1; 2]%Z ∧
  count is_connect (ops (trace (mail 3 gmail0 []))) = 3%nat.
Proof.
  destruct (send_connectivity_exhausts_budget
              (script [] (raised SMTPServerDisconnected "connection closed"))
              (World gmail0 0) "user@example.com" "Hello" "Hi" 3
              (λ _, Exn SMTPServerDisconnected None "connection closed"))
    as (_ & _ & Hs & Hc & _); [reflexivity|lia|by intros j _|].
  exact (conj Hs Hc).
Defined.

Lemma get_connection_ensures_client_witness :
  ∃ c, _smtp_client (self (final (run _get_connection (script [replied; replied] replied)
                                    (World gmail0 0)))) = Some c ∧
       (handle_ok gmail0 → session c = Authenticated).
Proof.
  apply (get_connection_ensures_client (script [replied; replied] replied)
           (World gmail0 0)).
  reflexivity.
Defined.

Lemma close_session_twice_raises_witness :
  out (run (close_session;; close_session)
         (script [replied] (raised SMTPServerDisconnected "connection closed"))
         (World gmail_live 0)) =
  Raise (Exn SMTPServerDisconnected None "connection closed").
Proof.
  rewrite (close_session_twice_raises _ _
             (with_session Authenticated (fresh_client gmail0))
             (Exn SMTPServerDisconnected None "connection closed"));
    reflexivity.
Defined.

Lemma send_after_close_reconnects_witness :
  out (run (close_session;; send "user@example.com" "Hello" "Hi" 3)
         (script [replied; raised SMTPServerDisconnected "closed";
                  raised SMTPServerDisconnected "closed"; replied; replied; replied]
            (raised SMTPServerDisconnected "connection closed"))
         (World gmail_live 0)) = Ok (sent_ok BaseResponse_new).
Proof.
  refine (proj1 (send_after_close_reconnects _ _
            (with_session Authenticated (fresh_client gmail0))
            (Exn SMTPServerDisconnected None "closed")
            (raised SMTPServerDisconnected "closed")
            "user@example.com" "Hello" "Hi" 3 _ _ _ _ _ _ _ _));
    first [reflexivity|lia].
Defined.

(** The stateful scenarios of the specification. *)

(** The probe fails, the reconnection succeeds, the message is sent: status
    200, and one connection only. *)
Example scenario_probe_fails :
  out (mail 3 gmail_live
         [raised SMTPServerDisconnected "gone"; replied; replied; replied; replied]) =
    Ok {| status_code := Some 200%Z;
          details := PyStr "The message was sent successfully";
          execute_status := true |} ∧
  count is_connect (ops (trace (mail 3 gmail_live
         [raised SMTPServerDisconnected "gone"; replied; replied; replied; replied])))
    = 1%nat.
Proof. vm_compute. done. Qed.

(** A rejection of the transmission: status 400, no reconnection, no retry. *)
Example scenario_rejection :
  out (mail 3 gmail_live [replied; raised SMTPSenderRefused "sender refused"]) =
    Ok {| status_code := Some 400%Z; details := PyStr "sender refused";
          execute_status := false |} ∧
  ops (trace (mail 3 gmail_live [replied; raised SMTPSenderRefused "sender refused"])) =
    [Noop (with_session Authenticated (fresh_client gmail0));
     SendMessage (with_session Authenticated (fresh_client gmail0))
       (build_message "bot@gmail.com" "user@example.com" "Hello" "Hi")].
Proof. vm_compute. done. Qed.

(** The first [send] of a new processor connects lazily. *)
Example scenario_lazy_connection :
  ops (trace (mail 3 gmail0 [replied; replied; replied])) =
  [Connect (fresh_client gmail0);
   Login (with_session Connected (fresh_client gmail0)) "bot@gmail.com" "app-password";
   SendMessage (with_session Authenticated (fresh_client gmail0))
     (build_message "bot@gmail.com" "user@example.com" "Hello" "Hi")].
Proof. vm_compute. done. Qed.

(** After a rejected login, the next [send] finds a client that answers the
    probe and transmits on it although it was never authenticated. *)
Example scenario_unauthenticated_transmission :
  ops (trace (run (send "user@example.com" "Hello" "Hi" 3;;
                   send "user@example.com" "Hello" "Hi" 3)
                (script [replied; raised SMTPAuthenticationError "bad password";
                         replied; raised SMTPSenderRefused "authentication required"]
                   (raised SMTPServerDisconnected "connection closed"))
                (World gmail0 0))) =
  [Connect (fresh_client gmail0);
   Login (with_session Connected (fresh_client gmail0)) "bot@gmail.com" "app-password";
   Noop (with_session Connected (fresh_client gmail0));
   SendMessage (with_session Connected (fresh_client gmail0))
     (build_message "bot@gmail.com" "user@example.com" "Hello" "Hi")].
Proof. vm_compute. done. Qed.

End Gmail.
