(* ===== verification/Ghost.v ===== *)
(** * Ghost: the phase of the session is not read by the processor

    The model of the library object [aiosmtplib.SMTP] has a field
    [session], the phase the connection is in.  The Python object keeps
    that state behind its own attributes; the processor of
    src/notifications/email.py never looks at it: it finds out whether the
    connection is usable by awaiting [noop], and from the exceptions of the
    calls.  The theorems of Email.v that speak of the phase ("transmitted
    over an authenticated session") are therefore statements about a ghost
    field, and they are only meaningful if the methods of the model do not
    branch on it.

    This file proves that they do not.  Two processors are the same to the
    code, [same_processor], when they differ at most in the phases of their
    clients.  Every method is related to itself by [eff_rel]: from the same
    processors and over the same replies it returns the same value, awaits
    the same calls on the same clients and leaves the same processors. *)

From S2P Require Import Prelude Effects Related.
From S2P Require Import Schemas Email.
Import Gmail.

(** ** What the code can tell apart *)

Definition erase_client (client : AIO_SMTP) : AIO_SMTP := with_session Fresh client.

Definition erase (self : GmailNotificationProcessor) : GmailNotificationProcessor :=
  set_smtp_client (erase_client <$> _smtp_client self) self.

Definition erase_op (op : smtp_op) : smtp_op :=
  match op with
  | Noop client => Noop (erase_client client)
  | Quit client => Quit (erase_client client)
  | Connect client => Connect (erase_client client)
  | Login client username password => Login (erase_client client) username password
  | SendMessage client msg => SendMessage (erase_client client) msg
  end.

(** The kernel of a function, as a relation. *)
Definition same {A B} (f : A → B) : relation A := λ a a', f a = f a'.

#[export] Instance same_equivalence {A B} (f : A → B) : Equivalence (same f).
Proof. unfold same. split; [by intros ?|by intros ??|intros ???; congruence]. Qed.

Definition same_client : relation AIO_SMTP := same erase_client.
Definition same_processor : relation GmailNotificationProcessor := same erase.
Definition same_op : relation smtp_op := same erase_op.

(** Runs that the code cannot tell apart. *)
Abbreviation same_run := (ran_rel same_op same_processor eq).

(** A program that cannot tell apart what it starts from. *)
Abbreviation blind RA := (Proper (eff_rel same_op same_processor RA)).

(** ** The relations on the parts of a processor *)

Lemma same_processor_client self self' :
  same_processor self self' →
  option_Forall2 same_client (_smtp_client self) (_smtp_client self').
Proof.
  intros H. apply (f_equal _smtp_client) in H. cbn in H.
  destruct (_smtp_client self), (_smtp_client self'); try done; constructor.
  unfold same_client, same. cbn in H. congruence.
Qed.

Lemma same_processor_set client client' self self' :
  option_Forall2 same_client client client' → same_processor self self' →
  same_processor (set_smtp_client client self) (set_smtp_client client' self').
Proof.
  unfold same_processor, same, erase. intros Hc H. destruct self, self'.
  cbn in *. injection H as -> -> -> -> -> _.
  destruct Hc as [? ? Hc|]; cbn; [|done]. unfold same_client, same in Hc. by rewrite Hc.
Qed.

Lemma same_processor_fresh self self' :
  same_processor self self' → fresh_client self = fresh_client self'.
Proof. unfold same_processor, same, erase, fresh_client. intros [=]. congruence. Qed.

Lemma same_processor_address self self' :
  same_processor self self' → _gmail_address self = _gmail_address self'.
Proof. by intros [=]. Qed.

Lemma same_processor_password self self' :
  same_processor self self' → __gmail_app_password self = __gmail_app_password self'.
Proof. by intros [=]. Qed.

Lemma same_client_with_session p client client' :
  same_client client client' →
  same_client (with_session p client) (with_session p client').
Proof. unfold same_client, same, erase_client, with_session. intros [=]. cbn. congruence. Qed.

Lemma same_processor_erase self : same_processor self (erase self).
Proof. by destruct self as [? ? ? ? ? [[]|]]. Qed.

(** Calls with the same arguments on the same clients. *)
Ltac same_call :=
  unfold same_op, same_client, same in *; cbn [erase_op]; congruence.

Create HintDb ghost discriminated.
#[export] Hint Resolve same_processor_set same_client_with_session : ghost.
#[export] Hint Constructors option_Forall2 : ghost.
#[export] Hint Extern 1 (same_op _ _) => same_call : ghost.

(** ** The methods

    [blindly] follows the text of a method: a sequence by its first
    statement, a test on [self._smtp_client] by the relation of the two
    processors (both hold a client, or neither does), a statement by its
    lemma. *)

Ltac blind_step :=
  lazymatch goal with
  | H : same_processor ?s ?s' |- eff_rel _ _ _ (match _smtp_client ?s with _ => _ end) _ =>
      destruct (same_processor_client s s' H)
  | |- eff_rel _ _ _ (if ?b then _ else _) (if ?b then _ else _) => destruct b
  | |- eff_rel _ _ _ (match ?x with _ => _ end) (match ?x with _ => _ end) => destruct x
  | |- eff_rel _ _ _ (mbind _ _) (mbind _ _) =>
      eapply eff_rel_bind
  | |- respectful _ _ _ _ => intros ? ? ?; simplify_eq
  | |- eff_rel _ _ _ (try_except _ _) (try_except _ _) =>
      apply eff_rel_try_except; [|intros ?]
  | |- eff_rel _ _ _ (call _) (call _) => apply eff_rel_call
  | |- eff_rel _ _ _ (put_self _) (put_self _) => apply eff_rel_put_self
  | |- eff_rel _ _ _ get_self get_self => apply eff_rel_get_self
  | |- eff_rel _ _ _ (mret _) (mret _) => apply eff_rel_ret
  | |- eff_rel _ _ _ (raise _) (raise _) => apply eff_rel_raise
  | |- eff_rel _ _ _ (sleep _) (sleep _) => apply eff_rel_sleep
  | |- eff_rel _ _ _ (for_range _ _ _) (for_range _ _ _) =>
      apply eff_rel_for_range_eq; intros ? ?
  | |- eff_rel ?Rop ?Rst ?RA ?m ?m =>
      change (Proper (eff_rel Rop Rst RA) m); typeclasses eauto
  | |- ?R _ _ => tryif is_evar R then exact eq_refl else by eauto with ghost
  end.

Ltac blindly := unfold Proper; repeat blind_step; try by eauto with ghost.

#[export] Instance advance_blind p : blind eq (advance p).
Proof. unfold advance. blindly. Qed.

#[export] Instance the_client_blind : blind same_client the_client.
Proof. unfold the_client. blindly. Qed.

#[export] Instance reset_connection_blind : blind eq _reset_connection.
Proof. unfold _reset_connection. blindly. Qed.

#[export] Instance establish_blind : blind eq establish.
Proof.
  unfold establish. blindly.
  - erewrite same_processor_fresh by done. apply same_processor_set; [by constructor|done].
  - erewrite same_processor_address, same_processor_password by done. same_call.
Qed.

#[export] Instance get_connection_blind : blind eq _get_connection.
Proof. unfold _get_connection. blindly. Qed.

#[export] Instance handle_error_blind max_retries attempt result error :
  blind eq (handle_error max_retries attempt result error).
Proof. unfold handle_error. blindly. Qed.

#[export] Instance send_attempt_blind msg max_retries attempt result :
  blind eq (send_attempt msg max_retries attempt result).
Proof. unfold send_attempt. blindly. Qed.

#[export] Instance send_blind to_email subject text max_retries :
  blind eq (send to_email subject text max_retries).
Proof.
  unfold send. blindly. erewrite same_processor_address by done. blindly.
Qed.

#[export] Instance close_session_blind : blind eq close_session.
Proof. unfold close_session. blindly. Qed.

(** ** The runs of a blind method *)

Section Runs.
Context {A : Type} (m : smtp A) {Hm : blind eq m}.
Context (E : oracle unit) (n : nat) (st st' : GmailNotificationProcessor).
Context (Hsame : same_processor st st').

Lemma blind_run : same_run (run m E (World st n)) (run m E (World st' n)).
Proof. by apply Hm. Qed.

Lemma blind_out : out (run m E (World st n)) = out (run m E (World st' n)).
Proof. apply outcome_rel_eq, blind_run. Qed.

Lemma blind_final :
  same_processor (self (final (run m E (World st n))))
                 (self (final (run m E (World st' n)))) ∧
  tick (final (run m E (World st n))) = tick (final (run m E (World st' n))).
Proof. apply blind_run. Qed.

Lemma blind_trace :
  replies (trace (run m E (World st n))) = replies (trace (run m E (World st' n))) ∧
  sleeps (trace (run m E (World st n))) = sleeps (trace (run m E (World st' n))) ∧
  erase_op <$> ops (trace (run m E (World st n))) =
    erase_op <$> ops (trace (run m E (World st' n))).
Proof.
  pose proof (rel_trace _ _ _ _ _ blind_run) as Ht.
  split_and!; [by eapply event_rel_replies|by eapply event_rel_sleeps|].
  apply event_rel_ops in Ht. induction Ht as [|? ? ? ? Hop]; [done|].
  cbn. by rewrite Hop, IHHt.
Qed.

End Runs.


(** The same of [close_session]. *)
Theorem close_session_ignores_session E n st st' :
  same_processor st st' →
  let r := run close_session E (World st n) in
  let r' := run close_session E (World st' n) in
  out r = out r' ∧ erase_op <$> ops (trace r) = erase_op <$> ops (trace r') ∧
  same_processor (self (final r)) (self (final r')).
Proof.
  intros Hsame r r'. destruct (blind_trace close_session E n st st' Hsame) as (? & ? & ?).
  destruct (blind_final close_session E n st st' Hsame).
  split_and!; [exact (blind_out _ E n st st' Hsame)|done..].
Qed.

(** A sequence of calls of the methods cannot tell the processors apart
    either: the relation composes. *)
Lemma sequence_blind {A B} (m : smtp A) (k : smtp B) :
  blind eq m → blind eq k → blind eq (m;; k).
Proof. intros Hm Hk. blindly. Qed.

(** ** A concrete pair *)

(** [gmail_live] with a client that was never connected: the same
    processor to the code. *)
Definition gmail_unconnected : GmailNotificationProcessor :=
  set_smtp_client (Some (fresh_client gmail0)) gmail0.


(** The phases themselves differ: the probe of the first run is awaited on
    an authenticated client, the probe of the second on a fresh one. *)
Example phases_differ :
  head (ops (trace (mail 3 gmail_live [replied; replied]))) =
    Some (Noop (with_session Authenticated (fresh_client gmail0))) ∧
  head (ops (trace (mail 3 gmail_unconnected [replied; replied]))) =
    Some (Noop (fresh_client gmail0)) ∧
  out (mail 3 gmail_live [replied; replied]) =
    out (mail 3 gmail_unconnected [replied; replied]).
Proof. vm_compute. done. Qed.
