(* ===== verification/Lifecycle.v ===== *)
(** * Lifecycle: the state machine of the connection manager

    The specification describes the manager of [processors/email.py] as a
    state machine over one logical session.  This file gives that machine
    as step relations over [conn_state], maps every state of
    [GmailNotificationProcessor] to a state of the machine ([state_of]),
    and proves that each public method simulates a step of the machine.
    Invariants of the states a processor can reach are then proved by rule
    induction, on the machine or on the processor. *)

From S2P Require Import Prelude Effects Schemas Email.
Import Gmail.

(** ** The abstract machine *)

(** The states of the specification, and [TERMINATED] for a session that
    [close_session] has quit while the manager still refers to it. *)
Inductive conn_state : Set :=
| DISCONNECTED
| CONNECTING
| AUTHENTICATED
| TERMINATED.

#[export] Instance conn_state_eq_dec : EqDecision conn_state.
Proof. solve_decision. Defined.

(** The state a processor is in: no client, or a client whose session has
    come as far as its phase says. *)
Definition state_of (st : GmailNotificationProcessor) : conn_state :=
  match _smtp_client st with
  | None => DISCONNECTED
  | Some c =>
      match session c with
      | Fresh | Connected => CONNECTING
      | Authenticated => AUTHENTICATED
      | Closed => TERMINATED
      end
  end.

(** A call of [send], observed by the status of its result.  A session
    that answers the probe is kept as it is; a new session is authenticated
    when the message was sent over it, and may be left half-way when the
    call failed. *)
Inductive lifecycle_send : conn_state → option Z → conn_state → Prop :=
| ls_no_attempt s : lifecycle_send s None s
| ls_delivered_live s : s ≠ DISCONNECTED → lifecycle_send s (Some 200%Z) s
| ls_delivered_new s : lifecycle_send s (Some 200%Z) AUTHENTICATED
| ls_exhausted s : lifecycle_send s (Some 500%Z) DISCONNECTED
| ls_failed_live s code :
    s ≠ DISCONNECTED → code = 400%Z ∨ code = 500%Z → lifecycle_send s (Some code) s
| ls_failed_new s code s' :
    code = 400%Z ∨ code = 500%Z → s' = CONNECTING ∨ s' = AUTHENTICATED →
    lifecycle_send s (Some code) s'.

(** A call of [close_session], observed by whether it raised. *)
Inductive lifecycle_close : conn_state → bool → conn_state → Prop :=
| lc_nothing : lifecycle_close DISCONNECTED false DISCONNECTED
| lc_closed s : s ≠ DISCONNECTED → lifecycle_close s false TERMINATED
| lc_failed s : s ≠ DISCONNECTED → lifecycle_close s true s.

(** ** The processor, one public call at a time *)

(** A call of a public method, in any environment. *)
Inductive call_step : GmailNotificationProcessor → GmailNotificationProcessor → Prop :=
| step_send to_email subject text max_retries E st t :
    call_step st (self (final (run (send to_email subject text max_retries) E
                                  (World st t))))
| step_close_session E st t :
    call_step st (self (final (run close_session E (World st t)))).

(** The states a processor built by [__init__] can be in. *)
Inductive reachable : GmailNotificationProcessor → Prop :=
| reach_init gmail_address gmail_app_password smtp_gmail_hostname smtp_gmail_port
    smtp_gmail_start_tls :
    reachable (__init__ gmail_address gmail_app_password smtp_gmail_hostname
                 smtp_gmail_port smtp_gmail_start_tls)
| reach_step st st' : reachable st → call_step st st' → reachable st'.

(** The states of a processor whose owner only sends. *)
Inductive serving : GmailNotificationProcessor → Prop :=
| serve_init gmail_address gmail_app_password smtp_gmail_hostname smtp_gmail_port
    smtp_gmail_start_tls :
    serving (__init__ gmail_address gmail_app_password smtp_gmail_hostname
               smtp_gmail_port smtp_gmail_start_tls)
| serve_send to_email subject text max_retries E st t :
    serving st →
    serving (self (final (run (send to_email subject text max_retries) E (World st t)))).

(** The client held, if any, was built from the configuration of the
    processor. *)
Definition client_of_config (st : GmailNotificationProcessor) : Prop :=
  ∀ c, _smtp_client st = Some c → with_session Fresh c = fresh_client st.

(** ** One attempt *)

(** How an attempt leaves the processor: when it ends the loop, the client
    is the one it found (which answered the probe) or a new one, which is
    authenticated if the message was sent; when it asks for another
    attempt, no client is held. *)
Definition attempt_lifecycle (w : world GmailNotificationProcessor)
    (r : ran smtp_op unit GmailNotificationProcessor (ctl BaseResponse BaseResponse))
    : Prop :=
  match r with
  | Ran (Ok (Break result)) w' _ =>
      (self w' = self w ∧ _smtp_client (self w) ≠ None) ∨
      ∃ p, self w' = set_smtp_client (Some (with_session p (fresh_client (self w))))
                       (self w) ∧
           p ≠ Closed ∧ (execute_status result = true → p = Authenticated)
  | Ran (Ok (Next result)) w' _ =>
      self w' = set_smtp_client None (self w) ∧ failed result
  | _ => False
  end.

Ltac lifecycle_leaf :=
  first
    [ split; [reflexivity|done]
    | left; split; [reflexivity|congruence]
    | right; eexists; split; [reflexivity|];
      split; [discriminate|intros; first [reflexivity|congruence]] ].

Lemma send_attempt_lifecycle msg max_retries attempt result E w :
  failed result →
  attempt_lifecycle w (run (send_attempt msg max_retries attempt result) E w).
Proof.
  unfold failed. intros Hf. attempt_cases; unfold attempt_lifecycle; lifecycle_leaf.
Qed.

(** ** The loop and the call *)

(** What a call leaves of the processor it found: the processor itself, a
    new client, or no client. *)
Inductive left_as (st : GmailNotificationProcessor) (result : BaseResponse)
    : GmailNotificationProcessor → Prop :=
| left_kept : left_as st result st
| left_new p :
    p ≠ Closed → (execute_status result = true → p = Authenticated) →
    left_as st result (set_smtp_client (Some (with_session p (fresh_client st))) st)
| left_reset : left_as st result (set_smtp_client None st).

Lemma left_as_after_reset st result st' :
  left_as (set_smtp_client None st) result st' → left_as st result st'.
Proof.
  intros [|p Hp Hs|];
    [apply left_reset|exact (left_new st result p Hp Hs)|exact (left_reset st result)].
Qed.

Lemma send_loop_lifecycle msg max_retries E n attempt result w :
  failed result →
  match run (for_from n attempt (send_attempt msg max_retries) result) E w with
  | Ran (Ok (inl result')) w' _ => left_as (self w) result' (self w')
  | _ => False
  end.
Proof.
  revert n attempt result w.
  apply (for_from_rule (send_attempt msg max_retries) E (λ _ _ l _, failed l)
           (λ _ _ _ w r, match r with
                         | Ran (Ok (inl result')) w' _ => left_as (self w) result' (self w')
                         | _ => False
                         end)).
  - intros _ l w _. apply left_kept.
  - intros n i l w Hl. pose proof (send_attempt_lifecycle msg max_retries i l E w Hl) as H.
    destruct (run (send_attempt _ _ _ _) E w) as [[[l'|l'|?]|?] w' t]; cbn in H; [| |done..].
    + destruct H as [Hw' Hl']. split; [done|].
      intros [[[result'|?]|?] w'' t'] Hr; cbn; [|done..].
      rewrite Hw' in Hr. by apply left_as_after_reset.
    + destruct H as [[-> _]|(p & -> & Hp & Hs)]; [apply left_kept|by apply left_new].
Qed.

Lemma send_left_as to_email subject text max_retries E w :
  match run (send to_email subject text max_retries) E w with
  | Ran (Ok result) w' _ => left_as (self w) result (self w')
  | _ => False
  end.
Proof.
  rewrite run_send_as_loop.
  pose proof (send_loop_lifecycle
                (build_message (_gmail_address (self w)) to_email subject text)
                max_retries E (Z.to_nat max_retries) 0 BaseResponse_new w eq_refl) as H.
  by destruct (run (for_from _ _ _ _) E w) as [[[result|?]|?] w' t].
Qed.

(** ** The methods simulate the machine *)

Lemma state_of_None st : _smtp_client st = None → state_of st = DISCONNECTED.
Proof. unfold state_of. by intros ->. Qed.

Lemma state_of_Some st : _smtp_client st ≠ None → state_of st ≠ DISCONNECTED.
Proof. unfold state_of. destruct (_smtp_client st) as [c|]; [by destruct (session c)|done]. Qed.

Lemma state_of_new p c st :
  p ≠ Closed →
  state_of (set_smtp_client (Some (with_session p c)) st) =
    if decide (p = Authenticated) then AUTHENTICATED else CONNECTING.
Proof. by destruct p. Qed.

(** The status of the result and what is left of the processor determine
    the step of the machine. *)
Lemma lifecycle_of_result w w' n result :
  loop_result BaseResponse_new w w' n result →
  left_as (self w) result (self w') →
  lifecycle_send (state_of (self w)) (status_code result) (state_of (self w')).
Proof.
  intros [_ ->|c _ Hc _|e _ _ Hc|e _ _ Hc|e _ _ Hc] Hleft; cbn;
    [apply ls_no_attempt|..];
    destruct w' as [st' t']; cbn [self] in *; destruct Hleft as [|p Hp Hs|].
  - apply ls_delivered_live, state_of_Some. congruence.
  - rewrite state_of_new by done. rewrite decide_True by (by apply Hs).
    apply ls_delivered_new.
  - done.
  - rewrite state_of_None by done. apply ls_exhausted.
  - done.
  - apply ls_exhausted.
  - apply ls_failed_live; [by apply state_of_Some|by left].
  - rewrite state_of_new by done. apply ls_failed_new; [by left|case_decide; auto].
  - done.
  - apply ls_failed_live; [by apply state_of_Some|by right].
  - rewrite state_of_new by done. apply ls_failed_new; [by right|case_decide; auto].
  - done.
Qed.

Lemma send_lifecycle to_email subject text max_retries E w :
  ∃ result,
    out (run (send to_email subject text max_retries) E w) = Ok result ∧
    lifecycle_send (state_of (self w)) (status_code result)
      (state_of (self (final (run (send to_email subject text max_retries) E w)))).
Proof.
  pose proof (send_left_as to_email subject text max_retries E w) as Hleft. revert Hleft.
  destruct (run_send_spec to_email subject text max_retries E w)
    as [k result w' t _ _ _ _ Hr].
  intros Hleft. exists result. split; [done|]. by eapply lifecycle_of_result.
Qed.

Lemma close_session_lifecycle E w :
  lifecycle_close (state_of (self w)) (negb (is_ok (out (run close_session E w))))
    (state_of (self (final (run close_session E w)))).
Proof.
  rewrite run_close_session. destruct (_smtp_client (self w)) as [c|] eqn:Hc.
  - assert (state_of (self w) ≠ DISCONNECTED) by (apply state_of_Some; congruence).
    destruct (E (tick w)); cbn; [by apply lc_closed|by apply lc_failed].
  - cbn. rewrite state_of_None by done. apply lc_nothing.
Qed.

(** The machine never terminates a session by a send. *)
Lemma lifecycle_send_not_terminated s code s' :
  lifecycle_send s code s' → s ≠ TERMINATED → s' ≠ TERMINATED.
Proof. by intros [| | | | |? ? ? ? [-> | ->]] ?. Qed.

Lemma left_as_client_of_config st result st' :
  left_as st result st' → client_of_config st → client_of_config st'.
Proof. intros [|p _ _|] Hst c; cbn; [apply Hst|intros [= <-]; reflexivity|done]. Qed.

Lemma close_session_client_of_config E w :
  client_of_config (self w) → client_of_config (self (final (run close_session E w))).
Proof.
  intros Hst. rewrite run_close_session.
  destruct (_smtp_client (self w)) as [c|] eqn:Hc; [|done].
  destruct (E (tick w)); [|done]. intros c' ?. simplify_eq/=. exact (Hst c Hc).
Qed.

(** ** Theorems of the lifecycle *)

(** C15: [send] simulates the machine: every call returns a result, and the
    status of the result with the states before and after the call is a
    step of [lifecycle_send].  In particular a session is dropped only when
    connectivity errors exhaust the budget, a delivery leaves the session
    reused or a new authenticated one, and a failure that is not of the
    connectivity class leaves the session found or a new one that may not
    be authenticated. *)
Theorem send_simulates_lifecycle to_email subject text max_retries E w :
  ∃ result,
    out (run (send to_email subject text max_retries) E w) = Ok result ∧
    lifecycle_send (state_of (self w)) (status_code result)
      (state_of (self (final (run (send to_email subject text max_retries) E w)))).
Proof. apply send_lifecycle. Qed.

(** [close_session] simulates the machine: without a client nothing
    happens; otherwise the session is terminated when [quit] returns and
    left as it was when [quit] raises, and the call raises exactly then. *)
Theorem close_session_simulates_lifecycle E w :
  lifecycle_close (state_of (self w)) (negb (is_ok (out (run close_session E w))))
    (state_of (self (final (run close_session E w)))).
Proof. apply close_session_lifecycle. Qed.

(** A processor whose owner only sends never holds a terminated
    session: whatever the environment answered to any number of calls of
    [send] since [__init__], the client held (if any) was not quit. *)
Theorem serving_never_terminated st : serving st → state_of st ≠ TERMINATED.
Proof.
  induction 1 as [|to_email subject text max_retries E st t _ IH]; [done|].
  destruct (send_lifecycle to_email subject text max_retries E (World st t))
    as (result & _ & Hstep).
  by eapply lifecycle_send_not_terminated.
Qed.

(** In every state a processor can reach by calls of [send] and
    [close_session], the client held (if any) was built from the
    configuration of the processor: its host, port and TLS flag are those
    given to [__init__]. *)
Theorem reachable_client_of_config st : reachable st → client_of_config st.
Proof.
  induction 1 as [|st st' _ IH Hstep]; [done|].
  destruct Hstep as [to_email subject text max_retries E st t|E st t].
  - pose proof (send_left_as to_email subject text max_retries E (World st t)) as Hleft.
    destruct (run (send _ _ _ _) E _) as [[result|?] w' ?]; [|done].
    by eapply left_as_client_of_config.
  - by apply (close_session_client_of_config E (World st t)).
Qed.

(** ** Concrete runs *)

Lemma serving_never_terminated_witness :
  state_of (self (final (mail 3 gmail0 [replied; raised SMTPAuthenticationError "no"])))
    ≠ TERMINATED.
Proof.
  apply (serving_never_terminated
           (self (final (mail 3 gmail0 [replied; raised SMTPAuthenticationError "no"])))).
  apply (serve_send "user@example.com" "Hello" "Hi" 3 _ gmail0 0).
  exact (serve_init "bot@gmail.com" "app-password" "smtp.gmail.com" 587 true).
Defined.

Lemma reachable_client_of_config_witness :
  client_of_config
    (self (final (run close_session (script [replied] replied)
                    (World (self (final (mail 3 gmail0 [replied; replied; replied]))) 3)))).
Proof.
  apply reachable_client_of_config.
  eapply reach_step; [|apply step_close_session].
  eapply reach_step; [|apply (step_send "user@example.com" "Hello" "Hi" 3)].
  exact (reach_init "bot@gmail.com" "app-password" "smtp.gmail.com" 587 true).
Defined.

(** The states of the specification and the two it does not have: a
    rejected login leaves the manager connecting, and [close_session]
    leaves it holding a terminated session. *)
Example lifecycle_states :
  state_of gmail0 = DISCONNECTED ∧
  state_of (self (final (mail 3 gmail0 [replied; replied; replied]))) = AUTHENTICATED ∧
  state_of (self (final (mail 3 gmail0 [replied; raised SMTPAuthenticationError "no"])))
    = CONNECTING ∧
  state_of (self (final (run close_session (script [replied] replied)
                           (World gmail_live 0)))) = TERMINATED.
Proof. vm_compute. done. Qed.
