(* ===== verification/Concurrent.v ===== *)
(** * Concurrent: sends that share one connection manager

    The event loop may run several [send] coroutines of one
    [GmailNotificationProcessor] at once; they share [self._smtp_client]
    and interleave at every awaited call and sleep.

    Module [Co] holds the text of the methods of [processors/email.py]
    once more, written against the signature [PyMonad]: read in [eff] it is
    the methods of [Email], literally; read in [coro] it is the trees the
    scheduler of [Coro] interleaves.  The theorems show that a send
    scheduled alone behaves as [Email] says, that no interleaving makes a
    send raise, and which races the missing serialization allows.

    Module [CoPooled] does the same for the retry dispatcher of
    [core/utils.py] and the [send] of the two HTTP adapters, which never
    assign to [self]: their concurrent sends are independent, also when
    some of them are cancelled.

    Every send ends once it has been resumed a number of times that
    depends on its budget only ([Bounded]): seven times per attempt for
    the connection manager, twice for the dispatcher. *)

From stdpp Require Import gmap.
From S2P Require Import Prelude Effects Coro Environment Lock Bounded Cancel.
From S2P Require Import Schemas Utils Sms Telegram Email.
Import Gmail.

Module Co.
Section Text.
Context `{PyMonad smtp_op unit GmailNotificationProcessor M}.

(** The effect of a successful [connect], [login] or [quit] on the client
    held. *)
Definition advance (p : phase) : M unit :=
  self ← py_get_self;
  match _smtp_client self with
  | Some client => py_put_self (set_smtp_client (Some (with_session p client)) self)
  | None => mret tt
  end.

(** [self._smtp_client.<method>] *)
Definition the_client : M AIO_SMTP :=
  self ← py_get_self;
  match _smtp_client self with
  | Some client => mret client
  | None => py_raise (Exn OtherError None "'NoneType' object has no attribute")
  end.

(** [_reset_connection]: lines 155 to 168. *)
Definition _reset_connection : M unit :=
  self ← py_get_self;
  match _smtp_client self with
  | Some _ =>
      py_try_except
        (client ← the_client; py_call (Quit client);; advance Closed)
        (λ _, mret tt);;
      self ← py_get_self;
      py_put_self (set_smtp_client None self)
  | None => mret tt
  end.

(** Lines 144 to 153 of [_get_connection]. *)
Definition establish : M unit :=
  self ← py_get_self;
  py_put_self (set_smtp_client (Some (fresh_client self)) self);;
  client ← the_client;
  py_call (Connect client);;
  advance Connected;;
  client ← the_client;
  self ← py_get_self;
  py_call (Login client (_gmail_address self) (__gmail_app_password self));;
  advance Authenticated.

(** [_get_connection]: lines 126 to 153. *)
Definition _get_connection : M unit :=
  self ← py_get_self;
  alive ←
    match _smtp_client self with
    | Some _ =>
        py_try_except
          (client ← the_client; py_call (Noop client);; mret true)
          (λ _, _reset_connection;; mret false)
    | None => mret false
    end;
  if alive : bool then mret tt else establish.

(** The [except] clauses of [send]: lines 105 to 122. *)
Definition handle_error (max_retries attempt : Z) (result : BaseResponse)
    (error : exn) : M (ctl BaseResponse BaseResponse) :=
  match error_class_of error with
  | Connectivity =>
      _reset_connection;;
      if bool_decide (attempt < max_retries - 1)%Z
      then py_sleep (2 ** attempt);; mret (Next result)
      else mret (Next (failed_with 500 error result))
  | Rejection => mret (Break (failed_with 400 error result))
  | Unclassified => mret (Break (failed_with 500 error result))
  end.

(** One iteration of the loop of [send]: lines 94 to 122. *)
Definition send_attempt (msg : MIMEMultipart) (max_retries : Z)
    (attempt : Z) (result : BaseResponse) : M (ctl BaseResponse BaseResponse) :=
  py_try_except
    (_get_connection;;
     self ← py_get_self;
     match _smtp_client self with
     | None => py_raise (Exn AssertionError None "")
     | Some _ =>
         client ← the_client;
         py_call (SendMessage client msg);;
         mret (Break (sent_ok result))
     end)
    (handle_error max_retries attempt result).

(** [send]: lines 62 to 124. *)
Definition send (to_email subject text : string) (max_retries : Z) : M BaseResponse :=
  let result := BaseResponse_new in
  self ← py_get_self;
  let msg := build_message (_gmail_address self) to_email subject text in
  r ← py_for_range max_retries (send_attempt msg max_retries) result;
  mret (joined r).

(** [close_session]: lines 170 to 178. *)
Definition close_session : M unit :=
  self ← py_get_self;
  match _smtp_client self with
  | Some _ => client ← the_client; py_call (Quit client);; advance Closed
  | None => mret tt
  end.

End Text.
End Co.

(** ** The pooled adapters *)

Module CoPooled.
Section Text.
Context {St : Type} `{PyMonad http_op ClientResponse St M}.

(** The definitions of [Utils], under names of their own:
    [await response.json()] *)
Definition co_await_json (response : ClientResponse) : M pyval :=
  match json response with
  | Ok data => mret data
  | Raise e => py_raise e
  end.

(** One iteration of the loop: lines 35 to 59 of [core/utils.py]. *)
Definition co_attempt_body (session_pool : ClientSession)
    (params : gmap string pyval) (max_retries : Z)
    (attempt : Z) (result : BaseResponse) : M (ctl BaseResponse BaseResponse) :=
  py_try_except
    (response ← py_call (Post session_pool params);
     response_data ← co_await_json response;
     if ok response then
       let result := set_status_code (Some (status response)) result in
       let result := set_details response_data result in
       let result := set_execute_status true result in
       mret (Return result)
     else
       let result := set_status_code (Some (status response)) result in
       let result := set_details response_data result in
       if between 400 (status response) 500 then mret (Break result)
       else py_sleep (2 ** attempt);; mret (Next result))
    (λ error,
       let result := set_status_code (Some (getattr_status error)) result in
       let result := set_details (PyStr (exn_str error)) result in
       (if bool_decide (attempt < max_retries - 1)%Z
           && negb (between 400 (getattr_status error) 500)
        then py_sleep (2 ** attempt) else mret tt);;
       mret (Next result)).

Definition co_send_with_retries_mechanism (url payload_marker : string)
    (payload : pyval) (max_retries : Z) (session_pool : ClientSession)
    : M BaseResponse :=
  let result := BaseResponse_new in
  let params := request_params url payload_marker payload in
  r ← py_for_range max_retries (co_attempt_body session_pool params max_retries) result;
  mret (joined r).

End Text.

(** [SMSNotificationProcessor.send] *)
Definition sms_send `{PyMonad http_op ClientResponse SMS.SMSNotificationProcessor M}
    (text phone_number : string) (max_retries : Z) : M BaseResponse :=
  self ← py_get_self;
  let payload := SMS.payload self text phone_number in
  co_send_with_retries_mechanism (SMS._notif_url self) "data" payload max_retries
    (SMS._session_pool self).

(** [TelegramNotificationProcessor.send] *)
Definition telegram_send
    `{PyMonad http_op ClientResponse Telegram.TelegramNotificationProcessor M}
    (text : string) (chat_id max_retries : Z) : M BaseResponse :=
  self ← py_get_self;
  let payload := Telegram.payload text chat_id in
  co_send_with_retries_mechanism (Telegram._notif_url self) "json" payload max_retries
    (Telegram._session_pool self).

End CoPooled.

(** ** Tasks *)

#[local] Abbreviation task := (coro smtp_op unit GmailNotificationProcessor).

(** The tasks of a list of calls of [send]. *)
Definition sends (calls : list (string * string * string * Z)) : list (task BaseResponse) :=
  (λ call : string * string * string * Z,
     let '(to_email, subject, text, max_retries) := call in
     Co.send to_email subject text max_retries : task BaseResponse) <$> calls.

(** Two sends on a processor that holds a live session. *)
Definition two_sends : list (task BaseResponse) :=
  sends [("a@example.com", "Hello", "Hi", 3%Z); ("b@example.com", "Hello", "Hi", 3%Z)].

(** The tasks of a list of calls of [SMSNotificationProcessor.send]. *)
Definition sms_sends (calls : list (string * string * Z))
    : list (coro http_op ClientResponse SMS.SMSNotificationProcessor BaseResponse) :=
  (λ call : string * string * Z,
     let '(text, phone_number, max_retries) := call in
     CoPooled.sms_send text phone_number max_retries
       : coro http_op ClientResponse SMS.SMSNotificationProcessor BaseResponse)
  <$> calls.

(** The tasks of a list of calls of [TelegramNotificationProcessor.send]. *)
Definition telegram_sends (calls : list (string * Z * Z))
    : list (coro http_op ClientResponse Telegram.TelegramNotificationProcessor
              BaseResponse) :=
  (λ call : string * Z * Z,
     let '(text, chat_id, max_retries) := call in
     CoPooled.telegram_send text chat_id max_retries
       : coro http_op ClientResponse Telegram.TelegramNotificationProcessor BaseResponse)
  <$> calls.

(** Two SMS sends; the second is cancelled after a server error, while it
    sleeps before its next attempt. *)
Definition cancelling_schedule : list (nat * action ClientResponse) :=
  [(1%nat, Resume (Returns {| status := 503; json := Ok PyNone |}));
   (0%nat, Resume (Returns {| status := 200; json := Ok PyNone |}));
   (1%nat, Cancel)].

(** ** The text, read in [eff], is the methods of [Email] *)

Lemma co_send_eff to_email subject text max_retries :
  Co.send (M:=smtp) to_email subject text max_retries =
  send to_email subject text max_retries.
Proof. reflexivity. Qed.

Lemma co_close_session_eff : Co.close_session (M:=smtp) = close_session.
Proof. reflexivity. Qed.

Lemma co_get_connection_eff : Co._get_connection (M:=smtp) = _get_connection.
Proof. reflexivity. Qed.

Lemma co_reset_connection_eff : Co._reset_connection (M:=smtp) = _reset_connection.
Proof. reflexivity. Qed.

(** ** The text, read in [coro] *)

(** The trees are the programs of [Email]: the two readings agree. *)

#[export] Instance advance_reads p : Reads (Co.advance p) (advance p).
Proof. unfold Co.advance, advance. apply _. Qed.

#[export] Instance the_client_reads : Reads Co.the_client the_client.
Proof. unfold Co.the_client, the_client. apply _. Qed.

#[export] Instance reset_connection_reads : Reads Co._reset_connection _reset_connection.
Proof. unfold Co._reset_connection, _reset_connection. apply _. Qed.

#[export] Instance establish_reads : Reads Co.establish establish.
Proof. unfold Co.establish, establish. apply _. Qed.

#[export] Instance get_connection_reads : Reads Co._get_connection _get_connection.
Proof. unfold Co._get_connection, _get_connection. apply _. Qed.

#[export] Instance handle_error_reads max_retries attempt result error :
  Reads (Co.handle_error max_retries attempt result error)
    (handle_error max_retries attempt result error).
Proof. unfold Co.handle_error, handle_error. apply _. Qed.

#[export] Instance send_attempt_reads msg max_retries attempt result :
  Reads (Co.send_attempt msg max_retries attempt result)
    (send_attempt msg max_retries attempt result).
Proof. unfold Co.send_attempt, send_attempt. apply _. Qed.

#[export] Instance send_reads to_email subject text max_retries :
  Reads (Co.send to_email subject text max_retries)
    (send to_email subject text max_retries).
Proof. unfold Co.send, send. cbv zeta. apply _. Qed.

#[export] Instance close_session_reads : Reads Co.close_session close_session.
Proof. unfold Co.close_session, close_session. apply _. Qed.

(** No exception leaves [_reset_connection] or [send], whatever the other
    coroutines do to [self] in between. *)

#[export] Instance advance_never_fails p : NeverFails (Co.advance p : task unit).
Proof. unfold Co.advance. apply _. Qed.

#[export] Instance reset_connection_never_fails :
  NeverFails (Co._reset_connection : task unit).
Proof. unfold Co._reset_connection. apply _. Qed.

#[export] Instance handle_error_never_fails max_retries attempt result error :
  NeverFails (Co.handle_error max_retries attempt result error : task _).
Proof. unfold Co.handle_error. apply _. Qed.

#[export] Instance send_attempt_never_fails msg max_retries attempt result :
  NeverFails (Co.send_attempt msg max_retries attempt result : task _).
Proof. unfold Co.send_attempt. apply _. Qed.

#[export] Instance send_never_fails to_email subject text max_retries :
  NeverFails (Co.send to_email subject text max_retries : task _).
Proof. unfold Co.send. cbv zeta. apply _. Qed.

(** The suspension points of the methods: one in [_reset_connection] (the
    quit), two in the connection of a new client, four in
    [_get_connection] (probe, quit, connect, login), seven in an attempt
    (these four, the transmission, and the quit and the sleep of its
    handler), whatever the client answers and whatever [self] holds. *)

Lemma advance_ends p : ends_within 0 (Co.advance p : task unit).
Proof. unfold Co.advance. ends_auto. Qed.

Lemma the_client_ends : ends_within 0 (Co.the_client : task _).
Proof. unfold Co.the_client. ends_auto. Qed.

#[export] Hint Resolve advance_ends the_client_ends : ends.

Lemma reset_connection_ends : ends_within 1 (Co._reset_connection : task unit).
Proof. unfold Co._reset_connection. ends_auto. Qed.

Lemma establish_ends : ends_within 2 (Co.establish : task unit).
Proof. unfold Co.establish. ends_auto. Qed.

#[export] Hint Resolve reset_connection_ends establish_ends : ends.

Lemma get_connection_ends : ends_within 4 (Co._get_connection : task unit).
Proof. unfold Co._get_connection. ends_auto. Qed.

#[export] Hint Resolve get_connection_ends : ends.

Lemma send_attempt_ends msg max_retries attempt result :
  ends_within 7 (Co.send_attempt msg max_retries attempt result : task _).
Proof. unfold Co.send_attempt, Co.handle_error. ends_auto. Qed.

Lemma send_ends to_email subject text max_retries :
  ends_within (7 * Z.to_nat max_retries)
    (Co.send to_email subject text max_retries : task _).
Proof.
  unfold Co.send. cbv zeta.
  apply (ends_within_mono (0 + (Z.to_nat max_retries * 7 + 0))); [|lia].
  apply ends_within_bind; [apply ends_within_get_self|]. intros self.
  apply ends_within_bind; [|intros; apply ends_within_ret].
  apply ends_within_for_range, send_attempt_ends.
Qed.

(** ** Theorems *)

(** A send that is scheduled alone behaves as the method of [Email]:
    resumed with the replies the client gives, the coroutine ends with the
    outcome, the state and the events of the run of [send]. *)
Theorem send_scheduled_alone to_email subject text max_retries E w :
  concurrently
    (solo 0 (trace (run (send to_email subject text max_retries) E w)))
    [Co.send to_email subject text max_retries] (self w) =
  ([ended (out (run (send to_email subject text max_retries) E w))],
   self (final (run (send to_email subject text max_retries) E w)),
   (0%nat,.) <$> trace (run (send to_email subject text max_retries) E w)).
Proof. apply concurrently_alone, _. Qed.

(** A send terminates: alone on the event loop, the coroutine of
    [send] has returned a result after at most seven resumptions per
    attempt, whatever replies it is resumed with. *)
Theorem send_terminates to_email subject text max_retries rs st :
  (7 * Z.to_nat max_retries ≤ length rs)%nat →
  ∃ result,
    (concurrently ((0%nat,.) <$> rs) [Co.send to_email subject text max_retries] st).1.1 =
    [Done result].
Proof.
  intros Hrs.
  destruct (alone_ends (Co.send to_email subject text max_retries)
              (send to_email subject text max_retries) (7 * Z.to_nat max_retries)
              (run_send_length to_email subject text max_retries) rs st Hrs) as [[result|e] Ho].
  - by exists result.
  - destruct (never_fails_concurrently ((0%nat,.) <$> rs)
                [Co.send to_email subject text max_retries : task _] st 0 e).
    + constructor; [apply send_never_fails|constructor].
    + by rewrite Ho.
Qed.

(** C25: no send can be kept from returning by another.  Whatever sends
    run on one processor and however the event loop interleaves them, a
    send has returned its result once it has been resumed seven times per
    attempt, whatever the replies and whatever the other sends did to the
    session in between. *)
Theorem concurrent_sends_terminate calls schedule st i to_email subject text
    max_retries :
  calls !! i = Some (to_email, subject, text, max_retries) →
  (7 * Z.to_nat max_retries ≤ length (own i schedule))%nat →
  ∃ result, (concurrently schedule (sends calls) st).1.1 !! i = Some (Done result).
Proof.
  intros Hi Hlen.
  destruct (concurrently_ends schedule (sends calls) st i
              (Co.send to_email subject text max_retries) (7 * Z.to_nat max_retries))
    as [[result|e] Ho];
    [by unfold sends; rewrite list_lookup_fmap, Hi|apply send_ends|done| |].
  - by exists result.
  - destruct (never_fails_concurrently schedule (sends calls) st i e); [|done].
    apply Forall_fmap, Forall_forall. intros [[[? ?] ?] ?] _. apply send_never_fails.
Qed.

(** A send depends on the client through the replies to its own
    calls only: two environments that give the same replies to the calls
    [send] awaits give the same result, the same state and the same
    events, whatever else they would have answered. *)
Theorem send_depends_on_its_replies to_email subject text max_retries E E' w :
  (∀ i, (i < length (replies (trace (run (send to_email subject text max_retries) E w))))%nat →
        E (tick w + i)%nat = E' (tick w + i)%nat) →
  run (send to_email subject text max_retries) E w =
  run (send to_email subject text max_retries) E' w.
Proof.
  apply (run_consumed (Co.send to_email subject text max_retries)
           (send to_email subject text max_retries)).
Qed.

(** No interleaving makes a send raise: whatever the number of
    concurrent sends on one processor, the state they start from, the
    order in which the event loop resumes them and the replies of the
    client, no task ends with an exception. *)
Theorem concurrent_sends_never_raise calls schedule st i e :
  (concurrently schedule (sends calls) st).1.1 !! i ≠ Some (Failed e).
Proof.
  apply never_fails_concurrently, Forall_fmap, Forall_forall.
  intros [[[to_email subject] text] max_retries] _. apply send_never_fails.
Qed.

(** C23: no interleaving and no cancellation makes a send raise: whatever
    the sends on one processor, the state they start from, the order in
    which they are resumed and the replies of the client, wherever the
    schedule stops and whichever sends it cancels, a task is suspended,
    cancelled, or has returned a result. *)
Theorem interrupted_sends_never_raise calls schedule st i e :
  (interrupted schedule (sends calls) st).1.1 !! i ≠ Some (Live (Failed e)).
Proof.
  apply never_fails_interrupted, Forall_fmap, Forall_forall.
  intros [[[to_email subject] text] max_retries] _. apply send_never_fails.
Qed.

(** ** Races on the session *)

(** Concurrent sends are not serialized, and one can transmit on the
    client another one is still connecting: the second send finds the
    session dead, drops it and starts a new client; the first send, resumed
    from its probe before the new client is connected, transmits on it and
    reports a delivery. *)
Example race_transmits_on_connecting_client :
  let '(tasks, st, events) :=
    concurrently [(1%nat, raised SMTPServerDisconnected "gone"); (1%nat, replied);
                  (0%nat, replied); (0%nat, replied)] two_sends gmail_live in
  tasks !! 0%nat = Some (Done (sent_ok BaseResponse_new)) ∧
  last events =
    Some (0%nat, Called (SendMessage (fresh_client gmail_live)
                          (build_message "bot@gmail.com" "a@example.com" "Hello" "Hi"))
                   replied) ∧
  ¬ Forall safe_op (ops (events.*2)).
Proof.
  vm_compute. split_and!; [done..|].
  intros H. repeat (apply Forall_cons in H as [? H]). done.
Qed.

(** The assertion of [send] holds for a send that runs alone; it can fail
    when another send resets the connection in between: the first send is
    resumed from its probe after the second one dropped the client, and
    returns 500 with the empty text of the [AssertionError]. *)
Example race_assertion_fails :
  let '(tasks, st, events) :=
    concurrently [(1%nat, raised SMTPServerDisconnected "gone"); (1%nat, replied);
                  (1%nat, raised SMTPConnectError "refused"); (1%nat, replied);
                  (0%nat, replied)] two_sends gmail_live in
  tasks !! 0%nat = Some (Done {| status_code := Some 500%Z; details := PyStr "";
                                 execute_status := false |}) ∧
  _smtp_client st = None.
Proof. vm_compute. done. Qed.

(** ** The pooled adapters, in both readings *)

Lemma co_dispatcher_eff {St} url payload_marker payload max_retries session_pool :
  CoPooled.co_send_with_retries_mechanism (M:=eff http_op ClientResponse St)
    url payload_marker payload max_retries session_pool =
  send_with_retries_mechanism url payload_marker payload max_retries session_pool.
Proof. reflexivity. Qed.

Lemma co_sms_send_eff text phone_number max_retries :
  CoPooled.sms_send (M:=SMS.sms) text phone_number max_retries =
  SMS.send text phone_number max_retries.
Proof. reflexivity. Qed.

Lemma co_telegram_send_eff text chat_id max_retries :
  CoPooled.telegram_send (M:=Telegram.telegram) text chat_id max_retries =
  Telegram.send text chat_id max_retries.
Proof. reflexivity. Qed.

Section Pooled.
Context {St : Type}.
#[local] Abbreviation request := (coro http_op ClientResponse St).

#[export] Instance await_json_reads response :
  Reads (CoPooled.co_await_json response : request _) (await_json response).
Proof. unfold CoPooled.co_await_json, await_json. apply _. Qed.

#[export] Instance attempt_body_reads session_pool params max_retries attempt result :
  Reads (CoPooled.co_attempt_body session_pool params max_retries attempt result : request _)
    (attempt_body session_pool params max_retries attempt result).
Proof. unfold CoPooled.co_attempt_body, attempt_body. cbv zeta. apply _. Qed.

#[export] Instance dispatcher_reads url payload_marker payload max_retries session_pool :
  Reads (CoPooled.co_send_with_retries_mechanism url payload_marker payload max_retries
           session_pool : request _)
    (send_with_retries_mechanism url payload_marker payload max_retries session_pool).
Proof.
  unfold CoPooled.co_send_with_retries_mechanism, send_with_retries_mechanism.
  cbv zeta. apply _.
Qed.

#[export] Instance await_json_read_only response :
  ReadOnly (CoPooled.co_await_json response : request _).
Proof. unfold CoPooled.co_await_json. apply _. Qed.

#[export] Instance attempt_body_read_only session_pool params max_retries attempt result :
  ReadOnly (CoPooled.co_attempt_body session_pool params max_retries attempt result
            : request _).
Proof. unfold CoPooled.co_attempt_body. cbv zeta. apply _. Qed.

#[export] Instance dispatcher_read_only url payload_marker payload max_retries
    session_pool :
  ReadOnly (CoPooled.co_send_with_retries_mechanism url payload_marker payload max_retries
              session_pool : request _).
Proof. unfold CoPooled.co_send_with_retries_mechanism. cbv zeta. apply _. Qed.

(** An attempt of the dispatcher is suspended at most twice: on the
    request, and on the sleep that follows a failure. *)
Lemma co_attempt_body_ends session_pool params max_retries attempt result :
  ends_within 2 (CoPooled.co_attempt_body session_pool params max_retries attempt result
                 : request _).
Proof.
  unfold CoPooled.co_attempt_body, CoPooled.co_await_json. cbv zeta.
  cbn. constructor. intros [response|e]; cbn.
  - destruct (json response); cbn; repeat case_match; repeat constructor.
  - repeat case_match; repeat constructor.
Qed.

Lemma co_dispatcher_ends url payload_marker payload max_retries session_pool :
  ends_within (2 * Z.to_nat max_retries)
    (CoPooled.co_send_with_retries_mechanism url payload_marker payload max_retries
       session_pool : request _).
Proof.
  unfold CoPooled.co_send_with_retries_mechanism. cbv zeta.
  apply (ends_within_mono (Z.to_nat max_retries * 2 + 0)); [|lia].
  apply ends_within_bind; [|intros; apply ends_within_ret].
  apply ends_within_for_range, co_attempt_body_ends.
Qed.

End Pooled.

#[export] Instance sms_send_read_only text phone_number max_retries :
  ReadOnly (CoPooled.sms_send text phone_number max_retries
            : coro http_op ClientResponse SMS.SMSNotificationProcessor _).
Proof. unfold CoPooled.sms_send. cbv zeta. apply _. Qed.

#[export] Instance telegram_send_read_only text chat_id max_retries :
  ReadOnly (CoPooled.telegram_send text chat_id max_retries
            : coro http_op ClientResponse Telegram.TelegramNotificationProcessor _).
Proof. unfold CoPooled.telegram_send. cbv zeta. apply _. Qed.

#[export] Instance sms_send_reads text phone_number max_retries :
  Reads (CoPooled.sms_send text phone_number max_retries)
    (SMS.send text phone_number max_retries).
Proof. unfold CoPooled.sms_send, SMS.send. cbv zeta. apply _. Qed.

(** Concurrent sends over the pooled transport are independent: any
    number of SMS sends on one processor, interleaved in any order, leave
    the processor as it was, and each of them ends as it does when it runs
    alone with its own share of the replies. *)
Theorem concurrent_sms_sends_independent calls schedule st i text phone_number
    max_retries :
  calls !! i = Some (text, phone_number, max_retries) →
  (concurrently schedule (sms_sends calls) st).1.2 = st ∧
  (concurrently schedule (sms_sends calls) st).1.1 !! i =
    (concurrently (own i schedule)
       [CoPooled.sms_send text phone_number max_retries] st).1.1 !! 0%nat.
Proof.
  intros Hi. apply concurrently_read_only.
  - apply Forall_fmap, Forall_forall. intros [[? ?] ?] _. apply sms_send_read_only.
  - unfold sms_sends. by rewrite list_lookup_fmap, Hi.
Qed.

(** An SMS send that is scheduled alone behaves as the method of
    [Sms]: the two readings agree. *)
Theorem sms_send_scheduled_alone text phone_number max_retries E w :
  concurrently
    (solo 0 (trace (run (SMS.send text phone_number max_retries) E w)))
    [CoPooled.sms_send text phone_number max_retries] (self w) =
  ([ended (out (run (SMS.send text phone_number max_retries) E w))],
   self (final (run (SMS.send text phone_number max_retries) E w)),
   (0%nat,.) <$> trace (run (SMS.send text phone_number max_retries) E w)).
Proof. apply concurrently_alone, _. Qed.

(** The same of the Telegram adapter. *)
Theorem concurrent_telegram_sends_independent calls schedule st i text chat_id
    max_retries :
  calls !! i = Some (text, chat_id, max_retries) →
  (concurrently schedule (telegram_sends calls) st).1.2 = st ∧
  (concurrently schedule (telegram_sends calls) st).1.1 !! i =
    (concurrently (own i schedule)
       [CoPooled.telegram_send text chat_id max_retries] st).1.1 !! 0%nat.
Proof.
  intros Hi. apply concurrently_read_only.
  - apply Forall_fmap, Forall_forall. intros [[? ?] ?] _. apply telegram_send_read_only.
  - unfold telegram_sends. by rewrite list_lookup_fmap, Hi.
Qed.

(** C29: sends over the pooled transport are independent also when some of
    them are cancelled: any number of SMS sends on one processor, resumed
    and cancelled in any order, leave the processor as it was, and each of
    them has returned, is suspended or is cancelled as it is when it is
    alone with its own share of the schedule. *)
Theorem interrupted_sms_sends_independent calls schedule st i text phone_number
    max_retries :
  calls !! i = Some (text, phone_number, max_retries) →
  (interrupted schedule (sms_sends calls) st).1.2 = st ∧
  (interrupted schedule (sms_sends calls) st).1.1 !! i =
    (interrupted (share i schedule)
       [CoPooled.sms_send text phone_number max_retries] st).1.1 !! 0%nat.
Proof.
  intros Hi. apply interrupted_read_only.
  - apply Forall_fmap, Forall_forall. intros [[? ?] ?] _. apply sms_send_read_only.
  - unfold sms_sends. by rewrite list_lookup_fmap, Hi.
Qed.

(** The same of the Telegram adapter. *)
Theorem interrupted_telegram_sends_independent calls schedule st i text chat_id
    max_retries :
  calls !! i = Some (text, chat_id, max_retries) →
  (interrupted schedule (telegram_sends calls) st).1.2 = st ∧
  (interrupted schedule (telegram_sends calls) st).1.1 !! i =
    (interrupted (share i schedule)
       [CoPooled.telegram_send text chat_id max_retries] st).1.1 !! 0%nat.
Proof.
  intros Hi. apply interrupted_read_only.
  - apply Forall_fmap, Forall_forall. intros [[? ?] ?] _. apply telegram_send_read_only.
  - unfold telegram_sends. by rewrite list_lookup_fmap, Hi.
Qed.

(** The same of the pooled adapters: an SMS send has ended once it has
    been resumed twice per attempt, whatever the other sends do. *)
Theorem concurrent_sms_sends_terminate calls schedule st i text phone_number
    max_retries :
  calls !! i = Some (text, phone_number, max_retries) →
  (2 * Z.to_nat max_retries ≤ length (own i schedule))%nat →
  ∃ o, (concurrently schedule (sms_sends calls) st).1.1 !! i = Some (ended o).
Proof.
  intros Hi Hlen.
  apply (concurrently_ends schedule (sms_sends calls) st i
           (CoPooled.sms_send text phone_number max_retries) (2 * Z.to_nat max_retries));
    [by unfold sms_sends; rewrite list_lookup_fmap, Hi| |done].
  unfold CoPooled.sms_send. cbv zeta.
  apply (ends_within_bind 0); [apply ends_within_get_self|]. intros self.
  apply co_dispatcher_ends.
Qed.

(** An SMS send terminates: alone on the event loop, its coroutine has
    ended after at most two resumptions per attempt. *)
Theorem sms_send_terminates text phone_number max_retries rs st :
  (2 * Z.to_nat max_retries ≤ length rs)%nat →
  ∃ o,
    (concurrently ((0%nat,.) <$> rs) [CoPooled.sms_send text phone_number max_retries]
       st).1.1 = [ended o].
Proof.
  apply (alone_ends _ (SMS.send text phone_number max_retries)).
  intros E w. rewrite SMS.sms_run_send. apply length_send.
Qed.

Lemma send_depends_on_its_replies_witness :
  run (send "a@example.com" "Hello" "Hi" 3) (script [replied; replied] replied)
    (World gmail_live 0) =
  run (send "a@example.com" "Hello" "Hi" 3)
    (script [replied; replied] (raised SMTPTimeoutError "late")) (World gmail_live 0).
Proof.
  apply send_depends_on_its_replies. intros i Hi. vm_compute in Hi.
  by destruct i as [|[|i]]; [..|lia].
Defined.

(** Two sends with one attempt each, resumed in turn. *)
Lemma concurrent_sends_terminate_witness :
  ∃ result,
    (concurrently (flat_map (λ r, [(0%nat, r); (1%nat, r)]) (replicate 7 replied))
       (sends [("a@example.com", "Hello", "Hi", 1%Z); ("b@example.com", "Hello", "Hi", 1%Z)])
       gmail0).1.1 !! 1%nat = Some (Done result).
Proof.
  apply (concurrent_sends_terminate
           [("a@example.com", "Hello", "Hi", 1%Z); ("b@example.com", "Hello", "Hi", 1%Z)]
           _ gmail0 1 "b@example.com" "Hello" "Hi" 1); [reflexivity|].
  apply Nat.leb_le. reflexivity.
Defined.

Lemma send_terminates_witness :
  ∃ result,
    (concurrently ((0%nat,.) <$> replicate 21 replied)
       [Co.send "a@example.com" "Hello" "Hi" 3] gmail0).1.1 = [Done result].
Proof. apply send_terminates. cbn. lia. Defined.

Lemma concurrent_sms_sends_independent_witness :
  (concurrently [(1%nat, Returns {| status := 503; json := Ok PyNone |});
                 (0%nat, Returns {| status := 200; json := Ok PyNone |});
                 (1%nat, SMS.session_closed)]
     (sms_sends [("a", "1", 3%Z); ("b", "2", 3%Z)]) SMS.sms0).1.2 = SMS.sms0 ∧
  (concurrently [(1%nat, Returns {| status := 503; json := Ok PyNone |});
                 (0%nat, Returns {| status := 200; json := Ok PyNone |});
                 (1%nat, SMS.session_closed)]
     (sms_sends [("a", "1", 3%Z); ("b", "2", 3%Z)]) SMS.sms0).1.1 !! 0%nat =
  (concurrently (own 0 [(1%nat, Returns {| status := 503; json := Ok PyNone |});
                        (0%nat, Returns {| status := 200; json := Ok PyNone |});
                        (1%nat, SMS.session_closed)])
     [CoPooled.sms_send "a" "1" 3] SMS.sms0).1.1 !! 0%nat.
Proof.
  apply (concurrent_sms_sends_independent [("a", "1", 3%Z); ("b", "2", 3%Z)]).
  reflexivity.
Defined.

Lemma interrupted_sms_sends_independent_witness :
  (interrupted cancelling_schedule (sms_sends [("a", "1", 3%Z); ("b", "2", 3%Z)])
     SMS.sms0).1.2 = SMS.sms0 ∧
  (interrupted cancelling_schedule (sms_sends [("a", "1", 3%Z); ("b", "2", 3%Z)])
     SMS.sms0).1.1 !! 1%nat =
  (interrupted (share 1 cancelling_schedule) [CoPooled.sms_send "b" "2" 3]
     SMS.sms0).1.1 !! 0%nat.
Proof.
  apply (interrupted_sms_sends_independent [("a", "1", 3%Z); ("b", "2", 3%Z)]).
  reflexivity.
Defined.

(** The first send has returned its result, the second is cancelled. *)
Example cancelled_sms_send :
  (λ k, match k with Live (Done result) => status_code result | _ => None end) <$>
    (interrupted cancelling_schedule (sms_sends [("a", "1", 3%Z); ("b", "2", 3%Z)])
       SMS.sms0).1.1 = [Some 200%Z; None] ∧
  (interrupted cancelling_schedule (sms_sends [("a", "1", 3%Z); ("b", "2", 3%Z)])
     SMS.sms0).1.1 !! 1%nat = Some Cancelled.
Proof. by vm_compute. Qed.
