(* ===== verification/Connections.v ===== *)
(** * Connections: the processor holds one connection at a time

    src/notifications/email.py keeps one client.  It connects a new one in
    [_get_connection] only, when it holds none: a client that fails the
    probe, or on which a call failed with a connectivity error, is asked to
    [quit] by [_reset_connection] before the reference is dropped, and
    [close_session] asks the client held to [quit].

    The protocol is a monitor of the awaited calls ([Monitor]): its state
    tells whether a connection may be open; [connect] is accepted only when
    none is, and [quit] releases the connection, whatever it answers (the
    processor can do no more for it, and drops it).  A call that is
    abandoned while it is awaited ([leave]) is counted for what it may have
    done: an abandoned [connect] may have opened a connection, an
    abandoned [quit] may have released none.

    The methods are verified once, on the text of [Concurrent] read as
    coroutines, with [cwp] of [Suspended]: the protocol is followed
    whatever the replies, and at every [await] the processor holds the
    client of the connection that may be open, so that a caller may
    abandon the call there.  The same of the programs of [Email] follows
    ([wp_send], [wp_close_session]).  The theorems say that every trace of
    [send] and of [close_session] is accepted, over every oracle: the
    processor never establishes a second connection beside one it has not
    asked to quit, and after a [close_session] that returns no connection
    is left open. *)

From S2P Require Import Prelude Effects Monitor Coro Environment Lock Cancel Suspended.
From S2P Require Import Schemas Email Concurrent.
Import Gmail.

(** [watch open ev]: the event [ev], when a connection may be open
    ([open]) or none is. *)
Definition watch (open : bool) (ev : smtp_event) : option bool :=
  match ev with
  | Called (Connect _) r =>
      if open then None
      else Some (match r with Returns _ => true | Raises _ => false end)
  | Called (Quit _) _ => Some false
  | _ => Some open
  end.

(** The same of a call that was started and abandoned: what it may have
    done is counted. *)
Definition leave (open : bool) (op : smtp_op) : option bool :=
  match op with
  | Connect _ => if open then None else Some true
  | _ => Some open
  end.

(** What the processor knows of the connection between two statements: a
    connection that may be open is that of the client it holds. *)
Definition tracked (open : bool) (st : GmailNotificationProcessor) : Prop :=
  open = true → _smtp_client st ≠ None.

Abbreviation wp_smtp := (wp watch).
Abbreviation cwp_smtp := (cwp watch leave tracked).

#[local] Abbreviation work := (coro smtp_op unit GmailNotificationProcessor).

Lemma tracked_false st : tracked false st.
Proof. done. Qed.

Lemma tracked_client open c st : tracked open (set_smtp_client (Some c) st).
Proof. done. Qed.

Lemma tracked_Some open c st : _smtp_client st = Some c → tracked open st.
Proof. intros Hc _. by rewrite Hc. Qed.

Lemma tracked_None open st : tracked open st → _smtp_client st = None → open = false.
Proof. unfold tracked. destruct open; [|done]. intros H ?. by destruct H. Qed.

#[export] Hint Resolve tracked_false tracked_client tracked_Some : core.

(** ** One step of a method *)

(** A call on the client held may be abandoned: the processor holds the
    client of whatever connection there is. *)
Lemma leave_held open op client st :
  _smtp_client st = Some client → (∀ c, op = Connect c → open = false) →
  ∃ open', leave open op = Some open' ∧ tracked open' st.
Proof.
  intros Hc Hop. destruct op; try (exists open; by eauto).
  rewrite (Hop _ eq_refl). exists true. eauto.
Qed.

Ltac cwp_step :=
  lazymatch goal with
  | |- cwp _ _ _ (mbind _ _) _ _ _ => apply cwp_bind
  | |- cwp _ _ _ (py_try_except _ _) _ _ _ => apply cwp_try_except
  | |- cwp _ _ _ py_get_self _ _ _ => apply cwp_get_self
  | |- cwp _ _ _ (py_put_self _) _ _ _ => apply cwp_put_self
  | |- cwp _ _ _ (mret _) _ _ _ => apply cwp_ret
  | |- cwp _ _ _ (py_raise _) _ _ _ => apply cwp_raise
  | |- cwp _ _ _ (py_sleep _) _ _ _ => eapply cwp_sleep; [|reflexivity|]
  | |- cwp _ _ _ (py_call _) _ _ _ =>
      apply cwp_call;
        [eapply leave_held; [eassumption|by intros ? [=]]
        |intros [[]|?]; (eexists; split; [reflexivity|])]
  | |- cwp _ _ _ (match ?x with _ => _ end) _ _ _ => destruct x eqn:?
  | |- cwp _ _ _ (if ?b then _ else _) _ _ _ => destruct b eqn:?
  end; cbn beta iota.

Ltac cwp_steps := repeat cwp_step.

(** ** The methods *)

Section Methods.
Implicit Types (open : bool) (st : GmailNotificationProcessor).

Lemma cwp_the_client (Q : outcome AIO_SMTP → bool → GmailNotificationProcessor → Prop)
    open st :
  (∀ client, _smtp_client st = Some client → Q (Ok client) open st) →
  (∀ e, _smtp_client st = None → Q (Raise e) open st) →
  cwp_smtp (Co.the_client : work _) Q open st.
Proof. intros HQ HQ'. unfold Co.the_client. cwp_steps; auto. Qed.

(** [advance] keeps the reference: it holds a client exactly when it
    did. *)
Lemma cwp_advance p (Q : outcome unit → bool → GmailNotificationProcessor → Prop) open st :
  (∀ st', (_smtp_client st' = None ↔ _smtp_client st = None) → Q (Ok tt) open st') →
  cwp_smtp (Co.advance p : work _) Q open st.
Proof. intros HQ. unfold Co.advance. cwp_steps; apply HQ; by rewrite ?Heqo. Qed.

(** [_reset_connection] asks the client held to quit and drops it. *)
Lemma cwp_reset_connection (Q : outcome unit → bool → GmailNotificationProcessor → Prop)
    open st :
  tracked open st →
  (∀ st', _smtp_client st' = None → Q (Ok tt) false st') →
  cwp_smtp (Co._reset_connection : work _) Q open st.
Proof.
  intros Ht HQ. unfold Co._reset_connection. cwp_steps.
  - apply cwp_the_client; [intros client Hc|congruence].
    cwp_steps; [apply cwp_advance; intros st' _|]; cwp_steps; by apply HQ.
  - rewrite (tracked_None _ _ Ht) by done. by apply HQ.
Qed.

(** [establish] connects: it is called when no connection may be open, and
    leaves a client in every case. *)
Lemma cwp_establish (Q : outcome unit → bool → GmailNotificationProcessor → Prop) st :
  (∀ o open st', _smtp_client st' ≠ None → Q o open st') →
  cwp_smtp (Co.establish : work _) Q false st.
Proof.
  intros HQ. unfold Co.establish. cwp_steps.
  apply cwp_the_client; [intros client Hc|done]. cwp_steps; [|by apply HQ].
  apply cwp_advance. intros st1 H1. cwp_steps.
  apply cwp_the_client; [intros client1 Hc1|intros e ?; apply HQ; by rewrite H1].
  cwp_steps; [apply cwp_advance; intros st2 H2|]; apply HQ; rewrite ?H2, H1; done.
Qed.

(** [_get_connection] keeps what the processor knows. *)
Lemma cwp_get_connection (Q : outcome unit → bool → GmailNotificationProcessor → Prop)
    open st :
  tracked open st →
  (∀ o open' st', tracked open' st' → Q o open' st') →
  cwp_smtp (Co._get_connection : work _) Q open st.
Proof.
  intros Ht HQ. unfold Co._get_connection.
  assert (∀ st', cwp_smtp (Co.establish : work _) Q false st') as Hest.
  { intros st'. apply cwp_establish. intros o open' st2 H. apply HQ. by intros _. }
  cwp_steps.
  - apply cwp_the_client; [intros client Hc|congruence].
    cwp_steps; [by apply HQ|]. apply cwp_reset_connection; [done|]. intros st' _.
    cwp_steps. apply Hest.
  - rewrite (tracked_None _ _ Ht) by done. apply Hest.
Qed.

(** The [except] clauses keep it too, and return: a connectivity error
    drops the client after asking it to quit, the other errors keep the
    client. *)
Lemma cwp_handle_error max_retries attempt result error
    (Q : outcome (ctl BaseResponse BaseResponse) → bool → GmailNotificationProcessor → Prop)
    open st :
  tracked open st →
  (∀ c open' st', tracked open' st' → Q (Ok c) open' st') →
  cwp_smtp (Co.handle_error max_retries attempt result error : work _) Q open st.
Proof.
  intros Ht HQ. unfold Co.handle_error. cwp_steps; try by apply HQ.
  apply cwp_reset_connection; [done|]. intros st' _. cwp_steps; by auto.
Qed.

Lemma cwp_send_attempt msg max_retries attempt result
    (Q : outcome (ctl BaseResponse BaseResponse) → bool → GmailNotificationProcessor → Prop)
    open st :
  tracked open st →
  (∀ c open' st', tracked open' st' → Q (Ok c) open' st') →
  cwp_smtp (Co.send_attempt msg max_retries attempt result : work _) Q open st.
Proof.
  intros Ht HQ. unfold Co.send_attempt. cwp_steps.
  apply cwp_get_connection; [done|]. intros [[]|e] open1 st1 H1;
    [|by apply cwp_handle_error].
  cwp_steps; [|by apply cwp_handle_error].
  apply cwp_the_client; [intros client Hc|congruence].
  cwp_steps; [by apply HQ|by apply cwp_handle_error].
Qed.

(** [send] returns, and keeps what the processor knows. *)
Lemma cwp_send to_email subject text max_retries
    (Q : outcome BaseResponse → bool → GmailNotificationProcessor → Prop) open st :
  tracked open st →
  (∀ result open' st', tracked open' st' → Q (Ok result) open' st') →
  cwp_smtp (Co.send to_email subject text max_retries : work _) Q open st.
Proof.
  intros Ht HQ. unfold Co.send. cwp_steps.
  apply (cwp_for_range watch leave tracked (λ _, tracked));
    [|by intros; cwp_steps; apply HQ|done].
  intros i l open1 st1 H1. apply cwp_send_attempt; [done|].
  intros [l'|l'|a] open2 st2 H2; [done|cwp_steps; by apply HQ..].
Qed.

(** [close_session] releases the connection when it returns. *)
Lemma cwp_close_session (Q : outcome unit → bool → GmailNotificationProcessor → Prop)
    open st :
  tracked open st →
  (∀ st', Q (Ok tt) false st') → (∀ e st', Q (Raise e) false st') →
  cwp_smtp (Co.close_session : work _) Q open st.
Proof.
  intros Ht HQ HQ'. unfold Co.close_session. cwp_steps.
  - apply cwp_the_client; [intros client Hc|congruence].
    cwp_steps; [apply cwp_advance; intros st' _|]; auto.
  - rewrite (tracked_None _ _ Ht) by done. auto.
Qed.

(** *** The same of the programs of [Email] *)

Lemma wp_send to_email subject text max_retries
    (Q : outcome BaseResponse → bool → GmailNotificationProcessor → Prop) open st :
  tracked open st →
  (∀ result open' st', tracked open' st' → Q (Ok result) open' st') →
  wp_smtp (send to_email subject text max_retries) Q open st.
Proof.
  intros Ht HQ.
  apply (cwp_wp watch leave tracked (Co.send to_email subject text max_retries)
           (send to_email subject text max_retries)).
  by apply cwp_send.
Qed.

Lemma wp_close_session (Q : outcome unit → bool → GmailNotificationProcessor → Prop)
    open st :
  tracked open st →
  (∀ st', Q (Ok tt) false st') → (∀ e st', Q (Raise e) false st') →
  wp_smtp close_session Q open st.
Proof.
  intros Ht HQ HQ'. apply (cwp_wp watch leave tracked Co.close_session close_session).
  by apply cwp_close_session.
Qed.

End Methods.

(** ** The theorems *)

(** C12: [send] never holds two connections.  From a processor that holds
    the client of the connection that may be open, if any, and whatever
    the replies of the library, [send] awaits [connect] only when every
    connection established before has been asked to quit; and when it
    returns, the connection that may be open is again that of the client
    the processor holds. *)
Theorem send_one_connection to_email subject text max_retries E w open :
  tracked open (self w) →
  ∃ open',
    monitor watch open (trace (run (send to_email subject text max_retries) E w)) =
      Some open' ∧
    tracked open' (self (final (run (send to_email subject text max_retries) E w))).
Proof.
  intros Ht.
  apply (wp_run watch (send to_email subject text max_retries) (λ _, tracked)).
  by apply wp_send.
Qed.

(** [close_session] leaves no connection open: whatever the replies,
    the trace of [close_session] is accepted and ends with every
    connection asked to quit, also when [quit] raises. *)
Theorem close_session_releases E w open :
  tracked open (self w) →
  monitor watch open (trace (run close_session E w)) = Some false.
Proof.
  intros Ht.
  destruct (wp_run watch close_session (λ _ open' _, open' = false) open E w)
    as (open' & -> & ->); [by apply wp_close_session|done].
Qed.

(** ** Concrete traces *)

Lemma send_one_connection_witness :
  ∃ open',
    monitor watch true (trace (mail 3 gmail_live
      [raised SMTPServerDisconnected "gone"; replied; replied; replied; replied])) =
      Some open' ∧
    tracked open' (self (final (mail 3 gmail_live
      [raised SMTPServerDisconnected "gone"; replied; replied; replied; replied]))).
Proof.
  apply (send_one_connection "user@example.com" "Hello" "Hi" 3). by intros _.
Defined.

Lemma close_session_releases_witness :
  monitor watch true
    (trace (run close_session (script [raised SMTPServerDisconnected "gone"] replied)
              (World gmail_live 0))) = Some false.
Proof. apply close_session_releases. by intros _. Defined.

(** The monitor is not vacuous: it follows the calls of a run, and it
    rejects a second connection beside the first. *)
Example monitor_follows_send :
  monitor watch true (trace (mail 3 gmail_live
    [raised SMTPServerDisconnected "gone"; replied; replied; replied; replied])) =
    Some true ∧
  monitor watch true (trace (mail 1 gmail_live
    [raised SMTPServerDisconnected "gone"; replied;
     raised SMTPConnectError "refused"; replied])) = Some false.
Proof. by vm_compute. Qed.

Example monitor_rejects_second_connection :
  monitor watch false
    [Called (Connect (fresh_client gmail0)) replied;
     Called (Connect (fresh_client gmail0)) replied] = None.
Proof. reflexivity. Qed.

(** A processor that is handed an open connection it holds no client for
    is outside the hypothesis: its first [send] connects beside it. *)
Example untracked_connection_leaks :
  monitor watch true (trace (mail 3 gmail0 [replied; replied; replied])) = None.
Proof. by vm_compute. Qed.
