(* ===== verification/Serialized.v ===== *)
(** * Serialized: the sends of one connection manager under a lock

    The specification requires that calls on one connection manager be
    serialized.  Here the sends of [Concurrent] are started together, each
    inside [async with lock:], and scheduled by [serialized] of [Lock].
    Once they have all ended they have run one after the other: the
    theorems of [Email] and [Lifecycle], which are about calls that follow
    each other, hold of them, and the race of [Concurrent] is gone.

    The protocol of [Connections] holds of them at every point of every
    schedule, also while a send is suspended: under the lock the processor
    never connects beside a connection it has not asked to quit.  Without
    the lock it can ([race_opens_second_connection]). *)

From S2P Require Import Prelude Effects Monitor Coro Environment Lock.
From S2P Require Import Schemas Email Connections Lifecycle Concurrent.
Import Gmail.

(** The programs of a list of calls of [send]. *)
Definition send_programs (calls : list (string * string * string * Z))
    : list (smtp BaseResponse) :=
  (λ call : string * string * string * Z,
     let '(to_email, subject, text, max_retries) := call in
     send to_email subject text max_retries) <$> calls.

(** The sends of [calls], started together under one lock. *)
Definition serialized_sends (schedule : list (nat * smtp_reply))
    (calls : list (string * string * string * Z)) (st : GmailNotificationProcessor) :=
  serialized schedule (sends calls) st.

Section Serialized.
Implicit Types (calls : list (string * string * string * Z))
  (st : GmailNotificationProcessor) (os : list (outcome BaseResponse)).

Lemma sends_read calls :
  Forall2 (λ c m, Reads c m) (sends calls) (send_programs calls).
Proof.
  unfold sends, send_programs. apply Forall2_fmap, Forall_Forall2_diag, Forall_forall.
  intros [[[to_email subject] text] max_retries] _. apply _.
Qed.

(** Sends that run in turn return results, and each is a step of the
    processor. *)
Lemma in_turn_sends calls : ∀ st os st' t,
  in_turn st (send_programs calls) os st' t →
  (∃ results, os = Ok <$> results) ∧ (reachable st → reachable st').
Proof.
  induction calls as [|[[[to_email subject] text] max_retries] calls IH];
    intros st os st' t H.
  - inversion H; subst. split; [by exists []|done].
  - apply in_turn_cons_inv in H as (E & n & os' & t' & -> & -> & H).
    destruct (IH _ _ _ _ H) as [[results ->] Hr].
    destruct (run_send_returns to_email subject text max_retries E (World st n))
      as [result ->].
    split; [by exists (result :: results)|].
    intros Hst. apply Hr. eapply reach_step; [done|]. apply step_send.
Qed.


(** The lock keeps the processor within its reachable states: sends
    started together on a reachable processor and serialized by a lock
    leave, when they have all ended, a state that calls of [send] made one
    after the other reach. *)
Theorem serialized_sends_reachable schedule calls st :
  reachable st →
  holder (serialized_sends schedule calls st).1.1 = None →
  reachable (serialized_sends schedule calls st).1.2.
Proof.
  intros Hst Hh.
  destruct (serialized_in_turn schedule _ _ st (sends_read calls) Hh) as (os & _ & Ht).
  by apply (in_turn_sends _ _ _ _ _ Ht).
Qed.

(** Each send follows the protocol of [Connections] from every state in
    which the processor tracks its connection. *)
Lemma send_programs_abide calls : Forall (abides watch tracked) (send_programs calls).
Proof.
  unfold send_programs. apply Forall_fmap, Forall_forall.
  intros [[[to_email subject] text] max_retries] _ open st Ht. by apply wp_send.
Qed.

(** C24: sends serialized by a lock hold one connection at a time.
    Started together on a processor that tracks its connection, whatever
    the schedule, the replies of the library, and the point at which the
    schedule stops (a send may be suspended in the middle of its run),
    every [connect] awaited so far came when each connection established
    before had been asked to quit; and when the lock is free again the
    connection that may be open is that of the client the processor
    holds. *)
Theorem serialized_sends_one_connection schedule calls st open :
  tracked open st →
  ∃ open',
    monitor watch open (serialized_sends schedule calls st).2 = Some open' ∧
    (holder (serialized_sends schedule calls st).1.1 = None →
     tracked open' (serialized_sends schedule calls st).1.2).
Proof.
  intros Ht. apply (serialized_monitored watch tracked _ _ (send_programs calls));
    [apply sends_read|apply send_programs_abide|done].
Qed.

End Serialized.

(** The schedule of the race of [Concurrent], and the replies that let the
    second send end. *)
Definition race_schedule : list (nat * smtp_reply) :=
  [(1%nat, raised SMTPServerDisconnected "gone"); (1%nat, replied);
   (0%nat, replied); (0%nat, replied); (1%nat, replied); (1%nat, replied)].


Lemma serialized_sends_reachable_witness :
  reachable (serialized_sends
               [(0%nat, replied); (0%nat, replied); (0%nat, replied);
                (1%nat, replied); (1%nat, replied)]
               [("a@example.com", "Hello", "Hi", 3%Z); ("b@example.com", "Hello", "Hi", 3%Z)]
               gmail0).1.2.
Proof.
  apply serialized_sends_reachable; [|reflexivity].
  exact (reach_init "bot@gmail.com" "app-password" "smtp.gmail.com" 587 true).
Defined.

(** Under the lock the schedule of the race is harmless: the second send
    waits for the first, both are delivered over the session the processor
    holds, and no message is transmitted on a client that is not
    authenticated. *)
Example lock_orders_the_race :
  let x := serialized_sends race_schedule
             [("a@example.com", "Hello", "Hi", 3%Z); ("b@example.com", "Hello", "Hi", 3%Z)]
             gmail_live in
  slots x.1.1 = [Done (sent_ok BaseResponse_new); Done (sent_ok BaseResponse_new)] ∧
  holder x.1.1 = None ∧ x.1.2 = gmail_live ∧
  Forall safe_op (ops x.2).
Proof. vm_compute. split_and!; [done..|]. by repeat constructor. Qed.

(** Two sends started together on a processor that holds no client, the
    second resumed until it has dropped the client the first is connecting
    and connects its own.  *)
Definition overtaking_schedule : list (nat * smtp_reply) :=
  [(1%nat, raised SMTPServerDisconnected "gone"); (1%nat, replied);
   (0%nat, replied); (1%nat, replied)].

Lemma serialized_sends_one_connection_witness :
  ∃ open',
    monitor watch false
      (serialized_sends overtaking_schedule
         [("a@example.com", "Hello", "Hi", 3%Z); ("b@example.com", "Hello", "Hi", 3%Z)]
         gmail0).2 = Some open' ∧
    (holder (serialized_sends overtaking_schedule
               [("a@example.com", "Hello", "Hi", 3%Z); ("b@example.com", "Hello", "Hi", 3%Z)]
               gmail0).1.1 = None →
     tracked open' (serialized_sends overtaking_schedule
               [("a@example.com", "Hello", "Hi", 3%Z); ("b@example.com", "Hello", "Hi", 3%Z)]
               gmail0).1.2).
Proof. apply serialized_sends_one_connection. apply tracked_false. Defined.

(** Without the lock the processor can hold two connections: the first
    send is suspended in [connect]; the second finds its client, probes
    it, asks it to quit and connects a new one; both connections are then
    established, and the processor holds the client of the second only.
    Under the lock the same schedule resumes the first send only, and one
    connection is open. *)
Example race_opens_second_connection :
  monitor watch false ((concurrently overtaking_schedule two_sends gmail0).2.*2) = None ∧
  ops ((concurrently overtaking_schedule two_sends gmail0).2.*2) =
    [Noop (fresh_client gmail0); Quit (fresh_client gmail0);
     Connect (fresh_client gmail0); Connect (fresh_client gmail0)] ∧
  monitor watch false
    (serialized_sends overtaking_schedule
       [("a@example.com", "Hello", "Hi", 3%Z); ("b@example.com", "Hello", "Hi", 3%Z)]
       gmail0).2 = Some true.
Proof. by vm_compute. Qed.
