(* ===== verification/Server.v ===== *)
(** * Server: the services the processors talk to

    aiosmtplib with the SMTP server behind it, and aiohttp with the HTTP
    endpoint behind it, are not in the repository: to the methods they are
    the environment.  This file gives each of them a reference model, a
    state machine that answers the calls of [smtp_op] and [http_op], and
    runs the methods against it with [serve] of [Environment].

    [SmtpServer]: a server that refuses the next [outage] connections,
    knows the password of each account, stores the messages transmitted
    over an authenticated session and may lose the acknowledgement of a
    message it has stored.  It decides by the phase of the session of the
    client it is called with.

    [HttpEndpoint]: an endpoint that answers its next requests with the
    [faults] it has queued, then accepts each request and stores it, until
    the session is closed.

    The theorems are about the composed system: what [send] reports is what
    the server holds, a service that recovers within the budget receives
    the message, and where a retry delivers a message twice. *)

From stdpp Require Import gmap.
From S2P Require Import Prelude Effects Coro Environment Schemas.
From S2P Require Import Utils Sms Telegram Email Concurrent.
Import Gmail.

(** ** The SMTP server *)

Module SmtpServer.

#[local] Abbreviation task := (coro smtp_op unit GmailNotificationProcessor).

Record smtp_server : Type := {
  outage : nat;
  accounts : gmap string string;
  lost_acks : nat;
  mailbox : list MIMEMultipart
}.

(** The server after one more refused connection. *)
Definition refused (sv : smtp_server) : smtp_server :=
  {| outage := pred (outage sv); accounts := accounts sv;
     lost_acks := lost_acks sv; mailbox := mailbox sv |}.

(** The server with the message [msg] stored; [ack] tells whether the
    acknowledgement reaches the client. *)
Definition stored (msg : MIMEMultipart) (ack : bool) (sv : smtp_server) : smtp_server :=
  {| outage := outage sv; accounts := accounts sv;
     lost_acks := if ack then lost_acks sv else pred (lost_acks sv);
     mailbox := mailbox sv ++ [msg] |}.

Definition connection_refused : exn := Exn SMTPConnectError None "Connection refused".
Definition connection_lost : exn := Exn SMTPServerDisconnected None "Connection lost".
Definition timed_out : exn := Exn SMTPTimeoutError None "Timed out".
Definition bad_credentials : exn :=
  Exn SMTPAuthenticationError (Some 535%Z) "Username and Password not accepted".
Definition authentication_required : exn :=
  Exn SMTPSenderRefused (Some 530%Z) "Authentication Required".

(** A session the server still holds: connected, and not closed. *)
Definition open_session (c : AIO_SMTP) : bool :=
  match session c with
  | Connected | Authenticated => true
  | Fresh | Closed => false
  end.

Definition smtp_respond (op : smtp_op) (sv : smtp_server) : smtp_reply * smtp_server :=
  match op with
  | Connect _ =>
      match outage sv with
      | O => (Returns tt, sv)
      | S _ => (Raises connection_refused, refused sv)
      end
  | Noop c | Quit c =>
      (if open_session c then Returns tt else Raises connection_lost, sv)
  | Login c username password =>
      if open_session c then
        (if bool_decide (accounts sv !! username = Some password)
         then Returns tt else Raises bad_credentials, sv)
      else (Raises connection_lost, sv)
  | SendMessage c msg =>
      match session c with
      | Authenticated =>
          match lost_acks sv with
          | O => (Returns tt, stored msg true sv)
          | S _ => (Raises timed_out, stored msg false sv)
          end
      | Connected => (Raises authentication_required, sv)
      | Fresh | Closed => (Raises connection_lost, sv)
      end
  end.

(** [send] against the server, from the processor [st]. *)
Definition deliver (to_email subject text : string) (max_retries : Z)
    (sv : smtp_server) (st : GmailNotificationProcessor)
    : ran smtp_op unit GmailNotificationProcessor BaseResponse * smtp_server :=
  serve smtp_respond (Co.send (M:=task) to_email subject text max_retries) sv (World st 0).

(** The server knows the account of the processor. *)
Definition knows (sv : smtp_server) (st : GmailNotificationProcessor) : Prop :=
  accounts sv !! _gmail_address st = Some (__gmail_app_password st).

(** The processor holds a client whose login succeeded and which has not
    been closed. *)
Definition live (st : GmailNotificationProcessor) : bool :=
  match _smtp_client st with
  | Some c => bool_decide (session c = Authenticated)
  | None => false
  end.

(** The processor holds no client whose login was rejected. *)
Definition not_half_open (st : GmailNotificationProcessor) : Prop :=
  ∀ c, _smtp_client st = Some c → session c ≠ Connected.

(** A server that knows the account of [gmail0] and refuses its next two
    connections. *)
Definition server0 : smtp_server :=
  {| outage := 2; accounts := {["bot@gmail.com" := "app-password"]};
     lost_acks := 0; mailbox := [] |}.

(** The same server, up, losing its next acknowledgement. *)
Definition lossy0 : smtp_server :=
  {| outage := 0; accounts := accounts server0; lost_acks := 1; mailbox := [] |}.

(** ** What a served trace leaves in the server *)

Section Served.
Implicit Types (sv : smtp_server) (t : list smtp_event) (st : GmailNotificationProcessor).

Lemma smtp_respond_accounts op sv : accounts (smtp_respond op sv).2 = accounts sv.
Proof. destruct op as [c|c|c|c u p|c m]; cbn; repeat case_match; done. Qed.

Lemma smtp_respond_outage op sv : (outage (smtp_respond op sv).2 ≤ outage sv)%nat.
Proof. destruct op as [c|c|c|c u p|c m]; cbn; repeat case_match; cbn; lia. Qed.

Lemma served_outage sv t sv' :
  served smtp_respond sv t sv' → (outage sv' ≤ outage sv)%nat.
Proof.
  induction 1 as [sv|sv op t sv' _ IH|sv d t sv' _ IH]; [done| |done].
  pose proof (smtp_respond_outage op sv). lia.
Qed.

(** With reliable acknowledgements the server stores what it acknowledges,
    and nothing else. *)
Lemma served_mailbox sv t sv' :
  served smtp_respond sv t sv' → lost_acks sv = 0%nat →
  mailbox sv' = mailbox sv ++ acked t ∧ lost_acks sv' = 0%nat.
Proof.
  induction 1 as [sv|sv op t sv' _ IH|sv d t sv' _ IH]; intros Hl.
  - by rewrite app_nil_r.
  - destruct op as [c|c|c|c u p|c m]; cbn in *; repeat case_match; simplify_eq/=;
      destruct (IH ltac:(done)) as [-> ->]; by rewrite <- ?app_assoc.
  - by apply IH.
Qed.

(** Whatever the acknowledgements, no message leaves the mailbox and every
    acknowledged message is in it. *)
Lemma served_mailbox_grows sv t sv' :
  served smtp_respond sv t sv' →
  ∃ new, mailbox sv' = mailbox sv ++ new ∧ acked t ⊆ new.
Proof.
  induction 1 as [sv|sv op t sv' _ (new & -> & Hnew)|sv d t sv' _ IH].
  - exists []. by rewrite app_nil_r.
  - unfold acked in *.
    destruct op as [c|c|c|c u p|c m]; cbn in *; repeat case_match; simplify_eq/=;
      first [ by exists new
            | eexists (_ :: new); rewrite <- app_assoc; split;
              [done|first [by apply list_subseteq_skip|by apply list_subseteq_cons]] ].
  - done.
Qed.

End Served.

(** ** One attempt against the server *)

(** A served run of an attempt is the run of its tree against the server,
    which is computed: the replies of the server select the path. *)
Lemma served_attempt msg max_retries attempt result E w sv sv' :
  served smtp_respond sv
    (trace (run (send_attempt msg max_retries attempt result) E w)) sv' →
  serve smtp_respond (Co.send_attempt (M:=task) msg max_retries attempt result) sv w =
  (run (send_attempt msg max_retries attempt result) E w, sv').
Proof. apply serve_of_reads, _. Qed.

Ltac serve_eval :=
  lazymatch goal with
  | |- served _ _ (trace ?r) _ → _ =>
      let Hs := fresh "Hs" in
      intros Hs; apply served_attempt in Hs; revert Hs; generalize r; intros ? Hs;
      repeat first [ progress cbn in Hs
                   | rewrite bool_decide_eq_true_2 in Hs by first [done|lia]
                   | rewrite bool_decide_eq_false_2 in Hs by lia ];
      injection Hs as <- <-
  end.

Section Attempt.
Context (msg : MIMEMultipart) (max_retries attempt : Z) (result : BaseResponse)
  (E : oracle unit) (w : world GmailNotificationProcessor).
Implicit Types (sv : smtp_server).

(** While the server refuses connections, an attempt of a processor
    without a live session fails on [connect]: the client is dropped, and
    the loop sleeps and goes on when attempts are left. *)
Lemma attempt_refused sv sv' :
  served smtp_respond sv
    (trace (run (send_attempt msg max_retries attempt result) E w)) sv' →
  outage sv ≠ 0%nat → not_half_open (self w) → live (self w) = false →
  (attempt < max_retries - 1)%Z →
  out (run (send_attempt msg max_retries attempt result) E w) = Ok (Next result) ∧
  self (final (run (send_attempt msg max_retries attempt result) E w)) =
    set_smtp_client None (self w) ∧
  sleeps (trace (run (send_attempt msg max_retries attempt result) E w)) =
    [backoff attempt] ∧
  sv' = refused sv.
Proof.
  destruct sv as [[|k] acc la mb]; [done|]. unfold not_half_open, live.
  intros Hs _ Hh Ha Hlt. revert Hs.
  destruct w as [[addr pw host port tls [[h p tl [| | |]]|]] n]; cbn in Hh, Ha |- *;
    [|by destruct (Hh _ eq_refl)|done|..];
    serve_eval; done.
Qed.

(** Once the server accepts connections, or when the processor holds a
    live session, an attempt delivers the message. *)
Lemma attempt_accepted sv sv' :
  served smtp_respond sv
    (trace (run (send_attempt msg max_retries attempt result) E w)) sv' →
  outage sv = 0%nat ∨ live (self w) = true →
  knows sv (self w) → lost_acks sv = 0%nat → not_half_open (self w) →
  out (run (send_attempt msg max_retries attempt result) E w) =
    Ok (Break (sent_ok result)) ∧
  sleeps (trace (run (send_attempt msg max_retries attempt result) E w)) = [] ∧
  sv' = stored msg true sv.
Proof.
  destruct sv as [k acc la mb]. unfold not_half_open, live, knows. cbn.
  intros Hs Hk Hkn -> Hh. revert Hs.
  destruct w as [[addr pw host port tls [[h p tl [| | |]]|]] n]; cbn in Hh, Hk, Hkn |- *;
    [|by destruct (Hh _ eq_refl)|..];
    (destruct Hk as [?|?]; simplify_eq/=);
    serve_eval; done.
Qed.

(** The server is reached and loses the acknowledgement: the message is
    stored, the attempt fails on the timeout, the client is dropped, and
    the loop sleeps and goes on when attempts are left. *)
Lemma attempt_lost sv sv' :
  served smtp_respond sv
    (trace (run (send_attempt msg max_retries attempt result) E w)) sv' →
  outage sv = 0%nat ∨ live (self w) = true →
  knows sv (self w) → lost_acks sv ≠ 0%nat → not_half_open (self w) →
  (attempt < max_retries - 1)%Z →
  out (run (send_attempt msg max_retries attempt result) E w) = Ok (Next result) ∧
  self (final (run (send_attempt msg max_retries attempt result) E w)) =
    set_smtp_client None (self w) ∧
  sleeps (trace (run (send_attempt msg max_retries attempt result) E w)) =
    [backoff attempt] ∧
  sv' = stored msg false sv.
Proof.
  destruct sv as [k acc [|la] mb]; [done|]. unfold not_half_open, live, knows. cbn.
  intros Hs Hk Hkn _ Hh Hlt. revert Hs.
  destruct w as [[addr pw host port tls [[h p tl [| | |]]|]] n]; cbn in Hh, Hk, Hkn |- *;
    [|by destruct (Hh _ eq_refl)|..];
    (destruct Hk as [?|?]; simplify_eq/=);
    serve_eval; done.
Qed.

(** Against a server that knows the account, an attempt never leaves a
    client that is connected and not authenticated: the login succeeds on
    every connection the server accepts. *)
Lemma attempt_not_half_open sv sv' :
  served smtp_respond sv
    (trace (run (send_attempt msg max_retries attempt result) E w)) sv' →
  knows sv (self w) → not_half_open (self w) →
  not_half_open (self (final (run (send_attempt msg max_retries attempt result) E w))) ∧
  knows sv' (self (final (run (send_attempt msg max_retries attempt result) E w))).
Proof.
  destruct sv as [[|k] acc [|la] mb]; unfold not_half_open, knows; cbn;
    intros Hs Hkn Hh; revert Hs;
    (destruct w as [[addr pw host port tls [[h p tl [| | |]]|]] n]; cbn in Hh, Hkn |- *;
      [|by destruct (Hh _ eq_refl)|..]);
    destruct (decide (attempt < max_retries - 1)%Z);
    serve_eval; (split; [by intros ? [= <-]|done]).
Qed.

End Attempt.

(** ** The loop against a server that recovers *)

Lemma loop_delivers msg max_retries E n : ∀ attempt result w sv sv',
  served smtp_respond sv
    (trace (run (for_from n attempt (send_attempt msg max_retries) result) E w)) sv' →
  (outage sv + lost_acks sv < n)%nat → (attempt + Z.of_nat n = max_retries)%Z →
  knows sv (self w) → not_half_open (self w) →
  out (run (for_from n attempt (send_attempt msg max_retries) result) E w) =
    Ok (inl (sent_ok result)) ∧
  mailbox sv' = mailbox sv ++ replicate (S (lost_acks sv)) msg ∧
  sleeps (trace (run (for_from n attempt (send_attempt msg max_retries) result) E w)) =
    schedule_from attempt (outage sv - outage sv' + lost_acks sv).
Proof.
  induction n as [|n IH]; intros attempt result w sv sv' Hs Hk Hn Hkn Hh; [lia|].
  apply served_for_from_S in Hs as (sv1 & Hatt & Hrest). rewrite for_from_S.
  destruct (decide (outage sv = 0%nat ∨ live (self w) = true)) as [Hacc|Hrej];
    [destruct (decide (lost_acks sv = 0%nat)) as [Hl|Hl]|].
  - destruct (attempt_accepted _ _ _ _ _ _ _ _ Hatt Hacc Hkn Hl Hh) as (Ho & Hsl & ->).
    rewrite Ho in *. subst sv'. cbn [out final trace stored outage mailbox].
    by rewrite Hsl, Hl, Nat.sub_diag.
  - destruct (attempt_lost _ _ _ _ _ _ _ _ Hatt Hacc Hkn Hl Hh) as (Ho & Hself & Hsl & ->);
      [lia|].
    rewrite Ho in *. rewrite out_prepend, trace_prepend, sleeps_app, Hsl.
    destruct (IH _ _ _ _ _ Hrest) as (-> & -> & ->);
      cbn [stored outage accounts lost_acks mailbox];
      [lia|lia|by rewrite Hself|by rewrite Hself|].
    split_and!; [done|by rewrite <- app_assoc; destruct (lost_acks sv)|].
    replace (outage sv - outage sv' + lost_acks sv)%nat
      with (S (outage sv - outage sv' + pred (lost_acks sv))) by lia.
    by rewrite schedule_from_cons.
  - destruct (attempt_refused _ _ _ _ _ _ _ _ Hatt) as (Ho & Hself & Hsl & ->);
      [lia|done|by destruct (live (self w)); [destruct Hrej; auto|]|lia|].
    rewrite Ho in *. rewrite out_prepend, trace_prepend, sleeps_app, Hsl.
    pose proof (served_outage _ _ _ Hrest) as Hle. cbn [refused outage] in Hle.
    destruct (IH _ _ _ _ _ Hrest) as (-> & -> & ->);
      cbn [refused outage accounts lost_acks mailbox];
      [lia|lia|by rewrite Hself|by rewrite Hself|].
    split_and!; [done..|].
    replace (outage sv - outage sv' + lost_acks sv)%nat
      with (S (pred (outage sv) - outage sv' + lost_acks sv)) by lia.
    by rewrite schedule_from_cons.
Qed.

(** The same of the loop. *)
Lemma loop_not_half_open msg max_retries E n : ∀ attempt result w sv sv',
  served smtp_respond sv
    (trace (run (for_from n attempt (send_attempt msg max_retries) result) E w)) sv' →
  knows sv (self w) → not_half_open (self w) →
  not_half_open
    (self (final (run (for_from n attempt (send_attempt msg max_retries) result) E w))).
Proof.
  induction n as [|n IH]; intros attempt result w sv sv' Hs Hkn Hh; [done|].
  apply served_for_from_S in Hs as (sv1 & Hatt & Hrest). rewrite for_from_S.
  destruct (attempt_not_half_open _ _ _ _ _ _ _ _ Hatt Hkn Hh) as [Hh1 Hkn1].
  destruct (out (run (send_attempt _ _ _ _) E w)) as [[l|l|a]|e]; cbn [final]; [|done..].
  rewrite final_prepend. by eapply IH.
Qed.

(** ** Theorems of the composed system *)

Section Delivery.
Context (to_email subject text : string) (max_retries : Z).
Implicit Types (sv : smtp_server) (st : GmailNotificationProcessor).
#[local] Abbreviation message st :=
  (build_message (_gmail_address st) to_email subject text).
#[local] Abbreviation delivery sv st :=
  (deliver to_email subject text max_retries sv st).

(** Against the server, [send] runs as it does over some oracle, and the
    trace of the loop is served. *)
Lemma deliver_run sv st :
  ∃ E, (delivery sv st).1 =
         run (send to_email subject text max_retries) E (World st 0) ∧
       served smtp_respond sv
         (trace (run (for_from (Z.to_nat max_retries) 0
                        (send_attempt (message st) max_retries) BaseResponse_new)
                   E (World st 0)))
         (delivery sv st).2.
Proof.
  destruct (serve_reads smtp_respond (Co.send to_email subject text max_retries)
              (send to_email subject text max_retries) sv (World st 0)) as (E & HE & Hs).
  exists E. split; [done|]. rewrite run_send_as_loop in Hs.
  by destruct (run (for_from _ _ _ _) E _) as [[r|e] w' t].
Qed.

(** A call whose budget covers the outage and the lost acknowledgements. *)
Lemma deliver_loop sv st :
  (Z.of_nat (outage sv + lost_acks sv) < max_retries)%Z →
  knows sv st → not_half_open st →
  out (delivery sv st).1 = Ok (sent_ok BaseResponse_new) ∧
  mailbox (delivery sv st).2 = mailbox sv ++ replicate (S (lost_acks sv)) (message st) ∧
  sleeps (trace (delivery sv st).1) =
    schedule (outage sv - outage (delivery sv st).2 + lost_acks sv).
Proof.
  intros Hk Hkn Hh. destruct (deliver_run sv st) as (E & HE & Hs).
  destruct (loop_delivers _ _ _ _ _ _ _ _ _ Hs) as (Hr & Hm & Hsl); [lia|lia|done..|].
  rewrite HE, run_send_as_loop.
  destruct (run (for_from _ _ _ _) E _) as [[r|e] w' t]; cbn [out trace] in *; [|done].
  by simplify_eq/=.
Qed.

(** What the server holds after a call, by the result of the call. *)
Lemma deliver_mailbox sv st :
  lost_acks sv = 0%nat →
  ∃ result,
    out (delivery sv st).1 = Ok result ∧
    mailbox (delivery sv st).2 =
      mailbox sv ++ if execute_status result then [message st] else [].
Proof.
  intros Hl. unfold deliver.
  destruct (serve_reads smtp_respond (Co.send to_email subject text max_retries)
              (send to_email subject text max_retries) sv (World st 0)) as (E & HE & Hs).
  rewrite HE. destruct (run_send_acked to_email subject text max_retries E (World st 0))
    as (result & Ho & Ha).
  exists result. split; [done|]. destruct (served_mailbox _ _ _ Hs Hl) as [-> _].
  by rewrite Ha.
Qed.

(** C16: the result of [send] tells what the server holds: against a
    server that acknowledges what it stores, whatever its state and the
    state of the processor, [send] returns a result, and the mailbox has
    gained the message of the call, once, when the result claims success,
    and nothing when it does not. *)
Theorem deliver_truthful sv st :
  lost_acks sv = 0%nat →
  ∃ result,
    out (deliver to_email subject text max_retries sv st).1 = Ok result ∧
    mailbox (deliver to_email subject text max_retries sv st).2 =
      mailbox sv ++
      if execute_status result
      then [build_message (_gmail_address st) to_email subject text] else [].
Proof. apply deliver_mailbox. Qed.

(** C18: a service that recovers within the budget receives the message:
    when the server refuses fewer connections than [send] has attempts,
    knows the account and acknowledges what it stores, a processor that
    holds no half-open client delivers: the result is the success, the
    mailbox has gained the message, and [send] has slept 1, 2, 4, ... once
    per connection the server refused. *)
Theorem deliver_recovers sv st :
  (Z.of_nat (outage sv) < max_retries)%Z →
  knows sv st → lost_acks sv = 0%nat → not_half_open st →
  out (deliver to_email subject text max_retries sv st).1 =
    Ok (sent_ok BaseResponse_new) ∧
  mailbox (deliver to_email subject text max_retries sv st).2 =
    mailbox sv ++ [build_message (_gmail_address st) to_email subject text] ∧
  sleeps (trace (deliver to_email subject text max_retries sv st).1) =
    schedule (outage sv - outage (deliver to_email subject text max_retries sv st).2).
Proof.
  intros Hk Hkn Hl Hh.
  destruct (deliver_loop sv st) as (Ho & Hm & Hsl); [lia|done..|].
  by rewrite Ho, Hm, Hsl, Hl, Nat.add_0_r.
Qed.

(** C39: every lost acknowledgement is a duplicate.  When the outage and
    the lost acknowledgements together are fewer than the attempts of
    [send], and the server knows the account, [send] reports one success,
    and the mailbox has gained the message once and once more for each
    acknowledgement that was lost: the transmission is at least once, not
    exactly once. *)
Theorem deliver_duplicates sv st :
  (Z.of_nat (outage sv + lost_acks sv) < max_retries)%Z →
  knows sv st → not_half_open st →
  out (deliver to_email subject text max_retries sv st).1 =
    Ok (sent_ok BaseResponse_new) ∧
  mailbox (deliver to_email subject text max_retries sv st).2 =
    mailbox sv ++
    replicate (S (lost_acks sv)) (build_message (_gmail_address st) to_email subject text).
Proof. intros Hk Hkn Hh. by destruct (deliver_loop sv st) as (Ho & Hm & _). Qed.

(** Calls that run to their end keep the session sound: against a server
    that knows the account, [send] never leaves a client that is connected
    and not authenticated. *)
Theorem deliver_not_half_open sv st :
  knows sv st → not_half_open st →
  not_half_open (self (final (deliver to_email subject text max_retries sv st).1)).
Proof.
  intros Hkn Hh. destruct (deliver_run sv st) as (E & -> & Hs).
  pose proof (loop_not_half_open _ _ _ _ _ _ _ _ _ Hs Hkn Hh) as H.
  rewrite run_send_as_loop. by destruct (run (for_from _ _ _ _) E _) as [[r|e] w' t].
Qed.

(** An acknowledgement that is lost makes [send] transmit again: whatever
    the acknowledgements, a result that claims success means the server
    holds the message, at least once. *)
Theorem deliver_at_least_once sv st result :
  out (deliver to_email subject text max_retries sv st).1 = Ok result →
  execute_status result = true →
  build_message (_gmail_address st) to_email subject text
    ∈ mailbox (deliver to_email subject text max_retries sv st).2.
Proof.
  unfold deliver.
  destruct (serve_reads smtp_respond (Co.send to_email subject text max_retries)
              (send to_email subject text max_retries) sv (World st 0)) as (E & HE & Hs).
  rewrite HE. destruct (run_send_acked to_email subject text max_retries E (World st 0))
    as (result' & Ho & Ha).
  rewrite Ho. intros [= ->] Hok. rewrite Hok in Ha.
  destruct (served_mailbox_grows _ _ _ Hs) as (new & -> & Hnew).
  apply elem_of_app. right. apply Hnew. rewrite Ha. by left.
Qed.

End Delivery.

Lemma deliver_truthful_witness :
  ∃ result,
    out (deliver "a@example.com" "Hello" "Hi" 2 server0 gmail0).1 = Ok result ∧
    mailbox (deliver "a@example.com" "Hello" "Hi" 2 server0 gmail0).2 =
      [] ++ if execute_status result
            then [build_message "bot@gmail.com" "a@example.com" "Hello" "Hi"] else [].
Proof. apply (deliver_truthful "a@example.com" "Hello" "Hi" 2 server0 gmail0). reflexivity.
Defined.

Lemma deliver_recovers_witness :
  out (deliver "a@example.com" "Hello" "Hi" 3 server0 gmail0).1 =
    Ok (sent_ok BaseResponse_new) ∧
  mailbox (deliver "a@example.com" "Hello" "Hi" 3 server0 gmail0).2 =
    [] ++ [build_message "bot@gmail.com" "a@example.com" "Hello" "Hi"] ∧
  sleeps (trace (deliver "a@example.com" "Hello" "Hi" 3 server0 gmail0).1) =
    schedule (2 - outage (deliver "a@example.com" "Hello" "Hi" 3 server0 gmail0).2).
Proof.
  apply (deliver_recovers "a@example.com" "Hello" "Hi" 3 server0 gmail0);
    [done|reflexivity|reflexivity|by intros c [=]].
Defined.

Lemma deliver_duplicates_witness :
  out (deliver "a@example.com" "Hello" "Hi" 3 lossy0 gmail0).1 =
    Ok (sent_ok BaseResponse_new) ∧
  mailbox (deliver "a@example.com" "Hello" "Hi" 3 lossy0 gmail0).2 =
    [build_message "bot@gmail.com" "a@example.com" "Hello" "Hi";
     build_message "bot@gmail.com" "a@example.com" "Hello" "Hi"].
Proof.
  apply (deliver_duplicates "a@example.com" "Hello" "Hi" 3 lossy0 gmail0);
    [done|reflexivity|by intros c [=]].
Defined.

(** The budget is too small for the outage: nothing is delivered, and the
    result says so. *)
Example deliver_outage_too_long :
  let x := deliver "a@example.com" "Hello" "Hi" 2 server0 gmail0 in
  out x.1 = Ok (failed_with 500 connection_refused BaseResponse_new) ∧ mailbox x.2 = [] ∧
  sleeps (trace x.1) = [1%Z].
Proof. vm_compute. done. Qed.

(** A retry can deliver a message twice: when the server stores the
    message and its acknowledgement is lost, [send] takes the timeout for a
    connectivity error, reconnects and transmits again; the server holds
    two copies, and the result is one success. *)
Example deliver_twice_when_ack_lost :
  let x := deliver "a@example.com" "Hello" "Hi" 3 lossy0 gmail0 in
  out x.1 = Ok (sent_ok BaseResponse_new) ∧
  mailbox x.2 = [build_message "bot@gmail.com" "a@example.com" "Hello" "Hi";
                 build_message "bot@gmail.com" "a@example.com" "Hello" "Hi"].
Proof. vm_compute. done. Qed.

End SmtpServer.

(** ** The HTTP endpoint *)

Module HttpEndpoint.

Record http_endpoint : Type := {
  faults : list http_reply;
  body : pyval;
  closed : bool;
  received : list (gmap string pyval)
}.

(** The endpoint after the first of its queued faults. *)
Definition degraded (ep : http_endpoint) : http_endpoint :=
  {| faults := tail (faults ep); body := body ep; closed := closed ep;
     received := received ep |}.

(** The endpoint with the request [params] accepted. *)
Definition accepted (params : gmap string pyval) (ep : http_endpoint) : http_endpoint :=
  {| faults := faults ep; body := body ep; closed := closed ep;
     received := received ep ++ [params] |}.

(** The endpoint once the session of the client is closed. *)
Definition shut (ep : http_endpoint) : http_endpoint :=
  {| faults := faults ep; body := body ep; closed := true; received := received ep |}.

(** What aiohttp raises when a closed session is used. *)
Definition session_is_closed : exn := Exn OtherError None "Session is closed".

(** The answer to an accepted request. *)
Definition accepting (ep : http_endpoint) : ClientResponse :=
  {| status := 200; json := Ok (body ep) |}.

Definition http_respond (op : http_op) (ep : http_endpoint)
    : http_reply * http_endpoint :=
  match op with
  | Post _ params =>
      if closed ep then (Raises session_is_closed, ep)
      else match faults ep with
           | fault :: _ => (fault, degraded ep)
           | [] => (Returns (accepting ep), accepted params ep)
           end
  | Close _ => (Returns {| status := 0; json := Ok PyNone |}, shut ep)
  end.

(** No queued fault is a success: the endpoint answers a success only to
    the requests it accepts. *)
Definition honest (ep : http_endpoint) : Prop :=
  Forall (λ rp, classify rp ≠ Success) (faults ep).

(** The dispatcher against the endpoint, called by an object in the state
    [st]. *)
Definition request {St} (url payload_marker : string) (payload : pyval)
    (max_retries : Z) (session_pool : ClientSession) (ep : http_endpoint) (st : St)
    : ran http_op ClientResponse St BaseResponse * http_endpoint :=
  serve http_respond
    (CoPooled.co_send_with_retries_mechanism (M:=coro http_op ClientResponse St)
       url payload_marker payload max_retries session_pool)
    ep (World st 0).

(** [SMSNotificationProcessor.send] against the endpoint. *)
Definition post_sms (text phone_number : string) (max_retries : Z)
    (ep : http_endpoint) (st : SMS.SMSNotificationProcessor)
    : ran http_op ClientResponse SMS.SMSNotificationProcessor BaseResponse
      * http_endpoint :=
  serve http_respond (CoPooled.sms_send text phone_number max_retries) ep (World st 0).

(** [TelegramNotificationProcessor.send] against the endpoint. *)
Definition post_telegram (text : string) (chat_id max_retries : Z)
    (ep : http_endpoint) (st : Telegram.TelegramNotificationProcessor)
    : ran http_op ClientResponse Telegram.TelegramNotificationProcessor BaseResponse
      * http_endpoint :=
  serve http_respond (CoPooled.telegram_send text chat_id max_retries) ep (World st 0).

(** sms.ru answering two server errors before it recovers. *)
Definition endpoint0 : http_endpoint :=
  {| faults := [Returns {| status := 503; json := Ok PyNone |};
                Returns {| status := 502; json := Ok PyNone |}];
     body := PyDict [("status", PyStr "OK")]; closed := false; received := [] |}.

(** ** The dispatcher against the endpoint *)

Section Dispatch.
Context (session_pool : ClientSession) (params : gmap string pyval) (max_retries : Z).
Implicit Types (ep : http_endpoint) (rs : list http_reply) (result : BaseResponse)
  (attempt : Z).

Lemma classify_accepting ep : classify (Returns (accepting ep)) = Success.
Proof. reflexivity. Qed.

Lemma honest_degraded ep : honest ep → honest (degraded ep).
Proof. unfold honest. destruct ep as [[|f fs] b c r]; cbn; [done|]. by inversion 1. Qed.

(** The first reply of a served dispatch, and the endpoint it leaves. *)
Lemma served_attempt_events ep attempt rp t ep' :
  served http_respond ep (attempt_events session_pool params max_retries attempt rp ++ t) ep' ↔
  rp = (http_respond (Post session_pool params) ep).1 ∧
  served http_respond (http_respond (Post session_pool params) ep).2 t ep'.
Proof.
  unfold attempt_events. destruct (sleeps_after _ _ _); cbn [app];
    by rewrite served_cons_called, ?served_cons_slept.
Qed.

(** What the endpoint has received after a dispatch, by its result. *)
Lemma served_dispatch rs : ∀ attempt result ep ep',
  served http_respond ep
    (dispatch session_pool params max_retries attempt rs result).2 ep' →
  honest ep → failed result →
  received ep' = received ep ++
    if execute_status (dispatch session_pool params max_retries attempt rs result).1
    then [params] else [].
Proof.
  induction rs as [|rp rs IH]; intros attempt result ep ep' Hs Hh Hf.
  { apply served_nil_inv in Hs as ->. cbn. by rewrite Hf, app_nil_r. }
  rewrite dispatch_cons in Hs |- *. rewrite (result_after_failed rp) in * by done.
  assert (rp = (http_respond (Post session_pool params) ep).1 ∧
          ep' = match classify rp with
                | Transient => ep'
                | _ => (http_respond (Post session_pool params) ep).2
                end) as [Hrp Hep'].
  { destruct (classify rp); cbn [snd] in Hs;
      [rewrite <- (app_nil_r (attempt_events _ _ _ _ _)) in Hs..|];
      apply served_attempt_events in Hs as [? Hs]; [apply served_nil_inv in Hs..|]; done. }
  destruct (classify rp) eqn:Hc; cbn [fst snd] in *.
  - rewrite execute_status_result_of, Hc. subst ep'. revert Hc. rewrite Hrp. cbn.
    destruct (closed ep); [done|]. destruct (faults ep) as [|f fs] eqn:Hfs; [done|].
    intros Hc. unfold honest in Hh. rewrite Hfs in Hh. by inversion Hh.
  - rewrite execute_status_result_of, Hc. subst ep'. revert Hc. rewrite Hrp. cbn.
    destruct (closed ep); [by rewrite app_nil_r|].
    destruct (faults ep); cbn; [done|by rewrite app_nil_r].
  - apply served_attempt_events in Hs as [_ Hs].
    rewrite (IH _ _ _ _ Hs); [|..|apply failed_result_of; congruence].
    + revert Hc. rewrite Hrp. cbn. destruct (closed ep); [done|].
      by destruct (faults ep).
    + revert Hc. rewrite Hrp. cbn. destruct (closed ep); [done|].
      destruct (faults ep) eqn:Hfs; [done|]. intros _. by apply honest_degraded.
Qed.

(** An endpoint whose faults are transient and fewer than the attempts
    left accepts the request. *)
Lemma served_dispatch_recovers rs : ∀ attempt result ep ep',
  served http_respond ep
    (dispatch session_pool params max_retries attempt rs result).2 ep' →
  closed ep = false → Forall transient (faults ep) →
  (length (faults ep) < length rs)%nat →
  (dispatch session_pool params max_retries attempt rs result).1 =
    {| status_code := Some 200%Z; details := body ep; execute_status := true |} ∧
  ops (dispatch session_pool params max_retries attempt rs result).2 =
    replicate (S (length (faults ep))) (Post session_pool params) ∧
  faults ep' = [].
Proof.
  induction rs as [|rp rs IH]; intros attempt result ep ep' Hs Ho Hf Hlen;
    [cbn in Hlen; lia|].
  rewrite dispatch_cons in Hs |- *. destruct ep as [[|f fs] b c r]; cbn in Ho, Hlen; subst c.
  - assert (rp = Returns (accepting {| faults := []; body := b; closed := false;
                                        received := r |})) as ->.
    { destruct (classify rp); cbn [snd] in Hs;
        [rewrite <- (app_nil_r (attempt_events _ _ _ _ _)) in Hs..|];
        by apply served_attempt_events in Hs as [? Hs]. }
    rewrite classify_accepting in *. cbn [fst snd] in *.
    rewrite <- (app_nil_r (attempt_events _ _ _ _ _)) in Hs.
    apply served_attempt_events in Hs as [_ ->%served_nil_inv].
    by rewrite ops_attempt_events.
  - apply Forall_cons in Hf as [Hf Hfs].
    assert (rp = f) as ->.
    { destruct (classify rp); cbn [snd] in Hs;
        [rewrite <- (app_nil_r (attempt_events _ _ _ _ _)) in Hs..|];
        by apply served_attempt_events in Hs as [? Hs]. }
    unfold transient in Hf. rewrite Hf in *. cbn [fst snd] in *.
    apply served_attempt_events in Hs as [_ Hs]. cbn in Hs.
    destruct (IH _ _ _ _ Hs) as (-> & Hops & ->); [done|done|cbn; lia|].
    by rewrite ops_app, ops_attempt_events, Hops.
Qed.

End Dispatch.

(** ** Theorems of the composed system *)

Section Posting.
Context {St : Type} (url payload_marker : string) (payload : pyval) (max_retries : Z)
  (session_pool : ClientSession).
Implicit Types (ep : http_endpoint) (st : St).
#[local] Abbreviation params := (request_params url payload_marker payload).
#[local] Abbreviation posted ep st :=
  (request url payload_marker payload max_retries session_pool ep st).

(** Against the endpoint, the dispatcher returns what [dispatch] computes
    from the replies of the endpoint, and the events of [dispatch] are
    served. *)
Lemma request_run ep st :
  ∃ rs, length rs = Z.to_nat max_retries ∧
    let d := dispatch session_pool params max_retries 0 rs BaseResponse_new in
    out (posted ep st).1 = Ok d.1 ∧ trace (posted ep st).1 = d.2 ∧
    served http_respond ep d.2 (posted ep st).2.
Proof.
  unfold request.
  destruct (serve_reads http_respond
              (CoPooled.co_send_with_retries_mechanism url payload_marker payload
                 max_retries session_pool)
              (send_with_retries_mechanism url payload_marker payload max_retries
                 session_pool) ep (World st 0)) as (E & -> & Hs).
  rewrite run_send in Hs |- *. exists (upcoming E (World st 0) (Z.to_nat max_retries)).
  by rewrite length_upcoming.
Qed.

(** C20: the result of the dispatcher tells what the service holds:
    against an endpoint that answers a success only to the requests it
    accepts, whatever its queued faults and whether its session is closed,
    the endpoint has received the request of the call, once, when the
    result claims success, and nothing when it does not. *)
Theorem request_truthful ep st :
  honest ep →
  ∃ result,
    out (request url payload_marker payload max_retries session_pool ep st).1 =
      Ok result ∧
    received (request url payload_marker payload max_retries session_pool ep st).2 =
      received ep ++
      if execute_status result then [request_params url payload_marker payload]
      else [].
Proof.
  intros Hh. destruct (request_run ep st) as (rs & _ & Ho & _ & Hs).
  eexists. split; [done|]. by apply (served_dispatch _ _ _ _ _ _ _ _ Hs).
Qed.

(** C21: a service that recovers within the budget receives the request:
    when the faults queued at the endpoint are transient and fewer than
    [max_retries], and the session is open, the dispatcher posts once per
    fault and once more, the endpoint accepts that request, and the result
    is the success with the document of the endpoint. *)
Theorem request_recovers ep st :
  closed ep = false → Forall transient (faults ep) →
  (Z.of_nat (length (faults ep)) < max_retries)%Z →
  out (request url payload_marker payload max_retries session_pool ep st).1 =
    Ok {| status_code := Some 200%Z; details := body ep; execute_status := true |} ∧
  received (request url payload_marker payload max_retries session_pool ep st).2 =
    received ep ++ [request_params url payload_marker payload] ∧
  length (ops (trace (request url payload_marker payload max_retries session_pool
                        ep st).1)) = S (length (faults ep)).
Proof.
  intros Hc Hf Hlen. destruct (request_run ep st) as (rs & Hrs & Ho & Ht & Hs).
  destruct (served_dispatch_recovers _ _ _ _ _ _ _ _ Hs) as (Hd & Hops & _);
    [done|done|lia|].
  rewrite Ho, Ht, Hops, length_replicate.
  rewrite (served_dispatch _ _ _ _ _ _ _ _ Hs), Hd; [done| |done].
  eapply Forall_impl; [done|]. unfold transient. by intros rp ->.
Qed.

End Posting.

(** The adapters against the endpoint are the dispatcher against it, at
    the request each of them builds. *)
Lemma post_sms_request text phone_number max_retries ep st :
  post_sms text phone_number max_retries ep st =
  request (SMS._notif_url st) "data" (SMS.payload st text phone_number) max_retries
    (SMS._session_pool st) ep st.
Proof. reflexivity. Qed.

Lemma post_telegram_request text chat_id max_retries ep st :
  post_telegram text chat_id max_retries ep st =
  request (Telegram._notif_url st) "json" (Telegram.payload text chat_id) max_retries
    (Telegram._session_pool st) ep st.
Proof. reflexivity. Qed.

Lemma request_truthful_witness :
  ∃ result,
    out (request "https://sms.ru/sms/send" "data" (PyStr "hello") 2 pool0 endpoint0 tt).1 =
      Ok result ∧
    received (request "https://sms.ru/sms/send" "data" (PyStr "hello") 2 pool0
                endpoint0 tt).2 =
      [] ++ if execute_status result
            then [request_params "https://sms.ru/sms/send" "data" (PyStr "hello")]
            else [].
Proof.
  apply (request_truthful "https://sms.ru/sms/send" "data" (PyStr "hello") 2 pool0
           endpoint0 tt).
  by repeat constructor.
Defined.

Lemma request_recovers_witness :
  out (request "https://sms.ru/sms/send" "data" (PyStr "hello") 3 pool0 endpoint0 tt).1 =
    Ok {| status_code := Some 200%Z; details := PyDict [("status", PyStr "OK")];
          execute_status := true |} ∧
  received (request "https://sms.ru/sms/send" "data" (PyStr "hello") 3 pool0
              endpoint0 tt).2 =
    [] ++ [request_params "https://sms.ru/sms/send" "data" (PyStr "hello")] ∧
  length (ops (trace (request "https://sms.ru/sms/send" "data" (PyStr "hello") 3 pool0
                        endpoint0 tt).1)) = 3%nat.
Proof.
  apply (request_recovers "https://sms.ru/sms/send" "data" (PyStr "hello") 3 pool0
           endpoint0 tt); [done|by repeat constructor|done].
Defined.

(** An SMS through sms.ru, two server errors and then the delivery. *)
Example post_sms_recovers :
  let x := post_sms "hello" "79990001122" 3 endpoint0 SMS.sms0 in
  out x.1 = Ok {| status_code := Some 200%Z; details := PyDict [("status", PyStr "OK")];
                  execute_status := true |} ∧
  length (received x.2) = 1%nat ∧ sleeps (trace x.1) = [1; 2]%Z.
Proof. vm_compute. done. Qed.

(** After [close_session] the endpoint receives nothing, and [send] spends
    its whole budget before it says so. *)
Example post_sms_after_close :
  let x := post_sms "hello" "79990001122" 3 (shut endpoint0) SMS.sms0 in
  out x.1 = Ok (result_of (Raises session_is_closed)) ∧ received x.2 = [] ∧
  sleeps (trace x.1) = [1; 2]%Z ∧ length (ops (trace x.1)) = 3%nat.
Proof. vm_compute. done. Qed.

(** A Telegram message that the endpoint rejects as a client error: one
    request, nothing received. *)
Example post_telegram_rejected :
  let ep := {| faults := [Returns {| status := 400; json := Ok PyNone |}];
               body := PyNone; closed := false; received := [] |} in
  let x := post_telegram "hello" 42 3 ep Telegram.bot0 in
  out x.1 = Ok {| status_code := Some 400%Z; details := PyNone; execute_status := false |} ∧
  received x.2 = [] ∧ length (trace x.1) = 1%nat.
Proof. vm_compute. done. Qed.

End HttpEndpoint.
