(* ===== verification/Lossy.v ===== *)
(** * Lossy: a service that processes a request and fails to say so

    The retry dispatcher of src/notifications/core/utils.py posts again
    after every transient failure.  A failure is what the client sees: a
    gateway that times out, or a response that is lost, after the service
    has processed the request.  This file runs the dispatcher against such
    an endpoint: [lossy_respond] answers like [http_respond] of [Server],
    and it accepts the request also when it answers one of its queued
    faults.

    The two services give the same answers ([same_answers] is a simulation
    between them), so the dispatcher runs against one as against the
    other; what differs is what the service has received: one copy of the
    request per attempt. *)

From stdpp Require Import gmap.
From S2P Require Import Prelude Effects Coro Environment Schemas.
From S2P Require Import Utils Sms Telegram Email Concurrent Server.
Import HttpEndpoint.

(** The answer of an endpoint that processes every request it is sent
    while its session is open: a queued fault replaces the acknowledgement,
    not the processing. *)
Definition lossy_respond (op : http_op) (ep : http_endpoint)
    : http_reply * http_endpoint :=
  match op with
  | Post _ params =>
      if closed ep then (Raises session_is_closed, ep)
      else match faults ep with
           | fault :: _ => (fault, accepted params (degraded ep))
           | [] => (Returns (accepting ep), accepted params ep)
           end
  | Close _ => http_respond op ep
  end.

(** The dispatcher against the lossy endpoint. *)
Definition request_lossy {St} (url payload_marker : string) (payload : pyval)
    (max_retries : Z) (session_pool : ClientSession) (ep : http_endpoint) (st : St)
    : ran http_op ClientResponse St BaseResponse * http_endpoint :=
  serve lossy_respond
    (CoPooled.co_send_with_retries_mechanism (M:=coro http_op ClientResponse St)
       url payload_marker payload max_retries session_pool)
    ep (World st 0).

(** Two endpoints that answer alike: they differ at most in what they
    have received. *)
Definition same_answers : relation http_endpoint :=
  λ ep ep', faults ep = faults ep' ∧ body ep = body ep' ∧ closed ep = closed ep'.

#[export] Instance same_answers_equivalence : Equivalence same_answers.
Proof.
  unfold same_answers. split; [done|by intros ?? (-> & -> & ->)|].
  by intros ??? (-> & -> & ->) (-> & -> & ->).
Qed.

(** The requests of a trace, in order. *)
Definition posted (t : list (event http_op ClientResponse)) : list (gmap string pyval) :=
  omap (λ op, match op with Post _ params => Some params | Close _ => None end) (ops t).

(** ** The simulation *)

Lemma lossy_respond_simulates op ep ep' :
  same_answers ep ep' →
  (lossy_respond op ep).1 = (http_respond op ep').1 ∧
  same_answers (lossy_respond op ep).2 (http_respond op ep').2.
Proof.
  destruct ep as [fs b c r], ep' as [fs' b' c' r']. intros (Hf & Hb & Hc).
  cbn in Hf, Hb, Hc. subst fs' b' c'.
  destruct op as [pool params|pool]; cbn; [|done]. destruct c; [done|].
  by destruct fs.
Qed.

(** What the lossy endpoint serves, the endpoint of [Server] serves. *)
Lemma served_lossy t : ∀ ep1 ep1' ep2,
  served lossy_respond ep1 t ep1' → same_answers ep1 ep2 →
  ∃ ep2', served http_respond ep2 t ep2' ∧ same_answers ep1' ep2'.
Proof.
  induction t as [|[op r|d] t IH]; intros ep1 ep1' ep2 Hs Hsame.
  - apply served_nil_inv in Hs as ->. exists ep2. split; [constructor|done].
  - apply served_cons_called in Hs as [-> Hs].
    destruct (lossy_respond_simulates op _ _ Hsame) as [Hr Hsame'].
    destruct (IH _ _ _ Hs Hsame') as (ep2' & Hs2 & ?). exists ep2'.
    split; [|done]. apply served_cons_called. by rewrite Hr.
  - apply served_cons_slept in Hs. destruct (IH _ _ _ Hs Hsame) as (ep2' & Hs2 & ?).
    exists ep2'. split; [by apply served_cons_slept|done].
Qed.

(** While its session is open, the lossy endpoint has received every
    request of the trace. *)
Lemma served_lossy_received t : ∀ ep ep',
  served lossy_respond ep t ep' → closed ep = false →
  Forall (λ op, match op with Post _ _ => True | Close _ => False end) (ops t) →
  received ep' = received ep ++ posted t.
Proof.
  unfold posted.
  induction t as [|[op r|d] t IH]; intros ep ep' Hs Hc Hops.
  - apply served_nil_inv in Hs as ->. by rewrite app_nil_r.
  - apply served_cons_called in Hs as [_ Hs]. rewrite ops_called in *.
    apply Forall_cons in Hops as [Hop Hops]. destruct op as [pool params|]; [|done].
    cbn [omap list_omap]. rewrite (IH _ _ Hs); [| |done];
      cbn; rewrite Hc; destruct (faults ep); cbn; by rewrite <- ?app_assoc.
  - apply served_cons_slept in Hs. rewrite ops_slept in *. by apply IH.
Qed.

(** ** The dispatcher against the lossy endpoint *)

Section Posting.
Context {St : Type} (url payload_marker : string) (payload : pyval) (max_retries : Z)
  (session_pool : ClientSession).
Implicit Types (ep : http_endpoint) (st : St).
#[local] Abbreviation params := (request_params url payload_marker payload).
#[local] Abbreviation lossy ep st :=
  (request_lossy url payload_marker payload max_retries session_pool ep st).

Lemma request_lossy_run ep st :
  ∃ rs, length rs = Z.to_nat max_retries ∧
    let d := dispatch session_pool params max_retries 0 rs BaseResponse_new in
    out (lossy ep st).1 = Ok d.1 ∧ trace (lossy ep st).1 = d.2 ∧
    served lossy_respond ep d.2 (lossy ep st).2.
Proof.
  unfold request_lossy.
  destruct (serve_reads lossy_respond
              (CoPooled.co_send_with_retries_mechanism url payload_marker payload
                 max_retries session_pool)
              (send_with_retries_mechanism url payload_marker payload max_retries
                 session_pool) ep (World st 0)) as (E & -> & Hs).
  rewrite run_send in Hs |- *. exists (upcoming E (World st 0) (Z.to_nat max_retries)).
  by rewrite length_upcoming.
Qed.

(** C40: every lost response is a duplicate.  Against an endpoint that
    processes each request and fails to acknowledge the first ones (its
    queued faults are transient and fewer than [max_retries], its session
    is open), the dispatcher reports one success, and the endpoint has
    processed the request once and once more for each response that was
    lost: the delivery is at least once, not exactly once. *)
Theorem request_duplicates ep st :
  closed ep = false → Forall transient (faults ep) →
  (Z.of_nat (length (faults ep)) < max_retries)%Z →
  out (request_lossy url payload_marker payload max_retries session_pool ep st).1 =
    Ok {| status_code := Some 200%Z; details := body ep; execute_status := true |} ∧
  received (request_lossy url payload_marker payload max_retries session_pool ep st).2 =
    received ep ++
    replicate (S (length (faults ep))) (request_params url payload_marker payload).
Proof.
  intros Hc Hf Hlen. destruct (request_lossy_run ep st) as (rs & Hrs & Ho & Ht & Hs).
  destruct (served_lossy _ _ _ ep Hs) as (ep2 & Hs2 & _); [done|].
  destruct (served_dispatch_recovers _ _ _ _ _ _ _ _ Hs2) as (Hd & Hops & _);
    [done|done|lia|].
  rewrite Ho, Hd. split; [done|].
  rewrite (served_lossy_received _ _ _ Hs Hc); unfold posted; rewrite Hops.
  - f_equal. generalize (S (length (faults ep))). intros n.
    induction n as [|n IH]; cbn; [done|by rewrite IH].
  - by apply Forall_replicate.
Qed.

End Posting.

(** ** Concrete runs *)

Lemma request_duplicates_witness :
  out (request_lossy "https://sms.ru/sms/send" "data" (PyStr "hello") 3 pool0
         endpoint0 tt).1 =
    Ok {| status_code := Some 200%Z; details := PyDict [("status", PyStr "OK")];
          execute_status := true |} ∧
  received (request_lossy "https://sms.ru/sms/send" "data" (PyStr "hello") 3 pool0
              endpoint0 tt).2 =
    [] ++ replicate 3 (request_params "https://sms.ru/sms/send" "data" (PyStr "hello")).
Proof.
  apply (request_duplicates "https://sms.ru/sms/send" "data" (PyStr "hello") 3 pool0
           endpoint0 tt); [done|by repeat constructor|done].
Defined.

(** One SMS, sent three times: sms.ru processes each request and answers
    the first two with a server error. *)
Example sms_sent_three_times :
  let x := serve lossy_respond (CoPooled.sms_send "hello" "79990001122" 3) endpoint0
             (World SMS.sms0 0) in
  out x.1 = Ok {| status_code := Some 200%Z; details := PyDict [("status", PyStr "OK")];
                  execute_status := true |} ∧
  length (received x.2) = 3%nat ∧ sleeps (trace x.1) = [1; 2]%Z.
Proof. vm_compute. done. Qed.
