(* ===== verification/Interrupted.v ===== *)
(** * Interrupted: calls on one connection manager, interleaved and cancelled

    The calls of [send] and [close_session] of one
    [GmailNotificationProcessor] are started together, resumed in any
    order and cancelled at any suspension point (the scheduler
    [interrupted] of [Cancel]).

    What survives: the configuration of the processor never changes, the
    client it holds was built from it, and no task ends with an exception.

    What does not: a send that is cancelled while it awaits [login] leaves
    in [self._smtp_client] a client that is connected and was never
    authenticated.  The probe of the next send succeeds on it, the
    transmission is rejected, and the rejection is not a connectivity
    error: the client is kept.  From then on no send delivers, although the
    server is up and knows the account. *)

From S2P Require Import Prelude Effects Coro Environment Lock Cancel.
From S2P Require Import Schemas Email Lifecycle Concurrent Server.
Import Gmail SmtpServer.

#[local] Abbreviation work := (coro smtp_op unit GmailNotificationProcessor).

(** A call of a public method of the processor. *)
Inductive method_call : Type :=
| CallSend (to_email subject text : string) (max_retries : Z)
| CallClose.

(** The coroutine of a call, with the result of [send] when there is
    one. *)
Definition program (m : method_call) : work (option BaseResponse) :=
  match m with
  | CallSend to_email subject text max_retries =>
      result ← Co.send to_email subject text max_retries; mret (Some result)
  | CallClose => Co.close_session;; mret None
  end.

(** The same, run to its end. *)
Definition program_run (m : method_call) : smtp (option BaseResponse) :=
  match m with
  | CallSend to_email subject text max_retries =>
      result ← send to_email subject text max_retries; mret (Some result)
  | CallClose => close_session;; mret None
  end.

(** The processor [st] has the configuration of [st0], and the client it
    holds was built from it. *)
Definition configured (st0 st : GmailNotificationProcessor) : Prop :=
  set_smtp_client None st = set_smtp_client None st0 ∧ client_of_config st.

(** The states a processor can be in when its calls are interleaved and
    cancelled, batch after batch, from the state [st0]. *)
Inductive attainable (st0 : GmailNotificationProcessor)
    : GmailNotificationProcessor → Prop :=
| attain_start : attainable st0 st0
| attain_batch st schedule calls :
    attainable st0 st →
    attainable st0 (interrupted schedule (program <$> calls) st).1.2.

(** The schedule that lets the first task connect and cancels it while it
    awaits the reply to [login]. *)
Definition cancel_at_login : list (nat * action unit) :=
  [(0%nat, Resume (Returns tt)); (0%nat, Cancel)].

(** The processor holds a client that is connected and was never
    authenticated. *)
Definition half_open (st : GmailNotificationProcessor) : Prop :=
  ∃ c, _smtp_client st = Some c ∧ session c = Connected.

(** The coroutine awaits the reply to [login]. *)
Definition awaits_login {A} (c : work A) : bool :=
  match c with Await (Login _ _ _) _ => true | _ => false end.

(** Where a coroutine was cut, the server knows the account, and the
    client is connected and not authenticated exactly when the coroutine
    awaits the reply to [login]. *)
Definition sound_at {A}
    (x : work A * GmailNotificationProcessor * smtp_server * nat) : Prop :=
  knows x.1.2 x.1.1.2 ∧
  if awaits_login x.1.1.1 then half_open x.1.1.2 else not_half_open x.1.1.2.

(** Two sends and a close on [gmail0]: the first send is cancelled while it
    connects, the close finds its client. *)
Definition batch0 : list method_call :=
  [CallSend "a@example.com" "Hello" "Hi" 3; CallClose;
   CallSend "b@example.com" "Hello" "Hi" 3].

Definition schedule0 : list (nat * action unit) :=
  [(2%nat, Resume (Returns tt)); (0%nat, Cancel); (1%nat, Resume (Returns tt));
   (2%nat, Resume (Raises connection_lost))].

(** A server that is up and knows the account of [gmail0]. *)
Definition server_up : smtp_server :=
  {| outage := 0; accounts := accounts server0; lost_acks := 0; mailbox := [] |}.

(** ** The methods keep the configuration *)

Section Configured.
Context (st0 : GmailNotificationProcessor).
Implicit Types (st : GmailNotificationProcessor).

Lemma configured_advance st client p :
  configured st0 st → _smtp_client st = Some client →
  configured st0 (set_smtp_client (Some (with_session p client)) st).
Proof.
  intros [Hcfg Hc] Hst. split; [by destruct st|].
  intros c [= <-]. rewrite with_session_with_session. by destruct st; apply Hc.
Qed.

Lemma configured_drop st : configured st0 st → configured st0 (set_smtp_client None st).
Proof. intros [Hcfg _]. split; [by destruct st|done]. Qed.

Lemma configured_fresh st :
  configured st0 st → configured st0 (set_smtp_client (Some (fresh_client st)) st).
Proof. intros [Hcfg _]. split; [by destruct st|]. intros c [= <-]. by destruct st. Qed.

#[local] Hint Resolve configured_advance configured_drop configured_fresh : keeps.

Lemma advance_keeps p : keeps (configured st0) (Co.advance p : work unit).
Proof. unfold Co.advance. eauto 10 with keeps. Qed.

Lemma the_client_keeps : keeps (configured st0) (Co.the_client : work AIO_SMTP).
Proof. unfold Co.the_client. eauto 10 with keeps. Qed.

#[local] Hint Resolve advance_keeps the_client_keeps : keeps.

Lemma reset_connection_keeps : keeps (configured st0) (Co._reset_connection : work unit).
Proof. unfold Co._reset_connection. eauto 20 with keeps. Qed.

Lemma establish_keeps : keeps (configured st0) (Co.establish : work unit).
Proof. unfold Co.establish. eauto 20 with keeps. Qed.

#[local] Hint Resolve reset_connection_keeps establish_keeps : keeps.

Lemma get_connection_keeps : keeps (configured st0) (Co._get_connection : work unit).
Proof. unfold Co._get_connection. eauto 20 with keeps. Qed.

#[local] Hint Resolve get_connection_keeps : keeps.

Lemma send_attempt_keeps msg max_retries attempt result :
  keeps (configured st0) (Co.send_attempt msg max_retries attempt result : work _).
Proof. unfold Co.send_attempt, Co.handle_error. eauto 20 with keeps. Qed.

#[local] Hint Resolve send_attempt_keeps : keeps.

Lemma send_keeps to_email subject text max_retries :
  keeps (configured st0) (Co.send to_email subject text max_retries : work _).
Proof. unfold Co.send. cbv zeta. eauto 20 with keeps. Qed.

Lemma close_session_keeps : keeps (configured st0) (Co.close_session : work unit).
Proof. unfold Co.close_session. eauto 20 with keeps. Qed.

#[local] Hint Resolve send_keeps close_session_keeps : keeps.

Lemma program_keeps m : keeps (configured st0) (program m).
Proof. destruct m; unfold program; eauto 10 with keeps. Qed.

Lemma batch_configured schedule calls st :
  configured st0 st → configured st0 (interrupted schedule (program <$> calls) st).1.2.
Proof.
  apply keeps_interrupted, Forall_fmap, Forall_forall. intros m _. apply program_keeps.
Qed.

End Configured.

(** ** Theorems *)

(** C26: the configuration survives every interleaving and every
    cancellation: whatever batches of sends and closes are started on a
    processor, in whatever order the event loop resumes them and wherever
    it cancels them, the processor keeps the address, the password, the
    host, the port and the TLS flag it started with, and the client it
    holds, if any, was built from them. *)
Theorem interrupted_calls_keep_config st0 st :
  client_of_config st0 → attainable st0 st → configured st0 st.
Proof.
  intros Hst0. induction 1 as [|st schedule calls _ IH]; [done|].
  by apply batch_configured.
Qed.

(** *** Calls that follow each other are batches of one *)

#[export] Instance program_reads m : Reads (program m) (program_run m).
Proof. destruct m; apply _. Qed.

Lemma call_batch m E st t :
  self (final (run (program_run m) E (World st t))) =
  (interrupted (resuming (solo 0 (trace (run (program_run m) E (World st t)))))
     (program <$> [m]) st).1.2.
Proof.
  rewrite interrupted_resuming. cbn [fmap list_fmap].
  pose proof (concurrently_alone (program m) (program_run m) E (World st t)) as H.
  cbn [self] in H. by rewrite H.
Qed.

Lemma call_step_batch st st' :
  call_step st st' →
  ∃ schedule m, st' = (interrupted schedule (program <$> [m]) st).1.2.
Proof.
  intros [to_email subject text max_retries E ? t|E ? t]; eexists _, _;
    [rewrite <- (call_batch (CallSend to_email subject text max_retries) E _ t)
    |rewrite <- (call_batch CallClose E _ t)];
    cbn [program_run]; rewrite run_bind;
    by destruct (run _ E (World _ t)) as [[?|?] ? ?].
Qed.

(** The states of [Lifecycle], reached by calls that follow each other,
    are among those of this file. *)
Lemma reachable_attainable st :
  reachable st →
  ∃ gmail_address gmail_app_password smtp_gmail_hostname smtp_gmail_port
    smtp_gmail_start_tls,
    attainable (__init__ gmail_address gmail_app_password smtp_gmail_hostname
                  smtp_gmail_port smtp_gmail_start_tls) st.
Proof.
  induction 1 as [a p h po tls|st st' _ (a & p & h & po & tls & IH) Hstep].
  - exists a, p, h, po, tls. constructor.
  - exists a, p, h, po, tls. destruct (call_step_batch _ _ Hstep) as (schedule & m & ->).
    by constructor.
Qed.

(** ** A send cancelled while it logs in *)

(** The cancelled send has connected a new client, which the processor
    holds. *)
Lemma cancelled_at_login to_email subject text max_retries st :
  _smtp_client st = None → (0 < max_retries)%Z →
  (interrupted cancel_at_login [Co.send to_email subject text max_retries : work _] st).1 =
  ([Cancelled], set_smtp_client (Some (with_session Connected (fresh_client st))) st).
Proof.
  intros Hst Hn. unfold interrupted, Co.send, py_for_range.
  destruct (Z.to_nat max_retries) as [|n] eqn:Hm; [lia|].
  destruct st as [addr pw host port tls client]. cbn in Hst. by subst client.
Qed.

(** On a client that is connected and not authenticated the probe
    succeeds and the transmission is rejected: [send] returns 400 at the
    first attempt and keeps the client. *)
Lemma half_open_rejects to_email subject text max_retries sv st :
  half_open st → (0 < max_retries)%Z →
  out (deliver to_email subject text max_retries sv st).1 =
    Ok (failed_with 400 authentication_required BaseResponse_new) ∧
  self (final (deliver to_email subject text max_retries sv st).1) = st ∧
  (deliver to_email subject text max_retries sv st).2 = sv.
Proof.
  intros (c & Hst & Hc) Hn. unfold deliver, Co.send, py_for_range.
  destruct (Z.to_nat max_retries) as [|n] eqn:Hm; [lia|].
  destruct st as [addr pw host port tls client], c as [h p tl ph]. cbn in Hst, Hc.
  by subst client ph.
Qed.

(** C17: a cancelled login poisons the manager.  A send on a processor
    without a client, cancelled after its [connect] has returned and while
    it awaits [login], leaves a processor on which every later send, run to
    its end against any server, returns 400 without a retry, stores nothing
    in the mailbox and leaves the processor as it found it: the next send
    fails in the same way. *)
Theorem cancelled_login_poisons to_email subject text max_retries st sv
    to_email' subject' text' max_retries' :
  _smtp_client st = None → (0 < max_retries)%Z → (0 < max_retries')%Z →
  let st' := (interrupted cancel_at_login
                [Co.send to_email subject text max_retries : work _] st).1.2 in
  out (deliver to_email' subject' text' max_retries' sv st').1 =
    Ok (failed_with 400 authentication_required BaseResponse_new) ∧
  self (final (deliver to_email' subject' text' max_retries' sv st').1) = st' ∧
  (deliver to_email' subject' text' max_retries' sv st').2 = sv.
Proof.
  intros Hst Hn Hn'. cbv zeta. rewrite cancelled_at_login by done. cbn [snd].
  apply half_open_rejects; [|done]. by eexists.
Qed.

(** ** Where a cancellation does harm

    A send that runs against a server that knows the account is cut at
    each of its suspension points in turn. *)

Ltac cut_eval :=
  repeat first [ progress cbn
               | rewrite bool_decide_eq_true_2 by first [done|lia]
               | rewrite bool_decide_eq_false_2 by lia ].

(** An attempt, cut anywhere. *)
Lemma attempt_cut n msg max_retries attempt result sv st :
  knows sv st → not_half_open st →
  sound_at (cut smtp_respond n
              (Co.send_attempt msg max_retries attempt result : work _) sv st).
Proof.
  intros Hkn Hh.
  apply (along_cut smtp_respond (λ c s sv, sound_at (c, s, sv, 0%nat))). revert Hkn Hh.
  destruct sv as [[|k] acc [|la] mb]; unfold sound_at, not_half_open, half_open, knows;
    cbn; intros Hkn Hh;
    (destruct st as [addr pw host port tls [[h p tl [| | |]]|]]; cbn in Hh, Hkn |- *;
      [|by destruct (Hh _ eq_refl)|..]);
    destruct (decide (attempt < max_retries - 1)%Z); unfold Co.send_attempt;
    cut_eval; repeat split; first [done|by intros ? [= <-]|by eexists].
Qed.

Lemma loop_cut msg max_retries k : ∀ n attempt result sv st,
  knows sv st → not_half_open st →
  sound_at (cut smtp_respond n
              (py_for_from k attempt (Co.send_attempt msg max_retries) result : work _)
              sv st).
Proof.
  induction k as [|k IH]; intros n attempt result sv st Hkn Hh; [done|].
  cbn [py_for_from]. unfold mbind. cbn [py_bind coro_py]. rewrite cut_bind.
  pose proof (attempt_cut n msg max_retries attempt result sv st Hkn Hh) as H.
  destruct (cut smtp_respond n _ sv st) as [[[c' st'] sv'] n'].
  destruct c' as [[l|l|a]|e|[]|d|?|?]; try done. destruct H. by apply IH.
Qed.

Lemma send_cut n to_email subject text max_retries sv st :
  knows sv st → not_half_open st →
  sound_at (cut smtp_respond n
              (Co.send to_email subject text max_retries : work _) sv st).
Proof.
  intros Hkn Hh. unfold Co.send, py_for_range. cbv zeta. unfold mbind.
  cbn [py_bind coro_py py_get_self coro_bind cut]. rewrite cut_bind.
  pose proof (loop_cut (build_message (_gmail_address st) to_email subject text)
                max_retries (Z.to_nat max_retries) n 0 BaseResponse_new sv st Hkn Hh) as H.
  destruct (cut smtp_respond n _ sv st) as [[[c' st'] sv'] n'].
  by destruct c' as [[l|a]|e|[]|d|?|?].
Qed.

(** C27: the login is the only point where a cancellation does harm.  A
    send that runs against a server which knows the account, on a
    processor that holds no half-open client, and is cancelled at any of
    its suspension points, leaves a client that is connected and not
    authenticated exactly when it is cancelled while it awaits the reply
    to [login]. *)
Theorem cancelled_send_half_open n to_email subject text max_retries sv st :
  knows sv st → not_half_open st →
  let x := cut smtp_respond n (Co.send to_email subject text max_retries : work _) sv st in
  half_open x.1.1.2 ↔ awaits_login x.1.1.1 = true.
Proof.
  intros Hkn Hh. destruct (send_cut n to_email subject text max_retries sv st Hkn Hh)
    as [_ H]. cbv zeta.
  destruct (awaits_login _); [done|]. split; [|done].
  intros (c & Hc & Hs). by destruct (H c Hc).
Qed.

(** ** Concrete runs *)

Lemma interrupted_calls_keep_config_witness :
  configured gmail0 (interrupted schedule0 (program <$> batch0) gmail0).1.2.
Proof.
  apply interrupted_calls_keep_config; [done|].
  apply (attain_batch gmail0 gmail0 schedule0 batch0), attain_start.
Defined.

Lemma cancelled_login_poisons_witness :
  let st' := (interrupted cancel_at_login
                [Co.send "a@example.com" "Hello" "Hi" 2 : work _] gmail0).1.2 in
  out (deliver "b@example.com" "Hello" "Hi" 3 server_up st').1 =
    Ok (failed_with 400 authentication_required BaseResponse_new) ∧
  self (final (deliver "b@example.com" "Hello" "Hi" 3 server_up st').1) = st' ∧
  (deliver "b@example.com" "Hello" "Hi" 3 server_up st').2 = server_up.
Proof.
  apply (cancelled_login_poisons "a@example.com" "Hello" "Hi" 2 gmail0 server_up
           "b@example.com" "Hello" "Hi" 3); [reflexivity|lia|lia].
Defined.

(** The same send, not cancelled, delivers; so does the next one. *)
Example uncancelled_login_delivers :
  let first := deliver "a@example.com" "Hello" "Hi" 2 server_up gmail0 in
  let second := deliver "b@example.com" "Hello" "Hi" 3 first.2 (self (final first.1)) in
  out first.1 = Ok (sent_ok BaseResponse_new) ∧
  out second.1 = Ok (sent_ok BaseResponse_new) ∧
  length (mailbox second.2) = 2%nat.
Proof. by vm_compute. Qed.

(** A send cancelled one step earlier, while it connects, does no harm:
    the client it leaves fails the probe of the next send, which drops it
    and opens a new session. *)
Example cancelled_connect_recovers :
  let st' := (interrupted [(0%nat, Cancel)]
                [Co.send "a@example.com" "Hello" "Hi" 2 : work _] gmail0).1.2 in
  let next := deliver "b@example.com" "Hello" "Hi" 3 server_up st' in
  _smtp_client st' = Some (fresh_client gmail0) ∧
  out next.1 = Ok (sent_ok BaseResponse_new) ∧
  length (mailbox next.2) = 1%nat.
Proof. by vm_compute. Qed.

Lemma cancelled_send_half_open_witness :
  let x := cut smtp_respond 1 (Co.send "a@example.com" "Hello" "Hi" 3 : work _)
             server_up gmail0 in
  half_open x.1.1.2 ↔ awaits_login x.1.1.1 = true.
Proof.
  apply (cancelled_send_half_open 1 "a@example.com" "Hello" "Hi" 3 server_up gmail0);
    [reflexivity|by intros c [=]].
Defined.

(** The first suspension point of that send is the connection, the second
    the login, the third the transmission. *)
Example send_suspension_points :
  (λ n, awaits_login
          (cut smtp_respond n (Co.send "a@example.com" "Hello" "Hi" 3 : work _)
             server_up gmail0).1.1.1) <$> [0; 1; 2; 3]%nat =
  [false; true; false; false].
Proof. reflexivity. Qed.
