(* ===== verification/Timeouts.v ===== *)
(** * Timeouts: calls that are abandoned, and the connection they leave

    src/notifications/processors/email.py sets no timeout on the calls of
    its client, so a caller that must not wait bounds the call itself:
    [asyncio.wait_for(processor.send(...), timeout)].  When the timeout
    fires the task is cancelled where it is suspended; no [except] clause
    of the processor runs (the clauses of [send] catch [Exception], and
    [CancelledError] is none), and the caller goes on with the processor
    as the call left it.

    Here the calls of [send] and [close_session] are awaited one after the
    other, each under a timeout ([one_by_one] of [Suspended]).  The
    protocol of [Connections] holds through every such sequence: the
    processor assigns the new client to [self._smtp_client] before it
    awaits [connect], and drops a client only after it has awaited
    [quit], so at every [await] it holds the client of whatever
    connection there may be, and the next call probes that client, or
    asks it to quit, before it connects again.

    [Interrupted] shows what the same assignment costs: the client of a
    [login] that was abandoned is kept too, and it never authenticates.
    The last section gives the remedy a caller has: [close_session]
    before the next [send] ([close_session_cures]). *)

From S2P Require Import Prelude Effects Monitor Coro Environment Lock Cancel Suspended.
From S2P Require Import Schemas Email Concurrent Connections Server Interrupted.
Import Gmail SmtpServer.

#[local] Abbreviation work := (coro smtp_op unit GmailNotificationProcessor).

(** The calls, each with the replies it gets before its timeout. *)
Definition timed (calls : list (method_call * list smtp_reply)) :=
  (λ call : method_call * list smtp_reply, (program call.1, call.2)) <$> calls.

(** [awaited calls st]: the processor and what an observer of its
    connection has seen when the calls have been awaited, or abandoned. *)
Definition awaited (calls : list (method_call * list smtp_reply))
    (st : GmailNotificationProcessor)
    : GmailNotificationProcessor * list (moment smtp_op unit) :=
  one_by_one (timed calls) st.

(** A call may be abandoned at every [await]. *)
Lemma program_leavable m : leavable_call watch leave tracked (program m).
Proof.
  intros open st Ht. destruct m as [to_email subject text max_retries|]; cbn [program].
  - apply cwp_bind, cwp_send; [done|]. by intros.
  - apply cwp_bind, cwp_close_session; by auto.
Qed.

(** C14: timeouts leave no second connection.  Whatever calls of [send]
    and [close_session] are awaited one after the other on a processor
    that tracks its connection, whatever the replies of the library, and
    wherever a timeout cancels a call (at its probe, while it connects or
    logs in, while it transmits, quits or sleeps), [connect] is awaited
    only when every connection that may be open, those of abandoned calls
    of [connect] included, has been asked to quit with a call that
    returned or raised; and after each call the connection that may be
    open is that of the client the processor holds. *)
Theorem timeouts_keep_one_connection calls st open :
  tracked open st →
  ∃ open',
    monitor (oversee watch leave) open (awaited calls st).2 = Some open' ∧
    tracked open' (awaited calls st).1.
Proof.
  intros Ht. apply (one_by_one_monitored watch leave tracked); [|done].
  apply Forall_fmap, Forall_forall. intros [m rs] _. apply program_leavable.
Qed.

(** ** Concrete runs *)

(** A send that times out while it connects, a send that times out while
    it logs in, a send that is awaited to its end and is refused, and a
    close. *)
Definition impatient : list (method_call * list smtp_reply) :=
  [(CallSend "a@example.com" "Hello" "Hi" 3, []);
   (CallSend "b@example.com" "Hello" "Hi" 3,
      [raised SMTPServerDisconnected "gone"; replied; replied]);
   (CallSend "c@example.com" "Hello" "Hi" 3,
      [replied; raised SMTPSenderRefused "530 Authentication Required"]);
   (CallClose, [replied])].

Lemma timeouts_keep_one_connection_witness :
  ∃ open',
    monitor (oversee watch leave) false (awaited impatient gmail0).2 = Some open' ∧
    tracked open' (awaited impatient gmail0).1.
Proof. apply timeouts_keep_one_connection. apply tracked_false. Defined.

(** What the observer sees of that sequence: the connection of the
    abandoned [connect] is asked to quit before the second send connects,
    the third send transmits on the session the second left at [login],
    and the close asks the client of that session to quit. *)
Example impatient_moments :
  (awaited impatient gmail0).2 =
    [Abandoned (Connect (fresh_client gmail0));
     Occurred (Called (Noop (fresh_client gmail0)) (raised SMTPServerDisconnected "gone"));
     Occurred (Called (Quit (fresh_client gmail0)) replied);
     Occurred (Called (Connect (fresh_client gmail0)) replied);
     Abandoned (Login (with_session Connected (fresh_client gmail0))
                  "bot@gmail.com" "app-password");
     Occurred (Called (Noop (with_session Connected (fresh_client gmail0))) replied);
     Occurred (Called (SendMessage (with_session Connected (fresh_client gmail0))
                         (build_message "bot@gmail.com" "c@example.com" "Hello" "Hi"))
                 (raised SMTPSenderRefused "530 Authentication Required"));
     Occurred (Called (Quit (with_session Connected (fresh_client gmail0))) replied)] ∧
  monitor (oversee watch leave) false (awaited impatient gmail0).2 = Some false.
Proof. by vm_compute. Qed.

(** The protocol counts the connection of an abandoned [connect]: a
    processor that connected again without asking it to quit would be
    rejected. *)
Example abandoned_connect_counts :
  monitor (oversee watch leave) false
    [Abandoned (Connect (fresh_client gmail0));
     Occurred (Called (Connect (fresh_client gmail0)) replied)] = None.
Proof. reflexivity. Qed.

(** ** The remedy

    A processor that holds a client which is connected and not
    authenticated rejects every send ([cancelled_login_poisons] of
    [Interrupted]).  [close_session] asks that client to quit; the probe
    of the next send then fails, and the send opens a new session. *)

(** [close_session], awaited against the server. *)
Definition closing (sv : smtp_server) (st : GmailNotificationProcessor)
    : ran smtp_op unit GmailNotificationProcessor unit * smtp_server :=
  serve smtp_respond (Co.close_session : work unit) sv (World st 0).

Lemma closing_half_open sv st :
  half_open st →
  ∃ c, _smtp_client st = Some c ∧
    out (closing sv st).1 = Ok tt ∧ (closing sv st).2 = sv ∧
    self (final (closing sv st).1) = set_smtp_client (Some (with_session Closed c)) st.
Proof.
  intros (c & Hst & Hc). exists c. split; [done|].
  destruct st as [addr pw host port tls client], c as [h p tl ph]. cbn in Hst, Hc.
  by subst client ph.
Qed.

(** [close_session] cures a manager that a timeout poisoned: awaited on a
    processor that holds a connected client which never authenticated,
    it returns; and the next [send], against a server that knows the
    account, acknowledges what it stores and refuses fewer connections
    than the send has attempts, delivers the message. *)
Theorem close_session_cures to_email subject text max_retries sv st :
  half_open st → knows sv st → lost_acks sv = 0%nat →
  (Z.of_nat (outage sv) < max_retries)%Z →
  out (closing sv st).1 = Ok tt ∧
  out (deliver to_email subject text max_retries (closing sv st).2
         (self (final (closing sv st).1))).1 = Ok (sent_ok BaseResponse_new) ∧
  mailbox (deliver to_email subject text max_retries (closing sv st).2
             (self (final (closing sv st).1))).2 =
    mailbox sv ++ [build_message (_gmail_address st) to_email subject text].
Proof.
  intros Hh Hkn Hl Hk. destruct (closing_half_open sv st Hh) as (c & Hc & -> & -> & ->).
  split; [done|].
  destruct (deliver_loop to_email subject text max_retries sv
              (set_smtp_client (Some (with_session Closed c)) st)) as (Ho & Hm & _);
    [lia|done|by intros c' [= <-]|].
  rewrite Hl in Hm. by destruct st.
Qed.

Lemma close_session_cures_witness :
  let st := (interrupted cancel_at_login
               [Co.send "a@example.com" "Hello" "Hi" 2 : work _] gmail0).1.2 in
  out (closing server_up st).1 = Ok tt ∧
  out (deliver "b@example.com" "Hello" "Hi" 3 (closing server_up st).2
         (self (final (closing server_up st).1))).1 = Ok (sent_ok BaseResponse_new) ∧
  mailbox (deliver "b@example.com" "Hello" "Hi" 3 (closing server_up st).2
             (self (final (closing server_up st).1))).2 =
    mailbox server_up ++ [build_message (_gmail_address st) "b@example.com" "Hello" "Hi"].
Proof.
  apply (close_session_cures "b@example.com" "Hello" "Hi" 3 server_up);
    [by eexists|reflexivity|reflexivity|reflexivity].
Defined.
