(* ===== verification/Interface.v ===== *)
(** * Interface: [NotificationInterface] of [core/interface.py]

    The abstract class has two coroutines, [send] and [close_session].  It
    is a type class over the type of the processor; the three processors
    are its instances.  [Dependable] states what a caller may rely on
    whatever the channel (a send returns a result and never raises, a result
    that claims success carries a status below 400, both methods are
    lawful); each processor discharges it with the theorems of its
    component, and the theorems about callers are proved from [Dependable]
    alone.  The last section holds programs that run alike, proved by
    rewriting with the laws of [Laws]. *)

From S2P Require Import Prelude Effects Laws Schemas Utils Sms Telegram Email.
Import Gmail.

(** The abstract class.  [send(self, *args, **kwargs)]: each channel has
    arguments of its own, and awaits a library of its own. *)
Class NotificationInterface (Self : Type) := {
  Op : Type;
  Reply : Type;
  Args : Type;
  send : Args → eff Op Reply Self BaseResponse;
  close_session : eff Op Reply Self unit
}.

Arguments Op Self {_}.
Arguments Reply Self {_}.
Arguments Args Self {_}.

(** The three subclasses, the arguments of [send] in the order of its
    signature. *)
#[export] Instance SMS_interface : NotificationInterface SMS.SMSNotificationProcessor := {|
  send := λ '(text, phone_number, max_retries), SMS.send text phone_number max_retries;
  close_session := SMS.close_session
|}.

#[export] Instance Telegram_interface
    : NotificationInterface Telegram.TelegramNotificationProcessor := {|
  send := λ '(text, chat_id, max_retries), Telegram.send text chat_id max_retries;
  close_session := Telegram.close_session
|}.

#[export] Instance Gmail_interface : NotificationInterface GmailNotificationProcessor := {|
  send := λ '(to_email, subject, text, max_retries),
    Gmail.send to_email subject text max_retries;
  close_session := Gmail.close_session
|}.

(** What every channel promises to its callers. *)
Class Dependable (Self : Type) `{NotificationInterface Self} : Prop := {
  send_lawful :: ∀ a, Lawful (send a);
  close_session_lawful :: Lawful close_session;
  send_returns : ∀ a E w, ∃ result, out (run (send a) E w) = Ok result;
  send_result : ∀ a E w result,
    out (run (send a) E w) = Ok result → result_ok (λ s, (s < 400)%Z) result
}.

(** A caller that sends a batch of notifications, one after the other. *)
Fixpoint send_each `{NotificationInterface Self} (batch : list (Args Self))
    : eff (Op Self) (Reply Self) Self (list BaseResponse) :=
  match batch with
  | [] => mret []
  | a :: batch =>
      result ← send a;
      results ← send_each batch;
      mret (result :: results)
  end.

(** ** The processors are dependable *)

#[export] Instance SMS_dependable : Dependable SMS.SMSNotificationProcessor.
Proof.
  split; try apply _.
  - intros [[text phone_number] max_retries]. apply _.
  - intros [[text phone_number] max_retries] E w. cbn -[run].
    rewrite SMS.sms_run_send, out_send. eauto.
  - intros [[text phone_number] max_retries] E w result. cbn -[run].
    rewrite SMS.sms_run_send. apply send_result_ok.
Qed.

#[export] Instance Telegram_dependable
    : Dependable Telegram.TelegramNotificationProcessor.
Proof.
  split; try apply _.
  - intros [[text chat_id] max_retries]. apply _.
  - intros [[text chat_id] max_retries] E w. cbn -[run].
    rewrite Telegram.telegram_run_send, out_send. eauto.
  - intros [[text chat_id] max_retries] E w result. cbn -[run].
    rewrite Telegram.telegram_run_send. apply send_result_ok.
Qed.

#[export] Instance Gmail_dependable : Dependable GmailNotificationProcessor.
Proof.
  split; try apply _.
  - intros [[[to_email subject] text] max_retries]. apply _.
  - intros [[[to_email subject] text] max_retries] E w. cbn -[run].
    destruct (run_send_spec to_email subject text max_retries E w). eauto.
  - intros [[[to_email subject] text] max_retries] E w result.
    apply gmail_send_result_ok.
Qed.

(** ** Callers of a dependable channel *)

Section Callers.
Context `{Dependable Self}.
Implicit Types (batch : list (Args Self)) (E : oracle (Reply Self)) (w : world Self).

#[export] Instance send_each_lawful batch : Lawful (send_each batch).
Proof. induction batch; cbn [send_each]; apply _. Qed.

(** The run of a batch: one result per notification, each of them sound. *)
Lemma run_send_each batch E w :
  ∃ results,
    out (run (send_each batch) E w) = Ok results ∧
    length results = length batch ∧
    Forall (result_ok (λ s, (s < 400)%Z)) results.
Proof.
  revert w. induction batch as [|a batch IH]; intros w; cbn [send_each].
  { exists []. by rewrite run_ret. }
  rewrite run_bind. destruct (send_returns a E w) as [result Hr]. rewrite Hr.
  rewrite out_prepend, run_bind.
  destruct (IH (final (run (send a) E w))) as (results & -> & Hlen & Hok).
  rewrite out_prepend, run_ret. exists (result :: results). cbn [out length].
  split_and!; [done|by rewrite Hlen|].
  constructor; [by apply (send_result a E w)|done].
Qed.

(** A caller of any dependable channel gets one result per notification
    of a batch: [send_each] never raises, returns as many results as
    notifications were given, and every result that claims success carries
    a status below 400. *)
Theorem send_each_returns batch E w :
  ∃ results,
    out (run (send_each batch) E w) = Ok results ∧
    length results = length batch ∧
    Forall (result_ok (λ s, (s < 400)%Z)) results.
Proof. apply run_send_each. Qed.

End Callers.

(** ** Programs that run alike *)

Section Splitting.
Context `{NotificationInterface Self}.
Implicit Types (batch : list (Args Self)).

(** A batch may be sent in two parts: sending [batch] and then [batch'] is
    sending [batch ++ batch'], with the results of the two parts joined. *)
Lemma send_each_app batch batch' :
  send_each (batch ++ batch') ≡
  (results ← send_each batch; results' ← send_each batch'; mret (results ++ results')).
Proof.
  induction batch as [|a batch IH]; cbn [send_each app].
  - rewrite bind_ret_l. cbn [app]. rewrite bind_ret_r. reflexivity.
  - rewrite bind_assoc. f_equiv. intros result. rewrite IH, !bind_assoc.
    f_equiv. intros results. rewrite bind_assoc, bind_ret_l. f_equiv. intros results'.
    rewrite bind_ret_l. reflexivity.
Qed.

(** A batch of one notification is one call of [send]. *)
Lemma send_each_one a :
  send_each [a] ≡ (result ← send a; mret [result]).
Proof. cbn [send_each]. f_equiv. intros result. rewrite bind_ret_l. reflexivity. Qed.

End Splitting.

(** Without a budget [send] awaits nothing and returns the empty result:
    the loop over an empty range is no statement, and the sender address
    that was read is not used. *)
Lemma gmail_send_no_budget to_email subject text max_retries :
  (max_retries ≤ 0)%Z →
  Gmail.send to_email subject text max_retries ≡ mret BaseResponse_new.
Proof.
  intros Hn. unfold Gmail.send.
  setoid_rewrite for_range_nonpos_equiv; [|done]. setoid_rewrite bind_ret_l.
  apply get_self_unused.
Qed.

(** [_reset_connection] is idempotent: the second call finds no client. *)
Lemma reset_connection_idemp :
  (_reset_connection;; _reset_connection) ≡ _reset_connection.
Proof.
  intros E [[addr pw host port tls [client|]] n]; [|done].
  unfold _reset_connection, the_client, advance. eff_red. by destruct (E n).
Qed.


Lemma send_each_returns_witness :
  ∃ results,
    out (run (send_each (H:=Gmail_interface) [("a@example.com", "Hello", "Hi", 3%Z);
                         ("b@example.com", "Hello", "Hi", 3%Z)])
           (script [replied; replied; replied; replied; replied]
              (raised SMTPServerDisconnected "connection closed"))
           (World gmail0 0)) = Ok results ∧
    length results = 2%nat ∧
    Forall (result_ok (λ s, (s < 400)%Z)) results.
Proof.
  apply (send_each_returns (Self:=GmailNotificationProcessor)).
Defined.

(** Two messages over one session: the second send probes the session of
    the first and reuses it. *)
Example batch_reuses_session :
  ops (trace (run (send_each (H:=Gmail_interface) [("a@example.com", "Hello", "Hi", 3%Z);
                              ("b@example.com", "Hello", "Hi", 3%Z)])
                (script [replied; replied; replied; replied; replied]
                   (raised SMTPServerDisconnected "connection closed"))
                (World gmail0 0))) =
  [Connect (fresh_client gmail0);
   Login (with_session Connected (fresh_client gmail0)) "bot@gmail.com" "app-password";
   SendMessage (with_session Authenticated (fresh_client gmail0))
     (build_message "bot@gmail.com" "a@example.com" "Hello" "Hi");
   Noop (with_session Authenticated (fresh_client gmail0));
   SendMessage (with_session Authenticated (fresh_client gmail0))
     (build_message "bot@gmail.com" "b@example.com" "Hello" "Hi")].
Proof. vm_compute. done. Qed.
