(* ===== verification/Batch.v ===== *)
(** * Batch: consecutive sends over one session

    The processor of src/notifications/email.py keeps its client between
    calls: [_get_connection] probes the client it holds with [noop] and
    only connects when there is none or the probe fails.  This file
    composes a caller that sends a batch of messages ([send_each] of
    [Interface]) with the processor ([Email]) and the reference SMTP server
    ([Server]), and proves what the design is for: against a reliable
    server the whole batch is delivered, in order, each message once, over
    at most one connection. *)

From stdpp Require Import gmap.
From S2P Require Import Prelude Effects Monitor Coro Environment Schemas.
From S2P Require Import Email Connections Concurrent Server Interface.
Import Gmail SmtpServer.

#[local] Abbreviation task := (coro smtp_op unit GmailNotificationProcessor).

(** The arguments of one call of [send], in the order of its signature. *)
Abbreviation mail_args := (string * string * string * Z)%type.

Definition budget (a : mail_args) : Z := a.2.

(** The message [send] builds from the arguments [a]. *)
Definition message_of (st : GmailNotificationProcessor) (a : mail_args) : MIMEMultipart :=
  let '(to_email, subject, text, _) := a in
  build_message (_gmail_address st) to_email subject text.

(** The connections the server accepted during a trace. *)
Definition connections (t : list smtp_event) : list AIO_SMTP :=
  omap (λ ev, match ev with
              | Called (Connect c) (Returns _) => Some c
              | _ => None
              end) t.

(** The caller as a task: [send] is awaited for each message in turn. *)
Fixpoint co_send_each (batch : list mail_args) : task (list BaseResponse) :=
  match batch with
  | [] => mret []
  | (to_email, subject, text, max_retries) :: batch =>
      result ← Co.send to_email subject text max_retries;
      results ← co_send_each batch;
      mret (result :: results)
  end.

(** [send_each] of the interface, for the e-mail processor. *)
Definition gmail_send_each (batch : list mail_args) : smtp (list BaseResponse) :=
  send_each (H:=Gmail_interface) batch.

(** The batch against the server, from the processor [st]. *)
Definition deliver_each (batch : list mail_args) (sv : smtp_server)
    (st : GmailNotificationProcessor)
    : ran smtp_op unit GmailNotificationProcessor (list BaseResponse) * smtp_server :=
  serve smtp_respond (co_send_each batch) sv (World st 0).

(** A server that acknowledges what it stores and knows the account of a
    processor that holds no half-open client. *)
Definition reliable (sv : smtp_server) (st : GmailNotificationProcessor) : Prop :=
  knows sv st ∧ lost_acks sv = 0%nat ∧ not_half_open st.

(** ** The parts of a trace *)

Lemma connections_app t t' : connections (t ++ t') = connections t ++ connections t'.
Proof. apply omap_app. Qed.

Lemma served_accounts sv t sv' :
  served smtp_respond sv t sv' → accounts sv' = accounts sv.
Proof.
  induction 1 as [sv|sv op t sv' _ IH|sv d t sv' _ IH]; [done| |done].
  by rewrite IH, smtp_respond_accounts.
Qed.

Lemma knows_config sv sv' st st' :
  accounts sv' = accounts sv → config st' = config st → knows sv st → knows sv' st'.
Proof. unfold knows. intros -> [=]. congruence. Qed.

Lemma live_not_half_open st : live st = true → not_half_open st.
Proof.
  unfold live, not_half_open. intros Hl c Hc. rewrite Hc in Hl.
  apply bool_decide_eq_true in Hl. congruence.
Qed.

Lemma gmail_send_each_cons to_email subject text max_retries batch :
  gmail_send_each ((to_email, subject, text, max_retries) :: batch) =
  (result ← send to_email subject text max_retries;
   results ← gmail_send_each batch;
   mret (result :: results)).
Proof. reflexivity. Qed.

#[export] Instance co_send_each_reads batch :
  Reads (co_send_each batch) (gmail_send_each batch).
Proof.
  induction batch as [|[[[to_email subject] text] max_retries] batch IH];
    [apply _|]. rewrite gmail_send_each_cons. cbn [co_send_each]. apply _.
Qed.

(** ** One attempt *)

Section Attempt.
Context (msg : MIMEMultipart) (max_retries attempt : Z) (result : BaseResponse)
  (E : oracle unit) (w : world GmailNotificationProcessor).
Implicit Types (sv : smtp_server).

(** Where an attempt leaves the session, against a reliable server: the
    processor holds a live session exactly when it held one or the server
    accepted the connection, and the attempt establishes a connection only
    when it was called without a live session. *)
Lemma attempt_session sv sv' :
  served smtp_respond sv
    (trace (run (send_attempt msg max_retries attempt result) E w)) sv' →
  reliable sv (self w) →
  config (self (final (run (send_attempt msg max_retries attempt result) E w))) =
    config (self w) ∧
  live (self (final (run (send_attempt msg max_retries attempt result) E w))) =
    live (self w) || bool_decide (outage sv = 0%nat) ∧
  length (connections (trace (run (send_attempt msg max_retries attempt result) E w))) =
    (if live (self w) || negb (bool_decide (outage sv = 0%nat)) then 0 else 1)%nat.
Proof.
  destruct sv as [[|k] acc la mb]; unfold reliable, not_half_open, live, knows; cbn;
    intros Hs (Hkn & -> & Hh); revert Hs;
    (destruct w as [[addr pw host port tls [[h p tl [| | |]]|]] n]; cbn in Hh, Hkn |- *;
      [|by destruct (Hh _ eq_refl)|..]);
    destruct (decide (attempt < max_retries - 1)%Z);
    serve_eval; done.
Qed.

End Attempt.

(** ** One call *)

(** The loop of [send] against a reliable server whose outage the budget
    covers: the message is delivered once, the processor is left with a
    live session, and a connection is established only when the call
    started without one. *)
Lemma loop_session msg max_retries E n : ∀ attempt result w sv sv',
  served smtp_respond sv
    (trace (run (for_from n attempt (send_attempt msg max_retries) result) E w)) sv' →
  (outage sv < n)%nat → (attempt + Z.of_nat n = max_retries)%Z → reliable sv (self w) →
  config (self (final (run (for_from n attempt (send_attempt msg max_retries) result) E w)))
    = config (self w) ∧
  live (self (final (run (for_from n attempt (send_attempt msg max_retries) result) E w)))
    = true ∧
  length (connections
    (trace (run (for_from n attempt (send_attempt msg max_retries) result) E w))) =
    (if live (self w) then 0 else 1)%nat.
Proof.
  induction n as [|n IH]; intros attempt result w sv sv' Hs Hk Hn Hrel; [lia|].
  apply served_for_from_S in Hs as (sv1 & Hatt & Hrest). rewrite for_from_S.
  destruct (attempt_session _ _ _ _ _ _ _ _ Hatt Hrel) as (Hc & Hl & Hn1).
  destruct Hrel as (Hkn & Hla & Hh).
  destruct (decide (outage sv = 0%nat ∨ live (self w) = true)) as [Hacc|Hrej].
  - destruct (attempt_accepted _ _ _ _ _ _ _ _ Hatt Hacc Hkn Hla Hh) as (Ho & _ & _).
    rewrite Ho. cbn [out final trace]. rewrite Hl, Hn1. split; [done|].
    destruct Hacc as [->| ->]; [by destruct (live (self w))|done].
  - assert (outage sv ≠ 0%nat ∧ live (self w) = false) as [Hout Hlive]
      by (clear -Hrej; destruct (live (self w)); intuition).
    destruct (attempt_refused _ _ _ _ _ _ _ _ Hatt) as (Ho & Hself & _ & ->);
      [done|done|done|lia|].
    rewrite Ho in *. rewrite final_prepend, trace_prepend, connections_app, length_app.
    destruct (IH _ _ _ _ _ Hrest) as (Hc' & Hl' & Hn');
      cbn [refused outage accounts lost_acks];
      [lia|lia|rewrite Hself; split_and!; [done|done|by intros c [=]]|].
    rewrite Hc', Hl', Hn', Hn1, Hlive, Hself, bool_decide_eq_false_2 by done. done.
Qed.

Section Call.
Context (to_email subject text : string) (max_retries : Z).
Context (E : oracle unit) (w : world GmailNotificationProcessor).
Implicit Types (sv : smtp_server).
#[local] Abbreviation sending := (run (send to_email subject text max_retries) E w).

(** What one call leaves to the next: the message in the mailbox, a live
    session, and a server that is as reliable as it was. *)
Lemma send_served sv sv' :
  served smtp_respond sv (trace sending) sv' →
  (Z.of_nat (outage sv) < max_retries)%Z → reliable sv (self w) →
  out sending = Ok (sent_ok BaseResponse_new) ∧
  mailbox sv' = mailbox sv ++ [message_of (self w) (to_email, subject, text, max_retries)] ∧
  config (self (final sending)) = config (self w) ∧
  live (self (final sending)) = true ∧
  reliable sv' (self (final sending)) ∧
  (outage sv' ≤ outage sv)%nat ∧
  length (connections (trace sending)) = (if live (self w) then 0 else 1)%nat.
Proof.
  intros Hs Hk Hrel. pose proof Hrel as (Hkn & Hla & Hh). revert Hs.
  rewrite run_send_as_loop. intros Hs.
  assert (served smtp_respond sv
            (trace (run (for_from (Z.to_nat max_retries) 0
               (send_attempt (build_message (_gmail_address (self w)) to_email subject text)
                  max_retries) BaseResponse_new) E w)) sv') as Hs'
    by (by destruct (run (for_from _ _ _ _) E w) as [[r|e] w' t]).
  clear Hs. destruct (loop_delivers _ _ _ _ _ _ _ _ _ Hs') as (Ho & Hm & _);
    [lia|lia|done..|].
  destruct (loop_session _ _ _ _ _ _ _ _ _ Hs') as (Hc & Hl & Hn); [lia|lia|done|].
  destruct (served_mailbox _ _ _ Hs' Hla) as [_ Hla'].
  pose proof (served_accounts _ _ _ Hs') as Hacc.
  pose proof (served_outage _ _ _ Hs') as Hout.
  destruct (run (for_from _ _ _ _) E w) as [[r|e] w' t]; cbn [out final trace] in *;
    [|done].
  injection Ho as ->. rewrite Hla in Hm. cbn [joined message_of].
  split_and!; try done.
  split_and!; [by eapply knows_config|done|by apply live_not_half_open].
Qed.

End Call.

(** ** The batch *)

Lemma message_of_config st st' a :
  config st' = config st → message_of st' a = message_of st a.
Proof. destruct a as [[[? ?] ?] ?]. intros [=]. cbn. congruence. Qed.

(** The batch, over any oracle whose replies are those of the server. *)
Lemma send_each_served batch E : ∀ w sv sv',
  served smtp_respond sv (trace (run (gmail_send_each batch) E w)) sv' →
  Forall (λ a, (Z.of_nat (outage sv) < budget a)%Z) batch → reliable sv (self w) →
  out (run (gmail_send_each batch) E w) =
    Ok (replicate (length batch) (sent_ok BaseResponse_new)) ∧
  mailbox sv' = mailbox sv ++ (message_of (self w) <$> batch) ∧
  length (connections (trace (run (gmail_send_each batch) E w))) =
    (if live (self w) then 0 else length (take 1 batch))%nat.
Proof.
  induction batch as [|[[[to_email subject] text] max_retries] batch IH];
    intros w sv sv' Hs Hb Hrel.
  { unfold gmail_send_each in *. cbn [send_each] in *. rewrite run_ret in *.
    apply served_nil_inv in Hs as ->. cbn. rewrite app_nil_r. by destruct (live (self w)). }
  apply Forall_cons in Hb as [Ha Hb]. rewrite gmail_send_each_cons in *.
  apply served_bind in Hs as (sv1 & Hsend & Hrest). rewrite run_bind.
  destruct (send_served _ _ _ _ _ _ _ _ Hsend Ha Hrel)
    as (Ho & Hm & Hc & Hl & Hrel1 & Hout & Hn).
  rewrite Ho in *. apply served_bind in Hrest as (sv2 & Hrest & Hret).
  destruct (IH _ _ _ Hrest) as (Ho' & Hm' & Hn'); [|done|].
  { eapply Forall_impl; [done|]. cbn. lia. }
  rewrite Ho', run_ret in Hret. apply served_nil_inv in Hret as ->.
  rewrite out_prepend, trace_prepend, run_bind, Ho', out_prepend, trace_prepend, run_ret.
  cbn [out trace]. rewrite app_nil_r, connections_app, length_app, Hn, Hn', Hl, Hm', Hm.
  rewrite <- app_assoc. cbn [length replicate fmap list_fmap app take].
  split_and!; [done| |by destruct (live (self w))].
  do 2 f_equal. apply list_fmap_ext. intros _ a _. by apply message_of_config.
Qed.

(** C19: a batch is delivered over one session.  Against a server that
    acknowledges what it stores and knows the account, when the budget of
    each call covers the connections the server still refuses, the caller
    that awaits [send] for each message of a batch gets a success for each,
    the mailbox gains the messages of the batch, each once and in the order
    of the batch, and the processor establishes at most one connection for
    the whole batch: none when it was called with a live session. *)
Theorem batch_delivered_once batch sv st :
  knows sv st → lost_acks sv = 0%nat → not_half_open st →
  Forall (λ a, (Z.of_nat (outage sv) < budget a)%Z) batch →
  out (deliver_each batch sv st).1 =
    Ok (replicate (length batch) (sent_ok BaseResponse_new)) ∧
  mailbox (deliver_each batch sv st).2 = mailbox sv ++ (message_of st <$> batch) ∧
  (length (connections (trace (deliver_each batch sv st).1)) ≤ 1)%nat ∧
  (live st = true → connections (trace (deliver_each batch sv st).1) = []).
Proof.
  intros Hkn Hla Hh Hb. unfold deliver_each.
  destruct (serve_reads smtp_respond (co_send_each batch)
              (gmail_send_each batch) sv (World st 0)) as (E & -> & Hs).
  destruct (send_each_served _ _ _ _ _ Hs Hb) as (Ho & Hm & Hn); [done|].
  cbn [self] in *. split_and!; [done|done|..].
  - rewrite Hn. destruct (live st); [lia|]. rewrite length_take. lia.
  - intros Hl. rewrite Hl in Hn. by apply nil_length_inv.
Qed.

(** Two messages, to a server that refuses the first two connections. *)
Definition two_mails : list mail_args :=
  [("a@example.com", "Hello", "Hi", 3%Z); ("b@example.com", "Hello", "Hi", 3%Z)].

Lemma batch_delivered_once_witness :
  out (deliver_each two_mails server0 gmail0).1 =
    Ok (replicate 2 (sent_ok BaseResponse_new)) ∧
  mailbox (deliver_each two_mails server0 gmail0).2 = [] ++ (message_of gmail0 <$> two_mails) ∧
  (length (connections (trace (deliver_each two_mails server0 gmail0).1)) ≤ 1)%nat ∧
  (live gmail0 = true → connections (trace (deliver_each two_mails server0 gmail0).1) = []).
Proof.
  apply (batch_delivered_once two_mails server0 gmail0);
    [reflexivity|reflexivity|by intros c [=]|repeat constructor].
Defined.

(** The name of the method of the client a call awaits. *)
Definition method_name (op : smtp_op) : string :=
  match op with
  | Noop _ => "noop"
  | Quit _ => "quit"
  | Connect _ => "connect"
  | Login _ _ _ => "login"
  | SendMessage _ _ => "send_message"
  end.

(** The calls of that batch: two refused connections, each followed by the
    [quit] of [_reset_connection], then one session for both messages. *)
Example batch_over_one_session :
  method_name <$> ops (trace (deliver_each two_mails server0 gmail0).1) =
  ["connect"; "quit"; "connect"; "quit"; "connect"; "login"; "send_message";
   "noop"; "send_message"].
Proof. vm_compute. done. Qed.

(** Outside the hypotheses the session is not kept: a closed session does
    not answer the probe and is replaced, and an acknowledgement that is
    lost costs a second connection (and a duplicate of the first message). *)
Example unreliable_server_reconnects :
  method_name <$> ops (trace (deliver_each two_mails lossy0
    (set_smtp_client (Some (with_session Closed (fresh_client gmail0))) gmail0)).1) =
  ["noop"; "quit"; "connect"; "login"; "send_message";
   "quit"; "connect"; "login"; "send_message"; "noop"; "send_message"].
Proof. vm_compute. done. Qed.

(** ** The connections of a batch *)

(** The batch keeps what the processor knows of its connection, and
    returns. *)
Lemma wp_send_each batch : ∀ Q open st,
  tracked open st →
  (∀ results open' st', tracked open' st' → Q (Ok results) open' st') →
  wp watch (gmail_send_each batch) Q open st.
Proof.
  induction batch as [|[[[to_email subject] text] max_retries] batch IH];
    intros Q open st Ht HQ.
  { apply wp_ret. by apply HQ. }
  rewrite gmail_send_each_cons. apply wp_bind, wp_send; [done|].
  intros result open1 st1 H1. apply wp_bind, IH; [done|].
  intros results open2 st2 H2. apply wp_ret. by apply HQ.
Qed.

(** C28: a caller that closes the session after its batch leaves no
    connection open.  Whatever the replies of the library, also when calls
    fail and connections are lost and established again, the processor
    never holds two connections during the batch, and when
    [close_session] has been awaited, also when it raised, every
    connection that was established has been asked to quit. *)
Theorem batch_then_close_releases batch E w open :
  tracked open (self w) →
  monitor watch open
    (trace (run (gmail_send_each batch ≫= λ _, close_session) E w)) = Some false.
Proof.
  intros Ht.
  destruct (wp_run watch (gmail_send_each batch ≫= λ _, close_session)
              (λ _ open' _, open' = false) open E w) as (open' & -> & ->); [|done].
  apply wp_bind, wp_send_each; [done|]. intros results open1 st1 H1.
  by apply wp_close_session.
Qed.

Lemma batch_then_close_releases_witness :
  monitor watch false
    (trace (run (gmail_send_each two_mails ≫= λ _, close_session)
              (script [raised SMTPConnectError "refused"; replied; replied; replied;
                       replied; raised SMTPServerDisconnected "gone"; replied; replied]
                 replied)
              (World gmail0 0))) = Some false.
Proof. apply batch_then_close_releases. done. Defined.
